(** * CRM inbound orchestrator: classification, routing and run bookkeeping

    A shallow embedding of [skills/crm-inbound-orchestrator/scripts/process-inbound.ts].

    - JavaScript strings are sequences of UTF-16 code units: [jsstring := list N].
    - JavaScript numbers are IEEE-754 binary64 values: Rocq's primitive [float].
    - Built-ins that depend on Unicode tables or on the engine ([toLowerCase],
      [toUpperCase], [Date.parse], [Date.prototype.toISOString]) are the methods
      of the class [Host]; [AsciiHost] is a reference instance, exact on ASCII
      text and on ISO-8601 UTC timestamps.
    - Regular expressions are data ([regex]) run by a backtracking matcher that
      lists the successful continuations in the priority order of ECMAScript.
    - [main] threads the outside world (HTTP endpoints, clock, uuid source)
      through a state-and-exception monad. *)

From Stdlib Require Import Ascii String.
From Stdlib Require Import ZArith NArith List Bool Lia.
From Stdlib Require Import PrimFloat SpecFloat FloatOps Uint63.
Import ListNotations.

Set Warnings "-inexact-float,-register-all".
Local Open Scope N_scope.
Local Open Scope list_scope.

(* ================================================================== *)
(** * Strings as UTF-16 code units *)

Definition jsstring : Type := list N.

(** Code units of an ASCII literal. *)
Definition js (s : string) : jsstring :=
  map N_of_ascii (list_ascii_of_string s).

Fixpoint jsstring_eqb (a b : jsstring) : bool :=
  match a, b with
  | [], [] => true
  | x :: a', y :: b' => N.eqb x y && jsstring_eqb a' b'
  | _, _ => false
  end.

(** [s.startsWith(p)] *)
Fixpoint startsWith (s p : jsstring) {struct p} : bool :=
  match p, s with
  | [], _ => true
  | x :: p', y :: s' => N.eqb x y && startsWith s' p'
  | _ :: _, [] => false
  end.

(** [text.includes(signal)] *)
Fixpoint includes (text signal : jsstring) : bool :=
  startsWith text signal ||
  match text with
  | [] => false
  | _ :: t => includes t signal
  end.

(** [signals.some((signal) => text.includes(signal))] *)
Definition includesAny (text : jsstring) (signals : list jsstring) : bool :=
  existsb (fun signal => includes text signal) signals.

(** [array.includes(x)] on an array of strings. *)
Definition arrayIncludes (xs : list jsstring) (x : jsstring) : bool :=
  existsb (jsstring_eqb x) xs.

(** WhiteSpace and LineTerminator code units: what [trim] strips and what
    [\s] matches. *)
Definition isWhiteSpace (c : N) : bool :=
  existsb (N.eqb c)
    [9; 10; 11; 12; 13; 32; 160; 5760; 8232; 8233; 8239; 8287; 12288; 65279]
  || ((8192 <=? c) && (c <=? 8202)).

Fixpoint trimStart (s : jsstring) : jsstring :=
  match s with
  | c :: t => if isWhiteSpace c then trimStart t else s
  | [] => []
  end.

Definition trim (s : jsstring) : jsstring :=
  rev (trimStart (rev (trimStart s))).

(** [s.split(sep)] for a one-code-unit separator; never the empty list. *)
Fixpoint split (sep : N) (s : jsstring) : list jsstring :=
  match s with
  | [] => [[]]
  | c :: t =>
      if N.eqb c sep then [] :: split sep t
      else match split sep t with
           | seg :: segs => (c :: seg) :: segs
           | [] => [[c]]
           end
  end.

(** Truthiness of a string value. *)
Definition truthy (s : jsstring) : bool :=
  match s with [] => false | _ :: _ => true end.

(** [x || undefined] and friends on an optional string: the empty string
    is falsy. *)
Definition nonEmpty (o : option jsstring) : option jsstring :=
  match o with
  | Some s => if truthy s then Some s else None
  | None => None
  end.

(** [a || b] on optional strings. *)
Definition orElse (a b : option jsstring) : option jsstring :=
  match nonEmpty a with
  | Some s => Some s
  | None => b
  end.

(** [x ?? ""] *)
Definition orEmpty (o : option jsstring) : jsstring :=
  match o with Some s => s | None => [] end.

Definition isDigit (c : N) : bool := (48 <=? c) && (c <=? 57).
Definition isUpper (c : N) : bool := (65 <=? c) && (c <=? 90).
Definition isLower (c : N) : bool := (97 <=? c) && (c <=? 122).
Definition isLetter (c : N) : bool := isUpper c || isLower c.
(** [\w] *)
Definition isWordChar (c : N) : bool := isLetter c || isDigit c || N.eqb c 95.

Definition oneOf (s : string) (c : N) : bool := existsb (N.eqb c) (js s).

(** Built-ins of the host engine that the embedding does not define. *)
Class Host : Type := {
  (** [String.prototype.toLowerCase] *)
  toLowerCase : jsstring -> jsstring;
  (** [String.prototype.toUpperCase] *)
  toUpperCase : jsstring -> jsstring;
  (** [Date.parse]: a time value in milliseconds, [None] for NaN *)
  Date_parse : jsstring -> option Z;
  (** [new Date(n).toISOString()]: [None] when it throws RangeError *)
  Date_toISOString : float -> option jsstring
}.

(* ================================================================== *)
(** * Regular expressions *)

Module Regex.

Inductive regex : Type :=
| Eps                               (* empty pattern *)
| Chr (p : N -> bool)               (* one code unit: literal or class *)
| Seq (a b : regex)
| Alt (a b : regex)                 (* a|b, a tried first *)
| Star (a : regex)                  (* greedy a* *)
| Group (i : nat) (a : regex)       (* capturing group number i *)
| WordBoundary.                     (* \b *)

Definition Plus (a : regex) : regex := Seq a (Star a).
Definition Opt (a : regex) : regex := Alt a Eps.
Definition Lit (c : N) : regex := Chr (N.eqb c).

(** The literal text [s]. *)
Fixpoint Str (s : jsstring) : regex :=
  match s with
  | [] => Eps
  | c :: t => Seq (Lit c) (Str t)
  end.

(** The same under the [i] flag, for ASCII letters: either case matches. *)
Definition LitI (c : N) : regex :=
  Chr (fun d => N.eqb d c
                || (isUpper c && N.eqb d (c + 32))
                || (isLower c && N.eqb d (c - 32))).

Fixpoint StrI (s : jsstring) : regex :=
  match s with
  | [] => Eps
  | c :: t => Seq (LitI c) (StrI t)
  end.

(** A matcher state: the code unit before the current position, the input
    still to read, and the captures recorded so far (latest first). *)
Record mstate : Type := {
  prev : option N;
  rest : jsstring;
  caps : list (nat * jsstring)
}.

Definition isWordOpt (o : option N) : bool :=
  match o with Some c => isWordChar c | None => false end.

(** Greedy iteration of [step]; an iteration that consumes nothing is
    rejected, as RepeatMatcher does. *)
Fixpoint star (step : mstate -> list mstate) (fuel : nat) (st : mstate)
  : list mstate :=
  match fuel with
  | O => [st]
  | S fuel' =>
      flat_map
        (fun st' =>
           if Nat.ltb (length (rest st')) (length (rest st))
           then star step fuel' st' else [])
        (step st)
      ++ [st]
  end.

(** All ways [r] matches at [st], best first. *)
Fixpoint run (r : regex) (st : mstate) : list mstate :=
  match r with
  | Eps => [st]
  | Chr p =>
      match rest st with
      | c :: t =>
          if p c then [{| prev := Some c; rest := t; caps := caps st |}]
          else []
      | [] => []
      end
  | Seq a b => flat_map (run b) (run a st)
  | Alt a b => run a st ++ run b st
  | Star a => star (run a) (S (length (rest st))) st
  | Group i a =>
      map (fun st' =>
             {| prev := prev st';
                rest := rest st';
                caps := (i, firstn (length (rest st) - length (rest st'))
                                   (rest st)) :: caps st' |})
          (run a st)
  | WordBoundary =>
      if xorb (isWordOpt (prev st)) (isWordOpt (hd_error (rest st)))
      then [st] else []
  end.

(** Result of a successful match: the matched text and the captures. *)
Record mresult : Type := {
  whole : jsstring;
  groups : list (nat * jsstring);
  after : jsstring
}.

Definition matchHere (r : regex) (p : option N) (s : jsstring)
  : option mresult :=
  match run r {| prev := p; rest := s; caps := [] |} with
  | st' :: _ =>
      Some {| whole := firstn (length s - length (rest st')) s;
              groups := caps st';
              after := rest st' |}
  | [] => None
  end.

(** Leftmost match, scanning start positions from the left. *)
Fixpoint searchFrom (r : regex) (p : option N) (s : jsstring)
  : option mresult :=
  match matchHere r p s with
  | Some m => Some m
  | None =>
      match s with
      | [] => None
      | c :: t => searchFrom r (Some c) t
      end
  end.

(** [s.match(r)] for a regex without the [g] flag. *)
Definition exec (r : regex) (s : jsstring) : option mresult :=
  searchFrom r None s.

(** [m[i]] for a capture group. *)
Fixpoint group (i : nat) (gs : list (nat * jsstring)) : option jsstring :=
  match gs with
  | [] => None
  | (j, v) :: gs' => if Nat.eqb i j then Some v else group i gs'
  end.

(** [s.replace(r, by)] with the [g] flag. *)
Fixpoint replaceAllFrom (fuel : nat) (r : regex) (by_ : jsstring)
  (p : option N) (s : jsstring) : jsstring :=
  match fuel with
  | O => s
  | S fuel' =>
      match matchHere r p s with
      | Some m =>
          match whole m, s with
          | [], c :: t => by_ ++ c :: replaceAllFrom fuel' r by_ (Some c) t
          | [], [] => by_
          | w, _ =>
              by_ ++ replaceAllFrom fuel' r by_ (Some (last w 0)) (after m)
          end
      | None =>
          match s with
          | [] => []
          | c :: t => c :: replaceAllFrom fuel' r by_ (Some c) t
          end
      end
  end.

Definition replaceAll (r : regex) (by_ : jsstring) (s : jsstring) : jsstring :=
  replaceAllFrom (S (length s)) r by_ None s.

(** Patterns without a capturing group. *)
Fixpoint groupless (r : regex) : bool :=
  match r with
  | Eps | Chr _ | WordBoundary => true
  | Seq a b | Alt a b => groupless a && groupless b
  | Star a => groupless a
  | Group _ _ => false
  end.

End Regex.
Import Regex.

(* ================================================================== *)
(** * Data model *)

(** JSON values, as they cross the persistence boundary. *)
Inductive json : Type :=
| JNull
| JBool (b : bool)
| JNum (x : float)
| JStr (s : jsstring)
| JArr (xs : list json)
| JObj (fields : list (jsstring * json)).

Inductive Classification : Type := receipt | sales | support | ignore.

Record PollMessage : Type := {
  account_email : jsstring;
  message_id : jsstring;
  thread_id : option jsstring;
  subject : option jsstring;
  from : option jsstring;
  snippet : option jsstring;
  received_at : option jsstring;
  internal_ts : option float;
  source_key : jsstring;
  raw : option json
}.

Record ClassificationResult : Type := {
  label : Classification;
  confidence : float;
  reasons : list jsstring
}.

(** A count used as a JavaScript number. *)
Definition numOfNat (n : nat) : float :=
  PrimFloat.of_uint63 (Uint63.of_Z (Z.of_nat n)).

(** [Math.min(a, b)] *)
Definition Math_min (a b : float) : float :=
  if is_nan a then a
  else if is_nan b then b
  else if (a <? b)%float then a
  else if (b <? a)%float then b
  else if get_sign a then a else b.

(* ================================================================== *)
(** * Sender parsing *)

(** [/<([^>]+)>/] *)
Definition bracketRe : regex :=
  Seq (Lit 60) (Seq (Group 1 (Plus (Chr (fun c => negb (N.eqb c 62))))) (Lit 62)).

(** [/[A-Z0-9._%+-]+@[A-Z0-9.-]+\.[A-Z]{2,}/i] *)
Definition bareLocalClass (c : N) : bool :=
  isLetter c || isDigit c || oneOf "._%+-" c.
Definition bareDomainClass (c : N) : bool :=
  isLetter c || isDigit c || oneOf ".-" c.
Definition bareRe : regex :=
  Seq (Plus (Chr bareLocalClass))
   (Seq (Lit 64)
    (Seq (Plus (Chr bareDomainClass))
     (Seq (Lit 46)
      (Seq (Chr isLetter) (Seq (Chr isLetter) (Star (Chr isLetter))))))).

(** The pattern of [replace] that deletes every double-quote character. *)
Definition quoteRe : regex := Lit 34.

(** [/<[^>]+>/g] *)
Definition bracketAllRe : regex :=
  Seq (Lit 60) (Seq (Plus (Chr (fun c => negb (N.eqb c 62)))) (Lit 62)).

Section Sender.
Context `{Host}.

Definition extractEmailAddress (rawFrom : option jsstring) : option jsstring :=
  match nonEmpty rawFrom with
  | None => None
  | Some rawFrom =>
      match exec bracketRe rawFrom with
      | Some m =>
          match nonEmpty (group 1 (groups m)) with
          | Some g => Some (toLowerCase (trim g))
          | None =>
              match exec bareRe rawFrom with
              | Some b => Some (toLowerCase (whole b))
              | None => None
              end
          end
      | None =>
          match exec bareRe rawFrom with
          | Some b => Some (toLowerCase (whole b))
          | None => None
          end
      end
  end.

Definition extractEmailDomain (email : option jsstring) : option jsstring :=
  match nonEmpty email with
  | None => None
  | Some email =>
      if negb (includes email (js "@")) then None
      else
        match nth_error (split 64 email) 1 with
        | Some seg => nonEmpty (Some (toLowerCase (trim seg)))
        | None => None
        end
  end.

Definition extractDisplayName (rawFrom : option jsstring) : option jsstring :=
  match nonEmpty rawFrom with
  | None => None
  | Some rawFrom =>
      nonEmpty
        (Some (trim (replaceAll quoteRe [] (replaceAll bracketAllRe [] rawFrom))))
  end.

End Sender.

(* ================================================================== *)
(** * Classifier *)

Definition directInquirySignals : list jsstring :=
  map js
    ["i'm interested"; "i am interested"; "we are interested";
     "sponsorship inquiry"; "consulting"; "consultation"; "advisor";
     "advisory"; "fractional"; "retainer"; "can we"; "could we";
     "book a call"; "request a quote"; "proposal"; "pricing"; "need help";
     "looking for"]%string.

Definition automatedSenderSignals : list jsstring :=
  map js
    ["no-reply"; "noreply"; "do-not-reply"; "notifications"; "digest";
     "newsletter"; "jobalerts"]%string.

Definition automatedTextSignals : list jsstring :=
  map js
    ["job alert"; "jobs you may be interested"; "recommended jobs";
     "linkedin jobs"; "daily digest"; "weekly digest"; "unsubscribe";
     "manage preferences"]%string.

Definition hiringSignals : list jsstring :=
  map js
    ["hiring"; "job opening"; "apply now"; "application"; "recruiter";
     "career opportunity"; "open role"; "resume"]%string.

Definition vendorSystemDomains : list jsstring :=
  map js
    ["linkedin.com"; "indeed.com"; "glassdoor.com"; "ziprecruiter.com";
     "monster.com"; "mail.linkedin.com"; "mailchimp.com"; "sendgrid.net";
     "stripe.com"; "paypal.com"; "quickbooks.com"; "intuit.com"]%string.

Definition jobNetworkDomains : list jsstring :=
  map js
    ["linkedin.com"; "indeed.com"; "glassdoor.com"; "ziprecruiter.com";
     "monster.com"]%string.

Definition receiptSignals : list jsstring :=
  map js
    ["invoice"; "receipt"; "payment"; "charged"; "charge"; "order #";
     "order confirmation"; "billing"; "subscription"; "tax invoice"]%string.

Definition salesSignals : list jsstring :=
  map js
    ["sponsorship"; "partnership"; "proposal"; "quote"; "pricing"; "demo";
     "interested"; "book a call"; "campaign"; "collaboration"]%string.

Definition supportSignals : list jsstring :=
  map js
    ["support"; "help"; "issue"; "error"; "problem"; "unable"; "bug"]%string.

Definition ignoreSignals : list jsstring :=
  map js
    ["unsubscribe"; "newsletter"; "promo"; "promotion"; "digest";
     "marketing update"]%string.

(** [signals.reduce((count, signal) => (text.includes(signal) ? count + 1 : count), 0)] *)
Definition countSignals (text : jsstring) (signals : list jsstring) : nat :=
  fold_left
    (fun count signal => if includes text signal then (count + 1)%nat else count)
    signals 0%nat.

Section Classifier.
Context `{Host}.

(** The lower-cased [subject snippet from] text every signal is looked up in. *)
Definition messageText (message : PollMessage) : jsstring :=
  toLowerCase
    (orEmpty (subject message) ++ js " " ++ orEmpty (snippet message)
     ++ js " " ++ orEmpty (from message)).

Definition senderLocalOf (message : PollMessage) : jsstring :=
  match extractEmailAddress (from message) with
  | Some senderEmail => toLowerCase (trim (hd [] (split 64 senderEmail)))
  | None => []
  end.

Definition senderDomainOf (message : PollMessage) : option jsstring :=
  extractEmailDomain (extractEmailAddress (from message)).

Definition hasDirectInquiry (message : PollMessage) : bool :=
  includesAny (messageText message) directInquirySignals.

Definition looksAutomated (message : PollMessage) : bool :=
  includesAny (senderLocalOf message) automatedSenderSignals
  || includesAny (messageText message) automatedTextSignals
  || includesAny (messageText message) automatedSenderSignals.

Definition looksHiring (message : PollMessage) : bool :=
  includesAny (messageText message) hiringSignals.

Definition fromJobNetwork (message : PollMessage) : bool :=
  match senderDomainOf message with
  | Some senderDomain => arrayIncludes jobNetworkDomains senderDomain
  | None => false
  end.

Definition fromVendorSystem (message : PollMessage) : bool :=
  match senderDomainOf message with
  | Some senderDomain => arrayIncludes vendorSystemDomains senderDomain
  | None => false
  end.

Definition likelyNonHumanSender (message : PollMessage) : bool :=
  looksAutomated message || fromJobNetwork message || fromVendorSystem message.

Definition receiptScore (message : PollMessage) : nat :=
  countSignals (messageText message) receiptSignals.
Definition salesScore (message : PollMessage) : nat :=
  countSignals (messageText message) salesSignals.
Definition supportScore (message : PollMessage) : nat :=
  countSignals (messageText message) supportSignals.
Definition ignoreScore (message : PollMessage) : nat :=
  countSignals (messageText message) ignoreSignals.

Definition classifyInbound (message : PollMessage) : ClassificationResult :=
  if (likelyNonHumanSender message || looksHiring message)
     && negb (hasDirectInquiry message)
  then {| label := ignore; confidence := 0.94;
          reasons := [js "non-business-automation-filter"] |}
  else if Nat.ltb 0 (receiptScore message)
          && Nat.leb (salesScore message) (receiptScore message)
  then {| label := receipt;
          confidence :=
            Math_min (0.65 + numOfNat (receiptScore message) * 0.08) 0.96;
          reasons := [js "matched-receipt-signals"] |}
  else if Nat.ltb 0 (salesScore message)
  then
    if negb (hasDirectInquiry message) || likelyNonHumanSender message
       || looksHiring message
    then {| label := ignore; confidence := 0.9;
            reasons := [js "sales-needs-human-direct-inquiry"] |}
    else {| label := sales;
            confidence :=
              Math_min (0.62 + numOfNat (salesScore message) * 0.07) 0.95;
            reasons := [js "matched-sales-signals"] |}
  else if Nat.ltb 0 (supportScore message)
  then {| label := support;
          confidence :=
            Math_min (0.58 + numOfNat (supportScore message) * 0.08) 0.9;
          reasons := [js "matched-support-signals"] |}
  else if Nat.ltb 0 (ignoreScore message)
  then {| label := ignore;
          confidence :=
            Math_min (0.6 + numOfNat (ignoreScore message) * 0.08) 0.92;
          reasons := [js "matched-ignore-signals"] |}
  else {| label := ignore; confidence := 0.52;
          reasons := [js "no-strong-signal"] |}.

End Classifier.

(* ================================================================== *)
(** * Numbers from text *)

(** Outcome of code that may throw. *)
Inductive result (A : Type) : Type :=
| Ok (a : A)
| Throw (e : jsstring).
Arguments Ok {A} a.
Arguments Throw {A} e.

Fixpoint span (p : N -> bool) (s : jsstring) : jsstring * jsstring :=
  match s with
  | c :: t =>
      if p c then let '(a, b) := span p t in (c :: a, b) else ([], s)
  | [] => ([], [])
  end.

Fixpoint digitsToZ (acc : Z) (s : jsstring) : Z :=
  match s with
  | [] => acc
  | c :: t => digitsToZ (10 * acc + Z.of_N (c - 48))%Z t
  end.

(** The binary64 value nearest to [m * 10^e10] (ties to even), signed. *)
Definition decimalValue (neg : bool) (m : Z) (e10 : Z) : float :=
  match m with
  | Zpos p =>
      if (0 <=? e10)%Z
      then SF2Prim (binary_normalize prec emax
                      (if neg then - (Zpos p * 10 ^ e10) else Zpos p * 10 ^ e10)%Z
                      0%Z neg)
      else
        let d := (10 ^ (- e10))%Z in
        let k := (1100 + 4 * (- e10))%Z in
        let q := (Zpos p * 2 ^ k / d)%Z in
        let r := (Zpos p * 2 ^ k mod d)%Z in
        let l := if (r =? 0)%Z then loc_Exact
                 else loc_Inexact (Z.compare (2 * r) d) in
        SF2Prim (binary_round_aux prec emax neg q (- k) l)
  | _ => if neg then neg_zero else zero
  end.

Definition signOf (s : jsstring) : bool * jsstring :=
  match s with
  | 43 :: t => (false, t)
  | 45 :: t => (true, t)
  | _ => (false, s)
  end.

(** [Number.parseFloat]: the longest prefix that is a decimal literal. *)
Definition Number_parseFloat (s : jsstring) : float :=
  let '(neg, s0) := signOf (trimStart s) in
  if startsWith s0 (js "Infinity")
  then (if neg then neg_infinity else infinity)
  else
    let '(ip, s1) := span isDigit s0 in
    let '(fp, s2) := match s1 with
                     | 46 :: t => span isDigit t
                     | _ => ([], s1)
                     end in
    if negb (truthy ip) && negb (truthy fp) then nan
    else
      let e :=
        match s2 with
        | c :: t =>
            if N.eqb c 101 || N.eqb c 69 then
              let '(eneg, t') := signOf t in
              let '(ed, _) := span isDigit t' in
              if truthy ed
              then (if eneg then - digitsToZ 0 ed else digitsToZ 0 ed)%Z
              else 0%Z
            else 0%Z
        | [] => 0%Z
        end in
      decimalValue neg (digitsToZ 0 (ip ++ fp)) (e - Z.of_nat (length fp)).

(** [Number.isFinite] on a value that is a number. *)
Definition Number_isFinite (x : float) : bool := is_finite x.

(* ================================================================== *)
(** * Financial-record parser *)

Definition isCurrencySymbol (c : N) : bool :=
  N.eqb c 36 || N.eqb c 8364 || N.eqb c 163.

(** [[0-9][0-9,]*(?:\.[0-9]{2})?] *)
Definition amountRe : regex :=
  Seq (Chr isDigit)
   (Seq (Star (Chr (fun c => isDigit c || N.eqb c 44)))
        (Opt (Seq (Lit 46) (Seq (Chr isDigit) (Chr isDigit))))).

(** [/([$€£])\s*([0-9][0-9,]*(?:\.[0-9]{2})?)/] *)
Definition symbolRe : regex :=
  Seq (Group 1 (Chr isCurrencySymbol))
      (Seq (Star (Chr isWhiteSpace)) (Group 2 amountRe)).

(** [/\b(USD|EUR|GBP|NGN|CAD|AUD)\s*([0-9][0-9,]*(?:\.[0-9]{2})?)/i] *)
Definition codeRe : regex :=
  Seq WordBoundary
   (Seq (Group 1
          (Alt (StrI (js "USD")) (Alt (StrI (js "EUR")) (Alt (StrI (js "GBP"))
           (Alt (StrI (js "NGN")) (Alt (StrI (js "CAD")) (StrI (js "AUD"))))))))
        (Seq (Star (Chr isWhiteSpace)) (Group 2 amountRe))).

(** [/,/g] *)
Definition commaRe : regex := Lit 44.

Record ReceiptInfo : Type := {
  vendor : option jsstring;
  amount : option float;
  currency : option jsstring;
  receipt_date : option jsstring
}.

(** [symbol === "$" ? "USD" : symbol === "€" ? "EUR" : symbol === "£" ? "GBP" : undefined] *)
Definition currencyOfSymbol (symbol : option jsstring) : option jsstring :=
  match symbol with
  | Some s =>
      if jsstring_eqb s [36] then Some (js "USD")
      else if jsstring_eqb s [8364] then Some (js "EUR")
      else if jsstring_eqb s [163] then Some (js "GBP")
      else None
  | None => None
  end.

(** [Number.isFinite(amount ?? Number.NaN) ? amount : undefined] *)
Definition finiteOrUndefined (amount : option float) : option float :=
  match amount with
  | Some a => if Number_isFinite a then Some a else None
  | None => None
  end.

(** Truthiness of an optional number: 0, -0 and NaN are falsy. *)
Definition truthyNum (x : option float) : option float :=
  match x with
  | Some v => if PrimFloat.is_zero v || PrimFloat.is_nan v then None else Some v
  | None => None
  end.

(** [Number.parseFloat(token.replace(/,/g, ""))] *)
Definition parseAmount (token : jsstring) : float :=
  Number_parseFloat (replaceAll commaRe [] token).

Section Receipt.
Context `{Host}.

(** [message.received_at || (message.internal_ts
      ? new Date(message.internal_ts).toISOString() : undefined)] *)
Definition messageTs (message : PollMessage) : result (option jsstring) :=
  match nonEmpty (received_at message) with
  | Some ts => Ok (Some ts)
  | None =>
      match truthyNum (internal_ts message) with
      | Some n =>
          match Date_toISOString n with
          | Some iso => Ok (Some iso)
          | None => Throw (js "RangeError: Invalid time value")
          end
      | None => Ok None
      end
  end.

(** The subject and snippet the amount is looked up in. *)
Definition receiptText (message : PollMessage) : jsstring :=
  orEmpty (subject message) ++ js " " ++ orEmpty (snippet message).

(** The [amount] and [currency] locals after the two pattern attempts. *)
Definition amountAndCurrency (text : jsstring)
  : option float * option jsstring :=
  let symbolMatch := exec symbolRe text in
  match match symbolMatch with
        | Some m => nonEmpty (group 2 (groups m))
        | None => None
        end with
  | Some g2 =>
      (Some (parseAmount g2),
       currencyOfSymbol
         (match symbolMatch with Some m => group 1 (groups m) | None => None end))
  | None =>
      let codeMatch := exec codeRe text in
      match match codeMatch with
            | Some m => nonEmpty (group 2 (groups m))
            | None => None
            end with
      | Some g2 =>
          (Some (parseAmount g2),
           Some (toUpperCase
                   (orEmpty (match codeMatch with
                             | Some m => group 1 (groups m)
                             | None => None
                             end))))
      | None => (None, None)
      end
  end.

Definition parseReceiptInfo (message : PollMessage) : result ReceiptInfo :=
  let fromEmail := extractEmailAddress (from message) in
  let vendor :=
    orElse (match fromEmail with
            | Some e => Some (hd [] (split 64 e))
            | None => None
            end)
           (extractDisplayName (from message)) in
  let '(amount, currency) := amountAndCurrency (receiptText message) in
  match messageTs message with
  | Throw e => Throw e
  | Ok receiptDate =>
      Ok {| vendor := vendor;
            amount := finiteOrUndefined amount;
            currency := currency;
            receipt_date := receiptDate |}
  end.

End Receipt.

(* ================================================================== *)
(** * Guidance cues, reply draft and notification text *)

Record SopSection : Type := {
  heading : option jsstring;
  items : option (list jsstring)
}.

Record SopBody : Type := {
  hash : option jsstring;
  sections : option (list SopSection);
  blocks : option (list (option jsstring))     (* each block's [text] *)
}.

Record SopSnapshot : Type := {
  sop_degraded : option bool;
  sop_source : option jsstring;
  sop_warnings : option (list jsstring);
  sop : option SopBody
}.

Definition sopHash (s : option SopSnapshot) : option jsstring :=
  match s with
  | Some snap => match sop snap with Some b => hash b | None => None end
  | None => None
  end.

(** [Array.from(new Set(xs))]: first occurrences, in order. *)
Fixpoint dedupe (seen xs : list jsstring) : list jsstring :=
  match xs with
  | [] => []
  | x :: t =>
      if arrayIncludes seen x then dedupe seen t
      else x :: dedupe (x :: seen) t
  end.

(** [s.trim()] kept only when it is not empty. *)
Definition trimmed (o : option jsstring) : list jsstring :=
  match o with
  | Some s => if truthy (trim s) then [trim s] else []
  | None => []
  end.

Definition approvalHelp : jsstring :=
  js "Approve: /skill crm-inbound-orchestrator approve <draft_id>" ++ [10]
  ++ js "Revise: /skill crm-inbound-orchestrator revise <draft_id> <notes>" ++ [10]
  ++ js "Reject: /skill crm-inbound-orchestrator reject <draft_id> <reason>".

(** [lines.join("\n")] *)
Fixpoint joinLines (ls : list jsstring) : jsstring :=
  match ls with
  | [] => []
  | [l] => l
  | l :: t => l ++ [10] ++ joinLines t
  end.

(** Decimal text of an integer, as [String(n)] prints it. *)
Fixpoint natDigits (fuel : nat) (n : N) (acc : jsstring) : jsstring :=
  match fuel with
  | O => acc
  | S f =>
      let acc' := (48 + n mod 10) :: acc in
      if n <? 10 then acc' else natDigits f (n / 10) acc'
  end.

Definition zToString (z : Z) : jsstring :=
  match z with
  | Zneg p => js "-" ++ natDigits (S (N.to_nat (N.log2 (Npos p)))) (Npos p) []
  | _ => natDigits (S (N.to_nat (N.log2 (Z.to_N z)))) (Z.to_N z) []
  end.

Record SlackMessage : Type := {
  slack_text : jsstring;
  slack_blocks : option (list json)
}.

Section Builders.
Context `{Host}.

Definition usefulCue (line : jsstring) : bool :=
  let lower := toLowerCase line in
  includes lower (js "qualif") || includes lower (js "response")
  || includes lower (js "lead") || includes lower (js "sponsor")
  || includes lower (js "timeline") || includes lower (js "pricing").

Definition pickSopCues (snapshot : option SopSnapshot) : list jsstring :=
  let body := match snapshot with Some s => sop s | None => None end in
  let fromSections :=
    match body with
    | Some b =>
        match sections b with
        | Some secs =>
            flat_map
              (fun section =>
                 trimmed (heading section)
                 ++ flat_map (fun item => trimmed (Some item))
                             (match items section with
                              | Some its => its
                              | None => []
                              end))
              secs
        | None => []
        end
    | None => []
    end in
  let lines :=
    match fromSections, body with
    | [], Some b =>
        match blocks b with
        | Some bs => flat_map trimmed bs
        | None => []
        end
    | _, _ => fromSections
    end in
  firstn 6 (dedupe [] (filter usefulCue lines)).

(** [/[^A-Za-z\s-]/g] *)
Definition notNameChar : regex :=
  Chr (fun c => negb (isLetter c || isWhiteSpace c || N.eqb c 45)).

(** What [replace] leaves of a code unit of the display name: a space in
    the place of what [notNameChar] matches. *)
Definition blanked (c : N) : N :=
  if negb (isLetter c || isWhiteSpace c || N.eqb c 45) then 32 else c.

(** The code units a name is made of: ASCII letters and the hyphen. *)
Definition isNameChar (c : N) : bool := isLetter c || N.eqb c 45.

(** The first maximal run of name code units of a text: what stands before
    it is skipped, and it ends at the first code unit that is not one. *)
Definition firstNameRun (s : jsstring) : jsstring :=
  fst (span isNameChar (snd (span (fun c => negb (isNameChar c)) s))).

Definition firstNameFromDisplay (display : option jsstring) : jsstring :=
  match nonEmpty display with
  | None => js "there"
  | Some d =>
      let cleanDisplay := trim (replaceAll notNameChar (js " ") d) in
      if negb (truthy cleanDisplay) then js "there"
      else
        let first := fst (span (fun c => negb (isWhiteSpace c)) cleanDisplay) in
        if truthy first then first else js "there"
  end.

Definition buildSalesDraft (senderDisplayName senderEmail subj snip : option jsstring)
  (sopCues : list jsstring) : jsstring * jsstring :=
  let firstName := firstNameFromDisplay senderDisplayName in
  let intentSnippet :=
    match snip with
    | Some s => if truthy (trim s) then trim s
                else js "Thanks for reaching out to Prompt Circle."
    | None => js "Thanks for reaching out to Prompt Circle."
    end in
  let sopNote :=
    match sopCues with
    | [] => js "- Confirm fit and desired outcome" ++ [10]
            ++ js "- Provide next-step CTA"
    | _ => joinLines (map (fun cue => js "- " ++ cue) sopCues)
    end in
  let draftSubject :=
    match subj with
    | Some s =>
        if startsWith (toLowerCase s) (js "re:") then s else js "Re: " ++ s
    | None => js "Re: Prompt Circle inquiry"
    end in
  let body :=
    joinLines
      [js "Hi " ++ firstName ++ js ","; [];
       js "Thanks for your message."; intentSnippet; [];
       js "To make this actionable, could you share:";
       js "1) Your primary objective"; js "2) Timeline";
       js "3) Budget range or decision criteria"; [];
       js "Once we have those details, I can send a concrete recommendation and next steps.";
       []; js "Best,"; js "Prompt Circle"; [];
       js "[SOP cues used for this draft]"; sopNote] in
  (draftSubject, body).

Definition formatSlackWhen (isoDate : option jsstring) : jsstring :=
  match nonEmpty isoDate with
  | None => js "n/a"
  | Some iso =>
      match Date_parse iso with
      | None => iso
      | Some ms =>
          js "<!date^" ++ zToString (ms / 1000)
          ++ js "^{date_short_pretty} {time}|" ++ iso ++ js ">"
      end
  end.

Definition mrkdwn (t : jsstring) : json :=
  JObj [(js "type", JStr (js "mrkdwn")); (js "text", JStr t)].

(** The draft identifier is spliced in literally (identifiers hold no [$]
    replacement pattern). *)
Definition buildDraftSlackMessage (draftId toEmail : jsstring)
  (fromName fromEmail : option jsstring) (accountEmail subj : jsstring)
  (receivedAt : option jsstring) : SlackMessage :=
  let to := toEmail in
  let sender :=
    match orElse fromEmail fromName with
    | Some s => s
    | None => js "unknown"
    end in
  let when := formatSlackWhen receivedAt in
  let approvalCommands :=
    replaceAll (Str (js "<draft_id>")) draftId approvalHelp in
  let text :=
    joinLines
      [js "CRM lead draft ready"; js "Draft ID: " ++ draftId;
       js "From: " ++ sender; js "To: " ++ to; js "Subject: " ++ subj;
       js "Received: " ++ when; []; approvalCommands] in
  let blocks :=
    [JObj [(js "type", JStr (js "header"));
           (js "text", JObj [(js "type", JStr (js "plain_text"));
                             (js "text", JStr (js "CRM Lead Draft Ready"))])];
     JObj [(js "type", JStr (js "section"));
           (js "fields",
            JArr [mrkdwn (js "*Draft ID:*" ++ [10; 96] ++ draftId ++ [96]);
                  mrkdwn (js "*Mailbox:*" ++ [10] ++ accountEmail);
                  mrkdwn (js "*From:*" ++ [10] ++ sender);
                  mrkdwn (js "*To:*" ++ [10] ++ to);
                  mrkdwn (js "*Received:*" ++ [10] ++ when);
                  mrkdwn (js "*Subject:*" ++ [10] ++ subj)])];
     JObj [(js "type", JStr (js "section"));
           (js "text",
            mrkdwn (js "*Approval Commands*" ++ [10; 96; 96; 96]
                    ++ approvalCommands ++ [96; 96; 96]))]] in
  {| slack_text := text; slack_blocks := Some blocks |}.

End Builders.

(* ================================================================== *)
(** * The outside world and the effect monad *)

Inductive Method : Type := GET | POST | PATCH.

(** A [fetch] call.  The query string is kept as its list of parameters. *)
Record Request : Type := {
  req_url : jsstring;
  req_method : Method;
  req_query : list (jsstring * jsstring);
  req_headers : list (jsstring * jsstring);
  req_body : option json
}.

(** What [fetch] resolves to.  [resp_json] is what [JSON.parse] makes of the
    body text, [None] when parsing it throws. *)
Record Response : Type := {
  resp_ok : bool;
  resp_status : N;
  resp_text : jsstring;
  resp_json : option json
}.

(** The effects [main] performs on a world of type [W]. *)
Class World (W : Type) : Type := {
  (** [await fetch(...)]; [None] when the promise rejects *)
  fetch : Request -> W -> option Response * W;
  (** [new Date().toISOString()] *)
  now : W -> jsstring * W;
  (** [randomUUID()] *)
  randomUUID : W -> jsstring * W
}.

(** Computations that read and change the world and may throw. *)
Definition M (W A : Type) : Type := W -> result A * W.

Definition ret {W A} (a : A) : M W A := fun w => (Ok a, w).
Definition throw {W A} (e : jsstring) : M W A := fun w => (Throw e, w).
Definition bind {W A B} (c : M W A) (k : A -> M W B) : M W B :=
  fun w =>
    match c w with
    | (Ok a, w') => k a w'
    | (Throw e, w') => (Throw e, w')
    end.
Definition lift {W A} (f : W -> A * W) : M W A :=
  fun w => let '(a, w') := f w in (Ok a, w').
Definition ofResult {W A} (r : result A) : M W A :=
  fun w => (r, w).

Notation "x <- c ;; k" := (bind c (fun x => k))
  (at level 61, c at next level, right associativity).
Notation "' p <- c ;; k" := (bind c (fun x => let 'p := x in k))
  (at level 61, p pattern, c at next level, right associativity).

(** [for (const x of xs) { acc = body(x, acc) }]; a throw leaves the loop. *)
Fixpoint forEach {W A S} (body : A -> S -> M W S) (xs : list A) (acc : S)
  : M W S :=
  match xs with
  | [] => ret acc
  | x :: t => acc' <- body x acc ;; forEach body t acc'
  end.

(** ** Rows *)

(** A JavaScript object used as a row: its defined properties, in order.
    A property whose value is [undefined] is left out, which is how both
    [JSON.stringify] and a property read treat it. *)
Definition row : Type := list (jsstring * json).

Definition field (k : string) (v : option json) : row :=
  match v with
  | Some j => [(js k, j)]
  | None => []
  end.

(** An object literal: its properties in order, the undefined ones left
    out. *)
Definition object (props : list (string * option json)) : row :=
  flat_map (fun kv => field (fst kv) (snd kv)) props.

(** The names an object literal may define. *)
Definition names (props : list (string * option json)) : list jsstring :=
  map (fun kv => js (fst kv)) props.

Definition str (s : jsstring) : option json := Some (JStr s).
Definition ostr (o : option jsstring) : option json := option_map JStr o.

Fixpoint prop (k : jsstring) (r : row) : option json :=
  match r with
  | [] => None
  | (k', v) :: r' => if jsstring_eqb k k' then Some v else prop k r'
  end.

(** [typeof r.id === "string" ? r.id : undefined] *)
Definition stringProp (k : string) (r : row) : option jsstring :=
  match prop (js k) r with
  | Some (JStr s) => Some s
  | _ => None
  end.

(** [getRecord]: objects (arrays included) pass; an array has none of the
    named properties the callers read. *)
Definition getRecord (value : json) : option row :=
  match value with
  | JObj fields => Some fields
  | JArr _ => Some []
  | _ => None
  end.

(** ** Persistence and notification calls *)

Definition methodName (m : Method) : jsstring :=
  match m with GET => js "GET" | POST => js "POST" | PATCH => js "PATCH" end.

Record Env : Type := {
  SUPABASE_URL : option jsstring;
  SUPABASE_SECRET_KEY : option jsstring;
  CRM_CONTACTS_TABLE : option jsstring;
  CRM_ACTIVITIES_TABLE : option jsstring;
  CRM_DRAFTS_TABLE : option jsstring;
  CRM_ACCOUNTING_TABLE : option jsstring;
  CRM_JOB_RUNS_TABLE : option jsstring;
  CRM_POLL_STATE_TABLE : option jsstring;
  SLACK_BOT_TOKEN : option jsstring;
  CRM_SLACK_CHANNEL_ID : option jsstring;
  SLACK_CHANNEL_ID : option jsstring;
  CRM_SLACK_CHANNEL : option jsstring
}.

(** [clean]: the trimmed value, or undefined when that is empty. *)
Definition clean (value : option jsstring) : option jsstring :=
  nonEmpty (option_map trim value).

Definition DEFAULT_CONTACTS_TABLE : jsstring := js "crm_contacts".
Definition DEFAULT_ACTIVITIES_TABLE : jsstring := js "crm_activities".
Definition DEFAULT_DRAFTS_TABLE : jsstring := js "crm_drafts".
Definition DEFAULT_ACCOUNTING_TABLE : jsstring := js "accounting_entries".
Definition DEFAULT_JOB_RUNS_TABLE : jsstring := js "crm_job_runs".
Definition DEFAULT_POLL_STATE_TABLE : jsstring := js "crm_poll_state".

Definition slackUrl : jsstring := js "https://slack.com/api/chat.postMessage".

(** [URLSearchParams.set]: the first pair of that name takes the value and
    the later pairs of that name are removed; a new name is appended. *)
Fixpoint paramsSet (name value : jsstring) (query : list (jsstring * jsstring))
  : list (jsstring * jsstring) :=
  match query with
  | [] => [(name, value)]
  | (k, v) :: rest =>
      if jsstring_eqb k name
      then (name, value)
           :: filter (fun kv => negb (jsstring_eqb (fst kv) name)) rest
      else (k, v) :: paramsSet name value rest
  end.

(** [URLSearchParams.get]: the value of the first pair of that name. *)
Fixpoint paramsGet (name : jsstring) (query : list (jsstring * jsstring))
  : option jsstring :=
  match query with
  | [] => None
  | (k, v) :: rest => if jsstring_eqb k name then Some v else paramsGet name rest
  end.

Section Calls.
Context {W : Type} `{World W}.

Definition supabaseRequest (supabaseUrl serviceKey : jsstring)
  (method : Method) (table : jsstring) (query : list (jsstring * jsstring))
  (body : option json) (prefer : option jsstring) : M W json :=
  fun w =>
    match fetch
            {| req_url := supabaseUrl ++ js "/rest/v1/" ++ table;
               req_method := method;
               req_query := query;
               req_headers :=
                 [(js "apikey", serviceKey);
                  (js "Authorization", js "Bearer " ++ serviceKey);
                  (js "Content-Type", js "application/json");
                  (js "Accept", js "application/json")]
                 ++ match prefer with
                    | Some p => [(js "Prefer", p)]
                    | None => []
                    end;
               req_body := body |} w with
    | (None, w') => (Throw (js "TypeError: fetch failed"), w')
    | (Some response, w') =>
        match (if truthy (trim (resp_text response))
               then resp_json response else Some (JObj [])) with
        | None => (Throw (js "SyntaxError: Unexpected token in JSON"), w')
        | Some data =>
            if negb (resp_ok response)
            then (Throw (js "Supabase " ++ methodName method ++ js " " ++ table
                         ++ js " failed (" ++ zToString (Z.of_N (resp_status response))
                         ++ js "): " ++ resp_text response), w')
            else (Ok data, w')
        end
    end.

Definition supabaseUpsertRow (supabaseUrl serviceKey table onConflict : jsstring)
  (r : row) : M W row :=
  response <- supabaseRequest supabaseUrl serviceKey POST table
                [(js "on_conflict", onConflict)]
                (Some (JArr [JObj r]))
                (Some (js "resolution=merge-duplicates,return=representation")) ;;
  match response with
  | JArr (first :: _) =>
      ret (match getRecord first with Some rec => rec | None => r end)
  | _ => ret r
  end.

(** [filters] lists the entries of the filter object in the order
    [Object.entries] gives them; each is written with [URLSearchParams.set]
    after [select]. *)
Definition supabasePatchRows (supabaseUrl serviceKey table : jsstring)
  (filters : list (jsstring * jsstring)) (patch : row) : M W (list row) :=
  response <- supabaseRequest supabaseUrl serviceKey PATCH table
                (fold_left (fun query kv =>
                              paramsSet (fst kv) (js "eq." ++ snd kv) query)
                           filters (paramsSet (js "select") (js "*") []))
                (Some (JObj patch))
                (Some (js "return=representation")) ;;
  match response with
  | JArr xs =>
      ret (flat_map (fun item => match getRecord item with
                                 | Some rec => [rec]
                                 | None => []
                                 end) xs)
  | _ => ret []
  end.

(** The outcome [{ posted, error }] of a notification attempt. *)
Record SlackOutcome : Type := {
  posted : bool;
  error : option jsstring
}.

Definition maybePostSlack (env : Env) (message : SlackMessage)
  : M W SlackOutcome :=
  let token := clean (SLACK_BOT_TOKEN env) in
  let channel :=
    orElse (clean (CRM_SLACK_CHANNEL_ID env))
           (orElse (clean (SLACK_CHANNEL_ID env)) (clean (CRM_SLACK_CHANNEL env))) in
  match token, channel with
  | Some token, Some channel =>
      fun w =>
        match fetch
                {| req_url := slackUrl;
                   req_method := POST;
                   req_query := [];
                   req_headers :=
                     [(js "Authorization", js "Bearer " ++ token);
                      (js "Content-Type", js "application/json; charset=utf-8")];
                   req_body :=
                     Some (JObj
                       (field "channel" (str channel)
                        ++ field "text" (str (slack_text message))
                        ++ match slack_blocks message with
                           | Some (b :: bs) => field "blocks" (Some (JArr (b :: bs)))
                           | _ => []
                           end
                        ++ field "unfurl_links" (Some (JBool false))
                        ++ field "unfurl_media" (Some (JBool false)))) |} w with
        | (None, w') => (Throw (js "TypeError: fetch failed"), w')
        | (Some response, w') =>
            match resp_json response with
            | None => (Throw (js "SyntaxError: Unexpected token in JSON"), w')
            | Some JNull =>
                (Throw (js "TypeError: Cannot read properties of null"), w')
            | Some data =>
                let fields := match data with JObj fs => fs | _ => [] end in
                if resp_ok response
                   && match prop (js "ok") fields with
                      | Some (JBool true) => true
                      | _ => false
                      end
                then (Ok {| posted := true; error := None |}, w')
                else
                  (Ok {| posted := false;
                         error :=
                           Some (match stringProp "error" fields with
                                 | Some e => e
                                 | None => js "slack-error-"
                                           ++ zToString (Z.of_N (resp_status response))
                                 end) |}, w')
            end
        end
  | _, _ =>
      ret {| posted := false;
             error := Some (js "CRM_SLACK_CHANNEL_ID or SLACK_BOT_TOKEN missing") |}
  end.

End Calls.

(* ================================================================== *)
(** * Run orchestrator *)

Record PerAccount : Type := {
  pa_account_email : option jsstring;
  fetched_count : option float;
  pa_error : option jsstring
}.

Record PollFile : Type := {
  poll_run_id : option jsstring;
  poll_started_at : option jsstring;
  poll_finished_at : option jsstring;
  partial_failure : option bool;
  messages : list PollMessage;
  per_account : option (list PerAccount)
}.

Inductive RunStatus : Type := status_ok | status_partial_failure.

Record Totals : Type := {
  polled_messages : nat;
  processed_messages : nat;
  activities_upserted : nat;
  drafts_upserted : nat;
  accounting_entries_upserted : nat
}.

Record SalesDraft : Type := {
  draft_id : jsstring;
  sd_activity_id : jsstring;
  sd_account_email : jsstring;
  to_email : jsstring;
  slack_posted : bool;
  slack_error : option jsstring
}.

Record AccountingEntry : Type := {
  ae_activity_id : jsstring;
  ae_source_key : jsstring;
  ae_vendor : option jsstring;
  ae_amount : option float;
  ae_currency : option jsstring
}.

Record PollStateUpdate : Type := {
  ps_account_email : jsstring;
  last_polled_at : jsstring;
  last_message_ts : option jsstring
}.

Record ProcessResult : Type := {
  run_id : jsstring;
  started_at : jsstring;
  finished_at : jsstring;
  status : RunStatus;
  degraded : bool;
  totals : Totals;
  classification_counts : Classification -> nat;
  sales_drafts : list SalesDraft;
  accounting_entries : list AccountingEntry;
  poll_state_updates : list PollStateUpdate;
  warnings : list jsstring
}.

(** The locals of [main] that the message loop updates. *)
Record RunState : Type := {
  result_ : ProcessResult;
  maxTsByAccount : list (jsstring * jsstring)
}.

Definition Classification_eqb (a b : Classification) : bool :=
  match a, b with
  | receipt, receipt | sales, sales | support, support | ignore, ignore => true
  | _, _ => false
  end.

Definition labelName (l : Classification) : jsstring :=
  match l with
  | receipt => js "receipt"
  | sales => js "sales"
  | support => js "support"
  | ignore => js "ignore"
  end.

Definition statusName (s : RunStatus) : jsstring :=
  match s with
  | status_ok => js "ok"
  | status_partial_failure => js "partial_failure"
  end.

(** [Map.prototype.get] and [set], and [Set.prototype.add], in insertion order. *)
Fixpoint mapGet (k : jsstring) (m : list (jsstring * jsstring)) : option jsstring :=
  match m with
  | [] => None
  | (k', v) :: m' => if jsstring_eqb k k' then Some v else mapGet k m'
  end.

Fixpoint mapSet (k v : jsstring) (m : list (jsstring * jsstring))
  : list (jsstring * jsstring) :=
  match m with
  | [] => [(k, v)]
  | (k', v') :: m' =>
      if jsstring_eqb k k' then (k, v) :: m' else (k', v') :: mapSet k v m'
  end.

Definition setAdd (k : jsstring) (xs : list jsstring) : list jsstring :=
  if arrayIncludes xs k then xs else xs ++ [k].

(** [a > b] on two results of [Date.parse]; false when either is NaN. *)
Definition timeGt (a b : option Z) : bool :=
  match a, b with
  | Some x, Some y => (y <? x)%Z
  | _, _ => false
  end.

(** ** Updates of the result document *)

Definition bumpCount (l : Classification) (r : ProcessResult) : ProcessResult :=
  {| run_id := run_id r; started_at := started_at r;
     finished_at := finished_at r; status := status r; degraded := degraded r;
     totals := totals r;
     classification_counts :=
       (fun l' => if Classification_eqb l' l
                  then (classification_counts r l' + 1)%nat
                  else classification_counts r l');
     sales_drafts := sales_drafts r;
     accounting_entries := accounting_entries r;
     poll_state_updates := poll_state_updates r; warnings := warnings r |}.

Definition withTotals (f : Totals -> Totals) (r : ProcessResult) : ProcessResult :=
  {| run_id := run_id r; started_at := started_at r;
     finished_at := finished_at r; status := status r; degraded := degraded r;
     totals := f (totals r);
     classification_counts := classification_counts r;
     sales_drafts := sales_drafts r;
     accounting_entries := accounting_entries r;
     poll_state_updates := poll_state_updates r; warnings := warnings r |}.

Definition bumpActivities (t : Totals) : Totals :=
  {| polled_messages := polled_messages t;
     processed_messages := processed_messages t;
     activities_upserted := (activities_upserted t + 1)%nat;
     drafts_upserted := drafts_upserted t;
     accounting_entries_upserted := accounting_entries_upserted t |}.

Definition bumpDrafts (t : Totals) : Totals :=
  {| polled_messages := polled_messages t;
     processed_messages := processed_messages t;
     activities_upserted := activities_upserted t;
     drafts_upserted := (drafts_upserted t + 1)%nat;
     accounting_entries_upserted := accounting_entries_upserted t |}.

Definition bumpAccounting (t : Totals) : Totals :=
  {| polled_messages := polled_messages t;
     processed_messages := processed_messages t;
     activities_upserted := activities_upserted t;
     drafts_upserted := drafts_upserted t;
     accounting_entries_upserted := (accounting_entries_upserted t + 1)%nat |}.

Definition bumpProcessed (t : Totals) : Totals :=
  {| polled_messages := polled_messages t;
     processed_messages := (processed_messages t + 1)%nat;
     activities_upserted := activities_upserted t;
     drafts_upserted := drafts_upserted t;
     accounting_entries_upserted := accounting_entries_upserted t |}.

Definition pushSalesDraft (d : SalesDraft) (r : ProcessResult) : ProcessResult :=
  {| run_id := run_id r; started_at := started_at r;
     finished_at := finished_at r; status := status r; degraded := degraded r;
     totals := totals r; classification_counts := classification_counts r;
     sales_drafts := sales_drafts r ++ [d];
     accounting_entries := accounting_entries r;
     poll_state_updates := poll_state_updates r; warnings := warnings r |}.

Definition pushAccountingEntry (e : AccountingEntry) (r : ProcessResult)
  : ProcessResult :=
  {| run_id := run_id r; started_at := started_at r;
     finished_at := finished_at r; status := status r; degraded := degraded r;
     totals := totals r; classification_counts := classification_counts r;
     sales_drafts := sales_drafts r;
     accounting_entries := accounting_entries r ++ [e];
     poll_state_updates := poll_state_updates r; warnings := warnings r |}.

Definition pushPollStateUpdate (u : PollStateUpdate) (r : ProcessResult)
  : ProcessResult :=
  {| run_id := run_id r; started_at := started_at r;
     finished_at := finished_at r; status := status r; degraded := degraded r;
     totals := totals r; classification_counts := classification_counts r;
     sales_drafts := sales_drafts r;
     accounting_entries := accounting_entries r;
     poll_state_updates := poll_state_updates r ++ [u]; warnings := warnings r |}.

Definition finish (st : RunStatus) (finishedAt : jsstring) (r : ProcessResult)
  : ProcessResult :=
  {| run_id := run_id r; started_at := started_at r;
     finished_at := finishedAt; status := st; degraded := degraded r;
     totals := totals r; classification_counts := classification_counts r;
     sales_drafts := sales_drafts r;
     accounting_entries := accounting_entries r;
     poll_state_updates := poll_state_updates r; warnings := warnings r |}.

(** The table names and credentials [main] resolves before it starts. *)
Record Config : Type := {
  supabaseUrl : jsstring;
  supabaseKey : jsstring;
  contactsTable : jsstring;
  activitiesTable : jsstring;
  draftsTable : jsstring;
  accountingTable : jsstring;
  jobRunsTable : jsstring;
  pollStateTable : jsstring
}.

Definition orDefault (o : option jsstring) (d : jsstring) : jsstring :=
  match clean o with Some s => s | None => d end.

Definition configOf (env : Env) : result Config :=
  match clean (SUPABASE_URL env), clean (SUPABASE_SECRET_KEY env) with
  | Some url, Some key =>
      Ok {| supabaseUrl := url;
            supabaseKey := key;
            contactsTable := orDefault (CRM_CONTACTS_TABLE env) DEFAULT_CONTACTS_TABLE;
            activitiesTable := orDefault (CRM_ACTIVITIES_TABLE env) DEFAULT_ACTIVITIES_TABLE;
            draftsTable := orDefault (CRM_DRAFTS_TABLE env) DEFAULT_DRAFTS_TABLE;
            accountingTable := orDefault (CRM_ACCOUNTING_TABLE env) DEFAULT_ACCOUNTING_TABLE;
            jobRunsTable := orDefault (CRM_JOB_RUNS_TABLE env) DEFAULT_JOB_RUNS_TABLE;
            pollStateTable := orDefault (CRM_POLL_STATE_TABLE env) DEFAULT_POLL_STATE_TABLE |}
  | _, _ => Throw (js "SUPABASE_URL and SUPABASE_SECRET_KEY are required")
  end.

Definition jnat (n : nat) : json := JNum (numOfNat n).

Definition perAccountJson (e : PerAccount) : json :=
  JObj (object
          [("account_email", ostr (pa_account_email e));
           ("fetched_count", option_map JNum (fetched_count e));
           ("error", ostr (pa_error e))]%string).

Definition rawOrEmpty (message : PollMessage) : json :=
  match raw message with Some j => j | None => JObj [] end.

Section Orchestrator.
Context {W : Type} `{World W} `{Host}.

Variable env : Env.
Variable cfg : Config.
Variable sopSnapshot : option SopSnapshot.
Variable sopCues : list jsstring.

Definition upsert (table onConflict : jsstring) (r : row) : M W row :=
  supabaseUpsertRow (supabaseUrl cfg) (supabaseKey cfg) table onConflict r.

(** The per-mailbox candidate watermark after seeing [messageTs]. *)
Definition trackMaxTs (accountEmail : jsstring) (ts : option jsstring)
  (maxTs : list (jsstring * jsstring)) : list (jsstring * jsstring) :=
  match nonEmpty ts with
  | Some ts =>
      match nonEmpty (mapGet accountEmail maxTs) with
      | None => mapSet accountEmail ts maxTs
      | Some prior =>
          if timeGt (Date_parse ts) (Date_parse prior)
          then mapSet accountEmail ts maxTs
          else maxTs
      end
  | None => maxTs
  end.

(** ** The rows written *)

Definition contactRow (message : PollMessage) (email : jsstring)
  (senderName : option jsstring) (lastSeen updatedAt : jsstring) : row :=
  object
    [("email", str email);
     ("display_name", ostr senderName);
     ("last_seen_at", str lastSeen);
     ("source_account_email", str (account_email message));
     ("updated_at", str updatedAt)]%string.

Definition activityRow (message : PollMessage)
  (classification : ClassificationResult)
  (senderEmail senderName ts contactId : option jsstring)
  (updatedAt : jsstring) : row :=
  object
    [("source_key", str (source_key message));
     ("account_email", str (account_email message));
     ("message_id", str (message_id message));
     ("thread_id", ostr (thread_id message));
     ("from_raw", ostr (from message));
     ("from_email", ostr senderEmail);
     ("from_name", ostr senderName);
     ("subject", ostr (subject message));
     ("snippet", ostr (snippet message));
     ("received_at", ostr ts);
     ("classification", str (labelName (label classification)));
     ("classification_confidence", Some (JNum (confidence classification)));
     ("classification_reasons",
      Some (JArr (map JStr (reasons classification))));
     ("contact_id", ostr contactId);
     ("contact_email", ostr senderEmail);
     ("sop_hash", ostr (sopHash sopSnapshot));
     ("payload", Some (rawOrEmpty message));
     ("updated_at", str updatedAt)]%string.

Definition draftRow (message : PollMessage) (activityId toEmail : jsstring)
  (draft : jsstring * jsstring) (updatedAt : jsstring) : row :=
  object
    [("activity_id", str activityId);
     ("account_email", str (account_email message));
     ("to_email", str toEmail);
     ("subject", str (fst draft));
     ("body", str (snd draft));
     ("status", str (js "draft"));
     ("approval_commands", str approvalHelp);
     ("reply_to_message_id", str (message_id message));
     ("sop_hash", ostr (sopHash sopSnapshot));
     ("updated_at", str updatedAt)]%string.

Definition accountingRow (message : PollMessage) (activityId : jsstring)
  (parsed : ReceiptInfo) (updatedAt : jsstring) : row :=
  object
    [("source_key", str (source_key message));
     ("activity_id", str activityId);
     ("account_email", str (account_email message));
     ("vendor", ostr (vendor parsed));
     ("amount", option_map JNum (amount parsed));
     ("currency", ostr (currency parsed));
     ("receipt_date", ostr (receipt_date parsed));
     ("subject", ostr (subject message));
     ("snippet", ostr (snippet message));
     ("payload", Some (rawOrEmpty message));
     ("updated_at", str updatedAt)]%string.

(** The patch of a stored draft. *)
Definition draftPatch (summary updatedAt : jsstring) : row :=
  object [("slack_summary", str summary); ("updated_at", str updatedAt)]%string.

(** ** The upserts of the loop body *)

Definition upsertContactRow (message : PollMessage) (email : jsstring)
  (senderName ts : option jsstring) : M W row :=
  lastSeen <- match nonEmpty ts with
              | Some t => ret t
              | None => lift now
              end ;;
  t1 <- lift now ;;
  upsert (contactsTable cfg) (js "email")
    (contactRow message email senderName lastSeen t1).

Definition upsertActivity (message : PollMessage)
  (classification : ClassificationResult)
  (senderEmail senderName ts contactId : option jsstring) : M W row :=
  t1 <- lift now ;;
  upsert (activitiesTable cfg) (js "source_key")
    (activityRow message classification senderEmail senderName ts contactId t1).

Definition upsertDraft (message : PollMessage) (activityId toEmail : jsstring)
  (draft : jsstring * jsstring) : M W row :=
  t1 <- lift now ;;
  upsert (draftsTable cfg) (js "activity_id")
    (draftRow message activityId toEmail draft t1).

Definition upsertAccounting (message : PollMessage) (activityId : jsstring)
  (parsed : ReceiptInfo) : M W row :=
  t1 <- lift now ;;
  upsert (accountingTable cfg) (js "source_key")
    (accountingRow message activityId parsed t1).

(** The sales branch of the loop body. *)
Definition handleSales (message : PollMessage)
  (senderEmail senderName ts : option jsstring) (activityId : jsstring)
  (res : ProcessResult) : M W ProcessResult :=
  let draft := buildSalesDraft senderName senderEmail (subject message)
                               (snippet message) sopCues in
  let toEmail := match nonEmpty senderEmail with
                 | Some e => e
                 | None => js "unknown@example.com"
                 end in
  stored <- upsertDraft message activityId toEmail draft ;;
  match nonEmpty (stringProp "id" stored) with
  | None =>
      throw (js "Missing draft id after upsert for activity_id=" ++ activityId)
  | Some draftId =>
      let slackMessage :=
        buildDraftSlackMessage draftId toEmail senderName senderEmail
          (account_email message) (fst draft) ts in
      t2 <- lift now ;;
      _ <- supabasePatchRows (supabaseUrl cfg) (supabaseKey cfg) (draftsTable cfg)
             [(js "id", draftId)]
             (draftPatch (slack_text slackMessage) t2) ;;
      slack <- maybePostSlack env slackMessage ;;
      ret (withTotals bumpDrafts
             (pushSalesDraft
                {| draft_id := draftId;
                   sd_activity_id := activityId;
                   sd_account_email := account_email message;
                   to_email := toEmail;
                   slack_posted := posted slack;
                   slack_error := error slack |}
                res))
  end.

(** The receipt branch of the loop body. *)
Definition handleReceipt (message : PollMessage) (activityId : jsstring)
  (res : ProcessResult) : M W ProcessResult :=
  parsed <- ofResult (parseReceiptInfo message) ;;
  _ <- upsertAccounting message activityId parsed ;;
  ret (withTotals bumpAccounting
         (pushAccountingEntry
            {| ae_activity_id := activityId;
               ae_source_key := source_key message;
               ae_vendor := vendor parsed;
               ae_amount := amount parsed;
               ae_currency := currency parsed |}
            res)).

(** The contact step of the loop body: the contact identifier, if any. *)
Definition upsertContact (message : PollMessage) (lbl : Classification)
  (senderEmail senderName ts : option jsstring) : M W (option jsstring) :=
  match nonEmpty senderEmail with
  | Some email =>
      if Classification_eqb lbl sales || Classification_eqb lbl support
      then
        contact <- upsertContactRow message email senderName ts ;;
        ret (stringProp "id" contact)
      else ret None
  | None => ret None
  end.

(** The body of [for (const message of poll.messages)]. *)
Definition processMessage (message : PollMessage) (st : RunState)
  : M W RunState :=
  let classification := classifyInbound message in
  let res := bumpCount (label classification) (result_ st) in
  let senderEmail := extractEmailAddress (from message) in
  let senderName := extractDisplayName (from message) in
  ts <- ofResult (messageTs message) ;;
  let maxTs := trackMaxTs (account_email message) ts (maxTsByAccount st) in
  contactId <- upsertContact message (label classification)
                 senderEmail senderName ts ;;
  activity <- upsertActivity message classification senderEmail senderName ts
                contactId ;;
  match nonEmpty (stringProp "id" activity) with
  | None =>
      throw (js "Missing activity id after upsert for source_key="
             ++ source_key message)
  | Some activityId =>
      let res := withTotals bumpActivities res in
      res <- (if Classification_eqb (label classification) sales
              then handleSales message senderEmail senderName ts activityId res
              else ret res) ;;
      res <- (if Classification_eqb (label classification) receipt
              then handleReceipt message activityId res
              else ret res) ;;
      ret {| result_ := withTotals bumpProcessed res; maxTsByAccount := maxTs |}
  end.

(** The body of [for (const accountEmail of accountSet)]. *)
Definition updatePollState (maxTs : list (jsstring * jsstring))
  (accountEmail : jsstring) (res : ProcessResult) : M W ProcessResult :=
  t1 <- lift now ;;
  t2 <- lift now ;;
  _ <- upsert (pollStateTable cfg) (js "account_email")
         (object
            [("account_email", str accountEmail);
             ("last_polled_at", str t1);
             ("last_message_ts", ostr (mapGet accountEmail maxTs));
             ("updated_at", str t2)]%string) ;;
  ret (pushPollStateUpdate
         {| ps_account_email := accountEmail;
            last_polled_at := t1;
            last_message_ts := mapGet accountEmail maxTs |}
         res).

(** [accountSet]: the mailboxes of the messages, then those of the
    per-mailbox summaries. *)
Definition accountSetOf (poll : PollFile) : list jsstring :=
  fold_left
    (fun acc entry =>
       match nonEmpty (pa_account_email entry) with
       | Some a => setAdd a acc
       | None => acc
       end)
    (match per_account poll with Some es => es | None => [] end)
    (fold_left (fun acc message => setAdd (account_email message) acc)
               (messages poll) []).

Definition isTrue (o : option bool) : bool :=
  match o with Some true => true | _ => false end.

(** [poll.partial_failure || result.sales_drafts.some((entry) => !entry.slack_posted)] *)
Definition finalStatus (poll : PollFile) (res : ProcessResult) : RunStatus :=
  if isTrue (partial_failure poll)
     || existsb (fun entry => negb (slack_posted entry)) (sales_drafts res)
  then status_partial_failure
  else status_ok.

(** The message loop. *)
Definition processMessages (poll : PollFile) (st : RunState) : M W RunState :=
  forEach processMessage (messages poll) st.

(** The end of [main]: the watermark rows, the terminal status and the patch
    of the run record. *)
Definition finalizeRun (poll : PollFile) (st : RunState) : M W ProcessResult :=
  res <- forEach (updatePollState (maxTsByAccount st)) (accountSetOf poll)
           (result_ st) ;;
  finishedAt <- lift now ;;
  let res := finish (finalStatus poll res) finishedAt res in
  t1 <- lift now ;;
  _ <- supabasePatchRows (supabaseUrl cfg) (supabaseKey cfg) (jobRunsTable cfg)
         [(js "id", run_id res)]
         (object
            [("finished_at", str (finished_at res));
             ("status", str (statusName (status res)));
             ("degraded", Some (JBool (degraded res)));
             ("metrics",
              Some (JObj (object
                [("polled_messages", Some (jnat (polled_messages (totals res))));
                 ("processed_messages",
                  Some (jnat (processed_messages (totals res))));
                 ("activities_upserted",
                  Some (jnat (activities_upserted (totals res))));
                 ("drafts_upserted", Some (jnat (drafts_upserted (totals res))));
                 ("accounting_entries_upserted",
                  Some (jnat (accounting_entries_upserted (totals res))))])));
             ("warnings", Some (JArr (map JStr (warnings res))));
             ("updated_at", str t1)]%string) ;;
  ret res.

End Orchestrator.

Section Main.
Context {W : Type} `{World W} `{Host}.

Definition isDegraded (snapshot : option SopSnapshot) : bool :=
  match snapshot with
  | Some s => isTrue (sop_degraded s)
  | None => false
  end.

Definition initialWarnings (snapshot : option SopSnapshot) : list jsstring :=
  match snapshot with
  | Some s =>
      if isDegraded snapshot
      then match sop_warnings s with Some ws => ws | None => [] end
      else []
  | None => [js "No SOP snapshot found; continuing with default routing behavior."]
  end.

(** The start of [main]: the run record is created with status [running] and
    the result document is initialised. *)
Definition startRun (cfg : Config) (poll : PollFile)
  (snapshot : option SopSnapshot) : M W RunState :=
  startedAt <- lift now ;;
  runId <- match nonEmpty (poll_run_id poll) with
           | Some r => ret r
           | None => lift randomUUID
           end ;;
  t0 <- lift now ;;
  _ <- upsert cfg (jobRunsTable cfg) (js "id")
         (object
            [("id", str runId);
             ("started_at",
              str (match nonEmpty (poll_started_at poll) with
                   | Some s => s
                   | None => startedAt
                   end));
             ("status", str (js "running"));
             ("degraded", Some (JBool (isDegraded snapshot)));
             ("poll_partial_failure",
              Some (JBool (isTrue (partial_failure poll))));
             ("metrics",
              Some (JObj (object
                [("polled_messages", Some (jnat (length (messages poll))))])));
             ("accounts",
              Some (JArr (map perAccountJson
                            (match per_account poll with
                             | Some es => es
                             | None => []
                             end))));
             ("updated_at", str t0)]%string) ;;
  ret {| result_ :=
           {| run_id := runId;
              started_at := startedAt;
              finished_at := [];
              status := status_ok;
              degraded := isDegraded snapshot;
              totals := {| polled_messages := length (messages poll);
                           processed_messages := 0;
                           activities_upserted := 0;
                           drafts_upserted := 0;
                           accounting_entries_upserted := 0 |};
              classification_counts := fun _ => 0%nat;
              sales_drafts := [];
              accounting_entries := [];
              poll_state_updates := [];
              warnings := initialWarnings snapshot |};
         maxTsByAccount := [] |}.

(** [main], from the resolution of the configuration to the patch of the run
    record, in its three phases; the command-line parsing and the file reads
    before it and the write of the result document after it are left out. *)
Definition main (env : Env) (poll : PollFile) (snapshot : option SopSnapshot)
  : M W ProcessResult :=
  cfg <- ofResult (configOf env) ;;
  st0 <- startRun cfg poll snapshot ;;
  st <- processMessages env cfg snapshot (pickSopCues snapshot) poll st0 ;;
  finalizeRun cfg poll st.

End Main.

(* ================================================================== *)
(** * The notifications of a run *)

Section Sends.
Context {W : Type} `{World W} `{Host}.

Variable env : Env.
Variable cfg : Config.
Variable sopSnapshot : option SopSnapshot.
Variable sopCues : list jsstring.

(** The notification of the draft [d] of the message [m]. *)
Definition noticeOf (m : PollMessage) (ts : option jsstring) (d : SalesDraft)
  : SlackMessage :=
  buildDraftSlackMessage (draft_id d) (to_email d)
    (extractDisplayName (from m)) (extractEmailAddress (from m))
    (account_email m)
    (fst (buildSalesDraft (extractDisplayName (from m))
            (extractEmailAddress (from m)) (subject m) (snippet m) sopCues))
    ts.

(** The calls that the loop body makes for the sales message [m] from the
    world [w], one after the other: the contact, the activity, the draft
    [d], the summary noted on it, and at last the send of its notification,
    which answers [out] and leaves the world [w']. *)
Definition salesSend (m : PollMessage) (w : W) (d : SalesDraft)
  (out : SlackOutcome) (w' : W) : Prop :=
  let senderEmail := extractEmailAddress (from m) in
  let senderName := extractDisplayName (from m) in
  let draft := buildSalesDraft senderName senderEmail (subject m) (snippet m)
                 sopCues in
  exists ts contactId w1 activity w2 stored w3 t2 w4 rows w5,
    messageTs m = Ok ts
    /\ upsertContact cfg m sales senderEmail senderName ts w = (Ok contactId, w1)
    /\ upsertActivity cfg sopSnapshot m (classifyInbound m) senderEmail
         senderName ts contactId w1 = (Ok activity, w2)
    /\ nonEmpty (stringProp "id" activity) = Some (sd_activity_id d)
    /\ to_email d = match nonEmpty senderEmail with
                    | Some e => e
                    | None => js "unknown@example.com"
                    end
    /\ sd_account_email d = account_email m
    /\ upsertDraft cfg sopSnapshot m (sd_activity_id d) (to_email d) draft w2
       = (Ok stored, w3)
    /\ nonEmpty (stringProp "id" stored) = Some (draft_id d)
    /\ lift now w3 = (Ok t2, w4)
    /\ supabasePatchRows (supabaseUrl cfg) (supabaseKey cfg) (draftsTable cfg)
         [(js "id", draft_id d)]
         (draftPatch (slack_text (noticeOf m ts d)) t2) w4
       = (Ok rows, w5)
    /\ maybePostSlack env (noticeOf m ts d) w5 = (Ok out, w').

(** The drafts [ds] are those of the sales messages of [msgs], in order,
    and each carries what the send of its notification answered, the loop
    going over [msgs] from the state [st] and the world [w]. *)
Fixpoint sendsRecorded (msgs : list PollMessage) (st : RunState) (w : W)
  (ds : list SalesDraft) : Prop :=
  match msgs with
  | [] => ds = []
  | m :: rest =>
      exists st' w',
        processMessage env cfg sopSnapshot sopCues m st w = (Ok st', w')
        /\ if Classification_eqb (label (classifyInbound m)) sales
           then exists d ds' out,
                  ds = d :: ds'
                  /\ salesSend m w d out w'
                  /\ slack_posted d = posted out
                  /\ slack_error d = error out
                  /\ sendsRecorded rest st' w' ds'
           else sendsRecorded rest st' w' ds
  end.

End Sends.

(* ================================================================== *)
(** * Command line and record helpers *)

(** What a flag holds: [true], or the token that followed the flag. *)
Inductive FlagValue : Type :=
| FlagTrue
| FlagText (s : jsstring).

Record CliArgs : Type := {
  command : option jsstring;
  flags : list (jsstring * FlagValue)
}.

(** [flags[key] = v] on an object that started as [{}]: a key that is there
    keeps its place, a new key goes last.  The key [__proto__] reaches the
    accessor inherited from [Object.prototype], which ignores a string or a
    boolean: no property is made. *)
Fixpoint flagPut (key : jsstring) (v : FlagValue)
  (fl : list (jsstring * FlagValue)) : list (jsstring * FlagValue) :=
  match fl with
  | [] => [(key, v)]
  | (k', v') :: fl' =>
      if jsstring_eqb key k' then (key, v) :: fl'
      else (k', v') :: flagPut key v fl'
  end.

Definition flagSet (key : jsstring) (v : FlagValue)
  (fl : list (jsstring * FlagValue)) : list (jsstring * FlagValue) :=
  if jsstring_eqb key (js "__proto__") then fl else flagPut key v fl.

(** [flags[key]] for a key that [Object.prototype] does not define, which is
    the case of the three keys [main] reads. *)
Fixpoint flagGet (key : jsstring) (fl : list (jsstring * FlagValue))
  : option FlagValue :=
  match fl with
  | [] => None
  | (k', v) :: fl' => if jsstring_eqb key k' then Some v else flagGet key fl'
  end.

(** The loop of [parseArgs] over the tokens after the command. *)
Fixpoint parseFlags (tokens : list jsstring) (fl : list (jsstring * FlagValue))
  : list (jsstring * FlagValue) :=
  match tokens with
  | [] => fl
  | token :: rest =>
      if negb (startsWith token (js "--")) then parseFlags rest fl
      else
        let key := skipn 2 token in
        match rest with
        | next :: rest' =>
            if negb (truthy next) || startsWith next (js "--")
            then parseFlags rest (flagSet key FlagTrue fl)
            else parseFlags rest' (flagSet key (FlagText next) fl)
        | [] => flagSet key FlagTrue fl
        end
  end.

Definition parseArgs (argv : list jsstring) : CliArgs :=
  let tokens := skipn 2 argv in
  {| command := hd_error tokens; flags := parseFlags (tl tokens) [] |}.

(** [typeof value === "string" ? value : undefined] *)
Definition asString (value : option FlagValue) : option jsstring :=
  match value with
  | Some (FlagText s) => Some s
  | _ => None
  end.

(** [getString]: the trimmed value of the first key that holds a string
    with something other than white space in it. *)
Fixpoint getString (record : row) (keys : list jsstring) : option jsstring :=
  match keys with
  | [] => None
  | key :: rest =>
      match prop key record with
      | Some (JStr value) =>
          if truthy (trim value) then Some (trim value)
          else getString record rest
      | _ => getString record rest
      end
  end.

Definition DEFAULT_OUTPUT_FILE : jsstring := js "/tmp/crm-process.json".

Definition usageText : jsstring :=
  js "Usage: bun process-inbound.ts process_inbound --poll-file <path> [--sop-file <path>] [--output <path>]".

(** The paths [main] works with. *)
Record CliOptions : Type := {
  pollFile : jsstring;
  outputFile : jsstring;
  sopFile : option jsstring
}.

(** How the first lines of [main] end: the usage text and [process.exit(1)],
    an exception, or the paths to go on with. *)
Inductive Startup : Type :=
| ExitWith (code : N) (stderr : jsstring)
| Fails (e : jsstring)
| Proceeds (o : CliOptions).

Definition startup (argv : list jsstring) : Startup :=
  let args := parseArgs argv in
  if negb (match command args with
           | Some c => jsstring_eqb c (js "process_inbound")
           | None => false
           end)
  then ExitWith 1 usageText
  else
    match clean (asString (flagGet (js "poll-file") (flags args))) with
    | None => Fails (js "--poll-file is required")
    | Some pollFile =>
        Proceeds
          {| pollFile := pollFile;
             outputFile :=
               match clean (asString (flagGet (js "output") (flags args))) with
               | Some o => o
               | None => DEFAULT_OUTPUT_FILE
               end;
             sopFile := clean (asString (flagGet (js "sop-file") (flags args))) |}
    end.

(** The tokens of a list of [--key value] pairs. *)
Definition pairTokens (kvs : list (jsstring * jsstring)) : list jsstring :=
  flat_map (fun kv => [js "--" ++ fst kv; snd kv]) kvs.

(** A token that [parseArgs] takes as the value of the flag before it. *)
Definition usableValue (v : jsstring) : bool :=
  truthy v && negb (startsWith v (js "--")).

(** The value of the last [--key value] pair for [k], if any. *)
Definition lastValue (k : jsstring) (kvs : list (jsstring * jsstring))
  : option jsstring :=
  option_map snd (find (fun kv => jsstring_eqb k (fst kv)) (rev kvs)).

(** A key that [getString] passes over: no value, a value that is not a
    string, or a string of white space only. *)
Definition passedOver (record : row) (key : jsstring) : bool :=
  match prop key record with
  | Some (JStr value) => forallb isWhiteSpace value
  | _ => true
  end.

(** The lines [pickSopCues] collects from the sections: each heading, then
    the items under it. *)
Definition sectionLines (b : SopBody) : list jsstring :=
  match sections b with
  | Some secs =>
      flat_map
        (fun section =>
           trimmed (heading section)
           ++ flat_map (fun item => trimmed (Some item))
                       (match items section with
                        | Some its => its
                        | None => []
                        end))
        secs
  | None => []
  end.

(** The lines it collects from the blocks. *)
Definition blockLines (b : SopBody) : list jsstring :=
  match blocks b with
  | Some bs => flat_map trimmed bs
  | None => []
  end.

(** The three approval commands for the draft [draftId]. *)
Definition approvalCommandsFor (draftId : jsstring) : jsstring :=
  js "Approve: /skill crm-inbound-orchestrator approve " ++ draftId ++ [10]
  ++ js "Revise: /skill crm-inbound-orchestrator revise " ++ draftId
  ++ js " <notes>" ++ [10]
  ++ js "Reject: /skill crm-inbound-orchestrator reject " ++ draftId
  ++ js " <reason>".

(** ** What a finished run reports, against the batch *)

Section Tallies.
Context `{Host}.

(** The messages of a batch that [classifyInbound] labels [l]. *)
Definition labelled (l : Classification) (msgs : list PollMessage)
  : list PollMessage :=
  filter (fun m => Classification_eqb (label (classifyInbound m)) l) msgs.

(** The address a draft for [m] is written to. *)
Definition draftRecipient (m : PollMessage) : jsstring :=
  match nonEmpty (extractEmailAddress (from m)) with
  | Some e => e
  | None => js "unknown@example.com"
  end.

(** A listed draft is the draft of the sales message [m]. *)
Definition draftOf (d : SalesDraft) (m : PollMessage) : Prop :=
  sd_account_email d = account_email m /\ to_email d = draftRecipient m.

(** A listed accounting entry is the entry of the receipt message [m]. *)
Definition entryOf (e : AccountingEntry) (m : PollMessage) : Prop :=
  ae_source_key e = source_key m
  /\ exists info,
       parseReceiptInfo m = Ok info
       /\ ae_vendor e = vendor info
       /\ ae_amount e = amount info
       /\ ae_currency e = currency info.

(** The result document after the messages [done] went through the loop. *)
Record Tallied (done : list PollMessage) (r : ProcessResult) : Prop := {
  tallied_processed : processed_messages (totals r) = length done;
  tallied_activities : activities_upserted (totals r) = length done;
  tallied_drafts : drafts_upserted (totals r) = length (sales_drafts r);
  tallied_accounting :
    accounting_entries_upserted (totals r) = length (accounting_entries r);
  tallied_counts :
    forall l, classification_counts r l = length (labelled l done);
  tallied_sales : Forall2 draftOf (sales_drafts r) (labelled sales done);
  tallied_receipts :
    Forall2 entryOf (accounting_entries r) (labelled receipt done)
}.

(** Two result documents that differ at most in the watermark updates, the
    status and the finishing time. *)
Definition sameTallies (r r' : ProcessResult) : Prop :=
  totals r' = totals r
  /\ (forall l, classification_counts r' l = classification_counts r l)
  /\ sales_drafts r' = sales_drafts r
  /\ accounting_entries r' = accounting_entries r
  /\ run_id r' = run_id r /\ started_at r' = started_at r
  /\ degraded r' = degraded r /\ warnings r' = warnings r.

End Tallies.

(* ================================================================== *)
(** * The watermark reduction, on its own *)

Section Watermark.
Context `{Host}.

(** What one pass of the loop body does to [maxTsByAccount]. *)
Definition trackMessage (maxTs : list (jsstring * jsstring))
  (message : PollMessage) : list (jsstring * jsstring) :=
  match messageTs message with
  | Ok ts => trackMaxTs (account_email message) ts maxTs
  | Throw _ => maxTs
  end.

(** [maxTsByAccount] after the loop has gone through [msgs]. *)
Definition watermarks (msgs : list PollMessage)
  (init : list (jsstring * jsstring)) : list (jsstring * jsstring) :=
  fold_left trackMessage msgs init.

(** The usable (truthy) timestamp of a message of the mailbox [a]. *)
Definition usableTs (a : jsstring) (message : PollMessage) : list jsstring :=
  if jsstring_eqb (account_email message) a
  then match messageTs message with
       | Ok ts => match nonEmpty ts with Some t => [t] | None => [] end
       | Throw _ => []
       end
  else [].

(** The usable timestamps of the mailbox [a], in batch order. *)
Definition timestampsOf (a : jsstring) (msgs : list PollMessage)
  : list jsstring :=
  flat_map (usableTs a) msgs.

(** The invariant of the reduction for the mailbox [a]: nothing is recorded
    while no usable timestamp was seen; otherwise the recorded timestamp is one
    of those seen and no timestamp seen parses to a later time. *)
Definition maxOfSeen (a : jsstring) (maxTs : list (jsstring * jsstring))
  (seen : list jsstring) : Prop :=
  match mapGet a maxTs with
  | None => seen = []
  | Some t =>
      In t seen
      /\ exists z, Date_parse t = Some z
                   /\ forall t' z', In t' seen -> Date_parse t' = Some z' ->
                                    (z' <= z)%Z
  end.

End Watermark.

(* ================================================================== *)
(** * Reference host: ASCII case mapping and ISO-8601 UTC timestamps *)

Module AsciiHostImpl.

Definition lowerUnit (c : N) : N := if isUpper c then c + 32 else c.
Definition upperUnit (c : N) : N := if isLower c then c - 32 else c.

(** Value of a run of decimal digits; [None] on any other code unit. *)
Fixpoint digitsValue (acc : Z) (s : jsstring) : option Z :=
  match s with
  | [] => Some acc
  | c :: t =>
      if isDigit c then digitsValue (10 * acc + Z.of_N (c - 48))%Z t else None
  end.

Definition number (s : jsstring) : option Z :=
  match s with [] => None | _ => digitsValue 0%Z s end.

(** Days between 1970-01-01 and the civil date [y-m-d]. *)
Definition daysFromCivil (y m d : Z) : Z :=
  let y' := (if m <=? 2 then y - 1 else y)%Z in
  let era := (y' / 400)%Z in
  let yoe := (y' - era * 400)%Z in
  let mp := (if m >? 2 then m - 3 else m + 9)%Z in
  let doy := ((153 * mp + 2) / 5 + d - 1)%Z in
  let doe := (yoe * 365 + yoe / 4 - yoe / 100 + doy)%Z in
  (era * 146097 + doe - 719468)%Z.

Definition isLeap (y : Z) : bool :=
  ((y mod 4 =? 0) && (negb (y mod 100 =? 0) || (y mod 400 =? 0)))%Z.

Definition daysInMonth (y m : Z) : Z :=
  (if m =? 2 then (if isLeap y then 29 else 28)
   else if (m =? 4) || (m =? 6) || (m =? 9) || (m =? 11) then 30 else 31)%Z.

Definition sub (i n : nat) (s : jsstring) : jsstring := firstn n (skipn i s).

Definition inRange (lo x hi : Z) : bool := ((lo <=? x) && (x <=? hi))%Z.

(** [YYYY-MM-DDTHH:mm:ssZ] and [YYYY-MM-DDTHH:mm:ss.sssZ], the interchange
    format every engine accepts; anything else is NaN here. *)
Definition parseIso (s : jsstring) : option Z :=
  let n := length s in
  if negb (Nat.eqb n 20 || Nat.eqb n 24) then None
  else if negb (jsstring_eqb (sub 4 1 s) (js "-")
                && jsstring_eqb (sub 7 1 s) (js "-")
                && jsstring_eqb (sub 10 1 s) (js "T")
                && jsstring_eqb (sub 13 1 s) (js ":")
                && jsstring_eqb (sub 16 1 s) (js ":")
                && jsstring_eqb (sub (n - 1) 1 s) (js "Z")
                && (Nat.eqb n 20 || jsstring_eqb (sub 19 1 s) (js ".")))
  then None
  else
    match number (sub 0 4 s), number (sub 5 2 s), number (sub 8 2 s),
          number (sub 11 2 s), number (sub 14 2 s), number (sub 17 2 s),
          (if Nat.eqb n 20 then Some 0%Z else number (sub 20 3 s)) with
    | Some y, Some mo, Some d, Some h, Some mi, Some sec, Some ms =>
        if inRange 1 mo 12 && inRange 1 d (daysInMonth y mo)
           && inRange 0 h 23 && inRange 0 mi 59 && inRange 0 sec 59
        then Some (((daysFromCivil y mo d * 24 + h) * 60 + mi) * 60000
                   + sec * 1000 + ms)%Z
        else None
    | _, _, _, _, _, _, _ => None
    end.

(** [width] decimal digits of a non-negative [v], most significant first. *)
Fixpoint pad (width : nat) (v : Z) : jsstring :=
  match width with
  | O => []
  | S w => pad w (v / 10)%Z ++ [48 + Z.to_N (v mod 10)%Z]
  end.

(** Integer part of a finite float, truncated toward zero. *)
Definition truncZ (x : float) : option Z :=
  match Prim2SF x with
  | S754_zero _ => Some 0%Z
  | S754_finite sgn m e =>
      let mag := (if (0 <=? e)%Z then Zpos m * 2 ^ e
                  else Zpos m / 2 ^ (- e))%Z in
      Some (if sgn then - mag else mag)%Z
  | _ => None
  end.

(** The ISO-8601 text of the time value [t], inside the range of [Date]. *)
Definition isoOfMillis (t : Z) : option jsstring :=
      if negb (inRange (-8640000000000000) t 8640000000000000) then None
      else
        let days := (t / 86400000)%Z in
        let msOfDay := (t mod 86400000)%Z in
        let z := (days + 719468)%Z in
        let era := (z / 146097)%Z in
        let doe := (z - era * 146097)%Z in
        let yoe := ((doe - doe / 1460 + doe / 36524 - doe / 146096) / 365)%Z in
        let doy := (doe - (365 * yoe + yoe / 4 - yoe / 100))%Z in
        let mp := ((5 * doy + 2) / 153)%Z in
        let d := (doy - (153 * mp + 2) / 5 + 1)%Z in
        let m := (if mp <? 10 then mp + 3 else mp - 9)%Z in
        let y := (yoe + era * 400 + (if m <=? 2 then 1 else 0))%Z in
        let year :=
          if inRange 0 y 9999 then pad 4 y
          else if (y <? 0)%Z then js "-" ++ pad 6 (- y)
          else js "+" ++ pad 6 y in
        Some (year ++ js "-" ++ pad 2 m ++ js "-" ++ pad 2 d ++ js "T"
              ++ pad 2 (msOfDay / 3600000) ++ js ":"
              ++ pad 2 (msOfDay / 60000 mod 60) ++ js ":"
              ++ pad 2 (msOfDay / 1000 mod 60) ++ js "."
              ++ pad 3 (msOfDay mod 1000) ++ js "Z").

(** [new Date(x).toISOString()] *)
Definition isoOfNumber (x : float) : option jsstring :=
  match truncZ x with
  | None => None
  | Some t => isoOfMillis t
  end.

End AsciiHostImpl.

(** The reference host.  On strings of ASCII code units its case mappings
    are those of ECMAScript; on the two ISO-8601 UTC layouts its [Date_parse]
    is the one every engine implements. *)
#[export] Instance AsciiHost : Host := {|
  toLowerCase := map AsciiHostImpl.lowerUnit;
  toUpperCase := map AsciiHostImpl.upperUnit;
  Date_parse := AsciiHostImpl.parseIso;
  Date_toISOString := AsciiHostImpl.isoOfNumber
|}.

(* ================================================================== *)
(** * Reference world: an in-memory store behind the REST endpoint *)

Module Store.

Fixpoint json_eqb (a b : json) {struct a} : bool :=
  match a, b with
  | JNull, JNull => true
  | JBool x, JBool y => Bool.eqb x y
  | JNum x, JNum y => PrimFloat.eqb x y
  | JStr x, JStr y => jsstring_eqb x y
  | JArr xs, JArr ys =>
      (fix all2 (xs ys : list json) {struct xs} : bool :=
         match xs, ys with
         | [], [] => true
         | x :: xs', y :: ys' => json_eqb x y && all2 xs' ys'
         | _, _ => false
         end) xs ys
  | JObj fs, JObj gs =>
      (fix all2 (fs gs : list (jsstring * json)) {struct fs} : bool :=
         match fs, gs with
         | [], [] => true
         | (k, x) :: fs', (k', y) :: gs' =>
             jsstring_eqb k k' && json_eqb x y && all2 fs' gs'
         | _, _ => false
         end) fs gs
  | _, _ => false
  end.

(** The state of the world: the tables by name, the identifier and uuid
    counters, the clock in milliseconds, and the scripted outcomes of the
    coming notification requests ([None]: the request fails in transport). *)
Record Backend : Type := {
  tables : jsstring -> list row;
  nextId : N;
  nextUuid : N;
  clockMs : Z;
  slackScript : list (option Response)
}.

(** [r] with the column [k] set to [v]. *)
Fixpoint setColumn (k : jsstring) (v : json) (r : row) : row :=
  match r with
  | [] => [(k, v)]
  | (k', v') :: r' =>
      if jsstring_eqb k k' then (k, v) :: r' else (k', v') :: setColumn k v r'
  end.

(** [r] with every column of [p] written over it. *)
Definition mergeRow (r p : row) : row :=
  fold_left (fun acc kv => setColumn (fst kv) (snd kv) acc) p r.

(** Whether the stored row [r] holds [key] in the column [c]; NULL never
    matches. *)
Definition hasKey (c : jsstring) (key : json) (r : row) : bool :=
  match key, prop c r with
  | JNull, _ => false
  | _, Some v => json_eqb key v
  | _, None => false
  end.

(** Writes [p] over the first row that holds [key]; the rows and whether one
    was found. *)
Fixpoint mergeFirst (c : jsstring) (key : json) (p : row) (rows : list row)
  : option (list row * row) :=
  match rows with
  | [] => None
  | r :: rows' =>
      if hasKey c key r
      then Some (mergeRow r p :: rows', mergeRow r p)
      else match mergeFirst c key p rows' with
           | Some (rows'', merged) => Some (r :: rows'', merged)
           | None => None
           end
  end.

Definition freshId (n : N) : jsstring := js "row-" ++ zToString (Z.of_N n).

(** Modelled from the spec: the persistence substrate, whose table
    definitions ([references/supabase-schema.sql]) are not among the sources.
    Upsert by unique key with merge resolution: the row that holds the
    payload's value of the conflict column takes the payload's columns,
    otherwise the payload is inserted, with a generated [id] when it brings
    none.  The result is the stored row and the new table. *)
Definition upsertInto (c : jsstring) (p : row) (rows : list row) (n : N)
  : list row * row * N :=
  match match prop c p with
        | Some key => mergeFirst c key p rows
        | None => None
        end with
  | Some (rows', merged) => (rows', merged, n)
  | None =>
      let inserted :=
        match prop (js "id") p with
        | Some _ => p
        | None => (js "id", JStr (freshId n)) :: p
        end in
      (rows ++ [inserted], inserted, N.succ n)
  end.

Fixpoint upsertAll (c : jsstring) (ps : list json) (rows : list row) (n : N)
  : list row * list json * N :=
  match ps with
  | [] => (rows, [], n)
  | JObj p :: ps' =>
      let '(rows', stored, n') := upsertInto c p rows n in
      let '(rows'', out, n'') := upsertAll c ps' rows' n' in
      (rows'', JObj stored :: out, n'')
  | _ :: ps' => upsertAll c ps' rows n
  end.

(** A [column=eq.value] filter holds when the column is that text. *)
Definition matchesFilter (r : row) (f : jsstring * jsstring) : bool :=
  if jsstring_eqb (fst f) (js "select") then true
  else
    match prop (fst f) r with
    | Some (JStr v) => jsstring_eqb (js "eq." ++ v) (snd f)
    | _ => false
    end.

(** Modelled from the spec: patch by filter of the same substrate.  Every row
    that satisfies all the filters takes the columns of the patch. *)
Definition patchWhere (filters : list (jsstring * jsstring)) (p : row)
  (rows : list row) : list row * list json :=
  (map (fun r => if forallb (matchesFilter r) filters then mergeRow r p else r)
       rows,
   map (fun r => JObj (mergeRow r p))
       (filter (fun r => forallb (matchesFilter r) filters) rows)).

Definition setTable (name : jsstring) (rows : list row)
  (t : jsstring -> list row) : jsstring -> list row :=
  fun n => if jsstring_eqb n name then rows else t n.

(** The text after the first [/rest/v1/] of a URL. *)
Fixpoint tableOfUrl (url : jsstring) : option jsstring :=
  if startsWith url (js "/rest/v1/")
  then Some (skipn 9 url)
  else match url with
       | [] => None
       | _ :: t => tableOfUrl t
       end.

Definition okResponse (st : N) (body : json) : Response :=
  {| resp_ok := true; resp_status := st;
     resp_text := js "(json)"; resp_json := Some body |}.

Definition withTables (t : jsstring -> list row) (n : N) (b : Backend)
  : Backend :=
  {| tables := t; nextId := n; nextUuid := nextUuid b;
     clockMs := clockMs b; slackScript := slackScript b |}.

(** Modelled from the spec: the REST endpoint of the substrate and the
    notification endpoint.  A notification request takes the next scripted
    outcome (success when the script is used up); a POST with [on_conflict]
    is an upsert, a PATCH is a patch by filter, both returning the stored
    rows; any other request fails in transport. *)
Definition serve (req : Request) (b : Backend) : option Response * Backend :=
  if jsstring_eqb (req_url req) slackUrl
  then
    match slackScript b with
    | outcome :: script' =>
        (outcome,
         {| tables := tables b; nextId := nextId b; nextUuid := nextUuid b;
            clockMs := clockMs b; slackScript := script' |})
    | [] => (Some (okResponse 200 (JObj [(js "ok", JBool true)])), b)
    end
  else
    match tableOfUrl (req_url req), req_method req, req_body req with
    | Some name, POST, Some (JArr ps) =>
        match mapGet (js "on_conflict") (req_query req) with
        | Some c =>
            let '(rows', out, n') := upsertAll c ps (tables b name) (nextId b) in
            (Some (okResponse 201 (JArr out)),
             withTables (setTable name rows' (tables b)) n' b)
        | None => (None, b)
        end
    | Some name, PATCH, Some (JObj p) =>
        let '(rows', out) := patchWhere (req_query req) p (tables b name) in
        (Some (okResponse 200 (JArr out)),
         withTables (setTable name rows' (tables b)) (nextId b) b)
    | Some name, GET, _ =>
        (Some (okResponse 200 (JArr (map JObj (tables b name)))), b)
    | _, _, _ => (None, b)
    end.

Definition tick (b : Backend) : jsstring * Backend :=
  (match AsciiHostImpl.isoOfMillis (clockMs b) with
   | Some iso => iso
   | None => js "1970-01-01T00:00:00.000Z"
   end,
   {| tables := tables b; nextId := nextId b; nextUuid := nextUuid b;
      clockMs := (clockMs b + 1)%Z; slackScript := slackScript b |}).

Definition uuid (b : Backend) : jsstring * Backend :=
  (js "run-" ++ zToString (Z.of_N (nextUuid b)),
   {| tables := tables b; nextId := nextId b; nextUuid := N.succ (nextUuid b);
      clockMs := clockMs b; slackScript := slackScript b |}).

(** An empty store at the given clock, with a notification script. *)
Definition empty (clock : Z) (script : list (option Response)) : Backend :=
  {| tables := fun _ => []; nextId := 1; nextUuid := 1;
     clockMs := clock; slackScript := script |}.

End Store.

#[export] Instance StoreWorld : World Store.Backend := {|
  fetch := Store.serve;
  now := Store.tick;
  randomUUID := Store.uuid
|}.

(* ================================================================== *)
(** * What the tables hold *)

Module Tables.

(** Some row holds the text [k] in the column [c]. *)
Definition held (c : string) (k : jsstring) (rows : list row) : bool :=
  existsb (Store.hasKey (js c) (JStr k)) rows.

(** The first row that holds [k] in the column [c]: the one an upsert on
    [c] merges into. *)
Definition firstRow (c : string) (k : jsstring) (rows : list row)
  : option row :=
  find (Store.hasKey (js c) (JStr k)) rows.

(** The [id] of that row, when it is a string. *)
Definition firstId (c : string) (k : jsstring) (rows : list row)
  : option jsstring :=
  match firstRow c k rows with
  | Some r => stringProp "id" r
  | None => None
  end.

(** Rows that agree, one by one, on the columns [cols]. *)
Definition rowsAgree (cols : list jsstring) (rows rows' : list row) : Prop :=
  Forall2 (fun r r' => forall col, In col cols -> prop col r' = prop col r)
          rows rows'.

(** What an upsert of a row with the text [k] in the conflict column [c]
    leaves: the stored row is the first that holds [k]; the keys held and the
    identifiers of their first rows are kept; and if [k] was held before, the
    table has as many rows as before and the stored row carries the
    identifier that the first row of [k] had. *)
Definition Upserted (c : string) (k : jsstring) (rows rows' : list row)
  (stored : row) : Prop :=
  firstRow c k rows' = Some stored
  /\ held c k rows' = true
  /\ (forall k2, held c k2 rows = true -> held c k2 rows' = true)
  /\ (forall k2 a, firstId c k2 rows = Some a -> firstId c k2 rows' = Some a)
  /\ (held c k rows = true ->
      length rows' = length rows /\ stringProp "id" stored = firstId c k rows).

(** The store answers under the configured URL, which is not that of the
    notification endpoint, and the six tables have six names. *)
Definition wellConfigured (cfg : Config) : Prop :=
  (forall t,
      jsstring_eqb (supabaseUrl cfg ++ js "/rest/v1/" ++ t) slackUrl = false
      /\ Store.tableOfUrl (supabaseUrl cfg ++ js "/rest/v1/" ++ t) = Some t)
  /\ NoDup [contactsTable cfg; activitiesTable cfg; draftsTable cfg;
            accountingTable cfg; jobRunsTable cfg; pollStateTable cfg].

Section Relations.
Context `{Host}.
Variable cfg : Config.

(** The activities, drafts and accounting tables are the same lists. *)
Definition Same3 (T T' : jsstring -> list row) : Prop :=
  T (activitiesTable cfg) = T' (activitiesTable cfg)
  /\ T (draftsTable cfg) = T' (draftsTable cfg)
  /\ T (accountingTable cfg) = T' (accountingTable cfg).

(** Nothing that the batch relies on is lost from [T] to [T']: the dedup
    keys held by the activities and accounting tables, the identifier of the
    activity that holds a key, and the activity links held by the drafts
    table. *)
Record Keeps (T T' : jsstring -> list row) : Prop := {
  keeps_activity :
    forall k, held "source_key" k (T (activitiesTable cfg)) = true ->
              held "source_key" k (T' (activitiesTable cfg)) = true;
  keeps_activity_id :
    forall k a, firstId "source_key" k (T (activitiesTable cfg)) = Some a ->
                firstId "source_key" k (T' (activitiesTable cfg)) = Some a;
  keeps_draft :
    forall a, held "activity_id" a (T (draftsTable cfg)) = true ->
              held "activity_id" a (T' (draftsTable cfg)) = true;
  keeps_accounting :
    forall k, held "source_key" k (T (accountingTable cfg)) = true ->
              held "source_key" k (T' (accountingTable cfg)) = true
}.

(** The three tables have as many rows in [T'] as in [T]. *)
Definition SameCounts (T T' : jsstring -> list row) : Prop :=
  length (T' (activitiesTable cfg)) = length (T (activitiesTable cfg))
  /\ length (T' (draftsTable cfg)) = length (T (draftsTable cfg))
  /\ length (T' (accountingTable cfg)) = length (T (accountingTable cfg)).

(** The rows that processing [m] writes are already there: its activity, its
    accounting entry if it is a receipt, and the draft of its activity if it
    is a sales message. *)
Definition Covered (T : jsstring -> list row) (m : PollMessage) : Prop :=
  held "source_key" (source_key m) (T (activitiesTable cfg)) = true
  /\ (label (classifyInbound m) = receipt ->
      held "source_key" (source_key m) (T (accountingTable cfg)) = true)
  /\ (label (classifyInbound m) = sales ->
      exists a,
        firstId "source_key" (source_key m) (T (activitiesTable cfg)) = Some a
        /\ held "activity_id" a (T (draftsTable cfg)) = true).

End Relations.

(** Every outcome of [c] relates the tables before and after by [R]. *)
Definition effect (R : (jsstring -> list row) -> (jsstring -> list row) -> Prop)
  {A : Type} (c : M Store.Backend A) : Prop :=
  forall b r b', c b = (r, b') -> R (Store.tables b) (Store.tables b').

End Tables.

(* ================================================================== *)
(** * A world that answers from a script *)

Module Scripted.

(** The replies still to give, in order; a request that finds none left
    fails in transport. *)
Definition serve (req : Request) (script : list (option Response))
  : option Response * list (option Response) :=
  match script with
  | reply :: script' => (reply, script')
  | [] => (None, [])
  end.

Definition tick (script : list (option Response))
  : jsstring * list (option Response) :=
  (js "2024-01-05T00:00:00.000Z", script).

Definition uuid (script : list (option Response))
  : jsstring * list (option Response) :=
  (js "run-1", script).

End Scripted.

#[export] Instance ScriptedWorld : World (list (option Response)) := {|
  fetch := Scripted.serve;
  now := Scripted.tick;
  randomUUID := Scripted.uuid
|}.

(* ================================================================== *)
(** * Sample inputs *)

Module Samples.

Definition message (mailbox id sender subj snip : string) (ts : option string)
  : PollMessage :=
  {| account_email := js mailbox;
     message_id := js id;
     thread_id := None;
     subject := Some (js subj);
     from := Some (js sender);
     snippet := Some (js snip);
     received_at := option_map js ts;
     internal_ts := None;
     source_key := js mailbox ++ js ":" ++ js id;
     raw := None |}.

(** A job-network alert whose text also carries receipt, sales and support
    vocabulary. *)
Definition linkedinAlert : PollMessage :=
  message "info@promptcircle.com" "a1" "jobalerts@linkedin.com"
    "job alert: exciting opportunity"
    "invoice attached, see the demo, support issue" None.

(** Two receipt hits (invoice, payment) against two sales hits (quote, demo). *)
Definition invoiceWithQuote : PollMessage :=
  message "info@promptcircle.com" "a2" "Pat Lee <pat@acme.io>"
    "Invoice and quote" "payment for the demo" None.

(** A no-reply sender whose text mentions pricing and a demo. *)
Definition noReplyPricing : PollMessage :=
  message "info@promptcircle.com" "a3" "no-reply@acme.io"
    "New pricing" "see our demo" None.

(** A newsletter that mentions a demo: one sales hit, no receipt hit, no
    direct-inquiry phrase. *)
Definition newsletterDemo : PollMessage :=
  message "info@promptcircle.com" "a4" "news@acme.io"
    "Monthly newsletter" "watch the product demo" None.

(** An invoice whose total is written with four hundred digits. *)
Definition hugeInvoice : PollMessage :=
  {| account_email := js "info@promptcircle.com";
     message_id := js "a5";
     thread_id := None;
     subject := Some (js "Invoice");
     from := Some (js "billing@vendor.com");
     snippet := Some (js "Total due: $" ++ repeat 57 400);
     received_at := None;
     internal_ts := None;
     source_key := js "info@promptcircle.com:a5";
     raw := None |}.

(** The invoice of the specification's second end-to-end example. *)
Definition vendorInvoice : PollMessage :=
  message "info@promptcircle.com" "a6" "billing@vendor.com"
    "Invoice #1029" "Your payment of $240.00 has been charged" None.

(** The consulting inquiry of the first end-to-end example. *)
Definition consultingInquiry (ts : string) : PollMessage :=
  message "info@promptcircle.com" "b1" "Jane Doe <jane@acmeco.com>"
    "Consulting inquiry"
    "We are interested in a retainer engagement, could we book a call?"
    (Some ts).

(** A support request from the same sender. *)
Definition supportRequest (ts : string) : PollMessage :=
  message "info@promptcircle.com" "b2" "Jane Doe <jane@acmeco.com>"
    "Login problem" "I need help with an error on the dashboard" (Some ts).

Definition batchNamed (runId : string) (flag : option bool)
  (ms : list PollMessage) : PollFile :=
  {| poll_run_id := Some (js runId);
     poll_started_at := None;
     poll_finished_at := None;
     partial_failure := flag;
     messages := ms;
     per_account := None |}.

Definition batch (flag : option bool) (ms : list PollMessage) : PollFile :=
  batchNamed "run-2024-01-05" flag ms.

(** Credentials for the store and for the notification channel. *)
Definition env : Env :=
  {| SUPABASE_URL := Some (js "https://db.example.test");
     SUPABASE_SECRET_KEY := Some (js "service-key");
     CRM_CONTACTS_TABLE := None;
     CRM_ACTIVITIES_TABLE := None;
     CRM_DRAFTS_TABLE := None;
     CRM_ACCOUNTING_TABLE := None;
     CRM_JOB_RUNS_TABLE := None;
     CRM_POLL_STATE_TABLE := None;
     SLACK_BOT_TOKEN := Some (js "xoxb-token");
     CRM_SLACK_CHANNEL_ID := Some (js "C0123");
     SLACK_CHANNEL_ID := None;
     CRM_SLACK_CHANNEL := None |}.

Definition cfg : Config :=
  {| supabaseUrl := js "https://db.example.test";
     supabaseKey := js "service-key";
     contactsTable := DEFAULT_CONTACTS_TABLE;
     activitiesTable := DEFAULT_ACTIVITIES_TABLE;
     draftsTable := DEFAULT_DRAFTS_TABLE;
     accountingTable := DEFAULT_ACCOUNTING_TABLE;
     jobRunsTable := DEFAULT_JOB_RUNS_TABLE;
     pollStateTable := DEFAULT_POLL_STATE_TABLE |}.

(** 2024-01-05T00:00:00Z on the clock, an empty store. *)
Definition freshWorld (script : list (option Response)) : Store.Backend :=
  Store.empty 1704412800000 script.

(** A store whose contacts table already holds the sender, in a row that has
    no [id] column. *)
Definition worldWithBareContact : Store.Backend :=
  {| Store.tables :=
       Store.setTable DEFAULT_CONTACTS_TABLE
         [[(js "email", JStr (js "jane@acmeco.com"))]] (fun _ => []);
     Store.nextId := 1;
     Store.nextUuid := 1;
     Store.clockMs := 1704412800000;
     Store.slackScript := [] |}.

(** A store whose activities table already holds the message of
    [consultingInquiry], in a row that has no [id] column. *)
Definition worldWithBareActivity : Store.Backend :=
  {| Store.tables :=
       Store.setTable DEFAULT_ACTIVITIES_TABLE
         [[(js "source_key", JStr (js "info@promptcircle.com:b1"))]]
         (fun _ => []);
     Store.nextId := 1;
     Store.nextUuid := 1;
     Store.clockMs := 1704412800000;
     Store.slackScript := [] |}.

(** A store that already knows the sender, last seen on 2024-01-04. *)
Definition worldWithLaterContact : Store.Backend :=
  {| Store.tables :=
       Store.setTable DEFAULT_CONTACTS_TABLE
         [[(js "id", JStr (js "row-1"));
           (js "email", JStr (js "jane@acmeco.com"));
           (js "display_name", JStr (js "Jane Doe"));
           (js "last_seen_at", JStr (js "2024-01-04T10:00:00Z"))]]
         (fun _ => []);
     Store.nextId := 2;
     Store.nextUuid := 1;
     Store.clockMs := 1704412800000;
     Store.slackScript := [] |}.

(** The locals of a run that has processed nothing yet. *)
Definition emptyState : RunState :=
  {| result_ :=
       {| run_id := js "run-2024-01-05";
          started_at := js "2024-01-05T00:00:00.000Z";
          finished_at := [];
          status := status_ok;
          degraded := false;
          totals := {| polled_messages := 1;
                       processed_messages := 0;
                       activities_upserted := 0;
                       drafts_upserted := 0;
                       accounting_entries_upserted := 0 |};
          classification_counts := fun _ => 0%nat;
          sales_drafts := [];
          accounting_entries := [];
          poll_state_updates := [];
          warnings := [] |};
     maxTsByAccount := [] |}.

(** The last-seen timestamp stored for the contact [email]. *)
Definition storedLastSeen (email : jsstring) (b : Store.Backend)
  : option jsstring :=
  match Tables.firstRow "email" email (Store.tables b DEFAULT_CONTACTS_TABLE) with
  | Some r => stringProp "last_seen_at" r
  | None => None
  end.

(** The status column of the run record [runId], if the row is there. *)
Definition storedRunStatus (runId : jsstring) (b : Store.Backend)
  : option jsstring :=
  match filter (fun r => match stringProp "id" r with
                         | Some i => jsstring_eqb i runId
                         | None => false
                         end)
               (Store.tables b DEFAULT_JOB_RUNS_TABLE) with
  | r :: _ => stringProp "status" r
  | [] => None
  end.

(** Three messages of one mailbox, received in the order T1, T3, T2. *)
Definition outOfOrder : list PollMessage :=
  [message "info@promptcircle.com" "c1" "pat@acme.io" "hello" "first"
     (Some "2024-01-01T08:00:00Z"%string);
   message "info@promptcircle.com" "c2" "pat@acme.io" "hello" "third"
     (Some "2024-01-03T08:00:00Z"%string);
   message "info@promptcircle.com" "c3" "pat@acme.io" "hello" "second"
     (Some "2024-01-02T08:00:00Z"%string)].

(** A message whose timestamp is not a date, and one whose timestamp is. *)
Definition undated : PollMessage :=
  message "info@promptcircle.com" "d1" "pat@acme.io" "hello" "undated"
    (Some "yesterday evening"%string).
Definition dated : PollMessage :=
  message "info@promptcircle.com" "d2" "pat@acme.io" "hello" "dated"
    (Some "2024-01-03T08:00:00Z"%string).

(** The watermark the run reports for a mailbox. *)
Definition reportedWatermark (a : jsstring) (r : result ProcessResult)
  : option (option jsstring) :=
  match r with
  | Ok res =>
      match filter (fun u => jsstring_eqb (ps_account_email u) a)
                   (poll_state_updates res) with
      | u :: _ => Some (last_message_ts u)
      | [] => None
      end
  | Throw _ => None
  end.

(** A command line with the poll file given twice. *)
Definition argvPairs : list (jsstring * jsstring) :=
  [(js "poll-file", js "/tmp/poll.json");
   (js "output", js "  /tmp/out.json ");
   (js "poll-file", js "/tmp/retry.json")].

Definition argv : list jsstring :=
  map js ["bun"; "process-inbound.ts"; "process_inbound";
          "--poll-file"; "/tmp/poll.json"; "--output"; "  /tmp/out.json ";
          "--poll-file"; "/tmp/retry.json"]%string.

(** A record read from a settings file. *)
Definition settings : row :=
  [(js "channel", JStr (js "   "));
   (js "retries", JNum 3);
   (js "fallback_channel", JStr (js " C0456 "))].

(** A failure reply of a gateway: a status of 502 around an HTML page. *)
Definition badGateway : Response :=
  {| resp_ok := false; resp_status := 502;
     resp_text := js "<html>Bad Gateway</html>"; resp_json := None |}.

(** A success reply that carries no representation of the stored row. *)
Definition noContent : Response :=
  {| resp_ok := true; resp_status := 204; resp_text := []; resp_json := None |}.

(** A success reply of the chat endpoint that reports a failure. *)
Definition channelNotFound : Response :=
  {| resp_ok := true; resp_status := 200;
     resp_text := js "(json)";
     resp_json := Some (JObj [(js "ok", JBool false);
                              (js "error", JStr (js "channel_not_found"))]) |}.

(** A guidance snapshot with one section and one block. *)
Definition guide : SopBody :=
  {| hash := Some (js "5f2c");
     sections :=
       Some [{| heading := Some (js " Lead response ");
                items := Some [js "Reply within one day";
                               js "Confirm the timeline";
                               js "Lead response"] |}];
     blocks := Some [Some (js "Pricing sheet is attached")] |}.

Definition guideWithoutBlocks : SopBody :=
  {| hash := hash guide; sections := sections guide; blocks := None |}.

Definition snapshotOf (b : SopBody) : SopSnapshot :=
  {| sop_degraded := None; sop_source := None; sop_warnings := None;
     sop := Some b |}.

(** A support request that carries the mailbox provider's time stamp only. *)
Definition timedOnly : PollMessage :=
  {| account_email := js "info@promptcircle.com";
     message_id := js "t1";
     thread_id := None;
     subject := Some (js "Login problem");
     from := Some (js "Sam Roe <sam@roe.dev>");
     snippet := Some (js "I am unable to sign in");
     received_at := None;
     internal_ts := Some 1704412800000%float;
     source_key := js "info@promptcircle.com:t1";
     raw := None |}.

(** One message of each label. *)
Definition mixedBatch : PollFile :=
  {| poll_run_id := Some (js "run-2024-01-05");
     poll_started_at := None;
     poll_finished_at := None;
     partial_failure := None;
     messages := [consultingInquiry "2024-01-04T10:00:00Z"; vendorInvoice;
                  timedOnly; linkedinAlert];
     per_account :=
       Some [{| pa_account_email := Some (js "billing@promptcircle.com");
                fetched_count := Some 0%float; pa_error := None |}] |}.

(** The credentials of [env] with a blank address of the store. *)
Definition envWithBlankUrl : Env :=
  {| SUPABASE_URL := Some (js "   ");
     SUPABASE_SECRET_KEY := SUPABASE_SECRET_KEY env;
     CRM_CONTACTS_TABLE := None;
     CRM_ACTIVITIES_TABLE := None;
     CRM_DRAFTS_TABLE := None;
     CRM_ACCOUNTING_TABLE := None;
     CRM_JOB_RUNS_TABLE := None;
     CRM_POLL_STATE_TABLE := None;
     SLACK_BOT_TOKEN := SLACK_BOT_TOKEN env;
     CRM_SLACK_CHANNEL_ID := CRM_SLACK_CHANNEL_ID env;
     SLACK_CHANNEL_ID := None;
     CRM_SLACK_CHANNEL := None |}.

(** A notification with no blocks. *)
Definition notice : SlackMessage :=
  {| slack_text := js "CRM lead draft ready"; slack_blocks := None |}.

End Samples.

(* ================================================================== *)
(** * Properties of the classifier *)

Section ClassifierFacts.
Context `{Host}.

Lemma classify_gate (m : PollMessage) :
  (likelyNonHumanSender m || looksHiring m) && negb (hasDirectInquiry m) = true ->
  classifyInbound m =
  {| label := ignore; confidence := 0.94;
     reasons := [js "non-business-automation-filter"] |}.
Proof. intros Hg. unfold classifyInbound. now rewrite Hg. Qed.

Lemma classify_past_gate (m : PollMessage) :
  (likelyNonHumanSender m || looksHiring m) && negb (hasDirectInquiry m) = false ->
  classifyInbound m =
  if Nat.ltb 0 (receiptScore m) && Nat.leb (salesScore m) (receiptScore m)
  then {| label := receipt;
          confidence := Math_min (0.65 + numOfNat (receiptScore m) * 0.08) 0.96;
          reasons := [js "matched-receipt-signals"] |}
  else if Nat.ltb 0 (salesScore m)
  then
    if negb (hasDirectInquiry m) || likelyNonHumanSender m || looksHiring m
    then {| label := ignore; confidence := 0.9;
            reasons := [js "sales-needs-human-direct-inquiry"] |}
    else {| label := sales;
            confidence := Math_min (0.62 + numOfNat (salesScore m) * 0.07) 0.95;
            reasons := [js "matched-sales-signals"] |}
  else if Nat.ltb 0 (supportScore m)
  then {| label := support;
          confidence := Math_min (0.58 + numOfNat (supportScore m) * 0.08) 0.9;
          reasons := [js "matched-support-signals"] |}
  else if Nat.ltb 0 (ignoreScore m)
  then {| label := ignore;
          confidence := Math_min (0.6 + numOfNat (ignoreScore m) * 0.08) 0.92;
          reasons := [js "matched-ignore-signals"] |}
  else {| label := ignore; confidence := 0.52;
          reasons := [js "no-strong-signal"] |}.
Proof. intros Hg. unfold classifyInbound. now rewrite Hg. Qed.

(** C1. A message whose sender or text matches an automated-sender,
    automated-text, hiring, job-network-domain or vendor-system-domain signal,
    and whose text holds no direct-inquiry phrase, is labelled [ignore] with
    confidence 0.94 and the single reason [non-business-automation-filter],
    whatever the four lexicon scores are. *)
Theorem automation_gate_precedence (m : PollMessage) :
  includesAny (senderLocalOf m) automatedSenderSignals = true
  \/ includesAny (messageText m) automatedSenderSignals = true
  \/ includesAny (messageText m) automatedTextSignals = true
  \/ includesAny (messageText m) hiringSignals = true
  \/ (exists d, senderDomainOf m = Some d
                /\ arrayIncludes jobNetworkDomains d = true)
  \/ (exists d, senderDomainOf m = Some d
                /\ arrayIncludes vendorSystemDomains d = true) ->
  includesAny (messageText m) directInquirySignals = false ->
  classifyInbound m =
  {| label := ignore; confidence := 0.94;
     reasons := [js "non-business-automation-filter"] |}.
Proof.
  intros Hsig Hdirect. apply classify_gate.
  unfold hasDirectInquiry. rewrite Hdirect. cbn [negb]. rewrite andb_true_r.
  unfold likelyNonHumanSender, looksAutomated, looksHiring,
    fromJobNetwork, fromVendorSystem.
  destruct Hsig as [Hs | [Hs | [Hs | [Hs | [[d [Hd Hs]] | [d [Hd Hs]]]]]]];
    try rewrite Hd; rewrite Hs; cbn;
    repeat (rewrite ?orb_true_r, ?orb_true_l); reflexivity.
Qed.

(** C5. A message that passes the first-stage gate, with a positive receipt
    score that is at least its sales score, is labelled [receipt] with
    confidence [min(0.65 + score * 0.08, 0.96)], whatever its sales score. *)
Theorem receipt_before_sales (m : PollMessage) :
  (likelyNonHumanSender m || looksHiring m) && negb (hasDirectInquiry m) = false ->
  (0 < receiptScore m)%nat ->
  (salesScore m <= receiptScore m)%nat ->
  classifyInbound m =
  {| label := receipt;
     confidence := Math_min (0.65 + numOfNat (receiptScore m) * 0.08) 0.96;
     reasons := [js "matched-receipt-signals"] |}.
Proof.
  intros Hg Hpos Hge. rewrite (classify_past_gate m Hg).
  apply Nat.ltb_lt in Hpos. apply Nat.leb_le in Hge.
  now rewrite Hpos, Hge.
Qed.

(** C6, amended. A message that passes the first-stage gate, with a positive
    sales score and a receipt score that is zero or below the sales score, is
    labelled [ignore] with confidence 0.90 and reason
    [sales-needs-human-direct-inquiry] when it holds no direct-inquiry phrase
    or its sender looked automated or hiring, and [sales] with confidence
    [min(0.62 + score * 0.07, 0.95)] otherwise. *)
Theorem sales_needs_direct_inquiry (m : PollMessage) :
  (likelyNonHumanSender m || looksHiring m) && negb (hasDirectInquiry m) = false ->
  (0 < salesScore m)%nat ->
  receiptScore m = 0%nat \/ (receiptScore m < salesScore m)%nat ->
  classifyInbound m =
  if negb (hasDirectInquiry m) || likelyNonHumanSender m || looksHiring m
  then {| label := ignore; confidence := 0.9;
          reasons := [js "sales-needs-human-direct-inquiry"] |}
  else {| label := sales;
          confidence := Math_min (0.62 + numOfNat (salesScore m) * 0.07) 0.95;
          reasons := [js "matched-sales-signals"] |}.
Proof.
  intros Hg Hpos Hrec. rewrite (classify_past_gate m Hg).
  assert (Hr : Nat.ltb 0 (receiptScore m)
               && Nat.leb (salesScore m) (receiptScore m) = false).
  { destruct Hrec as [Hz | Hlt].
    - now rewrite Hz.
    - apply andb_false_iff. right. apply Nat.leb_gt. exact Hlt. }
  rewrite Hr. apply Nat.ltb_lt in Hpos. now rewrite Hpos.
Qed.

End ClassifierFacts.

(** The job alert of the specification, with receipt, sales and support
    words in its snippet, is stopped by the gate. *)
Lemma automation_gate_precedence_witness :
  classifyInbound (H := AsciiHost) Samples.linkedinAlert =
  {| label := ignore; confidence := 0.94;
     reasons := [js "non-business-automation-filter"] |}
  /\ (0 < receiptScore (H := AsciiHost) Samples.linkedinAlert)%nat
  /\ (0 < salesScore (H := AsciiHost) Samples.linkedinAlert)%nat
  /\ (0 < supportScore (H := AsciiHost) Samples.linkedinAlert)%nat.
Proof.
  split.
  - apply (automation_gate_precedence (H := AsciiHost) Samples.linkedinAlert).
    + left. vm_compute. reflexivity.
    + vm_compute. reflexivity.
  - vm_compute. repeat split; lia.
Defined.

(** Whatever its subject and snippet say, a message from
    jobalerts@linkedin.com that holds no direct-inquiry phrase is stopped by
    the first-stage gate. *)
Lemma job_alert_sender_ignored (m : PollMessage) :
  from m = Some (js "jobalerts@linkedin.com") ->
  hasDirectInquiry (H := AsciiHost) m = false ->
  classifyInbound (H := AsciiHost) m =
  {| label := ignore; confidence := 0.94;
     reasons := [js "non-business-automation-filter"] |}.
Proof.
  intros Hfrom Hdirect. apply classify_gate. rewrite Hdirect.
  cbn [negb]. rewrite andb_true_r.
  assert (Hs : includesAny (senderLocalOf (H := AsciiHost) m)
                 automatedSenderSignals = true).
  { unfold senderLocalOf. rewrite Hfrom. vm_compute. reflexivity. }
  unfold likelyNonHumanSender, looksAutomated. rewrite Hs. reflexivity.
Qed.

(** Receipt and sales hits in equal number: the receipt rule wins. *)
Lemma receipt_before_sales_witness :
  receiptScore (H := AsciiHost) Samples.invoiceWithQuote = 2%nat
  /\ salesScore (H := AsciiHost) Samples.invoiceWithQuote = 2%nat
  /\ label (classifyInbound (H := AsciiHost) Samples.invoiceWithQuote) = receipt.
Proof.
  split; [vm_compute; reflexivity |].
  split; [vm_compute; reflexivity |].
  rewrite (receipt_before_sales (H := AsciiHost) Samples.invoiceWithQuote).
  - reflexivity.
  - vm_compute. reflexivity.
  - vm_compute. lia.
  - vm_compute. lia.
Defined.

(** C6 as stated fails: a newsletter that mentions a demo has a positive sales
    score, no receipt hit and no direct-inquiry phrase, and is stopped by the
    first-stage gate with confidence 0.94, not downgraded with 0.90. *)
Lemma sales_downgrade_counterexample :
  (0 < salesScore (H := AsciiHost) Samples.newsletterDemo)%nat
  /\ receiptScore (H := AsciiHost) Samples.newsletterDemo = 0%nat
  /\ hasDirectInquiry (H := AsciiHost) Samples.newsletterDemo = false
  /\ classifyInbound (H := AsciiHost) Samples.newsletterDemo =
     {| label := ignore; confidence := 0.94;
        reasons := [js "non-business-automation-filter"] |}
  /\ classifyInbound (H := AsciiHost) Samples.newsletterDemo <>
     {| label := ignore; confidence := 0.9;
        reasons := [js "sales-needs-human-direct-inquiry"] |}.
Proof.
  split; [vm_compute; lia |].
  split; [vm_compute; reflexivity |].
  split; [vm_compute; reflexivity |].
  split; [vm_compute; reflexivity |].
  vm_compute. intros Heq. discriminate Heq.
Qed.

(** The no-reply sender that mentions pricing and a demo is downgraded. *)
Lemma sales_needs_direct_inquiry_witness :
  classifyInbound (H := AsciiHost) Samples.noReplyPricing =
  {| label := ignore; confidence := 0.9;
     reasons := [js "sales-needs-human-direct-inquiry"] |}.
Proof.
  rewrite (sales_needs_direct_inquiry (H := AsciiHost) Samples.noReplyPricing).
  - vm_compute. reflexivity.
  - vm_compute. reflexivity.
  - vm_compute. lia.
  - left. vm_compute. reflexivity.
Defined.

(* ================================================================== *)
(** * Properties of the matcher *)

Section RegexFacts.

(** A relation that every step respects is respected by the iteration. *)
Lemma star_closed (R : mstate -> mstate -> Prop) (step : mstate -> list mstate) :
  (forall st, R st st) ->
  (forall a b c, R a b -> R b c -> R a c) ->
  (forall st st', In st' (step st) -> R st st') ->
  forall fuel st st', In st' (star step fuel st) -> R st st'.
Proof.
  intros Hrefl Htrans Hstep. induction fuel as [| fuel IH]; intros st st' Hin.
  - destruct Hin as [<- | []]. apply Hrefl.
  - cbn [star] in Hin. apply in_app_or in Hin. destruct Hin as [Hin | Hin].
    + apply in_flat_map in Hin. destruct Hin as [mid [Hmid Hin]].
      destruct (Nat.ltb (length (rest mid)) (length (rest st))).
      * apply Htrans with mid; [apply Hstep; exact Hmid | apply IH; exact Hin].
      * destruct Hin.
    + destruct Hin as [<- | []]. apply Hrefl.
Qed.

(** What is left after a match is a suffix of what was there before. *)
Lemma run_suffix (r : regex) :
  forall st st', In st' (run r st) -> exists pre, rest st = pre ++ rest st'.
Proof.
  induction r as [| p | a IHa b IHb | a IHa b IHb | a IHa | i a IHa |];
    intros st st' Hin; cbn [run] in Hin.
  - destruct Hin as [<- | []]. now exists [].
  - destruct (rest st) as [| c t] eqn:Hrest; [destruct Hin |].
    destruct (p c); [| destruct Hin].
    destruct Hin as [<- | []]. now exists [c].
  - apply in_flat_map in Hin. destruct Hin as [mid [Hmid Hin]].
    destruct (IHa _ _ Hmid) as [p1 H1]. destruct (IHb _ _ Hin) as [p2 H2].
    exists (p1 ++ p2). now rewrite H1, H2, app_assoc.
  - apply in_app_or in Hin. destruct Hin as [Hin | Hin]; eauto.
  - revert Hin. apply (star_closed (fun x y => exists pre, rest x = pre ++ rest y)).
    + intros x. now exists [].
    + intros x y z [p1 H1] [p2 H2]. exists (p1 ++ p2).
      now rewrite H1, H2, app_assoc.
    + exact IHa.
  - apply in_map_iff in Hin. destruct Hin as [mid [<- Hmid]]. cbn. eauto.
  - destruct (xorb _ _); [| destruct Hin].
    destruct Hin as [<- | []]. now exists [].
Qed.

(** A pattern without groups leaves the captures as they were. *)
Lemma run_groupless_caps (r : regex) :
  groupless r = true ->
  forall st st', In st' (run r st) -> caps st' = caps st.
Proof.
  induction r as [| p | a IHa b IHb | a IHa b IHb | a IHa | i a IHa |];
    intros Hg st st' Hin; cbn [run] in Hin; cbn [groupless] in Hg.
  - now destruct Hin as [<- | []].
  - destruct (rest st) as [| c t]; [destruct Hin |].
    destruct (p c); [| destruct Hin]. now destruct Hin as [<- | []].
  - apply andb_true_iff in Hg. destruct Hg as [Ha Hb].
    apply in_flat_map in Hin. destruct Hin as [mid [Hmid Hin]].
    rewrite (IHb Hb _ _ Hin). now apply IHa.
  - apply andb_true_iff in Hg. destruct Hg as [Ha Hb].
    apply in_app_or in Hin. destruct Hin as [Hin | Hin]; eauto.
  - revert Hin. apply (star_closed (fun x y => caps y = caps x)).
    + reflexivity.
    + intros x y z H1 H2. congruence.
    + now apply IHa.
  - discriminate Hg.
  - destruct (xorb _ _); [| destruct Hin]. now destruct Hin as [<- | []].
Qed.

Lemma run_length (r : regex) (st st' : mstate) :
  In st' (run r st) -> (length (rest st') <= length (rest st))%nat.
Proof.
  intros Hin. destruct (run_suffix r _ _ Hin) as [pre Hpre].
  rewrite Hpre, length_app. lia.
Qed.

(** A match found by [exec] is a match of the pattern at some position. *)
Lemma searchFrom_matchHere (r : regex) (s : jsstring) :
  forall p m, searchFrom r p s = Some m ->
              exists p' s', matchHere r p' s' = Some m.
Proof.
  induction s as [| c t IH]; intros p m Hs; cbn [searchFrom] in Hs.
  - destruct (matchHere r p []) eqn:Hm; [| discriminate].
    injection Hs as <-. eauto.
  - destruct (matchHere r p (c :: t)) eqn:Hm.
    + injection Hs as <-. eauto.
    + eauto.
Qed.

Lemma exec_run (r : regex) (s : jsstring) (m : mresult) :
  exec r s = Some m ->
  exists p s' st', In st' (run r {| prev := p; rest := s'; caps := [] |})
                   /\ groups m = caps st'.
Proof.
  intros He. destruct (searchFrom_matchHere r s None m He) as [p [s' Hm]].
  unfold matchHere in Hm.
  destruct (run r {| prev := p; rest := s'; caps := [] |}) as [| st' l] eqn:Hr;
    [discriminate |].
  injection Hm as <-. exists p, s', st'. split; [| reflexivity].
  rewrite Hr. now left.
Qed.

(** The numeric token is never empty. *)
Lemma amountRe_consumes (st st' : mstate) :
  In st' (run amountRe st) -> (length (rest st') < length (rest st))%nat.
Proof.
  unfold amountRe. intros Hin. cbn [run] in Hin.
  apply in_flat_map in Hin. destruct Hin as [mid [Hmid Hin]].
  destruct (rest st) as [| c t] eqn:Hrest; [destruct Hmid |].
  destruct (isDigit c); [| destruct Hmid].
  destruct Hmid as [<- | []].
  change (flat_map _ _) with
    (run (Seq (Star (Chr (fun c => isDigit c || N.eqb c 44)))
              (Opt (Seq (Lit 46) (Seq (Chr isDigit) (Chr isDigit)))))
         {| prev := Some c; rest := t; caps := caps st |}) in Hin.
  apply run_length in Hin. cbn in Hin. cbn. lia.
Qed.

Lemma firstn_nonempty {A} (n : nat) (l : list A) :
  (0 < n)%nat -> l <> [] -> firstn n l <> [].
Proof. destruct n, l; cbn; intros; try lia; congruence. Qed.

(** The captures of a capture-then-amount tail: the token of group 2 on top
    of the captures it started from. *)
Lemma amount_tail_caps (st st' : mstate) :
  In st' (run (Seq (Star (Chr isWhiteSpace)) (Group 2 amountRe)) st) ->
  exists tok, tok <> [] /\ caps st' = (2%nat, tok) :: caps st.
Proof.
  intros Hin. cbn [run] in Hin.
  apply in_flat_map in Hin. destruct Hin as [mid [Hmid Hin]].
  assert (Hcaps : caps mid = caps st).
  { apply (run_groupless_caps (Star (Chr isWhiteSpace)) eq_refl st mid Hmid). }
  apply in_map_iff in Hin. destruct Hin as [fin [<- Hfin]].
  pose proof (amountRe_consumes _ _ Hfin) as Hlt.
  pose proof (run_groupless_caps amountRe eq_refl _ _ Hfin) as Hc.
  cbn [caps]. rewrite Hc, Hcaps. eexists. split; [| reflexivity].
  apply firstn_nonempty; [lia |].
  destruct (rest mid); cbn in Hlt; [lia | discriminate].
Qed.

(** A match of the symbol pattern captures one currency symbol and a
    non-empty token. *)
Lemma symbolRe_groups (text : jsstring) (m : mresult) :
  exec symbolRe text = Some m ->
  exists sym tok, isCurrencySymbol sym = true /\ tok <> []
                  /\ groups m = [(2%nat, tok); (1%nat, [sym])].
Proof.
  intros He. destruct (exec_run _ _ _ He) as [p [s [st' [Hin Hg]]]].
  unfold symbolRe in Hin. cbn [run] in Hin.
  apply in_flat_map in Hin. destruct Hin as [mid [Hmid Hin]].
  apply in_map_iff in Hmid. destruct Hmid as [one [<- Hone]].
  cbn [rest] in Hone. destruct s as [| c t]; [destruct Hone |].
  destruct (isCurrencySymbol c) eqn:Hsym; [| destruct Hone].
  destruct Hone as [<- | []].
  change (flat_map _ _) with
    (run (Seq (Star (Chr isWhiteSpace)) (Group 2 amountRe))
       {| prev := Some c; rest := t;
          caps := (1%nat, firstn (length (c :: t) - length t) (c :: t)) :: [] |})
    in Hin.
  destruct (amount_tail_caps _ _ Hin) as [tok [Hne Hc]].
  exists c, tok. split; [exact Hsym |]. split; [exact Hne |].
  rewrite Hg, Hc. cbn [caps].
  replace (length (c :: t) - length t)%nat with 1%nat
    by (change (length (c :: t)) with (S (length t)); lia).
  reflexivity.
Qed.

(** A match of the code pattern captures a code and a non-empty token. *)
Lemma codeRe_groups (text : jsstring) (m : mresult) :
  exec codeRe text = Some m ->
  exists code tok, tok <> [] /\ groups m = [(2%nat, tok); (1%nat, code)].
Proof.
  intros He. destruct (exec_run _ _ _ He) as [p [s [st' [Hin Hg]]]].
  unfold codeRe in Hin.
  remember (Alt (StrI (js "USD")) _) as codes eqn:Hcodes.
  assert (Hgl : groupless codes = true) by (subst codes; reflexivity).
  cbn [run] in Hin.
  apply in_flat_map in Hin. destruct Hin as [wb [Hwb Hin]].
  assert (Hwbc : caps wb = []).
  { cbn [prev rest] in Hwb. destruct (xorb _ _); [| destruct Hwb].
    now destruct Hwb as [<- | []]. }
  apply in_flat_map in Hin. destruct Hin as [mid [Hmid Hin]].
  apply in_map_iff in Hmid. destruct Hmid as [one [<- Hone]].
  pose proof (run_groupless_caps codes Hgl _ _ Hone) as Hc1.
  change (flat_map _ _) with
    (run (Seq (Star (Chr isWhiteSpace)) (Group 2 amountRe))
       {| prev := prev one; rest := rest one;
          caps := (1%nat, firstn (length (rest wb) - length (rest one)) (rest wb))
                  :: caps one |})
    in Hin.
  destruct (amount_tail_caps _ _ Hin) as [tok [Hne Hc]].
  exists (firstn (length (rest wb) - length (rest one)) (rest wb)), tok.
  split; [exact Hne |].
  rewrite Hg, Hc. cbn [caps]. now rewrite Hc1, Hwbc.
Qed.

End RegexFacts.

(* ================================================================== *)
(** * Properties of the financial-record parser *)

Section ReceiptFacts.
Context `{Host}.

Lemma nonEmpty_Some (s : jsstring) : s <> [] -> nonEmpty (Some s) = Some s.
Proof. destruct s; [congruence | reflexivity]. Qed.

Lemma currencyOfSymbol_code (sym : N) :
  isCurrencySymbol sym = true ->
  currencyOfSymbol (Some [sym]) =
  Some (if N.eqb sym 36 then js "USD"
        else if N.eqb sym 8364 then js "EUR" else js "GBP").
Proof.
  unfold isCurrencySymbol, currencyOfSymbol. cbn [jsstring_eqb].
  destruct (N.eqb sym 36); [reflexivity |].
  destruct (N.eqb sym 8364); [reflexivity |].
  destruct (N.eqb sym 163); [reflexivity | discriminate].
Qed.

(** The two locals after the pattern attempts, case by case. *)
Lemma amountAndCurrency_cases (text : jsstring) :
  match exec symbolRe text with
  | Some sm =>
      exists sym tok,
        isCurrencySymbol sym = true
        /\ groups sm = [(2%nat, tok); (1%nat, [sym])]
        /\ amountAndCurrency text =
           (Some (parseAmount tok), currencyOfSymbol (Some [sym]))
  | None =>
      match exec codeRe text with
      | Some cm =>
          exists code tok,
            groups cm = [(2%nat, tok); (1%nat, code)]
            /\ amountAndCurrency text =
               (Some (parseAmount tok), Some (toUpperCase code))
      | None => amountAndCurrency text = (None, None)
      end
  end.
Proof.
  unfold amountAndCurrency.
  destruct (exec symbolRe text) as [sm |] eqn:Hs.
  - destruct (symbolRe_groups _ _ Hs) as [sym [tok [Hsym [Hne Hg]]]].
    exists sym, tok. rewrite Hg. cbn [group Nat.eqb].
    rewrite (nonEmpty_Some tok Hne). auto.
  - cbn. destruct (exec codeRe text) as [cm |] eqn:Hc; [| reflexivity].
    destruct (codeRe_groups _ _ Hc) as [code [tok [Hne Hg]]].
    exists code, tok. rewrite Hg. cbn [group Nat.eqb].
    rewrite (nonEmpty_Some tok Hne). auto.
Qed.

(** C10, amended. [parseReceiptInfo] never sets [amount] without [currency].
    When a currency-symbol-prefixed numeric token is found, [currency] is the
    symbol's code (USD, EUR or GBP) and [amount] is the parsed number if that
    number is finite and is unset if it is not; otherwise, when a token
    prefixed by one of the currency codes is found, [currency] is the
    upper-cased code and [amount] follows the same rule; otherwise both are
    unset. *)
Theorem receipt_amount_currency (m : PollMessage) (r : ReceiptInfo) :
  parseReceiptInfo m = Ok r ->
  (amount r <> None -> currency r <> None)
  /\ match exec symbolRe (receiptText m) with
     | Some sm =>
         exists sym tok,
           groups sm = [(2%nat, tok); (1%nat, [sym])]
           /\ currency r =
              Some (if N.eqb sym 36 then js "USD"
                    else if N.eqb sym 8364 then js "EUR" else js "GBP")
           /\ amount r =
              (if Number_isFinite (parseAmount tok)
               then Some (parseAmount tok) else None)
     | None =>
         match exec codeRe (receiptText m) with
         | Some cm =>
             exists code tok,
               groups cm = [(2%nat, tok); (1%nat, code)]
               /\ currency r = Some (toUpperCase code)
               /\ amount r =
                  (if Number_isFinite (parseAmount tok)
                   then Some (parseAmount tok) else None)
         | None => amount r = None /\ currency r = None
         end
     end.
Proof.
  unfold parseReceiptInfo. intros Hp.
  pose proof (amountAndCurrency_cases (receiptText m)) as Hcases.
  destruct (amountAndCurrency (receiptText m)) as [a c] eqn:Hac.
  destruct (messageTs m) as [d | e]; [| discriminate].
  injection Hp as <-. cbn [amount currency].
  destruct (exec symbolRe (receiptText m)) as [sm |].
  - destruct Hcases as [sym [tok [Hsym [Hg Heq]]]].
    rewrite (currencyOfSymbol_code sym Hsym) in Heq. injection Heq as -> ->.
    split; [intros _; discriminate |].
    exists sym, tok. cbn [finiteOrUndefined]. auto.
  - destruct (exec codeRe (receiptText m)) as [cm |].
    + destruct Hcases as [code [tok [Hg Heq]]].
      injection Heq as -> ->.
      split; [intros _; discriminate |].
      exists code, tok. cbn [finiteOrUndefined]. auto.
    + injection Hcases as -> ->. cbn. split; [congruence | auto].
Qed.

End ReceiptFacts.

(** The invoice of the second end-to-end example: 240 and USD together. *)
Lemma receipt_amount_currency_witness :
  exists r,
    parseReceiptInfo (H := AsciiHost) Samples.vendorInvoice = Ok r
    /\ amount r = Some 240%float
    /\ currency r = Some (js "USD")
    /\ (amount r <> None -> currency r <> None).
Proof.
  destruct (parseReceiptInfo (H := AsciiHost) Samples.vendorInvoice)
    as [r | e] eqn:Hp; [| vm_compute in Hp; discriminate Hp].
  exists r. split; [reflexivity |].
  pose proof (receipt_amount_currency (H := AsciiHost) Samples.vendorInvoice r Hp)
    as [Hpair _].
  vm_compute in Hp. injection Hp as <-.
  repeat split; try reflexivity. exact Hpair.
Defined.

(** C10 as stated fails: for a total of four hundred digits the parsed number
    is not finite, so [amount] is unset while [currency] is USD. *)
Lemma receipt_amount_counterexample :
  match parseReceiptInfo (H := AsciiHost) Samples.hugeInvoice with
  | Ok r => amount r = None /\ currency r = Some (js "USD")
  | Throw _ => False
  end.
Proof. vm_compute. split; reflexivity. Qed.

(* ================================================================== *)
(** * Properties of the effect monad *)

Section MonadFacts.
Context {W : Type}.

Lemma bind_Ok_inv {A B} (c : M W A) (k : A -> M W B) (w w' : W) (b : B) :
  bind c k w = (Ok b, w') ->
  exists a w1, c w = (Ok a, w1) /\ k a w1 = (Ok b, w').
Proof.
  unfold bind. destruct (c w) as [[a | e] w1]; intros Hk.
  - eauto.
  - discriminate.
Qed.

Lemma bind_step {A B} (c : M W A) (k : A -> M W B) (w w1 : W) (a : A) :
  c w = (Ok a, w1) -> bind c k w = k a w1.
Proof. unfold bind. now intros ->. Qed.

Lemma bind_throw {A B} (c : M W A) (k : A -> M W B) (w w1 : W) (e : jsstring) :
  c w = (Throw e, w1) -> bind c k w = (Throw e, w1).
Proof. unfold bind. now intros ->. Qed.

Lemma forEach_app {A S} (body : A -> S -> M W S) (xs ys : list A) :
  forall (acc acc1 : S) (w w1 : W),
    forEach body xs acc w = (Ok acc1, w1) ->
    forEach body (xs ++ ys) acc w = forEach body ys acc1 w1.
Proof.
  induction xs as [| x xs IH]; intros acc acc1 w w1 Hxs; cbn [forEach app] in *.
  - unfold ret in Hxs. now injection Hxs as -> ->.
  - apply bind_Ok_inv in Hxs. destruct Hxs as [a [w2 [Hx Hrest]]].
    rewrite (bind_step _ _ _ _ _ Hx). now apply IH.
Qed.

(** A throw in the body of a loop leaves the loop at once. *)
Lemma forEach_throw {A S} (body : A -> S -> M W S) (pre post : list A) (x : A)
  (acc acc1 : S) (w w1 w2 : W) (e : jsstring) :
  forEach body pre acc w = (Ok acc1, w1) ->
  body x acc1 w1 = (Throw e, w2) ->
  forEach body (pre ++ x :: post) acc w = (Throw e, w2).
Proof.
  intros Hpre Hx. rewrite (forEach_app _ _ _ _ _ _ _ Hpre).
  cbn [forEach]. now apply bind_throw.
Qed.

End MonadFacts.

(** Takes a successful run of a chain of binds apart, step by step. *)
Ltac invert_bind H :=
  let a := fresh "a" in
  let w := fresh "w" in
  let Hc := fresh "Hstep" in
  apply bind_Ok_inv in H; destruct H as [a [w [Hc H]]].

Tactic Notation "open_bind" hyp(H) "as" ident(a) ident(w) ident(Hc) :=
  apply bind_Ok_inv in H; destruct H as [a [w [Hc H]]].

(* ================================================================== *)
(** * Properties of the run orchestrator *)

Section RunFacts.
Context {W : Type} `{World W} `{Host}.

Lemma finalizeRun_status (cfg : Config) (poll : PollFile) (st : RunState)
  (w w' : W) (res : ProcessResult) :
  finalizeRun cfg poll st w = (Ok res, w') ->
  status res = finalStatus poll res.
Proof.
  unfold finalizeRun. intros Hrun.
  invert_bind Hrun. invert_bind Hrun. invert_bind Hrun. invert_bind Hrun.
  unfold ret in Hrun. injection Hrun as <- _. reflexivity.
Qed.

Lemma main_finalizes (env : Env) (poll : PollFile)
  (snapshot : option SopSnapshot) (w w' : W) (res : ProcessResult) :
  main env poll snapshot w = (Ok res, w') ->
  exists cfg st w1, finalizeRun cfg poll st w1 = (Ok res, w').
Proof.
  unfold main. intros Hrun.
  invert_bind Hrun. invert_bind Hrun. invert_bind Hrun. eauto.
Qed.

(** The status that [finalStatus] gives, case by case. *)
Lemma finalStatus_cases (poll : PollFile) (res : ProcessResult) :
  (finalStatus poll res = status_partial_failure <->
   partial_failure poll = Some true
   \/ exists d, In d (sales_drafts res) /\ slack_posted d = false)
  /\ (finalStatus poll res = status_ok <->
      ~ (partial_failure poll = Some true
         \/ exists d, In d (sales_drafts res) /\ slack_posted d = false)).
Proof.
  unfold finalStatus.
  assert (Hflag : isTrue (partial_failure poll) = true
                  <-> partial_failure poll = Some true).
  { destruct (partial_failure poll) as [[|] |]; cbn; split; congruence. }
  assert (Hsome : existsb (fun entry => negb (slack_posted entry))
                          (sales_drafts res) = true
                  <-> exists d, In d (sales_drafts res) /\ slack_posted d = false).
  { rewrite existsb_exists. split; intros [d [Hin Hd]]; exists d; split; auto.
    - now apply negb_true_iff.
    - now apply negb_true_iff. }
  destruct (isTrue (partial_failure poll)
            || existsb (fun entry => negb (slack_posted entry)) (sales_drafts res))
    eqn:Hcond.
  - apply orb_true_iff in Hcond.
    assert (Hor : partial_failure poll = Some true
                  \/ exists d, In d (sales_drafts res) /\ slack_posted d = false).
    { destruct Hcond as [Hc | Hc]; [left; now apply Hflag | right; now apply Hsome]. }
    split; split; intros; auto; try discriminate. contradiction.
  - apply orb_false_iff in Hcond. destruct Hcond as [Hf Hs].
    assert (Hnot : ~ (partial_failure poll = Some true
                      \/ exists d, In d (sales_drafts res) /\ slack_posted d = false)).
    { intros [Hc | Hc].
      - apply Hflag in Hc. congruence.
      - apply Hsome in Hc. congruence. }
    split; split; intros; auto; try discriminate. contradiction.
Qed.

End RunFacts.

Section AbortFacts.
Context {W : Type} `{World W} `{Host}.

(** The contact step never throws on account of the row it gets back. *)
Lemma upsertContact_lenient (cfg : Config) (m : PollMessage)
  (lbl : Classification) (senderEmail senderName ts : option jsstring)
  (email : jsstring) (stored : row) (w w1 : W) :
  nonEmpty senderEmail = Some email ->
  Classification_eqb lbl sales || Classification_eqb lbl support = true ->
  upsertContactRow cfg m email senderName ts w = (Ok stored, w1) ->
  upsertContact cfg m lbl senderEmail senderName ts w
  = (Ok (stringProp "id" stored), w1).
Proof.
  intros He Hl Hrow. unfold upsertContact. rewrite He, Hl.
  now rewrite (bind_step _ _ _ _ _ Hrow).
Qed.

(** A throw in the loop body for one message is the outcome of the run. *)
Lemma main_aborts (env : Env) (cfg : Config) (poll : PollFile)
  (snapshot : option SopSnapshot) (pre post : list PollMessage)
  (m : PollMessage) (st0 st1 : RunState) (w w0 w1 w2 : W) (e : jsstring) :
  configOf env = Ok cfg ->
  messages poll = pre ++ m :: post ->
  startRun cfg poll snapshot w = (Ok st0, w0) ->
  forEach (processMessage env cfg snapshot (pickSopCues snapshot)) pre st0 w0
  = (Ok st1, w1) ->
  processMessage env cfg snapshot (pickSopCues snapshot) m st1 w1 = (Throw e, w2) ->
  main env poll snapshot w = (Throw e, w2).
Proof.
  intros Hcfg Hmsgs Hstart Hpre Hm. unfold main.
  rewrite Hcfg. unfold ofResult at 1.
  rewrite (bind_step _ _ w w _ eq_refl).
  rewrite (bind_step _ _ _ _ _ Hstart).
  apply bind_throw. unfold processMessages. rewrite Hmsgs.
  now apply forEach_throw with st1 w1.
Qed.

(** C3, amended. When the Activity upsert for a message, or the Draft upsert
    for a sales message, returns a row without a non-empty string [id], the
    run ends there with the corresponding error: no later message is
    processed and the run is not finalized.  The Contact upsert is not such
    a step: whatever row it returns, the contact identifier is that row's
    [id] if it is a string and undefined otherwise, and processing goes on
    to the Activity upsert. *)
Theorem missing_id_aborts_run (env : Env) (cfg : Config) (poll : PollFile)
  (snapshot : option SopSnapshot) (pre post : list PollMessage)
  (m : PollMessage) (st0 st1 : RunState) (w w0 w1 w2 w3 : W)
  (ts cid : option jsstring) (stored : row) :
  configOf env = Ok cfg ->
  messages poll = pre ++ m :: post ->
  startRun cfg poll snapshot w = (Ok st0, w0) ->
  forEach (processMessage env cfg snapshot (pickSopCues snapshot)) pre st0 w0
  = (Ok st1, w1) ->
  messageTs m = Ok ts ->
  upsertContact cfg m (label (classifyInbound m))
    (extractEmailAddress (from m)) (extractDisplayName (from m)) ts w1
  = (Ok cid, w2) ->
  upsertActivity cfg snapshot m (classifyInbound m)
    (extractEmailAddress (from m)) (extractDisplayName (from m)) ts cid w2
  = (Ok stored, w3) ->
  (nonEmpty (stringProp "id" stored) = None ->
   main env poll snapshot w
   = (Throw (js "Missing activity id after upsert for source_key="
             ++ source_key m), w3))
  /\ (forall (activityId : jsstring) (draftStored : row) (w4 : W),
        nonEmpty (stringProp "id" stored) = Some activityId ->
        label (classifyInbound m) = sales ->
        upsertDraft cfg snapshot m activityId
          (match nonEmpty (extractEmailAddress (from m)) with
           | Some e => e
           | None => js "unknown@example.com"
           end)
          (buildSalesDraft (extractDisplayName (from m))
             (extractEmailAddress (from m)) (subject m) (snippet m)
             (pickSopCues snapshot)) w3
        = (Ok draftStored, w4) ->
        nonEmpty (stringProp "id" draftStored) = None ->
        main env poll snapshot w
        = (Throw (js "Missing draft id after upsert for activity_id="
                  ++ activityId), w4))
  /\ (forall (email : jsstring) (contactStored : row) (w' : W),
        nonEmpty (extractEmailAddress (from m)) = Some email ->
        Classification_eqb (label (classifyInbound m)) sales
        || Classification_eqb (label (classifyInbound m)) support = true ->
        upsertContactRow cfg m email (extractDisplayName (from m)) ts w1
        = (Ok contactStored, w') ->
        cid = stringProp "id" contactStored /\ w2 = w').
Proof.
  intros Hcfg Hmsgs Hstart Hpre Hts Hcontact Hactivity.
  assert (Hbody : forall k,
            processMessage env cfg snapshot (pickSopCues snapshot) m st1 w1
            = match nonEmpty (stringProp "id" stored) with
              | None =>
                  (Throw (js "Missing activity id after upsert for source_key="
                          ++ source_key m), w3)
              | Some activityId => k activityId
              end
            \/ exists activityId,
                 nonEmpty (stringProp "id" stored) = Some activityId).
  { intros k. destruct (nonEmpty (stringProp "id" stored)) eqn:Hid; [eauto |].
    left. unfold processMessage. rewrite Hts. unfold ofResult at 1.
    rewrite (bind_step _ _ w1 w1 _ eq_refl).
    rewrite (bind_step _ _ _ _ _ Hcontact).
    rewrite (bind_step _ _ _ _ _ Hactivity).
    now rewrite Hid. }
  split; [| split].
  - intros Hid. apply (main_aborts env cfg poll snapshot pre post m st0 st1
                         w w0 w1 w3); auto.
    destruct (Hbody (fun _ => (Throw [], w3))) as [Hb | [a Ha]].
    + now rewrite Hid in Hb.
    + congruence.
  - intros activityId draftStored w4 Hid Hsales Hdraft Hdid.
    apply (main_aborts env cfg poll snapshot pre post m st0 st1 w w0 w1 w4); auto.
    unfold processMessage. rewrite Hts. unfold ofResult at 1.
    rewrite (bind_step _ _ w1 w1 _ eq_refl).
    rewrite (bind_step _ _ _ _ _ Hcontact).
    rewrite (bind_step _ _ _ _ _ Hactivity).
    rewrite Hid, Hsales. cbn [Classification_eqb].
    apply bind_throw. unfold handleSales.
    rewrite (bind_step _ _ _ _ _ Hdraft). now rewrite Hdid.
  - intros email contactStored w' He Hl Hrow.
    rewrite (upsertContact_lenient cfg m _ _ _ ts email contactStored w1 w' He Hl Hrow)
      in Hcontact.
    now injection Hcontact as <- <-.
Qed.

End AbortFacts.

(** A stored activity row without an [id] makes the run stop at that message,
    before the message that follows it. *)
Lemma missing_id_aborts_run_witness :
  exists w',
    main (H := StoreWorld) (H0 := AsciiHost) Samples.env
      (Samples.batch None
         [Samples.consultingInquiry "2024-01-04T10:00:00Z";
          Samples.vendorInvoice])
      None Samples.worldWithBareActivity
    = (Throw (js "Missing activity id after upsert for source_key=info@promptcircle.com:b1"),
       w').
Proof.
  set (m := Samples.consultingInquiry "2024-01-04T10:00:00Z").
  set (poll := Samples.batch None [m; Samples.vendorInvoice]).
  destruct (startRun (H := StoreWorld) Samples.cfg poll None
              Samples.worldWithBareActivity) as [[st0 | e0] w0] eqn:Hstart;
    [| vm_compute in Hstart; discriminate Hstart].
  destruct (upsertContact (H := StoreWorld) Samples.cfg m
              (label (classifyInbound (H := AsciiHost) m))
              (extractEmailAddress (H := AsciiHost) (from m))
              (extractDisplayName (from m))
              (Some (js "2024-01-04T10:00:00Z")) w0) as [[cid | e1] w2] eqn:Hcontact;
    [| vm_compute in Hstart; injection Hstart as <- <-;
       vm_compute in Hcontact; discriminate Hcontact].
  destruct (upsertActivity (H := StoreWorld) Samples.cfg None m
              (classifyInbound (H := AsciiHost) m)
              (extractEmailAddress (H := AsciiHost) (from m))
              (extractDisplayName (from m))
              (Some (js "2024-01-04T10:00:00Z")) cid w2) as [[stored | e2] w3]
    eqn:Hactivity;
    [| vm_compute in Hstart; injection Hstart as <- <-;
       vm_compute in Hcontact; injection Hcontact as <- <-;
       vm_compute in Hactivity; discriminate Hactivity].
  exists w3.
  apply (proj1 (missing_id_aborts_run (H := StoreWorld) (H0 := AsciiHost)
                  Samples.env Samples.cfg poll None [] [Samples.vendorInvoice] m
                  st0 st0 Samples.worldWithBareActivity w0 w0 w2 w3
                  (Some (js "2024-01-04T10:00:00Z")) cid stored
                  eq_refl eq_refl Hstart eq_refl eq_refl Hcontact Hactivity)).
  vm_compute in Hstart. injection Hstart as <- <-.
  vm_compute in Hcontact. injection Hcontact as <- <-.
  vm_compute in Hactivity. injection Hactivity as <- _.
  reflexivity.
Defined.

(** C3 as stated fails for the Contact upsert: the stored contact row has no
    [id], the upsert for the sales message returns it without one, and the run
    still processes the message, writes its activity without a contact link
    and finishes. *)
Lemma missing_contact_id_counterexample :
  exists st0 w0 contactStored w1 res w',
    startRun (H := StoreWorld) Samples.cfg
      (Samples.batch None [Samples.consultingInquiry "2024-01-04T10:00:00Z"])
      None Samples.worldWithBareContact = (Ok st0, w0)
    /\ label (classifyInbound (H := AsciiHost)
                (Samples.consultingInquiry "2024-01-04T10:00:00Z")) = sales
    /\ upsertContactRow (H := StoreWorld) Samples.cfg
         (Samples.consultingInquiry "2024-01-04T10:00:00Z")
         (js "jane@acmeco.com") (Some (js "Jane Doe"))
         (Some (js "2024-01-04T10:00:00Z")) w0 = (Ok contactStored, w1)
    /\ stringProp "id" contactStored = None
    /\ main (H := StoreWorld) (H0 := AsciiHost) Samples.env
         (Samples.batch None [Samples.consultingInquiry "2024-01-04T10:00:00Z"])
         None Samples.worldWithBareContact = (Ok res, w')
    /\ processed_messages (totals res) = 1%nat
    /\ length (Store.tables w' DEFAULT_ACTIVITIES_TABLE) = 1%nat
    /\ map (prop (js "contact_id")) (Store.tables w' DEFAULT_ACTIVITIES_TABLE)
       = [None].
Proof.
  do 6 eexists.
  split; [vm_compute; reflexivity |].
  split; [vm_compute; reflexivity |].
  split; [vm_compute; reflexivity |].
  split; [vm_compute; reflexivity |].
  split; [vm_compute; reflexivity |].
  split; [vm_compute; reflexivity |].
  split; vm_compute; reflexivity.
Qed.

(** C4 at its failing input: the credentials are set and the request to the
    notification endpoint fails in transport.  The run throws; the result
    document is never produced and the run record stays [running]. *)
Lemma notification_transport_failure_aborts :
  exists w',
    main (H := StoreWorld) (H0 := AsciiHost) Samples.env
      (Samples.batch None
         [Samples.consultingInquiry "2024-01-04T10:00:00Z";
          Samples.vendorInvoice])
      None (Samples.freshWorld [None])
    = (Throw (js "TypeError: fetch failed"), w')
    /\ Samples.storedRunStatus (js "run-2024-01-05") w' = Some (js "running")
    /\ length (Store.tables w' DEFAULT_ACTIVITIES_TABLE) = 1%nat
    /\ length (Store.tables w' DEFAULT_ACCOUNTING_TABLE) = 0%nat.
Proof.
  eexists. split; [vm_compute; reflexivity |].
  repeat split; vm_compute; reflexivity.
Qed.

Section NotifierFacts.
Context {W : Type} `{World W}.

(** Without a token or a channel the notifier reports the failure and leaves
    the world alone. *)
Lemma maybePostSlack_missing_credentials (env : Env) (message : SlackMessage)
  (w : W) :
  clean (SLACK_BOT_TOKEN env) = None
  \/ orElse (clean (CRM_SLACK_CHANNEL_ID env))
            (orElse (clean (SLACK_CHANNEL_ID env)) (clean (CRM_SLACK_CHANNEL env)))
     = None ->
  maybePostSlack env message w
  = (Ok {| posted := false;
           error := Some (js "CRM_SLACK_CHANNEL_ID or SLACK_BOT_TOKEN missing") |},
     w).
Proof.
  unfold maybePostSlack. intros [-> | ->]; [reflexivity |].
  destruct (clean (SLACK_BOT_TOKEN env)); reflexivity.
Qed.

(** A response that is there, whatever its status, is reported: the notifier
    throws only when the request fails in transport or the body is not a JSON
    value other than null. *)
Lemma maybePostSlack_reports_response (env : Env) (message : SlackMessage)
  (w w' : W) (e : jsstring) :
  maybePostSlack env message w = (Throw e, w') ->
  exists req,
    fst (fetch req w) = None
    \/ exists response, fst (fetch req w) = Some response
                        /\ (resp_json response = None
                            \/ resp_json response = Some JNull).
Proof.
  unfold maybePostSlack.
  destruct (clean (SLACK_BOT_TOKEN env)) as [token |]; [| discriminate].
  destruct (orElse _ _) as [channel |]; [| discriminate].
  match goal with |- context [fetch ?r w] => set (req := r) end.
  intros Hthrow. exists req.
  destruct (fetch req w) as [[response |] w1]; cbn [fst]; [| now left].
  right. exists response. split; [reflexivity |].
  destruct (resp_json response) as [[] |]; auto;
    destruct (resp_ok response && _); discriminate.
Qed.

End NotifierFacts.

(* ================================================================== *)
(** * Properties of the watermark reduction *)

Section MapFacts.

Lemma jsstring_eqb_refl (a : jsstring) : jsstring_eqb a a = true.
Proof. induction a as [| c a IH]; cbn; [reflexivity |]. now rewrite N.eqb_refl. Qed.

Lemma jsstring_eqb_eq (a b : jsstring) : jsstring_eqb a b = true <-> a = b.
Proof.
  split; [| intros ->; apply jsstring_eqb_refl].
  revert b. induction a as [| c a IH]; intros [| d b] Heq; cbn in Heq;
    try discriminate; [reflexivity |].
  apply andb_true_iff in Heq. destruct Heq as [Hc Ha].
  apply N.eqb_eq in Hc. subst d. f_equal. now apply IH.
Qed.

Lemma jsstring_eqb_sym (a b : jsstring) : jsstring_eqb a b = jsstring_eqb b a.
Proof.
  destruct (jsstring_eqb a b) eqn:Hab; destruct (jsstring_eqb b a) eqn:Hba;
    try reflexivity.
  - apply jsstring_eqb_eq in Hab. subst b. now rewrite jsstring_eqb_refl in Hba.
  - apply jsstring_eqb_eq in Hba. subst b. now rewrite jsstring_eqb_refl in Hab.
Qed.

Lemma mapGet_mapSet_same (k v : jsstring) (m : list (jsstring * jsstring)) :
  mapGet k (mapSet k v m) = Some v.
Proof.
  induction m as [| [k' v'] m IH]; cbn.
  - now rewrite jsstring_eqb_refl.
  - destruct (jsstring_eqb k k') eqn:Hk; cbn.
    + now rewrite jsstring_eqb_refl.
    + now rewrite Hk.
Qed.

Lemma mapGet_mapSet_other (a k v : jsstring) (m : list (jsstring * jsstring)) :
  jsstring_eqb a k = false -> mapGet a (mapSet k v m) = mapGet a m.
Proof.
  intros Hak. induction m as [| [k' v'] m IH]; cbn.
  - now rewrite Hak.
  - destruct (jsstring_eqb k k') eqn:Hk; cbn.
    + apply jsstring_eqb_eq in Hk. subst k'. now rewrite Hak.
    + now rewrite IH.
Qed.

End MapFacts.

Section WatermarkFacts.
Context `{Host}.

Lemma trackMessage_other (a : jsstring) (maxTs : list (jsstring * jsstring))
  (m : PollMessage) :
  jsstring_eqb (account_email m) a = false ->
  mapGet a (trackMessage maxTs m) = mapGet a maxTs.
Proof.
  intros Hne. unfold trackMessage, trackMaxTs.
  rewrite jsstring_eqb_sym in Hne.
  destruct (messageTs m) as [ts | e]; [| reflexivity].
  destruct (nonEmpty ts) as [t |]; [| reflexivity].
  destruct (nonEmpty (mapGet (account_email m) maxTs)) as [prior |].
  - destruct (timeGt _ _); [| reflexivity]. now apply mapGet_mapSet_other.
  - now apply mapGet_mapSet_other.
Qed.

Lemma nonEmpty_inv (o : option jsstring) (t : jsstring) :
  nonEmpty o = Some t -> o = Some t /\ t <> [].
Proof.
  destruct o as [[| c s] |]; cbn; intros Heq; try discriminate.
  injection Heq as <-. split; [reflexivity | discriminate].
Qed.

Lemma trackMessage_step (a : jsstring) (maxTs : list (jsstring * jsstring))
  (seen : list jsstring) (m : PollMessage) :
  (forall t, In t seen -> t <> []) ->
  (forall t, In t (usableTs a m) -> exists z, Date_parse t = Some z) ->
  maxOfSeen a maxTs seen ->
  maxOfSeen a (trackMessage maxTs m) (seen ++ usableTs a m).
Proof.
  intros Hne Hparse Hinv. unfold usableTs in *.
  destruct (jsstring_eqb (account_email m) a) eqn:Ha.
  2:{ unfold maxOfSeen. rewrite (trackMessage_other a maxTs m Ha).
      now rewrite app_nil_r. }
  apply jsstring_eqb_eq in Ha. unfold trackMessage.
  destruct (messageTs m) as [ts | e]; [| now rewrite app_nil_r].
  unfold trackMaxTs. destruct (nonEmpty ts) as [t |] eqn:Hts;
    [| now rewrite app_nil_r].
  destruct (Hparse t (or_introl eq_refl)) as [z Hz].
  rewrite Ha. unfold maxOfSeen in *.
  destruct (mapGet a maxTs) as [prior |] eqn:Hprior.
  - destruct Hinv as [Hin [zp [Hzp Hmax]]].
    assert (Hp : nonEmpty (Some prior) = Some prior).
    { specialize (Hne prior Hin). destruct prior; [congruence | reflexivity]. }
    rewrite Hp, Hz, Hzp. cbn [timeGt].
    destruct (zp <? z)%Z eqn:Hlt.
    + rewrite mapGet_mapSet_same. split; [apply in_or_app; right; now left |].
      exists z. split; [exact Hz |]. intros t' z' Hin' Hz'.
      apply in_app_or in Hin'. destruct Hin' as [Hin' | [<- | []]].
      * specialize (Hmax t' z' Hin' Hz'). apply Z.ltb_lt in Hlt. lia.
      * rewrite Hz in Hz'. injection Hz' as <-. lia.
    + rewrite Hprior. split; [apply in_or_app; now left |].
      exists zp. split; [exact Hzp |]. intros t' z' Hin' Hz'.
      apply in_app_or in Hin'. destruct Hin' as [Hin' | [<- | []]].
      * now apply (Hmax t' z').
      * rewrite Hz in Hz'. injection Hz' as <-. apply Z.ltb_ge in Hlt. lia.
  - subst seen. cbn [nonEmpty]. rewrite mapGet_mapSet_same. cbn [app].
    split; [now left |]. exists z. split; [exact Hz |].
    intros t' z' [<- | []] Hz'. rewrite Hz in Hz'. injection Hz' as <-. lia.
Qed.

Lemma usableTs_nonempty (a : jsstring) (m : PollMessage) (t : jsstring) :
  In t (usableTs a m) -> t <> [].
Proof.
  unfold usableTs. destruct (jsstring_eqb _ _); [| intros []].
  destruct (messageTs m) as [ts | e]; [| intros []].
  destruct (nonEmpty ts) as [t0 |] eqn:Hts; [| intros []].
  intros [<- | []]. now destruct (nonEmpty_inv _ _ Hts).
Qed.

Lemma watermarks_invariant (a : jsstring) (msgs : list PollMessage) :
  forall (maxTs : list (jsstring * jsstring)) (seen : list jsstring),
    (forall t, In t seen -> t <> []) ->
    (forall t, In t (timestampsOf a msgs) -> exists z, Date_parse t = Some z) ->
    maxOfSeen a maxTs seen ->
    maxOfSeen a (watermarks msgs maxTs) (seen ++ timestampsOf a msgs).
Proof.
  induction msgs as [| m msgs IH]; intros maxTs seen Hne Hparse Hinv.
  - cbn. now rewrite app_nil_r.
  - cbn [watermarks fold_left timestampsOf flat_map].
    rewrite app_assoc. apply IH.
    + intros t Hin. apply in_app_or in Hin. destruct Hin as [Hin | Hin].
      * now apply Hne.
      * now apply (usableTs_nonempty a m).
    + intros t Hin. apply Hparse. cbn [timestampsOf flat_map].
      apply in_or_app. now right.
    + apply trackMessage_step; auto.
      intros t Hin. apply Hparse. cbn [timestampsOf flat_map].
      apply in_or_app. now left.
Qed.

(** Where every usable timestamp parses.  For every mailbox, if each
    usable timestamp of its messages parses to a time value, the candidate
    watermark after the loop is a timestamp of one of those messages whose
    time value is the greatest among them; there is none exactly when the
    mailbox has no usable timestamp. *)
Theorem watermark_is_max (a : jsstring) (msgs : list PollMessage) :
  (forall t, In t (timestampsOf a msgs) -> exists z, Date_parse t = Some z) ->
  match mapGet a (watermarks msgs []) with
  | None => timestampsOf a msgs = []
  | Some t =>
      In t (timestampsOf a msgs)
      /\ exists z, Date_parse t = Some z
                   /\ forall t' z', In t' (timestampsOf a msgs) ->
                                    Date_parse t' = Some z' -> (z' <= z)%Z
  end.
Proof.
  intros Hparse.
  apply (watermarks_invariant a msgs [] [] (fun t (Hin : In t []) => match Hin with end)
           Hparse eq_refl).
Qed.

End WatermarkFacts.

Section LoopFacts.
Context {W : Type} `{World W} `{Host}.

Variable env : Env.
Variable cfg : Config.
Variable snapshot : option SopSnapshot.
Variable cues : list jsstring.

Lemma handleSales_updates (m : PollMessage)
  (senderEmail senderName ts : option jsstring) (activityId : jsstring)
  (res res' : ProcessResult) (w w' : W) :
  handleSales env cfg snapshot cues m senderEmail senderName ts activityId res w
  = (Ok res', w') ->
  poll_state_updates res' = poll_state_updates res.
Proof.
  unfold handleSales. intros Hrun. open_bind Hrun as stored w1 Hdraft.
  destruct (nonEmpty (stringProp "id" stored)); [| discriminate].
  open_bind Hrun as t2 w2 Hnow. open_bind Hrun as patched w3 Hpatch.
  open_bind Hrun as slack w4 Hslack.
  unfold ret in Hrun. now injection Hrun as <- _.
Qed.

Lemma handleReceipt_updates (m : PollMessage) (activityId : jsstring)
  (res res' : ProcessResult) (w w' : W) :
  handleReceipt cfg m activityId res w = (Ok res', w') ->
  poll_state_updates res' = poll_state_updates res.
Proof.
  unfold handleReceipt. intros Hrun. open_bind Hrun as parsed w1 Hparsed.
  open_bind Hrun as stored w2 Hstored.
  unfold ret in Hrun. now injection Hrun as <- _.
Qed.

(** One pass of the loop body: the candidate watermarks follow
    [trackMessage], and the list of watermark updates is left alone. *)
Lemma processMessage_tracks (m : PollMessage) (st st' : RunState) (w w' : W) :
  processMessage env cfg snapshot cues m st w = (Ok st', w') ->
  maxTsByAccount st' = trackMessage (maxTsByAccount st) m
  /\ poll_state_updates (result_ st') = poll_state_updates (result_ st).
Proof.
  unfold processMessage, trackMessage. intros Hrun.
  open_bind Hrun as ts w1 Hts. unfold ofResult in Hts.
  destruct (messageTs m) as [ts0 | e]; [| discriminate].
  injection Hts as <- <-.
  open_bind Hrun as cid w2 Hcontact. open_bind Hrun as activity w3 Hactivity.
  destruct (nonEmpty (stringProp "id" activity)) as [activityId |]; [| discriminate].
  open_bind Hrun as res1 w4 Hsales. open_bind Hrun as res2 w5 Hreceipt.
  unfold ret in Hrun. injection Hrun as <- _. cbn [maxTsByAccount result_].
  split; [reflexivity |].
  assert (H2 : poll_state_updates res2 = poll_state_updates res1).
  { destruct (Classification_eqb (label (classifyInbound m)) receipt).
    - now apply handleReceipt_updates in Hreceipt.
    - unfold ret in Hreceipt. now injection Hreceipt as <- _. }
  assert (H1 : poll_state_updates res1 = poll_state_updates (result_ st)).
  { destruct (Classification_eqb (label (classifyInbound m)) sales).
    - now apply handleSales_updates in Hsales.
    - unfold ret in Hsales. now injection Hsales as <- _. }
  cbn. congruence.
Qed.

Lemma loop_tracks (msgs : list PollMessage) :
  forall (st st' : RunState) (w w' : W),
    forEach (processMessage env cfg snapshot cues) msgs st w = (Ok st', w') ->
    maxTsByAccount st' = watermarks msgs (maxTsByAccount st)
    /\ poll_state_updates (result_ st') = poll_state_updates (result_ st).
Proof.
  induction msgs as [| m msgs IH]; intros st st' w w' Hrun; cbn [forEach] in Hrun.
  - unfold ret in Hrun. injection Hrun as <- _. now split.
  - open_bind Hrun as st1 w1 Hm.
    destruct (processMessage_tracks _ _ _ _ _ Hm) as [Hmax Hu].
    destruct (IH _ _ _ _ Hrun) as [Hms Hus].
    cbn [watermarks fold_left]. split; [| congruence].
    rewrite Hms, Hmax. reflexivity.
Qed.

Lemma updatePollState_forEach (maxTs : list (jsstring * jsstring))
  (accounts : list jsstring) :
  forall (res res' : ProcessResult) (w w' : W),
    forEach (updatePollState cfg maxTs) accounts res w = (Ok res', w') ->
    exists us,
      poll_state_updates res' = poll_state_updates res ++ us
      /\ map ps_account_email us = accounts
      /\ Forall (fun u => last_message_ts u = mapGet (ps_account_email u) maxTs) us.
Proof.
  induction accounts as [| a accounts IH]; intros res res' w w' Hrun;
    cbn [forEach] in Hrun.
  - unfold ret in Hrun. injection Hrun as <- _. exists [].
    now rewrite app_nil_r.
  - open_bind Hrun as res1 w1 Hone. unfold updatePollState in Hone.
    open_bind Hone as t1 w2 Hn1. open_bind Hone as t2 w3 Hn2.
    open_bind Hone as stored w4 Hup.
    unfold ret in Hone. injection Hone as <- _.
    destruct (IH _ _ _ _ Hrun) as [us [Hus [Hacc Hall]]].
    cbn [pushPollStateUpdate poll_state_updates] in Hus.
    eexists (_ :: us). rewrite Hus, <- app_assoc. cbn [app].
    split; [reflexivity |]. cbn [map ps_account_email]. split; [now rewrite Hacc |].
    constructor; [reflexivity | exact Hall].
Qed.

End LoopFacts.

Section ReportedWatermark.
Context {W : Type} `{World W} `{Host}.

Lemma startRun_initial (cfg : Config) (poll : PollFile)
  (snapshot : option SopSnapshot) (w w' : W) (st : RunState) :
  startRun cfg poll snapshot w = (Ok st, w') ->
  maxTsByAccount st = [] /\ poll_state_updates (result_ st) = []
  /\ sales_drafts (result_ st) = [].
Proof.
  unfold startRun. intros Hrun. open_bind Hrun as t0 w0 Hn0.
  open_bind Hrun as runId w1 Hid. open_bind Hrun as t1 w2 Hn1.
  open_bind Hrun as stored w3 Hup.
  unfold ret in Hrun. injection Hrun as <- _. now repeat split.
Qed.

(** The watermark updates of a finished run: one per observed mailbox, each
    carrying what the reduction over the batch left for that mailbox. *)
Lemma reported_watermarks (env : Env) (poll : PollFile)
  (snapshot : option SopSnapshot) (w w' : W) (res : ProcessResult) :
  main env poll snapshot w = (Ok res, w') ->
  map ps_account_email (poll_state_updates res) = accountSetOf poll
  /\ Forall (fun u => last_message_ts u
                      = mapGet (ps_account_email u) (watermarks (messages poll) []))
            (poll_state_updates res).
Proof.
  unfold main. intros Hrun. open_bind Hrun as cfg w0 Hcfg.
  open_bind Hrun as st0 w1 Hstart. open_bind Hrun as st1 w2 Hloop.
  unfold processMessages in Hloop.
  destruct (loop_tracks _ _ _ _ _ _ _ _ _ Hloop) as [Hmax Hupd].
  destruct (startRun_initial _ _ _ _ _ _ Hstart) as [Hm0 [Hu0 _]].
  rewrite Hm0 in Hmax. rewrite Hu0 in Hupd.
  unfold finalizeRun in Hrun. open_bind Hrun as res1 w3 Hstates.
  destruct (updatePollState_forEach _ _ _ _ _ _ _ Hstates) as [us [Hus [Hacc Hall]]].
  rewrite Hupd in Hus. cbn [app] in Hus.
  open_bind Hrun as fin w4 Hfin. open_bind Hrun as t1 w5 Hn1.
  open_bind Hrun as patched w6 Hpatch.
  unfold ret in Hrun. injection Hrun as <- _.
  cbn [finish poll_state_updates]. rewrite Hus, <- Hmax. now split.
Qed.

End ReportedWatermark.

Section FinalWatermark.
Context {W : Type} `{World W} `{Host}.

(** X30. The reported watermark, for timestamps that parse.  In a finished
    run, for every mailbox each of whose usable timestamps parses to a time
    value, the watermark reported for the mailbox is a timestamp of one of
    its messages whose time value is the greatest among them, and there is
    none exactly when the mailbox has no usable timestamp. *)
Theorem final_watermark_is_max (env : Env) (poll : PollFile)
  (snapshot : option SopSnapshot) (w w' : W) (res : ProcessResult)
  (u : PollStateUpdate) :
  main env poll snapshot w = (Ok res, w') ->
  In u (poll_state_updates res) ->
  (forall t, In t (timestampsOf (ps_account_email u) (messages poll)) ->
             exists z, Date_parse t = Some z) ->
  match last_message_ts u with
  | None => timestampsOf (ps_account_email u) (messages poll) = []
  | Some t =>
      In t (timestampsOf (ps_account_email u) (messages poll))
      /\ exists z, Date_parse t = Some z
                   /\ forall t' z',
                        In t' (timestampsOf (ps_account_email u) (messages poll)) ->
                        Date_parse t' = Some z' -> (z' <= z)%Z
  end.
Proof.
  intros Hrun Hin Hparse.
  destruct (reported_watermarks _ _ _ _ _ _ Hrun) as [_ Hall].
  rewrite Forall_forall in Hall. rewrite (Hall u Hin).
  now apply watermark_is_max.
Qed.

End FinalWatermark.

(** Timestamps in the order T1, T3, T2: the reported watermark is T3. *)
Lemma final_watermark_is_max_witness :
  Samples.reportedWatermark (js "info@promptcircle.com")
    (fst (main (H := StoreWorld) (H0 := AsciiHost) Samples.env
            (Samples.batch None Samples.outOfOrder) None (Samples.freshWorld [])))
  = Some (Some (js "2024-01-03T08:00:00Z"))
  /\ exists res w' u,
       main (H := StoreWorld) (H0 := AsciiHost) Samples.env
         (Samples.batch None Samples.outOfOrder) None (Samples.freshWorld [])
       = (Ok res, w')
       /\ In u (poll_state_updates res)
       /\ exists t z,
            last_message_ts u = Some t /\ Date_parse (Host := AsciiHost) t = Some z
            /\ forall t' z',
                 In t' (timestampsOf (H := AsciiHost) (ps_account_email u)
                          Samples.outOfOrder) ->
                 Date_parse (Host := AsciiHost) t' = Some z' -> (z' <= z)%Z.
Proof.
  split; [vm_compute; reflexivity |].
  destruct (main (H := StoreWorld) (H0 := AsciiHost) Samples.env
              (Samples.batch None Samples.outOfOrder) None (Samples.freshWorld []))
    as [[res | e] w'] eqn:Hrun; [| vm_compute in Hrun; discriminate Hrun].
  assert (Hu : exists u, poll_state_updates res = [u]
                         /\ ps_account_email u = js "info@promptcircle.com"
                         /\ last_message_ts u <> None).
  { vm_compute in Hrun. injection Hrun as <- _. eexists. split; [reflexivity |].
    split; [reflexivity | discriminate]. }
  destruct Hu as [u [Hus [Hacc Hsome]]].
  assert (Hin : In u (poll_state_updates res)) by (rewrite Hus; now left).
  exists res, w', u. split; [reflexivity |]. split; [exact Hin |].
  pose proof (final_watermark_is_max (H := StoreWorld) (H0 := AsciiHost)
                _ _ _ _ _ _ u Hrun Hin) as Hmax.
  assert (Hparse : forall t,
             In t (timestampsOf (H := AsciiHost) (ps_account_email u)
                     (messages (Samples.batch None Samples.outOfOrder))) ->
             exists z, Date_parse (Host := AsciiHost) t = Some z).
  { rewrite Hacc. intros t Hin'. vm_compute in Hin'.
    destruct Hin' as [<- | [<- | [<- | []]]]; eexists; vm_compute; reflexivity. }
  specialize (Hmax Hparse).
  destruct (last_message_ts u) as [t |]; [| congruence].
  destruct Hmax as [_ [z [Hz Hle]]]. exists t, z. auto.
Defined.

(** C8 at its failing input: two messages of one mailbox, one with a
    timestamp that does not parse.  With that message first the reported
    watermark is the text that does not parse, although the other message
    carries a timestamp that does; with the messages the other way round the
    watermark is that timestamp. *)
Lemma watermark_sticks_at_unparsable :
  Date_parse (Host := AsciiHost) (js "yesterday evening") = None
  /\ Samples.reportedWatermark (js "info@promptcircle.com")
       (fst (main (H := StoreWorld) (H0 := AsciiHost) Samples.env
               (Samples.batch None [Samples.undated; Samples.dated]) None
               (Samples.freshWorld [])))
     = Some (Some (js "yesterday evening"))
  /\ Samples.reportedWatermark (js "info@promptcircle.com")
       (fst (main (H := StoreWorld) (H0 := AsciiHost) Samples.env
               (Samples.batch None [Samples.dated; Samples.undated]) None
               (Samples.freshWorld [])))
     = Some (Some (js "2024-01-03T08:00:00Z")).
Proof. repeat split; vm_compute; reflexivity. Qed.

(* ================================================================== *)
(** * Properties of rows and of the store's tables *)

Section RowFacts.

Lemma prop_app (k : jsstring) (p q : row) :
  prop k (p ++ q) = match prop k p with Some v => Some v | None => prop k q end.
Proof.
  induction p as [| [k' v] p IH]; cbn; [reflexivity |].
  destruct (jsstring_eqb k k'); [reflexivity | exact IH].
Qed.

Lemma prop_setColumn (k k' : jsstring) (v : json) (r : row) :
  prop k (Store.setColumn k' v r)
  = if jsstring_eqb k k' then Some v else prop k r.
Proof.
  induction r as [| [k2 v2] r IH]; cbn.
  - reflexivity.
  - destruct (jsstring_eqb k' k2) eqn:H12; cbn.
    + apply jsstring_eqb_eq in H12. subst k2.
      destruct (jsstring_eqb k k'); reflexivity.
    + rewrite IH. destruct (jsstring_eqb k k2) eqn:Hk2; [| reflexivity].
      apply jsstring_eqb_eq in Hk2. subst k2.
      rewrite jsstring_eqb_sym in H12. now rewrite H12.
Qed.

Lemma mergeRow_app (r p q : row) :
  Store.mergeRow r (p ++ q) = Store.mergeRow (Store.mergeRow r p) q.
Proof. unfold Store.mergeRow. apply fold_left_app. Qed.

Lemma prop_object_absent (k : jsstring) (props : list (string * option json)) :
  arrayIncludes (names props) k = false -> prop k (object props) = None.
Proof.
  unfold arrayIncludes, names.
  induction props as [| [k1 o] props IH]; [reflexivity |].
  intros Hno.
  change (jsstring_eqb k (js k1)
          || existsb (jsstring_eqb k) (map (fun kv => js (fst kv)) props) = false)
    in Hno.
  apply orb_false_iff in Hno. destruct Hno as [Hk Hrest].
  change (object ((k1, o) :: props)) with (field k1 o ++ object props).
  rewrite prop_app, (IH Hrest). destruct o as [v |]; [| reflexivity].
  change (prop k (field k1 (Some v)))
    with (if jsstring_eqb k (js k1) then Some v else None).
  now rewrite Hk.
Qed.

Lemma prop_mergeRow_object_absent (k : jsstring) (r : row)
  (props : list (string * option json)) :
  arrayIncludes (names props) k = false ->
  prop k (Store.mergeRow r (object props)) = prop k r.
Proof.
  unfold arrayIncludes, names. revert r.
  induction props as [| [k1 o] props IH]; intros r Hno; [reflexivity |].
  change (jsstring_eqb k (js k1)
          || existsb (jsstring_eqb k) (map (fun kv => js (fst kv)) props) = false)
    in Hno.
  apply orb_false_iff in Hno. destruct Hno as [Hk Hrest].
  change (object ((k1, o) :: props)) with (field k1 o ++ object props).
  rewrite mergeRow_app, (IH _ Hrest).
  destruct o as [v |]; [| reflexivity].
  change (Store.mergeRow r (field k1 (Some v)))
    with (Store.setColumn (js k1) v r).
  now rewrite prop_setColumn, Hk.
Qed.

(** A property defined once, by the literal's entry [(k1, Some v)]. *)
Lemma prop_mergeRow_object_defined (r : row) (k1 : string) (v : json)
  (before after : list (string * option json)) :
  arrayIncludes (names after) (js k1) = false ->
  prop (js k1) (Store.mergeRow r (object (before ++ (k1, Some v) :: after)))
  = Some v.
Proof.
  intros Hafter.
  assert (Hsplit : object (before ++ (k1, Some v) :: after)
                   = object before ++ field k1 (Some v) ++ object after).
  { unfold object. rewrite flat_map_app. reflexivity. }
  rewrite Hsplit, !mergeRow_app.
  rewrite (prop_mergeRow_object_absent _ _ _ Hafter).
  change (Store.mergeRow (Store.mergeRow r (object before)) (field k1 (Some v)))
    with (Store.setColumn (js k1) v (Store.mergeRow r (object before))).
  now rewrite prop_setColumn, jsstring_eqb_refl.
Qed.

Lemma hasKey_str (c k : jsstring) (r : row) :
  Store.hasKey c (JStr k) r = true <-> prop c r = Some (JStr k).
Proof.
  unfold Store.hasKey. destruct (prop c r) as [v |]; [| split; discriminate].
  destruct v; cbn; try (split; discriminate).
  rewrite jsstring_eqb_eq. split; [intros -> | intros [= ->]]; reflexivity.
Qed.

Lemma hasKey_same_prop (c : jsstring) (key : json) (r r' : row) :
  prop c r = prop c r' -> Store.hasKey c key r = Store.hasKey c key r'.
Proof. unfold Store.hasKey. now intros ->. Qed.

End RowFacts.

Section UpsertFacts.

Lemma mergeFirst_split (c : jsstring) (key : json) (p : row) (rows : list row) :
  match Store.mergeFirst c key p rows with
  | Some (rows', merged) =>
      exists pre r0 post,
        rows = pre ++ r0 :: post
        /\ existsb (Store.hasKey c key) pre = false
        /\ Store.hasKey c key r0 = true
        /\ rows' = pre ++ Store.mergeRow r0 p :: post
        /\ merged = Store.mergeRow r0 p
  | None => existsb (Store.hasKey c key) rows = false
  end.
Proof.
  induction rows as [| r rows IH]; cbn [Store.mergeFirst]; [reflexivity |].
  destruct (Store.hasKey c key r) eqn:Hr.
  - exists [], r, rows. cbn. auto.
  - destruct (Store.mergeFirst c key p rows) as [[rows' merged] |].
    + destruct IH as [pre [r0 [post [Hrows [Hpre [Hr0 [Hrows' Hm]]]]]]].
      exists (r :: pre), r0, post. cbn. rewrite Hr, Hpre. subst. auto.
    + cbn. now rewrite Hr.
Qed.

Lemma find_app_none {A} (f : A -> bool) (pre post : list A) :
  existsb f pre = false -> find f (pre ++ post) = find f post.
Proof.
  induction pre as [| x pre IH]; cbn; [reflexivity |].
  intros Hno. apply orb_false_iff in Hno. destruct Hno as [-> Hpre]. auto.
Qed.

Lemma find_app_some {A} (f : A -> bool) (l l' : list A) (x : A) :
  find f l = Some x -> find f (l ++ l') = Some x.
Proof.
  induction l as [| y l IH]; cbn; [discriminate |].
  destruct (f y); auto.
Qed.

Lemma find_existsb {A} (f : A -> bool) (l : list A) :
  existsb f l = match find f l with Some _ => true | None => false end.
Proof. induction l as [| x l IH]; cbn; [reflexivity |]. now destruct (f x). Qed.

Lemma rowsAgree_refl (cols : list jsstring) (rows : list row) :
  Tables.rowsAgree cols rows rows.
Proof. induction rows; constructor; auto. Qed.

Lemma rowsAgree_length (cols : list jsstring) (rows rows' : list row) :
  Tables.rowsAgree cols rows rows' -> length rows' = length rows.
Proof. intros Hag. symmetry. exact (Forall2_length Hag). Qed.

Lemma rowsAgree_held (cols : list jsstring) (c : string) (k : jsstring)
  (rows rows' : list row) :
  In (js c) cols -> Tables.rowsAgree cols rows rows' ->
  Tables.held c k rows' = Tables.held c k rows.
Proof.
  intros Hc Hag. unfold Tables.held.
  induction Hag as [| r r' rows rows' Hr _ IH]; cbn [existsb]; [reflexivity |].
  rewrite IH. f_equal. apply hasKey_same_prop. now apply Hr.
Qed.

Lemma rowsAgree_firstId (cols : list jsstring) (c : string) (k : jsstring)
  (rows rows' : list row) :
  In (js c) cols -> In (js "id") cols -> Tables.rowsAgree cols rows rows' ->
  Tables.firstId c k rows' = Tables.firstId c k rows.
Proof.
  intros Hc Hid Hag. unfold Tables.firstId, Tables.firstRow.
  induction Hag as [| r r' rows rows' Hr _ IH]; cbn [find]; [reflexivity |].
  rewrite (hasKey_same_prop (js c) (JStr k) r' r (Hr _ Hc)).
  destruct (Store.hasKey (js c) (JStr k) r); [| exact IH].
  unfold stringProp. now rewrite (Hr _ Hid).
Qed.

Section OneUpsert.
Variable c : string.
Variable k : jsstring.
Variable p : row.
Hypothesis c_not_id : jsstring_eqb (js "id") (js c) = false.
Hypothesis p_key : prop (js c) p = Some (JStr k).
Hypothesis p_merge_key : forall r, prop (js c) (Store.mergeRow r p) = Some (JStr k).
Hypothesis p_merge_id :
  forall r, prop (js "id") (Store.mergeRow r p) = prop (js "id") r.

(** What an upsert of [p] on the column [c] does to a table. *)
Lemma upsertInto_cases (rows : list row) (n : N) :
  (Tables.held c k rows = true
   /\ exists pre r0 post,
        rows = pre ++ r0 :: post
        /\ existsb (Store.hasKey (js c) (JStr k)) pre = false
        /\ Store.hasKey (js c) (JStr k) r0 = true
        /\ Store.upsertInto (js c) p rows n
           = (pre ++ Store.mergeRow r0 p :: post, Store.mergeRow r0 p, n))
  \/ (Tables.held c k rows = false
      /\ exists inserted,
           prop (js c) inserted = Some (JStr k)
           /\ Store.upsertInto (js c) p rows n
              = (rows ++ [inserted], inserted, N.succ n)).
Proof.
  unfold Store.upsertInto. rewrite p_key.
  pose proof (mergeFirst_split (js c) (JStr k) p rows) as Hsplit.
  destruct (Store.mergeFirst (js c) (JStr k) p rows) as [[rows' merged] |].
  - left. destruct Hsplit as [pre [r0 [post [Hrows [Hpre [Hr0 [Hrows' Hm]]]]]]].
    split.
    + unfold Tables.held. rewrite Hrows, existsb_app. cbn [existsb].
      rewrite Hr0. now rewrite orb_true_r.
    + exists pre, r0, post. subst. auto.
  - right. split; [exact Hsplit |].
    eexists. split; [| reflexivity].
    destruct (prop (js "id") p); [exact p_key |].
    cbn [prop]. rewrite jsstring_eqb_sym, c_not_id. exact p_key.
Qed.

Lemma merged_agrees (pre post : list row) (r0 : row) :
  Store.hasKey (js c) (JStr k) r0 = true ->
  Tables.rowsAgree [js c; js "id"] (pre ++ r0 :: post)
            (pre ++ Store.mergeRow r0 p :: post).
Proof.
  intros Hr0. unfold Tables.rowsAgree. apply Forall2_app; [apply rowsAgree_refl |].
  constructor; [| apply rowsAgree_refl].
  intros col [<- | [<- | []]].
  - rewrite p_merge_key. symmetry. now apply hasKey_str.
  - apply p_merge_id.
Qed.

(** The summary used for every table: the key is held afterwards by the
    stored row, which is the first to hold it; keys and the identifiers of
    their first rows are kept; and when the key was held before, the table
    has as many rows as before and the stored row has the identifier that
    the key's first row had. *)
Lemma upsertInto_summary (rows rows' : list row) (stored : row) (n n' : N) :
  Store.upsertInto (js c) p rows n = (rows', stored, n') ->
  Tables.firstRow c k rows' = Some stored
  /\ Tables.held c k rows' = true
  /\ (forall k2, Tables.held c k2 rows = true -> Tables.held c k2 rows' = true)
  /\ (forall k2 a, Tables.firstId c k2 rows = Some a ->
                   Tables.firstId c k2 rows' = Some a)
  /\ (Tables.held c k rows = true ->
      length rows' = length rows
      /\ stringProp "id" stored = Tables.firstId c k rows).
Proof.
  intros Hup.
  destruct (upsertInto_cases rows n)
    as [[Hheld [pre [r0 [post [Hrows [Hpre [Hr0 Heq]]]]]]] | [Hheld [ins [Hins Heq]]]];
    rewrite Heq in Hup; injection Hup as <- <- <-.
  - pose proof (merged_agrees pre post r0 Hr0) as Hag. rewrite <- Hrows in Hag.
    assert (Hfirst : Tables.firstRow c k (pre ++ Store.mergeRow r0 p :: post)
                     = Some (Store.mergeRow r0 p)).
    { unfold Tables.firstRow. rewrite (find_app_none _ _ _ Hpre). cbn [find].
      assert (Hm : Store.hasKey (js c) (JStr k) (Store.mergeRow r0 p) = true)
        by (apply hasKey_str; apply p_merge_key).
      now rewrite Hm. }
    split; [exact Hfirst |].
    split.
    { rewrite (rowsAgree_held [js c; js "id"] c k _ _ (or_introl eq_refl) Hag). exact Hheld. }
    split.
    { intros k2 Hk2. now rewrite (rowsAgree_held [js c; js "id"] c k2 _ _ (or_introl eq_refl) Hag). }
    split.
    { intros k2 a Ha.
      now rewrite (rowsAgree_firstId [js c; js "id"] c k2 _ _ (or_introl eq_refl)
                     (or_intror (or_introl eq_refl)) Hag). }
    intros _. split; [exact (rowsAgree_length _ _ _ Hag) |].
    rewrite <- (rowsAgree_firstId [js c; js "id"] c k _ _ (or_introl eq_refl)
                  (or_intror (or_introl eq_refl)) Hag).
    unfold Tables.firstId. now rewrite Hfirst.
  - assert (Hk : Store.hasKey (js c) (JStr k) ins = true) by now apply hasKey_str.
    assert (Hnone : existsb (Store.hasKey (js c) (JStr k)) rows = false) by exact Hheld.
    split.
    { unfold Tables.firstRow. rewrite (find_app_none _ _ _ Hnone). cbn [find].
      now rewrite Hk. }
    split.
    { unfold Tables.held. rewrite existsb_app. cbn [existsb]. rewrite Hk.
      now rewrite orb_true_r. }
    split.
    { intros k2 Hk2. unfold Tables.held in *. rewrite existsb_app, Hk2. reflexivity. }
    split.
    { intros k2 a Ha. unfold Tables.firstId, Tables.firstRow in *.
      destruct (find (Store.hasKey (js c) (JStr k2)) rows) as [r |] eqn:Hf;
        [| discriminate].
      now rewrite (find_app_some _ _ _ _ Hf). }
    intros Habs. congruence.
Qed.

End OneUpsert.

(** A patch that writes none of the columns [cols] leaves them as they are. *)
Lemma patchWhere_agrees (cols : list jsstring)
  (filters : list (jsstring * jsstring)) (p : row) (rows : list row) :
  (forall col r, In col cols -> prop col (Store.mergeRow r p) = prop col r) ->
  Tables.rowsAgree cols rows (fst (Store.patchWhere filters p rows)).
Proof.
  intros Hp. unfold Store.patchWhere, Tables.rowsAgree. cbn [fst].
  induction rows as [| r rows IH]; cbn [map]; constructor; [| exact IH].
  intros col Hcol. destruct (forallb _ _); [now apply Hp | reflexivity].
Qed.

End UpsertFacts.

(* ================================================================== *)
(** * The orchestrator's calls, run against the in-memory store *)

Section StoreCalls.
Variable cfg : Config.
Hypothesis well : Tables.wellConfigured cfg.

Lemma tick_tables (b : Store.Backend) :
  Store.tables (snd (Store.tick b)) = Store.tables b.
Proof. reflexivity. Qed.

Lemma now_store (b : Store.Backend) :
  lift (now (World := StoreWorld)) b = (Ok (fst (Store.tick b)), snd (Store.tick b)).
Proof. reflexivity. Qed.

Lemma serve_upsert (t c : jsstring) (r : row) (headers : list (jsstring * jsstring))
  (b : Store.Backend) (rows' : list row) (stored : row) (n' : N) :
  Store.upsertInto c r (Store.tables b t) (Store.nextId b) = (rows', stored, n') ->
  Store.serve
    {| req_url := supabaseUrl cfg ++ js "/rest/v1/" ++ t;
       req_method := POST;
       req_query := [(js "on_conflict", c)];
       req_headers := headers;
       req_body := Some (JArr [JObj r]) |} b
  = (Some (Store.okResponse 201 (JArr [JObj stored])),
     Store.withTables (Store.setTable t rows' (Store.tables b)) n' b).
Proof.
  intros Hup. destruct well as [Hurl _]. destruct (Hurl t) as [Hslack Htable].
  unfold Store.serve. cbn [req_url req_method req_body req_query].
  rewrite Hslack, Htable.
  change (mapGet (js "on_conflict") [(js "on_conflict", c)]) with (Some c).
  cbn [Store.upsertAll]. now rewrite Hup.
Qed.

Lemma upsert_store (t c : jsstring) (r : row) (b : Store.Backend)
  (rows' : list row) (stored : row) (n' : N) :
  Store.upsertInto c r (Store.tables b t) (Store.nextId b) = (rows', stored, n') ->
  upsert (H := StoreWorld) cfg t c r b
  = (Ok stored, Store.withTables (Store.setTable t rows' (Store.tables b)) n' b).
Proof.
  intros Hup. unfold upsert, supabaseUpsertRow, bind, supabaseRequest.
  change (@fetch Store.Backend StoreWorld) with Store.serve.
  rewrite (serve_upsert t c r _ b rows' stored n' Hup).
  reflexivity.
Qed.

Lemma serve_patch (t : jsstring) (q : list (jsstring * jsstring)) (p : row)
  (headers : list (jsstring * jsstring)) (b : Store.Backend) :
  Store.serve
    {| req_url := supabaseUrl cfg ++ js "/rest/v1/" ++ t;
       req_method := PATCH;
       req_query := q;
       req_headers := headers;
       req_body := Some (JObj p) |} b
  = (Some (Store.okResponse 200
             (JArr (snd (Store.patchWhere q p (Store.tables b t))))),
     Store.withTables
       (Store.setTable t (fst (Store.patchWhere q p (Store.tables b t)))
          (Store.tables b))
       (Store.nextId b) b).
Proof.
  destruct well as [Hurl _]. destruct (Hurl t) as [Hslack Htable].
  unfold Store.serve. cbn [req_url req_method req_body req_query].
  rewrite Hslack, Htable. now destruct (Store.patchWhere q p (Store.tables b t)).
Qed.

Lemma patch_store (t : jsstring) (filters : list (jsstring * jsstring)) (p : row)
  (b : Store.Backend) :
  exists out q,
    supabasePatchRows (H := StoreWorld) (supabaseUrl cfg) (supabaseKey cfg) t
      filters p b
    = (Ok out,
       Store.withTables
         (Store.setTable t (fst (Store.patchWhere q p (Store.tables b t)))
            (Store.tables b))
         (Store.nextId b) b).
Proof.
  unfold supabasePatchRows, bind, supabaseRequest.
  change (@fetch Store.Backend StoreWorld) with Store.serve.
  rewrite serve_patch. eexists. eexists.
  cbn [Store.okResponse resp_text resp_json resp_ok].
  change (truthy (trim (js "(json)"))) with true. cbv iota. cbn [negb].
  cbv iota. unfold ret. reflexivity.
Qed.

(** A notification attempt leaves the tables alone, whatever comes of it. *)
Lemma slack_store (env : Env) (message : SlackMessage) (b b' : Store.Backend)
  (r : result SlackOutcome) :
  maybePostSlack (H := StoreWorld) env message b = (r, b') ->
  Store.tables b' = Store.tables b /\ Store.nextId b' = Store.nextId b.
Proof.
  unfold maybePostSlack.
  destruct (clean (SLACK_BOT_TOKEN env)) as [token |];
    [| unfold ret; intros [= _ <-]; now split].
  destruct (orElse _ _) as [channel |];
    [| unfold ret; intros [= _ <-]; now split].
  change (@fetch Store.Backend StoreWorld) with Store.serve.
  unfold Store.serve. cbn [req_url]. rewrite jsstring_eqb_refl.
  destruct (Store.slackScript b) as [| outcome script].
  - cbn. intros [= _ <-]. now split.
  - destruct outcome as [response |].
    + destruct (resp_json response) as [[] |];
        try destruct (resp_ok response && _); intros [= _ <-]; now split.
    + intros [= _ <-]. now split.
Qed.

End StoreCalls.

Section EffectFacts.

Lemma bind_inv {W A B} (c : M W A) (k : A -> M W B) (w w' : W) (r : result B) :
  bind c k w = (r, w') ->
  (exists a w1, c w = (Ok a, w1) /\ k a w1 = (r, w'))
  \/ (exists e, c w = (Throw e, w') /\ r = Throw e).
Proof.
  unfold bind. destruct (c w) as [[a | e] w1]; intros Hk.
  - left. eauto.
  - right. injection Hk as <- <-. eauto.
Qed.

Variable R : (jsstring -> list row) -> (jsstring -> list row) -> Prop.
Hypothesis R_refl : forall T, R T T.
Hypothesis R_trans : forall T1 T2 T3, R T1 T2 -> R T2 T3 -> R T1 T3.

Lemma effect_ret {A} (a : A) : Tables.effect R (ret a).
Proof. intros b r b' [= _ <-]. apply R_refl. Qed.

Lemma effect_throw {A} (e : jsstring) : Tables.effect R (throw (A := A) e).
Proof. intros b r b' [= _ <-]. apply R_refl. Qed.

Lemma effect_ofResult {A} (x : result A) : Tables.effect R (ofResult x).
Proof. intros b r b' [= _ <-]. apply R_refl. Qed.

Lemma effect_now : Tables.effect R (lift (now (World := StoreWorld))).
Proof. intros b r b' [= _ <-]. apply R_refl. Qed.

Lemma effect_uuid : Tables.effect R (lift (randomUUID (World := StoreWorld))).
Proof. intros b r b' [= _ <-]. apply R_refl. Qed.

Lemma effect_bind {A B} (c : M Store.Backend A) (k : A -> M Store.Backend B) :
  Tables.effect R c -> (forall a, Tables.effect R (k a)) ->
  Tables.effect R (bind c k).
Proof.
  intros Hc Hk b r b' Hrun. apply bind_inv in Hrun.
  destruct Hrun as [[a [b1 [Hc1 Hk1]]] | [e [Hc1 _]]].
  - apply R_trans with (Store.tables b1); [now apply (Hc _ _ _ Hc1) |].
    now apply (Hk a _ _ _ Hk1).
  - now apply (Hc _ _ _ Hc1).
Qed.

Lemma effect_forEach {A S} (body : A -> S -> M Store.Backend S) (xs : list A) :
  (forall x acc, In x xs -> Tables.effect R (body x acc)) ->
  forall acc, Tables.effect R (forEach body xs acc).
Proof.
  induction xs as [| x xs IH]; intros Hbody acc; cbn [forEach].
  - apply effect_ret.
  - apply effect_bind; [apply Hbody; now left |].
    intros acc'. apply IH. intros y acc2 Hy. apply Hbody. now right.
Qed.

Lemma effect_slack (env : Env) (message : SlackMessage) :
  Tables.effect R (maybePostSlack (H := StoreWorld) env message).
Proof.
  intros b r b' Hrun. destruct (slack_store _ _ _ _ _ Hrun) as [-> _].
  apply R_refl.
Qed.

End EffectFacts.

Lemma effect_weaken
  (R R' : (jsstring -> list row) -> (jsstring -> list row) -> Prop)
  {A} (c : M Store.Backend A) :
  (forall T T', R T T' -> R' T T') -> Tables.effect R c -> Tables.effect R' c.
Proof. intros Hsub Hc b r b' Hrun. apply Hsub. now apply (Hc _ _ _ Hrun). Qed.

Section RelationFacts.
Context `{Host}.
Variable cfg : Config.

Lemma Same3_refl (T : jsstring -> list row) : Tables.Same3 cfg T T.
Proof. now repeat split. Qed.

Lemma Same3_trans (T1 T2 T3 : jsstring -> list row) :
  Tables.Same3 cfg T1 T2 -> Tables.Same3 cfg T2 T3 -> Tables.Same3 cfg T1 T3.
Proof. intros [Ha [Hd Hc]] [Ha' [Hd' Hc']]. repeat split; congruence. Qed.

Lemma Keeps_refl (T : jsstring -> list row) : Tables.Keeps cfg T T.
Proof. constructor; auto. Qed.

Lemma Keeps_trans (T1 T2 T3 : jsstring -> list row) :
  Tables.Keeps cfg T1 T2 -> Tables.Keeps cfg T2 T3 -> Tables.Keeps cfg T1 T3.
Proof. intros [A1 I1 D1 C1] [A2 I2 D2 C2]. constructor; auto. Qed.

Lemma SameCounts_refl (T : jsstring -> list row) : Tables.SameCounts cfg T T.
Proof. now repeat split. Qed.

Lemma SameCounts_trans (T1 T2 T3 : jsstring -> list row) :
  Tables.SameCounts cfg T1 T2 -> Tables.SameCounts cfg T2 T3 ->
  Tables.SameCounts cfg T1 T3.
Proof. intros [Ha [Hd Hc]] [Ha' [Hd' Hc']]. repeat split; congruence. Qed.

Lemma Same3_Keeps (T T' : jsstring -> list row) :
  Tables.Same3 cfg T T' -> Tables.Keeps cfg T T'.
Proof. intros [Ha [Hd Hc]]. constructor; intros; congruence. Qed.

Lemma Same3_SameCounts (T T' : jsstring -> list row) :
  Tables.Same3 cfg T T' -> Tables.SameCounts cfg T T'.
Proof. intros [Ha [Hd Hc]]. repeat split; congruence. Qed.

(** What is already written for a message stays written. *)
Lemma Covered_kept (T T' : jsstring -> list row) (m : PollMessage) :
  Tables.Keeps cfg T T' -> Tables.Covered cfg T m -> Tables.Covered cfg T' m.
Proof.
  intros [HA HI HD HC] [Ha [Hr Hs]]. split; [auto | split].
  - intros Hl. auto.
  - intros Hl. destruct (Hs Hl) as [a [Hid Hd]]. exists a. auto.
Qed.

End RelationFacts.

Section TableSteps.
Context `{Host}.
Variable cfg : Config.
Hypothesis well : Tables.wellConfigured cfg.

Lemma eqb_neq (a b : jsstring) : a <> b -> jsstring_eqb a b = false.
Proof.
  intros Hne. destruct (jsstring_eqb a b) eqn:Heq; [| reflexivity].
  apply jsstring_eqb_eq in Heq. contradiction.
Qed.

Lemma tables_distinct :
  contactsTable cfg <> activitiesTable cfg
  /\ contactsTable cfg <> draftsTable cfg
  /\ contactsTable cfg <> accountingTable cfg
  /\ activitiesTable cfg <> draftsTable cfg
  /\ activitiesTable cfg <> accountingTable cfg
  /\ draftsTable cfg <> accountingTable cfg
  /\ jobRunsTable cfg <> activitiesTable cfg
  /\ jobRunsTable cfg <> draftsTable cfg
  /\ jobRunsTable cfg <> accountingTable cfg
  /\ pollStateTable cfg <> activitiesTable cfg
  /\ pollStateTable cfg <> draftsTable cfg
  /\ pollStateTable cfg <> accountingTable cfg.
Proof.
  destruct well as [_ Hnd].
  repeat match goal with
         | Hn : NoDup (_ :: _) |- _ => inversion Hn; clear Hn; subst
         end.
  repeat split; intros Heq;
    match goal with
    | Hnot : ~ In ?x ?l |- _ =>
        apply Hnot; cbn [In]; rewrite ?Heq, <- ?Heq; tauto
    end.
Qed.

Lemma setTable_same (t : jsstring) (rows : list row) (T : jsstring -> list row) :
  Store.setTable t rows T t = rows.
Proof. unfold Store.setTable. now rewrite jsstring_eqb_refl. Qed.

Lemma setTable_other (t n : jsstring) (rows : list row) (T : jsstring -> list row) :
  n <> t -> Store.setTable t rows T n = T n.
Proof. intros Hne. unfold Store.setTable. now rewrite (eqb_neq _ _ Hne). Qed.

Lemma Same3_setTable (t : jsstring) (rows : list row) (T : jsstring -> list row) :
  activitiesTable cfg <> t -> draftsTable cfg <> t -> accountingTable cfg <> t ->
  Tables.Same3 cfg T (Store.setTable t rows T).
Proof.
  intros Ha Hd Hx. unfold Tables.Same3.
  now rewrite !setTable_other by assumption.
Qed.

(** An upsert on the store always answers with the stored row. *)
Lemma upsert_inv (t c : jsstring) (r : row) (b b' : Store.Backend)
  (res : result row) :
  upsert (H := StoreWorld) cfg t c r b = (res, b') ->
  exists rows' stored n',
    Store.upsertInto c r (Store.tables b t) (Store.nextId b) = (rows', stored, n')
    /\ res = Ok stored
    /\ Store.tables b' = Store.setTable t rows' (Store.tables b).
Proof.
  intros Hrun.
  destruct (Store.upsertInto c r (Store.tables b t) (Store.nextId b))
    as [[rows' stored] n'] eqn:Hup.
  rewrite (upsert_store cfg well t c r b rows' stored n' Hup) in Hrun.
  injection Hrun as <- <-. exists rows', stored, n'. auto.
Qed.

Lemma patch_inv (t : jsstring) (filters : list (jsstring * jsstring)) (p : row)
  (b b' : Store.Backend) (res : result (list row)) :
  supabasePatchRows (H := StoreWorld) (supabaseUrl cfg) (supabaseKey cfg) t
    filters p b = (res, b') ->
  exists q,
    Store.tables b'
    = Store.setTable t (fst (Store.patchWhere q p (Store.tables b t)))
        (Store.tables b).
Proof.
  intros Hrun. destruct (patch_store cfg well t filters p b) as [out [q Heq]].
  rewrite Heq in Hrun. injection Hrun as _ <-. now exists q.
Qed.

Lemma effect_upsert_other (t c : jsstring) (r : row) :
  activitiesTable cfg <> t -> draftsTable cfg <> t -> accountingTable cfg <> t ->
  Tables.effect (Tables.Same3 cfg) (upsert (H := StoreWorld) cfg t c r).
Proof.
  intros Ha Hd Hx b res b' Hrun.
  destruct (upsert_inv _ _ _ _ _ _ Hrun) as [rows' [stored [n' [_ [_ ->]]]]].
  now apply Same3_setTable.
Qed.

Lemma effect_patch_other (t : jsstring) (filters : list (jsstring * jsstring))
  (p : row) :
  activitiesTable cfg <> t -> draftsTable cfg <> t -> accountingTable cfg <> t ->
  Tables.effect (Tables.Same3 cfg)
    (supabasePatchRows (H := StoreWorld) (supabaseUrl cfg) (supabaseKey cfg) t
       filters p).
Proof.
  intros Ha Hd Hx b res b' Hrun.
  destruct (patch_inv _ _ _ _ _ _ Hrun) as [q ->].
  now apply Same3_setTable.
Qed.

(** ** The four upserts of the loop body *)

Lemma upsertActivity_inv (snapshot : option SopSnapshot) (m : PollMessage)
  (cls : ClassificationResult) (se sn ts cid : option jsstring)
  (b b' : Store.Backend) (res : result row) :
  upsertActivity (H := StoreWorld) cfg snapshot m cls se sn ts cid b = (res, b') ->
  exists rows' stored,
    res = Ok stored
    /\ Store.tables b' = Store.setTable (activitiesTable cfg) rows' (Store.tables b)
    /\ Tables.Upserted "source_key" (source_key m)
         (Store.tables b (activitiesTable cfg)) rows' stored.
Proof.
  unfold upsertActivity. intros Hrun. apply bind_inv in Hrun.
  destruct Hrun as [[t1 [b1 [Hnow Hup]]] | [e [Hnow _]]];
    [| rewrite now_store in Hnow; discriminate].
  rewrite now_store in Hnow. injection Hnow as <- <-.
  destruct (upsert_inv _ _ _ _ _ _ Hup) as [rows' [stored [n' [Hinto [-> ->]]]]].
  exists rows', stored. split; [reflexivity |]. split; [reflexivity |].
  eapply (upsertInto_summary "source_key" (source_key m)); cycle 4.
  - exact Hinto.
  - reflexivity.
  - reflexivity.
  - intros r. unfold activityRow.
    apply (prop_mergeRow_object_defined r "source_key" _ []). reflexivity.
  - intros r. unfold activityRow. now apply prop_mergeRow_object_absent.
Qed.

Lemma upsertDraft_inv (snapshot : option SopSnapshot) (m : PollMessage)
  (activityId toEmail : jsstring) (draft : jsstring * jsstring)
  (b b' : Store.Backend) (res : result row) :
  upsertDraft (H := StoreWorld) cfg snapshot m activityId toEmail draft b
  = (res, b') ->
  exists rows' stored,
    res = Ok stored
    /\ Store.tables b' = Store.setTable (draftsTable cfg) rows' (Store.tables b)
    /\ Tables.Upserted "activity_id" activityId
         (Store.tables b (draftsTable cfg)) rows' stored.
Proof.
  unfold upsertDraft. intros Hrun. apply bind_inv in Hrun.
  destruct Hrun as [[t1 [b1 [Hnow Hup]]] | [e [Hnow _]]];
    [| rewrite now_store in Hnow; discriminate].
  rewrite now_store in Hnow. injection Hnow as <- <-.
  destruct (upsert_inv _ _ _ _ _ _ Hup) as [rows' [stored [n' [Hinto [-> ->]]]]].
  exists rows', stored. split; [reflexivity |]. split; [reflexivity |].
  eapply (upsertInto_summary "activity_id" activityId); cycle 4.
  - exact Hinto.
  - reflexivity.
  - reflexivity.
  - intros r. unfold draftRow.
    apply (prop_mergeRow_object_defined r "activity_id" _ []). reflexivity.
  - intros r. unfold draftRow. now apply prop_mergeRow_object_absent.
Qed.

Lemma upsertAccounting_inv (m : PollMessage) (activityId : jsstring)
  (parsed : ReceiptInfo) (b b' : Store.Backend) (res : result row) :
  upsertAccounting (H := StoreWorld) cfg m activityId parsed b = (res, b') ->
  exists rows' stored,
    res = Ok stored
    /\ Store.tables b' = Store.setTable (accountingTable cfg) rows' (Store.tables b)
    /\ Tables.Upserted "source_key" (source_key m)
         (Store.tables b (accountingTable cfg)) rows' stored.
Proof.
  unfold upsertAccounting. intros Hrun. apply bind_inv in Hrun.
  destruct Hrun as [[t1 [b1 [Hnow Hup]]] | [e [Hnow _]]];
    [| rewrite now_store in Hnow; discriminate].
  rewrite now_store in Hnow. injection Hnow as <- <-.
  destruct (upsert_inv _ _ _ _ _ _ Hup) as [rows' [stored [n' [Hinto [-> ->]]]]].
  exists rows', stored. split; [reflexivity |]. split; [reflexivity |].
  eapply (upsertInto_summary "source_key" (source_key m)); cycle 4.
  - exact Hinto.
  - reflexivity.
  - reflexivity.
  - intros r. unfold accountingRow.
    apply (prop_mergeRow_object_defined r "source_key" _ []). reflexivity.
  - intros r. unfold accountingRow. now apply prop_mergeRow_object_absent.
Qed.

End TableSteps.

Section KeepsFacts.
Context `{Host}.
Variable cfg : Config.
Hypothesis well : Tables.wellConfigured cfg.

Let distinct := tables_distinct cfg well.

Lemma Keeps_activities (T : jsstring -> list row) (rows' : list row)
  (stored : row) (k : jsstring) :
  Tables.Upserted "source_key" k (T (activitiesTable cfg)) rows' stored ->
  Tables.Keeps cfg T (Store.setTable (activitiesTable cfg) rows' T).
Proof.
  intros [_ [_ [Hheld [Hid _]]]].
  destruct distinct as (_ & _ & _ & Had & Hax & _).
  constructor; rewrite ?setTable_same;
    rewrite ?(setTable_other _ (draftsTable cfg)) by (apply not_eq_sym; exact Had);
    rewrite ?(setTable_other _ (accountingTable cfg)) by (apply not_eq_sym; exact Hax);
    auto.
Qed.

Lemma Keeps_drafts (T : jsstring -> list row) (rows' : list row) :
  (forall a, Tables.held "activity_id" a (T (draftsTable cfg)) = true ->
             Tables.held "activity_id" a rows' = true) ->
  Tables.Keeps cfg T (Store.setTable (draftsTable cfg) rows' T).
Proof.
  intros Hheld. destruct distinct as (_ & _ & _ & Had & _ & Hdx & _).
  constructor; rewrite ?setTable_same;
    rewrite ?(setTable_other _ (activitiesTable cfg)) by exact Had;
    rewrite ?(setTable_other _ (accountingTable cfg)) by (apply not_eq_sym; exact Hdx);
    auto.
Qed.

Lemma Keeps_accounting (T : jsstring -> list row) (rows' : list row) :
  (forall k, Tables.held "source_key" k (T (accountingTable cfg)) = true ->
             Tables.held "source_key" k rows' = true) ->
  Tables.Keeps cfg T (Store.setTable (accountingTable cfg) rows' T).
Proof.
  intros Hheld. destruct distinct as (_ & _ & _ & _ & Hax & Hdx & _).
  constructor; rewrite ?setTable_same;
    rewrite ?(setTable_other _ (activitiesTable cfg)) by exact Hax;
    rewrite ?(setTable_other _ (draftsTable cfg)) by exact Hdx;
    auto.
Qed.

(** The patch of a draft writes neither its activity link nor its [id]. *)
Lemma draftPatch_agrees (q : list (jsstring * jsstring)) (summary t : jsstring)
  (rows : list row) :
  Tables.rowsAgree [js "activity_id"] rows
    (fst (Store.patchWhere q (draftPatch summary t) rows)).
Proof.
  apply patchWhere_agrees. intros col r [<- | []].
  unfold draftPatch. now apply prop_mergeRow_object_absent.
Qed.

Lemma patchDraft_inv (draftId summary t : jsstring) (b b' : Store.Backend)
  (res : result (list row)) :
  supabasePatchRows (H := StoreWorld) (supabaseUrl cfg) (supabaseKey cfg)
    (draftsTable cfg) [(js "id", draftId)] (draftPatch summary t) b = (res, b') ->
  exists rows',
    Store.tables b' = Store.setTable (draftsTable cfg) rows' (Store.tables b)
    /\ Tables.rowsAgree [js "activity_id"] (Store.tables b (draftsTable cfg)) rows'.
Proof.
  intros Hrun. destruct (patch_inv cfg well _ _ _ _ _ _ Hrun) as [q ->].
  eexists. split; [reflexivity |]. apply draftPatch_agrees.
Qed.

Lemma effect_Keeps_upsertContact (m : PollMessage) (lbl : Classification)
  (se sn ts : option jsstring) :
  Tables.effect (Tables.Same3 cfg)
    (upsertContact (H := StoreWorld) cfg m lbl se sn ts).
Proof.
  destruct distinct as (Hca & Hcd & Hcx & _).
  unfold upsertContact.
  destruct (nonEmpty se) as [email |];
    [| apply effect_ret; apply Same3_refl].
  destruct (_ || _); [| apply effect_ret; apply Same3_refl].
  apply effect_bind; try apply Same3_refl; try apply Same3_trans.
  - unfold upsertContactRow.
    apply effect_bind; try apply Same3_refl; try apply Same3_trans.
    + destruct (nonEmpty ts); [apply effect_ret | apply effect_now];
        apply Same3_refl.
    + intros lastSeen.
      apply effect_bind; try apply Same3_refl; try apply Same3_trans.
      * apply effect_now. apply Same3_refl.
      * intros t1. apply effect_upsert_other; auto using not_eq_sym.
  - intros contact. apply effect_ret. apply Same3_refl.
Qed.

Lemma effect_Keeps_upsertActivity (snapshot : option SopSnapshot)
  (m : PollMessage) (cls : ClassificationResult) (se sn ts cid : option jsstring) :
  Tables.effect (Tables.Keeps cfg)
    (upsertActivity (H := StoreWorld) cfg snapshot m cls se sn ts cid).
Proof.
  intros b res b' Hrun.
  destruct (upsertActivity_inv cfg well _ _ _ _ _ _ _ _ _ _ Hrun)
    as [rows' [stored [_ [-> Hup]]]].
  now apply Keeps_activities with stored (source_key m).
Qed.

Lemma effect_Keeps_upsertDraft (snapshot : option SopSnapshot)
  (m : PollMessage) (activityId toEmail : jsstring) (draft : jsstring * jsstring) :
  Tables.effect (Tables.Keeps cfg)
    (upsertDraft (H := StoreWorld) cfg snapshot m activityId toEmail draft).
Proof.
  intros b res b' Hrun.
  destruct (upsertDraft_inv cfg well _ _ _ _ _ _ _ _ Hrun)
    as [rows' [stored [_ [-> [_ [_ [Hheld _]]]]]]].
  now apply Keeps_drafts.
Qed.

Lemma effect_Keeps_patchDraft (draftId summary t : jsstring) :
  Tables.effect (Tables.Keeps cfg)
    (supabasePatchRows (H := StoreWorld) (supabaseUrl cfg) (supabaseKey cfg)
       (draftsTable cfg) [(js "id", draftId)] (draftPatch summary t)).
Proof.
  intros b res b' Hrun.
  destruct (patchDraft_inv _ _ _ _ _ _ Hrun) as [rows' [-> Hag]].
  apply Keeps_drafts. intros a Ha.
  now rewrite (rowsAgree_held [js "activity_id"] "activity_id" a _ _
                 (or_introl eq_refl) Hag).
Qed.

Lemma effect_Keeps_upsertAccounting (m : PollMessage) (activityId : jsstring)
  (parsed : ReceiptInfo) :
  Tables.effect (Tables.Keeps cfg)
    (upsertAccounting (H := StoreWorld) cfg m activityId parsed).
Proof.
  intros b res b' Hrun.
  destruct (upsertAccounting_inv cfg well _ _ _ _ _ _ Hrun)
    as [rows' [stored [_ [-> [_ [_ [Hheld _]]]]]]].
  now apply Keeps_accounting.
Qed.

Variable env : Env.
Variable snapshot : option SopSnapshot.
Variable cues : list jsstring.

Lemma effect_Keeps_handleSales (m : PollMessage) (se sn ts : option jsstring)
  (activityId : jsstring) (res : ProcessResult) :
  Tables.effect (Tables.Keeps cfg)
    (handleSales (H := StoreWorld) env cfg snapshot cues m se sn ts activityId res).
Proof.
  unfold handleSales.
  apply effect_bind; try apply Keeps_refl; try apply Keeps_trans.
  - apply effect_Keeps_upsertDraft.
  - intros stored. destruct (nonEmpty (stringProp "id" stored)) as [draftId |];
      [| apply effect_throw; apply Keeps_refl].
    apply effect_bind; try apply Keeps_refl; try apply Keeps_trans.
    + apply effect_now. apply Keeps_refl.
    + intros t2. apply effect_bind; try apply Keeps_refl; try apply Keeps_trans.
      * apply effect_Keeps_patchDraft.
      * intros patched.
        apply effect_bind; try apply Keeps_refl; try apply Keeps_trans.
        -- apply effect_slack. apply Keeps_refl.
        -- intros slack. apply effect_ret. apply Keeps_refl.
Qed.

Lemma effect_Keeps_handleReceipt (m : PollMessage) (activityId : jsstring)
  (res : ProcessResult) :
  Tables.effect (Tables.Keeps cfg)
    (handleReceipt (H := StoreWorld) cfg m activityId res).
Proof.
  unfold handleReceipt.
  apply effect_bind; try apply Keeps_refl; try apply Keeps_trans.
  - apply effect_ofResult. apply Keeps_refl.
  - intros parsed.
    apply effect_bind; try apply Keeps_refl; try apply Keeps_trans.
    + apply effect_Keeps_upsertAccounting.
    + intros stored. apply effect_ret. apply Keeps_refl.
Qed.

Lemma effect_Keeps_processMessage (m : PollMessage) (st : RunState) :
  Tables.effect (Tables.Keeps cfg)
    (processMessage (H := StoreWorld) env cfg snapshot cues m st).
Proof.
  unfold processMessage.
  apply effect_bind; try apply Keeps_refl; try apply Keeps_trans.
  - apply effect_ofResult. apply Keeps_refl.
  - intros ts.
    apply effect_bind; try apply Keeps_refl; try apply Keeps_trans.
    + apply (effect_weaken (Tables.Same3 cfg)); [apply Same3_Keeps |].
      apply effect_Keeps_upsertContact.
    + intros cid.
      apply effect_bind; try apply Keeps_refl; try apply Keeps_trans.
      * apply effect_Keeps_upsertActivity.
      * intros activity.
        destruct (nonEmpty (stringProp "id" activity)) as [activityId |];
          [| apply effect_throw; apply Keeps_refl].
        apply effect_bind; try apply Keeps_refl; try apply Keeps_trans.
        -- destruct (Classification_eqb _ sales);
             [apply effect_Keeps_handleSales | apply effect_ret; apply Keeps_refl].
        -- intros res1.
           apply effect_bind; try apply Keeps_refl; try apply Keeps_trans.
           ++ destruct (Classification_eqb _ receipt);
                [apply effect_Keeps_handleReceipt
                | apply effect_ret; apply Keeps_refl].
           ++ intros res2. apply effect_ret. apply Keeps_refl.
Qed.

Lemma effect_Same3_startRun (poll : PollFile) :
  Tables.effect (Tables.Same3 cfg)
    (startRun (H := StoreWorld) cfg poll snapshot).
Proof.
  destruct distinct as (_ & _ & _ & _ & _ & _ & Hja & Hjd & Hjx & _).
  unfold startRun.
  apply effect_bind; try apply Same3_refl; try apply Same3_trans.
  - apply effect_now. apply Same3_refl.
  - intros startedAt.
    apply effect_bind; try apply Same3_refl; try apply Same3_trans.
    + destruct (nonEmpty (poll_run_id poll));
        [apply effect_ret | apply effect_uuid]; apply Same3_refl.
    + intros runId.
      apply effect_bind; try apply Same3_refl; try apply Same3_trans.
      * apply effect_now. apply Same3_refl.
      * intros t0.
        apply effect_bind; try apply Same3_refl; try apply Same3_trans.
        -- apply effect_upsert_other; auto using not_eq_sym.
        -- intros stored. apply effect_ret. apply Same3_refl.
Qed.

Lemma effect_Same3_finalizeRun (poll : PollFile) (st : RunState) :
  Tables.effect (Tables.Same3 cfg) (finalizeRun (H := StoreWorld) cfg poll st).
Proof.
  destruct distinct
    as (_ & _ & _ & _ & _ & _ & Hja & Hjd & Hjx & Hsa & Hsd & Hsx).
  unfold finalizeRun.
  apply effect_bind; try apply Same3_refl; try apply Same3_trans.
  - apply effect_forEach; try apply Same3_refl; try apply Same3_trans.
    intros a res _. unfold updatePollState.
    apply effect_bind; try apply Same3_refl; try apply Same3_trans.
    + apply effect_now. apply Same3_refl.
    + intros t1.
      apply effect_bind; try apply Same3_refl; try apply Same3_trans.
      * apply effect_now. apply Same3_refl.
      * intros t2.
        apply effect_bind; try apply Same3_refl; try apply Same3_trans.
        -- apply effect_upsert_other; auto using not_eq_sym.
        -- intros stored. apply effect_ret. apply Same3_refl.
  - intros res.
    apply effect_bind; try apply Same3_refl; try apply Same3_trans.
    + apply effect_now. apply Same3_refl.
    + intros finishedAt.
      apply effect_bind; try apply Same3_refl; try apply Same3_trans.
      * apply effect_now. apply Same3_refl.
      * intros t1.
        apply effect_bind; try apply Same3_refl; try apply Same3_trans.
        -- apply effect_patch_other; auto using not_eq_sym.
        -- intros patched. apply effect_ret. apply Same3_refl.
Qed.

End KeepsFacts.

Section IdempotenceFacts.
Context `{Host}.
Variable cfg : Config.
Hypothesis well : Tables.wellConfigured cfg.
Variable env : Env.
Variable snapshot : option SopSnapshot.
Variable cues : list jsstring.

Let distinct := tables_distinct cfg well.

Lemma stringProp_of_nonEmpty (r : row) (a : jsstring) :
  nonEmpty (stringProp "id" r) = Some a -> stringProp "id" r = Some a.
Proof. intros Hne. now destruct (nonEmpty_inv _ _ Hne). Qed.

(** ** First run: what a processed message leaves behind *)

Lemma handleSales_leaves (m : PollMessage) (se sn ts : option jsstring)
  (activityId : jsstring) (res res' : ProcessResult) (b b' : Store.Backend) :
  handleSales (H := StoreWorld) env cfg snapshot cues m se sn ts activityId res b
  = (Ok res', b') ->
  Tables.held "activity_id" activityId (Store.tables b' (draftsTable cfg)) = true.
Proof.
  unfold handleSales. intros Hrun. open_bind Hrun as stored b1 Hdraft.
  destruct (upsertDraft_inv cfg well _ _ _ _ _ _ _ _ Hdraft)
    as [rows' [stored' [_ [Ht1 [_ [Hheld _]]]]]].
  assert (H1 : Tables.held "activity_id" activityId
                 (Store.tables b1 (draftsTable cfg)) = true).
  { rewrite Ht1, setTable_same. exact Hheld. }
  assert (Hkeep : Tables.Keeps cfg (Store.tables b1) (Store.tables b')).
  { destruct (nonEmpty (stringProp "id" stored)) as [draftId |]; [| discriminate].
    revert Hrun.
    match goal with
    | |- ?c b1 = _ -> _ =>
        assert (He : Tables.effect (Tables.Keeps cfg) c)
    end.
    { apply effect_bind; try apply Keeps_refl; try apply Keeps_trans.
      - apply effect_now. apply Keeps_refl.
      - intros t2. apply effect_bind; try apply Keeps_refl; try apply Keeps_trans.
        + now apply effect_Keeps_patchDraft.
        + intros patched.
          apply effect_bind; try apply Keeps_refl; try apply Keeps_trans.
          * apply effect_slack. apply Keeps_refl.
          * intros slack. apply effect_ret. apply Keeps_refl. }
    intros Hrun. exact (He _ _ _ Hrun). }
  now apply (Tables.keeps_draft _ _ _ Hkeep).
Qed.

Lemma handleReceipt_leaves (m : PollMessage) (activityId : jsstring)
  (res res' : ProcessResult) (b b' : Store.Backend) :
  handleReceipt (H := StoreWorld) cfg m activityId res b = (Ok res', b') ->
  Tables.held "source_key" (source_key m)
    (Store.tables b' (accountingTable cfg)) = true.
Proof.
  unfold handleReceipt. intros Hrun. open_bind Hrun as parsed b1 Hparsed.
  unfold ofResult in Hparsed. injection Hparsed as _ <-.
  open_bind Hrun as stored b2 Hup.
  destruct (upsertAccounting_inv cfg well _ _ _ _ _ _ Hup)
    as [rows' [stored' [_ [Ht [_ [Hheld _]]]]]].
  unfold ret in Hrun. injection Hrun as _ <-.
  rewrite Ht, setTable_same. exact Hheld.
Qed.

(** A message that was processed to the end is covered by the tables. *)
Lemma processMessage_covers (m : PollMessage) (st st' : RunState)
  (b b' : Store.Backend) :
  processMessage (H := StoreWorld) env cfg snapshot cues m st b = (Ok st', b') ->
  Tables.Covered cfg (Store.tables b') m.
Proof.
  unfold processMessage. intros Hrun.
  open_bind Hrun as ts b0 Hts. open_bind Hrun as cid b1 Hcontact.
  open_bind Hrun as activity b2 Hactivity.
  destruct (upsertActivity_inv cfg well _ _ _ _ _ _ _ _ _ _ Hactivity)
    as [rows' [stored [Hres [Ht2 [Hfirst [Hheld _]]]]]].
  injection Hres as <-.
  destruct (nonEmpty (stringProp "id" activity)) as [activityId |] eqn:Hid;
    [| discriminate].
  apply stringProp_of_nonEmpty in Hid.
  open_bind Hrun as res1 b3 Hsales. open_bind Hrun as res2 b4 Hreceipt.
  unfold ret in Hrun. injection Hrun as _ <-.
  assert (K23 : Tables.Keeps cfg (Store.tables b2) (Store.tables b3)).
  { destruct (Classification_eqb (label (classifyInbound m)) sales).
    - exact (effect_Keeps_handleSales cfg well env snapshot cues _ _ _ _ _ _ _ _ _ Hsales).
    - unfold ret in Hsales. injection Hsales as _ <-. apply Keeps_refl. }
  assert (K34 : Tables.Keeps cfg (Store.tables b3) (Store.tables b4)).
  { destruct (Classification_eqb (label (classifyInbound m)) receipt).
    - exact (effect_Keeps_handleReceipt cfg well _ _ _ _ _ _ Hreceipt).
    - unfold ret in Hreceipt. injection Hreceipt as _ <-. apply Keeps_refl. }
  assert (K24 := Keeps_trans cfg _ _ _ K23 K34).
  assert (Hact : Tables.held "source_key" (source_key m)
                   (Store.tables b2 (activitiesTable cfg)) = true).
  { rewrite Ht2, setTable_same. exact Hheld. }
  assert (Hfid : Tables.firstId "source_key" (source_key m)
                   (Store.tables b2 (activitiesTable cfg)) = Some activityId).
  { rewrite Ht2, setTable_same. unfold Tables.firstId. now rewrite Hfirst. }
  split; [now apply (Tables.keeps_activity _ _ _ K24) |]. split.
  - intros Hl. rewrite Hl in Hreceipt. cbn [Classification_eqb] in Hreceipt.
    now apply handleReceipt_leaves in Hreceipt.
  - intros Hl. rewrite Hl in Hsales. cbn [Classification_eqb] in Hsales.
    apply handleSales_leaves in Hsales.
    exists activityId. split.
    + now apply (Tables.keeps_activity_id _ _ _ K24).
    + now apply (Tables.keeps_draft _ _ _ K34).
Qed.

Lemma loop_covers (msgs : list PollMessage) :
  forall (st st' : RunState) (b b' : Store.Backend),
    forEach (processMessage (H := StoreWorld) env cfg snapshot cues) msgs st b
    = (Ok st', b') ->
    forall m, In m msgs -> Tables.Covered cfg (Store.tables b') m.
Proof.
  induction msgs as [| m0 msgs IH]; intros st st' b b' Hrun m Hin;
    [destruct Hin |].
  cbn [forEach] in Hrun. open_bind Hrun as st1 b1 Hm0.
  destruct Hin as [<- | Hin]; [| now apply (IH _ _ _ _ Hrun)].
  apply Covered_kept with (Store.tables b1).
  - revert Hrun. apply (effect_forEach (Tables.Keeps cfg)).
    + apply Keeps_refl.
    + apply Keeps_trans.
    + intros x acc _. now apply effect_Keeps_processMessage.
  - now apply processMessage_covers in Hm0.
Qed.

End IdempotenceFacts.

Section SecondRunFacts.
Context `{Host}.
Variable cfg : Config.
Hypothesis well : Tables.wellConfigured cfg.
Variable env : Env.
Variable snapshot : option SopSnapshot.
Variable cues : list jsstring.

Let distinct := tables_distinct cfg well.

Lemma SameCounts_activities (T : jsstring -> list row) (rows' : list row) :
  length rows' = length (T (activitiesTable cfg)) ->
  Tables.SameCounts cfg T (Store.setTable (activitiesTable cfg) rows' T).
Proof.
  intros Hlen. destruct distinct as (_ & _ & _ & Had & Hax & _).
  unfold Tables.SameCounts. rewrite setTable_same.
  rewrite !setTable_other by (apply not_eq_sym; assumption). auto.
Qed.

Lemma SameCounts_drafts (T : jsstring -> list row) (rows' : list row) :
  length rows' = length (T (draftsTable cfg)) ->
  Tables.SameCounts cfg T (Store.setTable (draftsTable cfg) rows' T).
Proof.
  intros Hlen. destruct distinct as (_ & _ & _ & Had & _ & Hdx & _).
  unfold Tables.SameCounts. rewrite setTable_same.
  rewrite (setTable_other _ (activitiesTable cfg)) by exact Had.
  rewrite (setTable_other _ (accountingTable cfg))
    by (apply not_eq_sym; exact Hdx).
  auto.
Qed.

Lemma SameCounts_accounting (T : jsstring -> list row) (rows' : list row) :
  length rows' = length (T (accountingTable cfg)) ->
  Tables.SameCounts cfg T (Store.setTable (accountingTable cfg) rows' T).
Proof.
  intros Hlen. destruct distinct as (_ & _ & _ & _ & Hax & Hdx & _).
  unfold Tables.SameCounts. rewrite setTable_same.
  rewrite (setTable_other _ (activitiesTable cfg)) by exact Hax.
  rewrite (setTable_other _ (draftsTable cfg)) by exact Hdx.
  auto.
Qed.

Lemma effect_SameCounts_patchDraft (draftId summary t : jsstring) :
  Tables.effect (Tables.SameCounts cfg)
    (supabasePatchRows (H := StoreWorld) (supabaseUrl cfg) (supabaseKey cfg)
       (draftsTable cfg) [(js "id", draftId)] (draftPatch summary t)).
Proof.
  intros b res b' Hrun.
  destruct (patchDraft_inv cfg well _ _ _ _ _ _ Hrun) as [rows' [-> Hag]].
  apply SameCounts_drafts. exact (rowsAgree_length _ _ _ Hag).
Qed.

(** A sales message whose draft is there: the sales branch adds no row. *)
Lemma handleSales_counts (m : PollMessage) (se sn ts : option jsstring)
  (activityId : jsstring) (res : ProcessResult) (b b' : Store.Backend)
  (r : result ProcessResult) :
  Tables.held "activity_id" activityId (Store.tables b (draftsTable cfg)) = true ->
  handleSales (H := StoreWorld) env cfg snapshot cues m se sn ts activityId res b
  = (r, b') ->
  Tables.SameCounts cfg (Store.tables b) (Store.tables b').
Proof.
  intros Hheld. unfold handleSales. intros Hrun. apply bind_inv in Hrun.
  destruct Hrun as [[stored [b1 [Hdraft Hrest]]] | [e [Hdraft _]]].
  - destruct (upsertDraft_inv cfg well _ _ _ _ _ _ _ _ Hdraft)
      as [rows' [stored' [_ [Ht1 [_ [_ [_ [_ Hsame]]]]]]]].
    destruct (Hsame Hheld) as [Hlen _].
    apply SameCounts_trans with (Store.tables b1).
    + rewrite Ht1. now apply SameCounts_drafts.
    + destruct (nonEmpty (stringProp "id" stored)) as [draftId |].
      * revert Hrest.
        match goal with
        | |- ?c b1 = _ -> _ =>
            assert (He : Tables.effect (Tables.SameCounts cfg) c)
        end.
        { apply effect_bind; try apply SameCounts_refl; try apply SameCounts_trans.
          - apply effect_now. apply SameCounts_refl.
          - intros t2.
            apply effect_bind; try apply SameCounts_refl; try apply SameCounts_trans.
            + apply effect_SameCounts_patchDraft.
            + intros patched.
              apply effect_bind; try apply SameCounts_refl;
                try apply SameCounts_trans.
              * apply effect_slack. apply SameCounts_refl.
              * intros slack. apply effect_ret. apply SameCounts_refl. }
        intros Hrest. exact (He _ _ _ Hrest).
      * unfold throw in Hrest. injection Hrest as _ <-. apply SameCounts_refl.
  - destruct (upsertDraft_inv cfg well _ _ _ _ _ _ _ _ Hdraft)
      as [rows' [stored' [Habs _]]]. discriminate Habs.
Qed.

(** A receipt whose accounting entry is there: the receipt branch adds no
    row. *)
Lemma handleReceipt_counts (m : PollMessage) (activityId : jsstring)
  (res : ProcessResult) (b b' : Store.Backend) (r : result ProcessResult) :
  Tables.held "source_key" (source_key m)
    (Store.tables b (accountingTable cfg)) = true ->
  handleReceipt (H := StoreWorld) cfg m activityId res b = (r, b') ->
  Tables.SameCounts cfg (Store.tables b) (Store.tables b').
Proof.
  intros Hheld. unfold handleReceipt. intros Hrun. apply bind_inv in Hrun.
  destruct Hrun as [[parsed [b1 [Hparsed Hrest]]] | [e [Hparsed _]]];
    unfold ofResult in Hparsed; injection Hparsed as _ <-;
    [| apply SameCounts_refl].
  apply bind_inv in Hrest.
  destruct Hrest as [[stored [b2 [Hup Hret]]] | [e [Hup _]]].
  - destruct (upsertAccounting_inv cfg well _ _ _ _ _ _ Hup)
      as [rows' [stored' [_ [Ht [_ [_ [_ [_ Hsame]]]]]]]].
    destruct (Hsame Hheld) as [Hlen _].
    unfold ret in Hret. injection Hret as _ <-.
    rewrite Ht. now apply SameCounts_accounting.
  - destruct (upsertAccounting_inv cfg well _ _ _ _ _ _ Hup)
      as [rows' [stored' [Habs _]]]. discriminate Habs.
Qed.

(** Processing a covered message again adds no row to the three tables,
    however the pass ends. *)
Lemma processMessage_counts (m : PollMessage) (st : RunState)
  (b b' : Store.Backend) (r : result RunState) :
  Tables.Covered cfg (Store.tables b) m ->
  processMessage (H := StoreWorld) env cfg snapshot cues m st b = (r, b') ->
  Tables.SameCounts cfg (Store.tables b) (Store.tables b').
Proof.
  intros Hcov. unfold processMessage. intros Hrun. apply bind_inv in Hrun.
  destruct Hrun as [[ts [b0 [Hts Hrun]]] | [e [Hts _]]];
    unfold ofResult in Hts; injection Hts as _ <-; [| apply SameCounts_refl].
  apply bind_inv in Hrun.
  destruct Hrun as [[cid [b1 [Hcontact Hrun]]] | [e [Hcontact _]]].
  2:{ apply Same3_SameCounts.
      exact (effect_Keeps_upsertContact cfg well _ _ _ _ _ _ _ _ Hcontact). }
  pose proof (effect_Keeps_upsertContact cfg well _ _ _ _ _ _ _ _ Hcontact) as S01.
  apply SameCounts_trans with (Store.tables b1); [now apply Same3_SameCounts |].
  pose proof (Covered_kept cfg _ _ m (Same3_Keeps cfg _ _ S01) Hcov)
    as [Hact [Hrec Hsal]].
  apply bind_inv in Hrun.
  destruct Hrun as [[activity [b2 [Hactivity Hrun]]] | [e [Hactivity _]]].
  2:{ destruct (upsertActivity_inv cfg well _ _ _ _ _ _ _ _ _ _ Hactivity)
        as [rows' [stored [Habs _]]]. discriminate Habs. }
  destruct (upsertActivity_inv cfg well _ _ _ _ _ _ _ _ _ _ Hactivity)
    as [rows' [stored [Hres [Ht2 Hup]]]].
  injection Hres as <-.
  pose proof (Keeps_activities cfg well _ _ _ _ Hup) as K12. rewrite <- Ht2 in K12.
  destruct Hup as [_ [_ [_ [_ Hsame]]]]. destruct (Hsame Hact) as [Hlen Hsid].
  apply SameCounts_trans with (Store.tables b2);
    [rewrite Ht2; now apply SameCounts_activities |].
  destruct (nonEmpty (stringProp "id" activity)) as [activityId |] eqn:Hid.
  2:{ unfold throw in Hrun. injection Hrun as _ <-. apply SameCounts_refl. }
  apply stringProp_of_nonEmpty in Hid.
  apply bind_inv in Hrun.
  assert (Hsales : forall r1 b3,
             (if Classification_eqb (label (classifyInbound m)) sales
              then handleSales (H := StoreWorld) env cfg snapshot cues m
                     (extractEmailAddress (from m)) (extractDisplayName (from m))
                     ts activityId
                     (withTotals bumpActivities
                        (bumpCount (label (classifyInbound m)) (result_ st)))
              else ret (withTotals bumpActivities
                          (bumpCount (label (classifyInbound m)) (result_ st))))
               b2 = (r1, b3) ->
             Tables.SameCounts cfg (Store.tables b2) (Store.tables b3)
             /\ Tables.Keeps cfg (Store.tables b2) (Store.tables b3)).
  { intros r1 b3 Hs.
    destruct (Classification_eqb (label (classifyInbound m)) sales) eqn:Hl.
    - split; [| exact (effect_Keeps_handleSales cfg well _ _ _ _ _ _ _ _ _ _ _ _ Hs)].
      apply (handleSales_counts _ _ _ _ _ _ _ _ _) with (2 := Hs).
      assert (Hlbl : label (classifyInbound m) = sales)
        by (destruct (label (classifyInbound m)); try discriminate; reflexivity).
      destruct (Hsal Hlbl) as [a [Hfid Hd]].
      rewrite <- Hsid in Hfid. rewrite Hid in Hfid. injection Hfid as ->.
      apply (Tables.keeps_draft _ _ _ K12). exact Hd.
    - unfold ret in Hs. injection Hs as _ <-.
      split; [apply SameCounts_refl | apply Keeps_refl]. }
  destruct Hrun as [[res1 [b3 [Hs Hrun]]] | [e [Hs _]]];
    [| now apply (Hsales _ _ Hs)].
  destruct (Hsales _ _ Hs) as [C23 K23].
  apply SameCounts_trans with (Store.tables b3); [exact C23 |].
  apply bind_inv in Hrun.
  assert (Hreceipt : forall r2 b4,
             (if Classification_eqb (label (classifyInbound m)) receipt
              then handleReceipt (H := StoreWorld) cfg m activityId res1
              else ret res1) b3 = (r2, b4) ->
             Tables.SameCounts cfg (Store.tables b3) (Store.tables b4)).
  { intros r2 b4 Hr.
    destruct (Classification_eqb (label (classifyInbound m)) receipt) eqn:Hl.
    - apply (handleReceipt_counts _ _ _ _ _ _) with (2 := Hr).
      assert (Hlbl : label (classifyInbound m) = receipt)
        by (destruct (label (classifyInbound m)); try discriminate; reflexivity).
      apply (Tables.keeps_accounting _ _ _ K23).
      apply (Tables.keeps_accounting _ _ _ K12). now apply Hrec.
    - unfold ret in Hr. injection Hr as _ <-. apply SameCounts_refl. }
  destruct Hrun as [[res2 [b4 [Hr Hrun]]] | [e [Hr _]]];
    [| now apply (Hreceipt _ _ Hr)].
  unfold ret in Hrun. injection Hrun as _ <-. now apply (Hreceipt _ _ Hr).
Qed.

Lemma loop_counts (msgs : list PollMessage) :
  forall (st : RunState) (b b' : Store.Backend) (r : result RunState),
    (forall m, In m msgs -> Tables.Covered cfg (Store.tables b) m) ->
    forEach (processMessage (H := StoreWorld) env cfg snapshot cues) msgs st b
    = (r, b') ->
    Tables.SameCounts cfg (Store.tables b) (Store.tables b').
Proof.
  induction msgs as [| m msgs IH]; intros st b b' r Hcov Hrun; cbn [forEach] in Hrun.
  - unfold ret in Hrun. injection Hrun as _ <-. apply SameCounts_refl.
  - apply bind_inv in Hrun.
    destruct Hrun as [[st1 [b1 [Hm Hrun]]] | [e [Hm _]]].
    + apply SameCounts_trans with (Store.tables b1).
      * apply (processMessage_counts m st b b1 (Ok st1)); [| exact Hm].
        apply Hcov. now left.
      * apply (IH _ _ _ _) with (2 := Hrun). intros m' Hin.
        apply Covered_kept with (Store.tables b).
        -- exact (effect_Keeps_processMessage cfg well _ _ _ _ _ _ _ _ Hm).
        -- apply Hcov. now right.
    + apply (processMessage_counts m st b b' (Throw e)); [| exact Hm].
      apply Hcov. now left.
Qed.

End SecondRunFacts.

Section Idempotence.
Context `{Host}.

(** C9. On the store, a run that went through a batch to the end has written
    every row that a second run over the same batch writes: whatever the
    second run does and however it ends, the Activity, Draft and
    FinancialRecord tables have as many rows after it as before it. *)
Theorem rerun_adds_no_rows (env : Env) (cfg : Config) (poll : PollFile)
  (snapshot snapshot' : option SopSnapshot) (b0 b1 b2 : Store.Backend)
  (res1 : ProcessResult) (r2 : result ProcessResult) :
  configOf env = Ok cfg ->
  Tables.wellConfigured cfg ->
  main (H := StoreWorld) env poll snapshot b0 = (Ok res1, b1) ->
  main (H := StoreWorld) env poll snapshot' b1 = (r2, b2) ->
  length (Store.tables b2 (activitiesTable cfg))
  = length (Store.tables b1 (activitiesTable cfg))
  /\ length (Store.tables b2 (draftsTable cfg))
     = length (Store.tables b1 (draftsTable cfg))
  /\ length (Store.tables b2 (accountingTable cfg))
     = length (Store.tables b1 (accountingTable cfg)).
Proof.
  intros Hcfg well Hrun1 Hrun2.
  assert (Hcov : forall m, In m (messages poll) ->
                           Tables.Covered cfg (Store.tables b1) m).
  { unfold main in Hrun1. rewrite Hcfg in Hrun1.
    open_bind Hrun1 as cfg1 w0 Hc. unfold ofResult in Hc. injection Hc as <- <-.
    open_bind Hrun1 as st0 w1 Hstart. open_bind Hrun1 as st1 w2 Hloop.
    unfold processMessages in Hloop. intros m Hin.
    apply Covered_kept with (Store.tables w2).
    - apply Same3_Keeps.
      exact (effect_Same3_finalizeRun cfg well _ _ _ _ _ Hrun1).
    - exact (loop_covers cfg well _ _ _ _ _ _ _ _ Hloop m Hin). }
  change (Tables.SameCounts cfg (Store.tables b1) (Store.tables b2)).
  unfold main in Hrun2. rewrite Hcfg in Hrun2.
  apply bind_inv in Hrun2.
  destruct Hrun2 as [[cfg2 [w0 [Hc Hrun2]]] | [e [Hc _]]];
    unfold ofResult in Hc; [| discriminate].
  injection Hc as <- <-.
  apply bind_inv in Hrun2.
  destruct Hrun2 as [[st0 [w1 [Hstart Hrun2]]] | [e [Hstart _]]].
  2:{ apply Same3_SameCounts.
      exact (effect_Same3_startRun cfg well _ _ _ _ _ Hstart). }
  pose proof (effect_Same3_startRun cfg well _ _ _ _ _ Hstart) as S01.
  apply SameCounts_trans with (Store.tables w1); [now apply Same3_SameCounts |].
  assert (Hcov1 : forall m, In m (messages poll) ->
                            Tables.Covered cfg (Store.tables w1) m).
  { intros m Hin. apply Covered_kept with (Store.tables b1); auto.
    now apply Same3_Keeps. }
  apply bind_inv in Hrun2. unfold processMessages in Hrun2.
  destruct Hrun2 as [[st1 [w2 [Hloop Hrun2]]] | [e [Hloop _]]].
  2:{ exact (loop_counts cfg well _ _ _ _ _ _ _ _ Hcov1 Hloop). }
  apply SameCounts_trans with (Store.tables w2);
    [exact (loop_counts cfg well _ _ _ _ _ _ _ _ Hcov1 Hloop) |].
  apply Same3_SameCounts.
  exact (effect_Same3_finalizeRun cfg well _ _ _ _ _ Hrun2).
Qed.

End Idempotence.

Lemma samples_wellConfigured : Tables.wellConfigured Samples.cfg.
Proof.
  split.
  - intros t. split; vm_compute; reflexivity.
  - repeat constructor; cbn [In]; intros Hin;
      repeat match goal with
             | Hor : _ \/ _ |- _ => destruct Hor as [Hor | Hor]
             end;
      try discriminate; assumption.
Qed.

(** A sales inquiry, an invoice and a support request, processed twice: three
    activities, one draft and one accounting entry, both times. *)
Lemma rerun_adds_no_rows_witness :
  exists res1 b1 r2 b2,
    main (H := StoreWorld) (H0 := AsciiHost) Samples.env
      (Samples.batch None
         [Samples.consultingInquiry "2024-01-04T10:00:00Z";
          Samples.vendorInvoice;
          Samples.supportRequest "2024-01-04T11:00:00Z"])
      None (Samples.freshWorld []) = (Ok res1, b1)
    /\ main (H := StoreWorld) (H0 := AsciiHost) Samples.env
         (Samples.batch None
            [Samples.consultingInquiry "2024-01-04T10:00:00Z";
             Samples.vendorInvoice;
             Samples.supportRequest "2024-01-04T11:00:00Z"])
         None b1 = (r2, b2)
    /\ length (Store.tables b1 DEFAULT_ACTIVITIES_TABLE) = 3%nat
    /\ length (Store.tables b1 DEFAULT_DRAFTS_TABLE) = 1%nat
    /\ length (Store.tables b1 DEFAULT_ACCOUNTING_TABLE) = 1%nat
    /\ length (Store.tables b2 DEFAULT_ACTIVITIES_TABLE) = 3%nat
    /\ length (Store.tables b2 DEFAULT_DRAFTS_TABLE) = 1%nat
    /\ length (Store.tables b2 DEFAULT_ACCOUNTING_TABLE) = 1%nat.
Proof.
  set (poll := Samples.batch None
                 [Samples.consultingInquiry "2024-01-04T10:00:00Z";
                  Samples.vendorInvoice;
                  Samples.supportRequest "2024-01-04T11:00:00Z"]).
  destruct (main (H := StoreWorld) (H0 := AsciiHost) Samples.env poll None
              (Samples.freshWorld [])) as [[res1 | e1] b1] eqn:Hrun1;
    [| vm_compute in Hrun1; discriminate Hrun1].
  destruct (main (H := StoreWorld) (H0 := AsciiHost) Samples.env poll None b1)
    as [r2 b2] eqn:Hrun2.
  exists res1, b1, r2, b2. split; [reflexivity |]. split; [exact Hrun2 |].
  pose proof (rerun_adds_no_rows (H := AsciiHost) Samples.env Samples.cfg poll
                None None _ _ _ _ _ eq_refl samples_wellConfigured Hrun1 Hrun2)
    as [Ha [Hd Hx]].
  change (activitiesTable Samples.cfg) with DEFAULT_ACTIVITIES_TABLE in Ha.
  change (draftsTable Samples.cfg) with DEFAULT_DRAFTS_TABLE in Hd.
  change (accountingTable Samples.cfg) with DEFAULT_ACCOUNTING_TABLE in Hx.
  rewrite Ha, Hd, Hx.
  assert (Hcounts : length (Store.tables b1 DEFAULT_ACTIVITIES_TABLE) = 3%nat
                    /\ length (Store.tables b1 DEFAULT_DRAFTS_TABLE) = 1%nat
                    /\ length (Store.tables b1 DEFAULT_ACCOUNTING_TABLE) = 1%nat).
  { clear Hrun2 Ha Hd Hx. vm_compute in Hrun1. injection Hrun1 as _ <-.
    repeat split. }
  tauto.
Defined.

(* ================================================================== *)
(** * The Contact row's last-seen timestamp *)

Section ContactFacts.
Context `{Host}.
Variable cfg : Config.
Hypothesis well : Tables.wellConfigured cfg.
Variable env : Env.
Variable snapshot : option SopSnapshot.
Variable cues : list jsstring.

Let distinct := tables_distinct cfg well.

(** The stored row of an upsert carries every column the payload defines. *)
Lemma upsertInto_stored (c col : jsstring) (v : json) (p : row)
  (rows rows' : list row) (stored : row) (n n' : N) :
  jsstring_eqb col (js "id") = false ->
  prop col p = Some v ->
  (forall r, prop col (Store.mergeRow r p) = Some v) ->
  Store.upsertInto c p rows n = (rows', stored, n') ->
  prop col stored = Some v.
Proof.
  intros Hid Hp Hmerge. unfold Store.upsertInto.
  destruct (prop c p) as [key |].
  - pose proof (mergeFirst_split c key p rows) as Hsplit.
    destruct (Store.mergeFirst c key p rows) as [[rows1 merged] |].
    + destruct Hsplit as [pre [r0 [post [_ [_ [_ [_ ->]]]]]]].
      intros [= _ <- _]. apply Hmerge.
    + intros [= _ <- _]. destruct (prop (js "id") p); [exact Hp |].
      cbn [prop]. now rewrite Hid.
  - intros [= _ <- _]. destruct (prop (js "id") p); [exact Hp |].
    cbn [prop]. now rewrite Hid.
Qed.

Lemma upsertContactRow_inv (m : PollMessage) (email ts : jsstring)
  (sn : option jsstring) (b b' : Store.Backend) (res : result row) :
  ts <> [] ->
  upsertContactRow (H := StoreWorld) cfg m email sn (Some ts) b = (res, b') ->
  exists rows' stored,
    res = Ok stored
    /\ Store.tables b' = Store.setTable (contactsTable cfg) rows' (Store.tables b)
    /\ Tables.firstRow "email" email rows' = Some stored
    /\ prop (js "last_seen_at") stored = Some (JStr ts).
Proof.
  intros Hne. unfold upsertContactRow. rewrite (nonEmpty_Some ts Hne).
  intros Hrun. apply bind_inv in Hrun.
  destruct Hrun as [[lastSeen [b0 [Hret Hrun]]] | [e [Hret _]]];
    unfold ret in Hret; [| discriminate].
  injection Hret as <- <-.
  apply bind_inv in Hrun.
  destruct Hrun as [[t1 [b1 [Hnow Hup]]] | [e [Hnow _]]];
    [| rewrite now_store in Hnow; discriminate].
  rewrite now_store in Hnow. injection Hnow as <- <-.
  destruct (upsert_inv cfg well _ _ _ _ _ _ Hup)
    as [rows' [stored [n' [Hinto [-> ->]]]]].
  exists rows', stored. split; [reflexivity |]. split; [reflexivity |]. split.
  - eapply (upsertInto_summary "email" email); cycle 4.
    + exact Hinto.
    + reflexivity.
    + reflexivity.
    + intros r. unfold contactRow.
      apply (prop_mergeRow_object_defined r "email" _ []). reflexivity.
    + intros r. unfold contactRow. now apply prop_mergeRow_object_absent.
  - eapply upsertInto_stored; cycle 3.
    + exact Hinto.
    + reflexivity.
    + unfold contactRow. now destruct sn.
    + intros r. unfold contactRow.
      apply (prop_mergeRow_object_defined r "last_seen_at" _
               [("email", str email); ("display_name", ostr sn)]%string).
      reflexivity.
Qed.

(** The steps after the contact step leave the contacts table alone. *)
Lemma effect_contacts_upsert (t c : jsstring) (r : row) :
  contactsTable cfg <> t ->
  Tables.effect (fun T T' => T' (contactsTable cfg) = T (contactsTable cfg))
    (upsert (H := StoreWorld) cfg t c r).
Proof.
  intros Hne b res b' Hrun.
  destruct (upsert_inv cfg well _ _ _ _ _ _ Hrun) as [rows' [stored [n' [_ [_ ->]]]]].
  now apply setTable_other.
Qed.

Lemma effect_contacts_patch (t : jsstring) (filters : list (jsstring * jsstring))
  (p : row) :
  contactsTable cfg <> t ->
  Tables.effect (fun T T' => T' (contactsTable cfg) = T (contactsTable cfg))
    (supabasePatchRows (H := StoreWorld) (supabaseUrl cfg) (supabaseKey cfg) t
       filters p).
Proof.
  intros Hne b res b' Hrun.
  destruct (patch_inv cfg well _ _ _ _ _ _ Hrun) as [q ->].
  now apply setTable_other.
Qed.

Lemma contacts_refl (T : jsstring -> list row) :
  T (contactsTable cfg) = T (contactsTable cfg).
Proof. reflexivity. Qed.

Lemma contacts_trans (T1 T2 T3 : jsstring -> list row) :
  T2 (contactsTable cfg) = T1 (contactsTable cfg) ->
  T3 (contactsTable cfg) = T2 (contactsTable cfg) ->
  T3 (contactsTable cfg) = T1 (contactsTable cfg).
Proof. congruence. Qed.

Lemma effect_contacts_handleSales (m : PollMessage) (se sn ts : option jsstring)
  (activityId : jsstring) (res : ProcessResult) :
  Tables.effect (fun T T' => T' (contactsTable cfg) = T (contactsTable cfg))
    (handleSales (H := StoreWorld) env cfg snapshot cues m se sn ts activityId res).
Proof.
  destruct distinct as (_ & Hcd & _).
  unfold handleSales, upsertDraft.
  apply effect_bind; try exact contacts_trans.
  - apply effect_bind; try exact contacts_trans.
    + apply effect_now. apply contacts_refl.
    + intros t1. now apply effect_contacts_upsert.
  - intros stored. destruct (nonEmpty (stringProp "id" stored)) as [draftId |];
      [| apply effect_throw; apply contacts_refl].
    apply effect_bind; try exact contacts_trans.
    + apply effect_now. apply contacts_refl.
    + intros t2.
      apply effect_bind; try exact contacts_trans.
      * now apply effect_contacts_patch.
      * intros patched.
        apply effect_bind; try exact contacts_trans.
        -- apply effect_slack. apply contacts_refl.
        -- intros slack. apply effect_ret. apply contacts_refl.
Qed.

Lemma effect_contacts_handleReceipt (m : PollMessage) (activityId : jsstring)
  (res : ProcessResult) :
  Tables.effect (fun T T' => T' (contactsTable cfg) = T (contactsTable cfg))
    (handleReceipt (H := StoreWorld) cfg m activityId res).
Proof.
  destruct distinct as (_ & _ & Hcx & _).
  unfold handleReceipt, upsertAccounting.
  apply effect_bind; try exact contacts_trans.
  - apply effect_ofResult. apply contacts_refl.
  - intros parsed.
    apply effect_bind; try exact contacts_trans.
    + apply effect_bind; try exact contacts_trans.
      * apply effect_now. apply contacts_refl.
      * intros t1. now apply effect_contacts_upsert.
    + intros stored. apply effect_ret. apply contacts_refl.
Qed.

Lemma effect_contacts_upsertActivity (m : PollMessage)
  (cls : ClassificationResult) (se sn ts cid : option jsstring) :
  Tables.effect (fun T T' => T' (contactsTable cfg) = T (contactsTable cfg))
    (upsertActivity (H := StoreWorld) cfg snapshot m cls se sn ts cid).
Proof.
  destruct distinct as (Hca & _).
  unfold upsertActivity.
  apply effect_bind; try exact contacts_trans.
  - apply effect_now. apply contacts_refl.
  - intros t1. now apply effect_contacts_upsert.
Qed.

(** C2, amended. When a sales or support message with a resolvable sender
    address and a timestamp has been processed, the Contact row of that
    address holds the message's timestamp as its last-seen value, whatever
    value it held before. *)
Theorem contact_last_seen_overwritten (m : PollMessage) (st st' : RunState)
  (b b' : Store.Backend) (email ts : jsstring) :
  processMessage (H := StoreWorld) env cfg snapshot cues m st b = (Ok st', b') ->
  label (classifyInbound m) = sales \/ label (classifyInbound m) = support ->
  nonEmpty (extractEmailAddress (from m)) = Some email ->
  messageTs m = Ok (Some ts) ->
  ts <> [] ->
  exists r,
    Tables.firstRow "email" email (Store.tables b' (contactsTable cfg)) = Some r
    /\ stringProp "last_seen_at" r = Some ts.
Proof.
  intros Hrun Hlabel Hemail Hts Hne. unfold processMessage in Hrun.
  rewrite Hts in Hrun. open_bind Hrun as ts0 b0 Hts0.
  unfold ofResult in Hts0. injection Hts0 as <- <-.
  open_bind Hrun as cid b1 Hcontact.
  unfold upsertContact in Hcontact. rewrite Hemail in Hcontact.
  assert (Hcond : Classification_eqb (label (classifyInbound m)) sales
                  || Classification_eqb (label (classifyInbound m)) support = true).
  { destruct Hlabel as [-> | ->]; reflexivity. }
  rewrite Hcond in Hcontact. open_bind Hcontact as contact b1' Hrow.
  unfold ret in Hcontact. injection Hcontact as _ <-.
  destruct (upsertContactRow_inv _ _ _ _ _ _ _ Hne Hrow)
    as [rows' [stored [_ [Ht1 [Hfirst Hseen]]]]].
  open_bind Hrun as activity b2 Hactivity.
  pose proof (effect_contacts_upsertActivity _ _ _ _ _ _ _ _ _ Hactivity) as E12.
  destruct (nonEmpty (stringProp "id" activity)) as [activityId |];
    [| discriminate].
  open_bind Hrun as res1 b3 Hsales. open_bind Hrun as res2 b4 Hreceipt.
  unfold ret in Hrun. injection Hrun as _ <-.
  assert (E23 : Store.tables b3 (contactsTable cfg)
                = Store.tables b2 (contactsTable cfg)).
  { destruct (Classification_eqb (label (classifyInbound m)) sales).
    - exact (effect_contacts_handleSales _ _ _ _ _ _ _ _ _ Hsales).
    - unfold ret in Hsales. now injection Hsales as _ <-. }
  assert (E34 : Store.tables b4 (contactsTable cfg)
                = Store.tables b3 (contactsTable cfg)).
  { destruct (Classification_eqb (label (classifyInbound m)) receipt).
    - exact (effect_contacts_handleReceipt _ _ _ _ _ _ Hreceipt).
    - unfold ret in Hreceipt. now injection Hreceipt as _ <-. }
  exists stored. rewrite E34, E23, E12, Ht1, setTable_same.
  split; [exact Hfirst |]. unfold stringProp. now rewrite Hseen.
Qed.

End ContactFacts.

(** A support request of 2024-01-02 from a sender last seen on 2024-01-04:
    the stored last-seen value becomes 2024-01-02. *)
Lemma contact_last_seen_overwritten_witness :
  Samples.storedLastSeen (js "jane@acmeco.com") Samples.worldWithLaterContact
  = Some (js "2024-01-04T10:00:00Z")
  /\ exists st' b' r,
       processMessage (H := StoreWorld) (H0 := AsciiHost) Samples.env Samples.cfg
         None [] (Samples.supportRequest "2024-01-02T09:00:00Z")
         Samples.emptyState Samples.worldWithLaterContact = (Ok st', b')
       /\ Tables.firstRow "email" (js "jane@acmeco.com")
            (Store.tables b' DEFAULT_CONTACTS_TABLE) = Some r
       /\ stringProp "last_seen_at" r = Some (js "2024-01-02T09:00:00Z").
Proof.
  split; [vm_compute; reflexivity |].
  destruct (processMessage (H := StoreWorld) (H0 := AsciiHost) Samples.env
              Samples.cfg None [] (Samples.supportRequest "2024-01-02T09:00:00Z")
              Samples.emptyState Samples.worldWithLaterContact)
    as [[st' | e] b'] eqn:Hrun; [| vm_compute in Hrun; discriminate Hrun].
  destruct (contact_last_seen_overwritten (H := AsciiHost) Samples.cfg
              samples_wellConfigured Samples.env None []
              (Samples.supportRequest "2024-01-02T09:00:00Z")
              Samples.emptyState st' Samples.worldWithLaterContact b'
              (js "jane@acmeco.com") (js "2024-01-02T09:00:00Z") Hrun)
    as [r [Hfirst Hseen]].
  - right. vm_compute. reflexivity.
  - vm_compute. reflexivity.
  - vm_compute. reflexivity.
  - discriminate.
  - exists st', b', r. auto.
Defined.

(** C2 as stated fails: a run over a sales message of 2024-01-04 and then a
    run over a support message of 2024-01-02 from the same sender; both
    finish, and the stored last-seen value goes back from the later to the
    earlier timestamp. *)
Lemma contact_last_seen_regresses :
  let first := main (H := StoreWorld) (H0 := AsciiHost) Samples.env
                 (Samples.batchNamed "run-2024-01-05" None
                    [Samples.consultingInquiry "2024-01-04T10:00:00Z"])
                 None (Samples.freshWorld []) in
  let second := main (H := StoreWorld) (H0 := AsciiHost) Samples.env
                  (Samples.batchNamed "run-2024-01-06" None
                     [Samples.supportRequest "2024-01-02T09:00:00Z"])
                  None (snd first) in
  (exists res1, fst first = Ok res1)
  /\ (exists res2, fst second = Ok res2)
  /\ Samples.storedLastSeen (js "jane@acmeco.com") (snd first)
     = Some (js "2024-01-04T10:00:00Z")
  /\ Samples.storedLastSeen (js "jane@acmeco.com") (snd second)
     = Some (js "2024-01-02T09:00:00Z")
  /\ Date_parse (Host := AsciiHost) (js "2024-01-04T10:00:00Z")
     = Some 1704362400000%Z
  /\ Date_parse (Host := AsciiHost) (js "2024-01-02T09:00:00Z")
     = Some 1704186000000%Z.
Proof.
  cbv zeta.
  split; [vm_compute; eexists; reflexivity |].
  split; [vm_compute; eexists; reflexivity |].
  repeat split; vm_compute; reflexivity.
Qed.

(* ================================================================== *)
(** * White space and trimming *)

Section TrimFacts.

Lemma trimStart_nil_iff (s : jsstring) :
  trimStart s = [] <-> forallb isWhiteSpace s = true.
Proof.
  induction s as [| c t IH]; cbn [trimStart forallb]; [tauto |].
  destruct (isWhiteSpace c); cbn [andb]; [exact IH |].
  split; discriminate.
Qed.

Lemma trimStart_head (s : jsstring) (c : N) (t : jsstring) :
  trimStart s = c :: t -> isWhiteSpace c = false.
Proof.
  induction s as [| d s IH]; cbn [trimStart]; [discriminate |].
  destruct (isWhiteSpace d) eqn:Hd; [exact IH |].
  intros Heq. injection Heq as <- _. exact Hd.
Qed.

Lemma trimStart_fix (s : jsstring) :
  match s with [] => True | c :: _ => isWhiteSpace c = false end ->
  trimStart s = s.
Proof. destruct s as [| c t]; cbn [trimStart]; [easy |]. now intros ->. Qed.

Lemma trimStart_suffix (s : jsstring) :
  exists pre, s = pre ++ trimStart s /\ forallb isWhiteSpace pre = true.
Proof.
  induction s as [| c t [pre [Hs Hpre]]]; cbn [trimStart].
  - now exists [].
  - destruct (isWhiteSpace c) eqn:Hc.
    + exists (c :: pre). cbn [app forallb]. rewrite Hc, Hpre. split; [| easy].
      now f_equal.
    + now exists [].
Qed.

Lemma trimStart_idem (s : jsstring) : trimStart (trimStart s) = trimStart s.
Proof.
  apply trimStart_fix. destruct (trimStart s) as [| c t] eqn:Hs; [easy |].
  exact (trimStart_head _ _ _ Hs).
Qed.

Lemma trimStart_In (s : jsstring) (c : N) : In c (trimStart s) -> In c s.
Proof.
  destruct (trimStart_suffix s) as [pre [Hs _]]. intros Hin.
  rewrite Hs. apply in_or_app. now right.
Qed.

Lemma trim_In (s : jsstring) (c : N) : In c (trim s) -> In c s.
Proof.
  unfold trim. intros Hin. apply in_rev in Hin.
  apply trimStart_In in Hin. apply in_rev in Hin. now apply trimStart_In.
Qed.

Lemma forallb_rev {A} (f : A -> bool) (l : list A) :
  forallb f (rev l) = forallb f l.
Proof.
  destruct (forallb f l) eqn:Hl.
  - apply forallb_forall. intros x Hx. apply in_rev in Hx.
    rewrite forallb_forall in Hl. now apply Hl.
  - destruct (forallb f (rev l)) eqn:Hr; [| reflexivity].
    rewrite <- Hl. symmetry. apply forallb_forall. intros x Hx.
    rewrite forallb_forall in Hr. apply Hr. now apply in_rev in Hx.
Qed.

Lemma trim_nil_iff (s : jsstring) :
  trim s = [] <-> forallb isWhiteSpace s = true.
Proof.
  unfold trim. split.
  - intros Hnil. apply (f_equal (@rev N)) in Hnil. rewrite rev_involutive in Hnil.
    cbn [rev] in Hnil. apply trimStart_nil_iff in Hnil.
    rewrite forallb_rev in Hnil. apply trimStart_nil_iff in Hnil.
    rewrite trimStart_idem in Hnil. now apply trimStart_nil_iff.
  - intros Hall. apply trimStart_nil_iff in Hall. now rewrite Hall.
Qed.

(** The trimmed text starts with no white space. *)
Lemma trim_start_fixed (s : jsstring) : trimStart (trim s) = trim s.
Proof.
  unfold trim. apply trimStart_fix.
  destruct (rev (trimStart (rev (trimStart s)))) as [| c r] eqn:Hu; [easy |].
  destruct (trimStart_suffix (rev (trimStart s))) as [pre [Hs _]].
  apply (f_equal (@rev N)) in Hs. rewrite rev_involutive, rev_app_distr, Hu in Hs.
  cbn [app] in Hs. exact (trimStart_head _ _ _ Hs).
Qed.

Lemma trim_idem (s : jsstring) : trim (trim s) = trim s.
Proof.
  unfold trim at 1. rewrite trim_start_fixed. unfold trim.
  now rewrite rev_involutive, trimStart_idem.
Qed.

Lemma truthy_false_iff (s : jsstring) : truthy s = false <-> s = [].
Proof. destruct s; cbn; split; congruence. Qed.

Lemma truthy_true_iff (s : jsstring) : truthy s = true <-> s <> [].
Proof. destruct s; cbn; split; congruence. Qed.

End TrimFacts.

(* ================================================================== *)
(** * Environment values and command line *)

Section CleanFacts.

(** X1. [clean] gives undefined exactly for an undefined value and for a
    value made of white space only; any other value comes back trimmed: not
    empty, with no white space at either end, and [clean] leaves it as it
    is. *)
Theorem clean_spec (value : option jsstring) :
  match clean value with
  | None =>
      match value with
      | None => True
      | Some raw => forallb isWhiteSpace raw = true
      end
  | Some s =>
      (exists raw, value = Some raw /\ s = trim raw
                   /\ forallb isWhiteSpace raw = false)
      /\ s <> [] /\ trim s = s /\ clean (Some s) = Some s
  end.
Proof.
  unfold clean. destruct value as [raw |]; cbn [option_map nonEmpty]; [| exact I].
  destruct (truthy (trim raw)) eqn:Ht.
  - apply truthy_true_iff in Ht. repeat split.
    + exists raw. repeat split.
      destruct (forallb isWhiteSpace raw) eqn:Hall; [| reflexivity].
      apply trim_nil_iff in Hall. contradiction.
    + exact Ht.
    + apply trim_idem.
    + rewrite trim_idem. apply truthy_true_iff in Ht. now rewrite Ht.
  - apply truthy_false_iff in Ht. now apply trim_nil_iff.
Qed.

End CleanFacts.

Section CommandLineFacts.

Lemma flagGet_flagPut (k key : jsstring) (v : FlagValue)
  (fl : list (jsstring * FlagValue)) :
  flagGet k (flagPut key v fl)
  = if jsstring_eqb k key then Some v else flagGet k fl.
Proof.
  induction fl as [| [k' v'] fl IH]; cbn [flagPut flagGet]; [reflexivity |].
  destruct (jsstring_eqb key k') eqn:Hkey; cbn [flagGet].
  - apply jsstring_eqb_eq in Hkey. subst k'.
    now destruct (jsstring_eqb k key).
  - destruct (jsstring_eqb k k') eqn:Hk; [| exact IH].
    apply jsstring_eqb_eq in Hk. subst k'.
    now rewrite jsstring_eqb_sym, Hkey.
Qed.

Lemma flagGet_flagSet (k key : jsstring) (v : FlagValue)
  (fl : list (jsstring * FlagValue)) :
  k <> js "__proto__" ->
  flagGet k (flagSet key v fl)
  = if jsstring_eqb k key then Some v else flagGet k fl.
Proof.
  intros Hk. unfold flagSet.
  destruct (jsstring_eqb key (js "__proto__")) eqn:Hproto.
  - apply jsstring_eqb_eq in Hproto. subst key.
    destruct (jsstring_eqb k (js "__proto__")) eqn:Heq; [| reflexivity].
    apply jsstring_eqb_eq in Heq. contradiction.
  - apply flagGet_flagPut.
Qed.

Lemma parseFlags_pairs (kvs : list (jsstring * jsstring)) (rest : list jsstring) :
  Forall (fun kv => usableValue (snd kv) = true) kvs ->
  forall fl,
    parseFlags (pairTokens kvs ++ rest) fl
    = parseFlags rest
        (fold_left (fun acc kv => flagSet (fst kv) (FlagText (snd kv)) acc) kvs fl).
Proof.
  induction 1 as [| [k v] kvs Hv _ IH]; intros fl; [reflexivity |].
  cbn [pairTokens flat_map app fold_left fst snd] in *.
  change (parseFlags ((js "--" ++ k) :: v :: pairTokens kvs ++ rest) fl
          = parseFlags rest
              (fold_left (fun acc kv => flagSet (fst kv) (FlagText (snd kv)) acc)
                         kvs (flagSet k (FlagText v) fl))).
  cbn [parseFlags]. change (startsWith (js "--" ++ k) (js "--")) with true.
  cbn [negb]. change (skipn 2 (js "--" ++ k)) with k.
  unfold usableValue in Hv. apply andb_true_iff in Hv as [Ht Hs].
  apply negb_true_iff in Hs. rewrite Ht, Hs. cbn [negb orb]. apply IH.
Qed.

Lemma flagGet_fold (k : jsstring) (kvs : list (jsstring * jsstring)) :
  k <> js "__proto__" ->
  forall fl,
    flagGet k (fold_left (fun acc kv => flagSet (fst kv) (FlagText (snd kv)) acc)
                         kvs fl)
    = match find (fun kv => jsstring_eqb k (fst kv)) (rev kvs) with
      | Some kv => Some (FlagText (snd kv))
      | None => flagGet k fl
      end.
Proof.
  intros Hk. induction kvs as [| kv kvs IH] using rev_ind; intros fl;
    [reflexivity |].
  rewrite fold_left_app, rev_app_distr. cbn [fold_left rev app find].
  rewrite (flagGet_flagSet _ _ _ _ Hk).
  destruct (jsstring_eqb k (fst kv)); [reflexivity | apply IH].
Qed.

(** X2. A command line made of a command and [--key value] pairs, each
    value a non-empty token that does not start with two dashes, is read
    back in full: the command is the third argument and every flag holds
    the value of its last occurrence. *)
Theorem parseArgs_pairs (node script cmd k : jsstring)
  (kvs : list (jsstring * jsstring)) :
  Forall (fun kv => usableValue (snd kv) = true) kvs ->
  k <> js "__proto__" ->
  let args := parseArgs (node :: script :: cmd :: pairTokens kvs) in
  command args = Some cmd
  /\ flagGet k (flags args) = option_map FlagText (lastValue k kvs).
Proof.
  intros Hvals Hk. cbv zeta. unfold parseArgs, lastValue.
  cbn [skipn hd_error tl command flags]. split; [reflexivity |].
  rewrite <- (app_nil_r (pairTokens kvs)), (parseFlags_pairs _ [] Hvals).
  cbn [parseFlags]. rewrite (flagGet_fold _ _ Hk).
  now destruct (find _ (rev kvs)).
Qed.

Lemma flagGet_flagSet_inv (k key : jsstring) (v v0 : FlagValue)
  (fl : list (jsstring * FlagValue)) :
  flagGet k (flagSet key v fl) = Some v0 ->
  v0 = v \/ flagGet k fl = Some v0.
Proof.
  unfold flagSet. destruct (jsstring_eqb key (js "__proto__")); [now right |].
  rewrite flagGet_flagPut. destruct (jsstring_eqb k key); [| now right].
  intros Heq. injection Heq as <-. now left.
Qed.

Lemma parseFlags_values_upto (n : nat) :
  forall tokens fl k v,
    (length tokens <= n)%nat ->
    (forall k' v', flagGet k' fl = Some (FlagText v') -> usableValue v' = true) ->
    flagGet k (parseFlags tokens fl) = Some (FlagText v) ->
    usableValue v = true.
Proof.
  induction n as [| n IH]; intros tokens fl k v Hlen Hfl;
    destruct tokens as [| token rest]; cbn [parseFlags length] in *;
    try apply Hfl; [lia |].
  destruct (negb (startsWith token (js "--"))).
  - apply IH; [lia | exact Hfl].
  - destruct rest as [| next rest'].
    + intros Hget. apply flagGet_flagSet_inv in Hget as [Heq | Hget];
        [discriminate | now apply (Hfl k)].
    + cbn [length] in Hlen.
      destruct (negb (truthy next) || startsWith next (js "--")) eqn:Hnext.
      * apply IH; [cbn [length]; lia |]. intros k' v' Hget.
        apply flagGet_flagSet_inv in Hget as [Heq | Hget];
          [discriminate | now apply (Hfl k')].
      * apply IH; [lia |]. intros k' v' Hget.
        apply flagGet_flagSet_inv in Hget as [Heq | Hget];
          [| now apply (Hfl k')].
        injection Heq as ->. unfold usableValue.
        apply orb_false_iff in Hnext as [Ht Hs].
        apply negb_false_iff in Ht. now rewrite Ht, Hs.
Qed.

Lemma startsWith_dashes (token : jsstring) :
  startsWith token (js "--") = true -> token = js "--" ++ skipn 2 token.
Proof.
  change (js "--") with [45; 45].
  destruct token as [| a [| b t]]; cbn [startsWith app skipn];
    try discriminate.
  - now rewrite andb_false_r.
  - intros Hab. apply andb_true_iff in Hab as [Ha Hb].
    apply andb_true_iff in Hb as [Hb _].
    apply N.eqb_eq in Ha, Hb. now subst.
Qed.

Lemma flagGet_flagSet_other (k key : jsstring) (v : FlagValue)
  (fl : list (jsstring * FlagValue)) :
  key <> k -> flagGet k (flagSet key v fl) = flagGet k fl.
Proof.
  intros Hne. unfold flagSet.
  destruct (jsstring_eqb key (js "__proto__")); [reflexivity |].
  rewrite flagGet_flagPut. destruct (jsstring_eqb k key) eqn:Hk; [| reflexivity].
  apply jsstring_eqb_eq in Hk. now subst.
Qed.

(** Tokens none of which is the flag [--k] leave what [k] holds. *)
Lemma parseFlags_keeps (n : nat) :
  forall tokens fl k,
    (length tokens <= n)%nat ->
    (forall token, In token tokens -> token <> js "--" ++ k) ->
    flagGet k (parseFlags tokens fl) = flagGet k fl.
Proof.
  induction n as [| n IH]; intros tokens fl k Hlen Hnot;
    destruct tokens as [| token rest]; cbn [parseFlags length] in *;
    try reflexivity; [lia |].
  assert (Hrest : forall t, In t rest -> t <> js "--" ++ k)
    by (intros t Ht; apply Hnot; now right).
  destruct (startsWith token (js "--")) eqn:Hdash; cbn [negb].
  - assert (Hkey : skipn 2 token <> k).
    { intros Heq. apply (Hnot token); [now left |].
      rewrite <- Heq. now apply startsWith_dashes. }
    destruct rest as [| next rest'].
    + now apply flagGet_flagSet_other.
    + cbn [length] in Hlen.
      destruct (negb (truthy next) || startsWith next (js "--")).
      * rewrite IH; [now apply flagGet_flagSet_other | cbn [length]; lia
                    | exact Hrest].
      * rewrite IH; [now apply flagGet_flagSet_other | lia |].
        intros t Ht. apply Hrest. now right.
  - apply IH; [lia | exact Hrest].
Qed.

(** A flag followed by nothing, by the empty token or by a token that
    starts with two dashes is set to [true], and that token is read next. *)
Lemma parseFlags_bare (k : jsstring) (tail : list jsstring)
  (fl : list (jsstring * FlagValue)) :
  match tail with [] => True | next :: _ => usableValue next = false end ->
  parseFlags ((js "--" ++ k) :: tail) fl
  = parseFlags tail (flagSet k FlagTrue fl).
Proof.
  intros Htail. cbn [parseFlags].
  change (startsWith (js "--" ++ k) (js "--")) with true. cbn [negb].
  change (skipn 2 (js "--" ++ k)) with k.
  destruct tail as [| next rest']; [reflexivity |].
  unfold usableValue in Htail.
  destruct (truthy next); destruct (startsWith next (js "--"));
    cbn [negb andb orb] in *; try reflexivity; discriminate.
Qed.

(** X3. Whatever the command line, a flag never holds the empty string nor
    a token that starts with two dashes: such a token after a flag leaves
    the flag at [true].  So does the end of the command line: after a
    command and [--key value] pairs, a flag that is followed by nothing, by
    the empty token or by a token that starts with two dashes, and that is
    not given again, holds [true], whatever an earlier pair had set. *)
Theorem parseArgs_value_shape (argv : list jsstring) (k v : jsstring) :
  (flagGet k (flags (parseArgs argv)) = Some (FlagText v) ->
   v <> [] /\ startsWith v (js "--") = false)
  /\ (forall (node script cmd : jsstring) (kvs : list (jsstring * jsstring))
             (tail : list jsstring),
        argv = node :: script :: cmd :: pairTokens kvs ++ (js "--" ++ k) :: tail ->
        Forall (fun kv => usableValue (snd kv) = true) kvs ->
        k <> js "__proto__" ->
        match tail with [] => True | next :: _ => usableValue next = false end ->
        (forall token, In token tail -> token <> js "--" ++ k) ->
        flagGet k (flags (parseArgs argv)) = Some FlagTrue).
Proof.
  split.
  - unfold parseArgs. cbn [flags]. intros Hget.
    assert (Hu : usableValue v = true).
    { apply (parseFlags_values_upto _ (tl (skipn 2 argv)) [] k v (le_n _));
        [discriminate | exact Hget]. }
    unfold usableValue in Hu. apply andb_true_iff in Hu as [Ht Hs].
    split; [now apply truthy_true_iff | now apply negb_true_iff].
  - intros node script cmd kvs tail -> Hvals Hk Htail Hnot.
    unfold parseArgs. cbn [skipn hd_error tl command flags].
    rewrite (parseFlags_pairs _ _ Hvals), (parseFlags_bare _ _ _ Htail).
    rewrite (parseFlags_keeps _ tail _ k (le_n _) Hnot).
    rewrite (flagGet_flagSet _ _ _ _ Hk). now rewrite jsstring_eqb_refl.
Qed.

(** X4. On a command line of [--key value] pairs after the command, the
    start of [main] prints the usage text and exits with code 1 unless the
    command is [process_inbound]; it fails unless the last [--poll-file]
    pair holds more than white space; otherwise it goes on with the trimmed
    paths, the output path falling back to the default one. *)
Theorem startup_pairs (node script cmd : jsstring)
  (kvs : list (jsstring * jsstring)) :
  Forall (fun kv => usableValue (snd kv) = true) kvs ->
  startup (node :: script :: cmd :: pairTokens kvs)
  = if negb (jsstring_eqb cmd (js "process_inbound"))
    then ExitWith 1 usageText
    else
      match clean (lastValue (js "poll-file") kvs) with
      | None => Fails (js "--poll-file is required")
      | Some p =>
          Proceeds
            {| pollFile := p;
               outputFile :=
                 match clean (lastValue (js "output") kvs) with
                 | Some o => o
                 | None => DEFAULT_OUTPUT_FILE
                 end;
               sopFile := clean (lastValue (js "sop-file") kvs) |}
      end.
Proof.
  intros Hvals. unfold startup, parseArgs.
  cbn [skipn hd_error tl command flags].
  destruct (jsstring_eqb cmd (js "process_inbound")); cbn [negb]; [| reflexivity].
  assert (Hget : forall k, k <> js "__proto__" ->
            asString (flagGet k (parseFlags (pairTokens kvs) []))
            = lastValue k kvs).
  { intros k Hk. rewrite <- (app_nil_r (pairTokens kvs)).
    rewrite (parseFlags_pairs _ [] Hvals). cbn [parseFlags].
    rewrite (flagGet_fold _ _ Hk). unfold lastValue.
    now destruct (find _ (rev kvs)). }
  rewrite !Hget by discriminate. reflexivity.
Qed.

(** A [--poll-file] flag that ends the command line holds [true], not
    a path, and it replaces what an earlier [--poll-file] pair had set:
    the run fails with the message that the flag is required. *)
Lemma startup_bare_poll_file (node script : jsstring)
  (kvs : list (jsstring * jsstring)) :
  Forall (fun kv => usableValue (snd kv) = true) kvs ->
  startup (node :: script :: js "process_inbound"
           :: pairTokens kvs ++ [js "--poll-file"])
  = Fails (js "--poll-file is required").
Proof.
  intros Hvals. unfold startup, parseArgs.
  cbn [skipn hd_error tl command flags].
  change (jsstring_eqb (js "process_inbound") (js "process_inbound")) with true.
  cbn [negb]. rewrite (parseFlags_pairs _ _ Hvals). cbn [parseFlags].
  change (startsWith (js "--poll-file") (js "--")) with true. cbn [negb].
  change (skipn 2 (js "--poll-file")) with (js "poll-file").
  rewrite flagGet_flagSet by discriminate.
  change (jsstring_eqb (js "poll-file") (js "poll-file")) with true.
  reflexivity.
Qed.

End CommandLineFacts.

(* ================================================================== *)
(** * Record helpers *)

Section RecordFacts.

(** X5. [getString] returns the trimmed value of the first listed key that
    holds a string with something other than white space in it, and
    undefined when every listed key is missing, holds another kind of value
    or holds white space only.  What it returns is never empty and has no
    white space at either end. *)
Theorem getString_spec (record : row) (keys : list jsstring) :
  match getString record keys with
  | Some s =>
      (exists pre key post value,
          keys = pre ++ key :: post
          /\ forallb (passedOver record) pre = true
          /\ prop key record = Some (JStr value)
          /\ s = trim value)
      /\ s <> [] /\ trim s = s
  | None => forallb (passedOver record) keys = true
  end.
Proof.
  induction keys as [| key rest IH]; cbn [getString forallb]; [reflexivity |].
  assert (Hskip : passedOver record key = true ->
            match getString record rest with
            | Some s =>
                (exists pre key0 post value,
                    key :: rest = pre ++ key0 :: post
                    /\ forallb (passedOver record) pre = true
                    /\ prop key0 record = Some (JStr value)
                    /\ s = trim value)
                /\ s <> [] /\ trim s = s
            | None => passedOver record key && forallb (passedOver record) rest = true
            end).
  { intros Hp. destruct (getString record rest) as [s |].
    - destruct IH as [[pre [key0 [post [value [Hk [Hpre [Hv Hs]]]]]]] Hshape].
      split; [| exact Hshape]. exists (key :: pre), key0, post, value.
      cbn [app forallb]. rewrite Hp, Hpre, Hk. auto.
    - now rewrite Hp, IH. }
  unfold passedOver in Hskip at 1.
  destruct (prop key record) as [[| b | x | value | xs | fs] |] eqn:Hprop;
    try (apply Hskip; reflexivity).
  destruct (truthy (trim value)) eqn:Ht.
  - apply truthy_true_iff in Ht. split; [| split; [exact Ht | apply trim_idem]].
    now exists [], key, rest, value.
  - apply truthy_false_iff, trim_nil_iff in Ht. now apply Hskip.
Qed.

End RecordFacts.

(* ================================================================== *)
(** * Matching one class, and text in angle brackets *)

Section ReplaceFacts.

Lemma firstn_consumed {A} (a post : list A) :
  firstn (length (a ++ post) - length post) (a ++ post) = a.
Proof.
  rewrite length_app, Nat.add_sub, firstn_app, firstn_all, Nat.sub_diag.
  cbn [firstn]. apply app_nil_r.
Qed.

Lemma matchHere_Chr (q : N -> bool) (p : option N) (s : jsstring) :
  matchHere (Chr q) p s
  = match s with
    | c :: t =>
        if q c then Some {| whole := [c]; groups := []; after := t |} else None
    | [] => None
    end.
Proof.
  unfold matchHere. cbn [run rest]. destruct s as [| c t]; [reflexivity |].
  destruct (q c); [| reflexivity]. cbn [rest caps].
  pose proof (firstn_consumed [c] t) as Hf. cbn [app] in Hf. now rewrite Hf.
Qed.

(** Replacing every code unit of a class: each one gives way to the
    replacement text. *)
Lemma replaceAllFrom_Chr (q : N -> bool) (by_ : jsstring) (s : jsstring) :
  forall fuel p,
    (length s < fuel)%nat ->
    replaceAllFrom fuel (Chr q) by_ p s
    = flat_map (fun c => if q c then by_ else [c]) s.
Proof.
  induction s as [| c t IH]; intros [| fuel] p Hfuel; cbn [length] in Hfuel;
    try lia; cbn [replaceAllFrom]; rewrite matchHere_Chr; [reflexivity |].
  cbn [flat_map]. destruct (q c); cbn [whole after last].
  - f_equal. apply IH. lia.
  - cbn [app]. f_equal. apply IH. lia.
Qed.

Lemma replaceAll_Chr (q : N -> bool) (by_ : jsstring) (s : jsstring) :
  replaceAll (Chr q) by_ s = flat_map (fun c => if q c then by_ else [c]) s.
Proof. unfold replaceAll. apply replaceAllFrom_Chr. lia. Qed.

Lemma delete_is_filter (q : N -> bool) (s : jsstring) :
  flat_map (fun c => if q c then [] else [c]) s = filter (fun c => negb (q c)) s.
Proof.
  induction s as [| c t IH]; cbn [flat_map filter]; [reflexivity |].
  destruct (q c); cbn [negb app]; now rewrite IH.
Qed.

End ReplaceFacts.

Section BracketFacts.

Let notGt : N -> bool := fun c => negb (N.eqb c 62).

(** After the greedy run over [body], only the state that stands before
    [tail] lets a continuation through that rejects the members of the
    class. *)
Lemma star_Chr_then (q : N -> bool) (G : mstate -> list mstate)
  (tail : jsstring) (cs : list (nat * jsstring)) :
  (forall st b t, rest st = b :: t -> q b = true -> G st = []) ->
  match tail with c :: _ => q c = false | [] => True end ->
  forall body fuel p,
    forallb q body = true ->
    (length body <= fuel)%nat ->
    exists p',
      flat_map G (star (run (Chr q)) fuel
                    {| prev := p; rest := body ++ tail; caps := cs |})
      = G {| prev := p'; rest := tail; caps := cs |}.
Proof.
  intros HG Htail. set (step := run (Chr q)).
  induction body as [| b body IH]; intros fuel p Hall Hfuel.
  - exists p. cbn [app]. destruct fuel as [| fuel]; cbn [star flat_map].
    + apply app_nil_r.
    + assert (Hstep : step {| prev := p; rest := tail; caps := cs |} = []).
      { unfold step. cbn [run rest]. destruct tail as [| c t]; [reflexivity |].
        now rewrite Htail. }
      rewrite Hstep. cbn [flat_map app]. apply app_nil_r.
  - cbn [forallb] in Hall. apply andb_true_iff in Hall as [Hb Hall].
    destruct fuel as [| fuel]; cbn [length] in Hfuel; [lia |].
    destruct (IH fuel (Some b) Hall ltac:(lia)) as [p' Hp']. exists p'.
    assert (Hstep : step {| prev := p; rest := (b :: body) ++ tail; caps := cs |}
                    = [{| prev := Some b; rest := body ++ tail; caps := cs |}]).
    { unfold step. cbn [run rest app caps]. now rewrite Hb. }
    cbn [star]. rewrite Hstep. cbn [flat_map rest app].
    replace (Nat.ltb (length (body ++ tail)) (length (b :: body ++ tail)))
      with true by (symmetry; apply Nat.ltb_lt; cbn [length]; lia).
    rewrite app_nil_r, flat_map_app, Hp'. cbn [flat_map].
    rewrite (HG {| prev := p; rest := b :: body ++ tail; caps := cs |} b
                (body ++ tail) eq_refl Hb).
    now rewrite !app_nil_r.
Qed.

Lemma notGt_body (body : jsstring) :
  ~ In 62 body -> forallb notGt body = true.
Proof.
  intros Hno. apply forallb_forall. intros c Hc. unfold notGt.
  apply negb_true_iff, N.eqb_neq. intros ->. contradiction.
Qed.

Lemma run_Seq (a b : regex) (st : mstate) :
  run (Seq a b) st = flat_map (run b) (run a st).
Proof. reflexivity. Qed.

Lemma run_Chr_cons (q : N -> bool) (p : option N) (c : N) (t : jsstring)
  (cs : list (nat * jsstring)) :
  run (Chr q) {| prev := p; rest := c :: t; caps := cs |}
  = if q c then [{| prev := Some c; rest := t; caps := cs |}] else [].
Proof. reflexivity. Qed.

Lemma run_Chr_nil (q : N -> bool) (p : option N) (cs : list (nat * jsstring)) :
  run (Chr q) {| prev := p; rest := []; caps := cs |} = [].
Proof. reflexivity. Qed.

Lemma run_Star (a : regex) (st : mstate) :
  run (Star a) st = star (run a) (S (length (rest st))) st.
Proof. reflexivity. Qed.

Lemma run_Group (i : nat) (a : regex) (st : mstate) :
  run (Group i a) st
  = map (fun st' =>
           {| prev := prev st'; rest := rest st';
              caps := (i, firstn (length (rest st) - length (rest st'))
                                 (rest st)) :: caps st' |})
        (run a st).
Proof. reflexivity. Qed.

Lemma flat_map_one {A B} (f : A -> list B) (x : A) : flat_map f [x] = f x.
Proof. cbn [flat_map]. apply app_nil_r. Qed.

Lemma flat_map_map {A B C} (f : B -> list C) (g : A -> B) (l : list A) :
  flat_map f (map g l) = flat_map (fun x => f (g x)) l.
Proof.
  induction l as [| x l IH]; cbn [map flat_map]; [reflexivity |].
  now rewrite IH.
Qed.

(** The greedy run of "not [>]" over [body], then [>]: one way only. *)
Lemma bracket_body (G : mstate -> mstate) (b : N) (body post : jsstring)
  (p : option N) (cs : list (nat * jsstring)) :
  (forall st, rest (G st) = rest st) ->
  ~ In 62 (b :: body) ->
  exists p',
    flat_map (fun st' => run (Lit 62) (G st'))
      (run (Plus (Chr notGt))
           {| prev := p; rest := (b :: body) ++ 62 :: post; caps := cs |})
    = run (Lit 62) (G {| prev := p'; rest := 62 :: post; caps := cs |}).
Proof.
  intros HG Hno. pose proof (notGt_body _ Hno) as Hall. cbn [forallb] in Hall.
  apply andb_true_iff in Hall as [Hb Hall].
  unfold Plus. rewrite run_Seq. cbn [app]. rewrite run_Chr_cons, Hb, flat_map_one.
  rewrite run_Star. cbn [rest].
  apply (star_Chr_then notGt (fun st' => run (Lit 62) (G st')) (62 :: post) cs).
  - intros st c t Hrest Hc. unfold Lit.
    destruct (G st) as [gp gr gc] eqn:HGst.
    assert (Hgr : gr = c :: t).
    { pose proof (HG st) as Hr. rewrite HGst in Hr. cbn [rest] in Hr. congruence. }
    subst gr. rewrite run_Chr_cons. unfold notGt in Hc.
    apply negb_true_iff in Hc. now rewrite N.eqb_sym, Hc.
  - reflexivity.
  - exact Hall.
  - rewrite length_app. lia.
Qed.

(** The bracket pattern at a position where [<body>] stands. *)
Lemma bracketRe_here (p : option N) (body post : jsstring) :
  body <> [] -> ~ In 62 body ->
  matchHere bracketRe p (60 :: body ++ 62 :: post)
  = Some {| whole := 60 :: body ++ [62]; groups := [(1%nat, body)];
            after := post |}.
Proof.
  intros Hne Hno. destruct body as [| b body]; [contradiction |].
  unfold matchHere, bracketRe, Lit.
  rewrite run_Seq, run_Chr_cons, N.eqb_refl, flat_map_one.
  rewrite run_Seq, run_Group, flat_map_map. cbn [rest].
  destruct (bracket_body
              (fun st' =>
                 {| prev := prev st'; rest := rest st';
                    caps := (1%nat,
                             firstn (length ((b :: body) ++ 62 :: post)
                                     - length (rest st'))
                                    ((b :: body) ++ 62 :: post)) :: caps st' |})
              b body post (Some 60) [] (fun _ => eq_refl) Hno) as [p' Hp'].
  unfold Lit in Hp'. fold notGt. rewrite Hp'. cbn [rest prev caps].
  rewrite run_Chr_cons, N.eqb_refl. cbn [rest caps].
  rewrite firstn_consumed.
  change (60 :: (b :: body) ++ 62 :: post)
    with ((60 :: b :: body) ++ [62] ++ post).
  rewrite app_assoc, firstn_consumed. reflexivity.
Qed.

(** The same pattern without the capture, as [replace] uses it. *)
Lemma bracketAllRe_here (p : option N) (body post : jsstring) :
  body <> [] -> ~ In 62 body ->
  matchHere bracketAllRe p (60 :: body ++ 62 :: post)
  = Some {| whole := 60 :: body ++ [62]; groups := []; after := post |}.
Proof.
  intros Hne Hno. destruct body as [| b body]; [contradiction |].
  unfold matchHere, bracketAllRe, Lit.
  rewrite run_Seq, run_Chr_cons, N.eqb_refl, flat_map_one.
  rewrite run_Seq.
  destruct (bracket_body (fun st' => st') b body post (Some 60) []
              (fun _ => eq_refl) Hno) as [p' Hp'].
  unfold Lit in Hp'. cbn beta in Hp'.
  change (flat_map (run (Chr (N.eqb 62)))
            (run (Plus (Chr (fun c => negb (N.eqb c 62))))
               {| prev := Some 60; rest := (b :: body) ++ 62 :: post; caps := [] |}))
    with (flat_map (fun st' => run (Chr (N.eqb 62)) st')
            (run (Plus (Chr notGt))
               {| prev := Some 60; rest := (b :: body) ++ 62 :: post; caps := [] |})).
  rewrite Hp'. rewrite run_Chr_cons, N.eqb_refl. cbn [rest caps].
  change (60 :: (b :: body) ++ 62 :: post)
    with ((60 :: b :: body) ++ [62] ++ post).
  rewrite app_assoc, firstn_consumed. reflexivity.
Qed.

(** Neither pattern matches where no [<] stands. *)
Lemma bracket_not_here (p : option N) (s : jsstring) :
  match s with c :: _ => c <> 60 | [] => True end ->
  matchHere bracketRe p s = None /\ matchHere bracketAllRe p s = None.
Proof.
  intros Hs. unfold matchHere, bracketRe, bracketAllRe, Lit. rewrite !run_Seq.
  destruct s as [| c t].
  - rewrite !run_Chr_nil. now split.
  - rewrite !run_Chr_cons.
    replace (N.eqb 60 c) with false
      by (symmetry; apply N.eqb_neq; congruence).
    now split.
Qed.

End BracketFacts.

(* ================================================================== *)
(** * Properties of the sender parsing *)

Section SenderScan.

Lemma searchFrom_bracketRe_skip (name rest_ : jsstring) :
  ~ In 60 name ->
  forall p, exists p',
    searchFrom bracketRe p (name ++ rest_ ) = searchFrom bracketRe p' rest_
    \/ (rest_ = [] /\ searchFrom bracketRe p (name ++ rest_) = None).
Proof.
  induction name as [| c name IH]; intros Hno p.
  - exists p. now left.
  - cbn [app searchFrom].
    destruct (bracket_not_here p (c :: name ++ rest_)) as [Hnone _].
    { intros ->. apply Hno. now left. }
    rewrite Hnone. apply IH. intros Hin. apply Hno. now right.
Qed.

Lemma exec_bracketRe_found (name body post : jsstring) :
  ~ In 60 name -> body <> [] -> ~ In 62 body ->
  exec bracketRe (name ++ 60 :: body ++ 62 :: post)
  = Some {| whole := 60 :: body ++ [62]; groups := [(1%nat, body)];
            after := post |}.
Proof.
  intros Hname Hne Hbody. unfold exec.
  destruct (searchFrom_bracketRe_skip name (60 :: body ++ 62 :: post) Hname None)
    as [p' [Heq | [Hnil _]]]; [| discriminate].
  rewrite Heq. cbn [searchFrom]. now rewrite bracketRe_here.
Qed.

Lemma exec_bracketRe_none (s : jsstring) :
  ~ In 60 s -> exec bracketRe s = None.
Proof.
  unfold exec. generalize (@None N). induction s as [| c t IH]; intros p Hno;
    cbn [searchFrom].
  - now destruct (bracket_not_here p [] I) as [-> _].
  - destruct (bracket_not_here p (c :: t)) as [-> _].
    + intros ->. apply Hno. now left.
    + apply IH. intros Hin. apply Hno. now right.
Qed.

Lemma replaceAllFrom_bracket_skip (name rest_ : jsstring) :
  ~ In 60 name ->
  forall fuel p, exists p',
    replaceAllFrom (length name + fuel) bracketAllRe [] p (name ++ rest_)
    = name ++ replaceAllFrom fuel bracketAllRe [] p' rest_.
Proof.
  induction name as [| c name IH]; intros Hno fuel p.
  - exists p. reflexivity.
  - cbn [app length Nat.add replaceAllFrom].
    destruct (bracket_not_here p (c :: name ++ rest_)) as [_ Hnone].
    { intros ->. apply Hno. now left. }
    rewrite Hnone.
    destruct (IH (fun Hin => Hno (or_intror Hin)) fuel (Some c)) as [p' Hp'].
    exists p'. now rewrite Hp'.
Qed.

Lemma replaceAllFrom_bracket_none (s : jsstring) :
  ~ In 60 s ->
  forall fuel p, replaceAllFrom fuel bracketAllRe [] p s = s.
Proof.
  induction s as [| c t IH]; intros Hno [| fuel] p; cbn [replaceAllFrom];
    try reflexivity.
  destruct (bracket_not_here p (c :: t)) as [_ ->].
  - intros ->. apply Hno. now left.
  - f_equal. apply IH. intros Hin. apply Hno. now right.
Qed.

Lemma replaceAll_bracket (name body post : jsstring) :
  ~ In 60 name -> body <> [] -> ~ In 62 body -> ~ In 60 post ->
  replaceAll bracketAllRe [] (name ++ 60 :: body ++ 62 :: post) = name ++ post.
Proof.
  intros Hname Hne Hbody Hpost. unfold replaceAll.
  replace (S (length (name ++ 60 :: body ++ 62 :: post)))
    with (Nat.add (length name) (S (length (60 :: body ++ 62 :: post))))
    by (rewrite length_app; lia).
  destruct (replaceAllFrom_bracket_skip name (60 :: body ++ 62 :: post) Hname
              (S (length (60 :: body ++ 62 :: post))) None) as [p' ->].
  f_equal. cbn [replaceAllFrom]. rewrite bracketAllRe_here by assumption.
  cbn [whole after app]. now apply replaceAllFrom_bracket_none.
Qed.

End SenderScan.

Section SenderFacts.
Context `{Host}.

(** X6. In a From header with text in angle brackets, the address is the
    bracketed text, trimmed and lower-cased, whatever stands before [<]
    (another address included) and after [>]: the first [<] that is
    followed by some text and [>] decides. *)
Theorem extractEmailAddress_bracket (name body post : jsstring) :
  ~ In 60 name -> body <> [] -> ~ In 62 body ->
  extractEmailAddress (Some (name ++ [60] ++ body ++ [62] ++ post))
  = Some (toLowerCase (trim body)).
Proof.
  intros Hname Hne Hbody. unfold extractEmailAddress.
  cbn [app]. rewrite nonEmpty_Some by (now destruct name).
  rewrite exec_bracketRe_found by assumption. cbn [groups group Nat.eqb].
  now rewrite nonEmpty_Some.
Qed.

(** X7. The display name of a From header of the form [name <address>rest]
    is what is left of [name] and [rest] once the double quotes are deleted
    and the ends are trimmed, and undefined when nothing is left. *)
Theorem extractDisplayName_bracket (name body post : jsstring) :
  ~ In 60 name -> body <> [] -> ~ In 62 body -> ~ In 60 post ->
  extractDisplayName (Some (name ++ [60] ++ body ++ [62] ++ post))
  = nonEmpty (Some (trim (filter (fun c => negb (N.eqb 34 c)) (name ++ post)))).
Proof.
  intros Hname Hne Hbody Hpost. unfold extractDisplayName.
  cbn [app]. rewrite nonEmpty_Some by (now destruct name).
  rewrite replaceAll_bracket by assumption.
  unfold quoteRe, Lit. now rewrite replaceAll_Chr, delete_is_filter.
Qed.

(** X8. A display name, when there is one, is not empty, holds no double
    quote and has no white space at either end. *)
Theorem extractDisplayName_shape (rawFrom : option jsstring) (d : jsstring) :
  extractDisplayName rawFrom = Some d ->
  d <> [] /\ ~ In 34 d /\ trim d = d.
Proof.
  unfold extractDisplayName. destruct (nonEmpty rawFrom) as [raw |]; [| discriminate].
  unfold quoteRe, Lit. rewrite replaceAll_Chr, delete_is_filter.
  cbn [nonEmpty]. destruct (truthy (trim _)) eqn:Ht; [| discriminate].
  intros Heq. injection Heq as <-. split; [now apply truthy_true_iff |].
  split; [| apply trim_idem].
  intros Hin. apply trim_In, filter_In in Hin. destruct Hin as [_ Hq].
  cbn in Hq. discriminate Hq.
Qed.

End SenderFacts.

Section SplitFacts.

Lemma includes_unit (c : N) (s : jsstring) :
  includes s [c] = true <-> In c s.
Proof.
  induction s as [| d t IH]; cbn [includes startsWith In].
  - split; [discriminate | tauto].
  - rewrite orb_true_iff, IH, andb_true_r, N.eqb_eq. intuition congruence.
Qed.

Lemma split_cons (sep : N) (s : jsstring) :
  exists seg segs, split sep s = seg :: segs.
Proof.
  destruct s as [| c t]; cbn [split]; [eauto |].
  destruct (N.eqb c sep); [eauto |]. destruct (split sep t); eauto.
Qed.

Lemma split_at (sep : N) (a b : jsstring) :
  ~ In sep a -> split sep (a ++ sep :: b) = a :: split sep b.
Proof.
  induction a as [| c a IH]; intros Hno; cbn [app split].
  - now rewrite N.eqb_refl.
  - replace (N.eqb c sep) with false
      by (symmetry; apply N.eqb_neq; intros ->; apply Hno; now left).
    rewrite IH; [reflexivity |]. intros Hin. apply Hno. now right.
Qed.

Lemma split_whole (sep : N) (a : jsstring) :
  ~ In sep a -> split sep a = [a].
Proof.
  induction a as [| c a IH]; intros Hno; cbn [split]; [reflexivity |].
  replace (N.eqb c sep) with false
    by (symmetry; apply N.eqb_neq; intros ->; apply Hno; now left).
  rewrite IH; [reflexivity |]. intros Hin. apply Hno. now right.
Qed.

Lemma flat_map_nil {A B} (f : A -> list B) (l : list A) :
  (forall x, In x l -> f x = []) -> flat_map f l = [].
Proof.
  induction l as [| x l IH]; intros Hf; cbn [flat_map]; [reflexivity |].
  rewrite (Hf x (or_introl eq_refl)), IH; [reflexivity |].
  intros y Hy. apply Hf. now right.
Qed.

End SplitFacts.

Section DomainFacts.
Context `{Host}.

(** X9. [extractEmailDomain] cuts at the first [@]: an address without
    one has no domain; otherwise the domain is the text up to the next [@]
    or to the end, trimmed and lower-cased, and undefined when that is
    empty. *)
Theorem extractEmailDomain_spec (email : jsstring) :
  (~ In 64 email -> extractEmailDomain (Some email) = None)
  /\ (forall local rest_,
         email = local ++ 64 :: rest_ -> ~ In 64 local ->
         extractEmailDomain (Some email)
         = nonEmpty (Some (toLowerCase (trim (hd [] (split 64 rest_)))))).
Proof.
  unfold extractEmailDomain. split.
  - intros Hno. destruct (nonEmpty (Some email)) as [e |] eqn:He; [| reflexivity].
    cbn [nonEmpty] in He. destruct (truthy email); [| discriminate].
    injection He as <-.
    destruct (includes email (js "@")) eqn:Hinc; [| reflexivity].
    apply includes_unit in Hinc. contradiction.
  - intros local rest_ -> Hno.
    rewrite nonEmpty_Some by (now destruct local).
    replace (includes (local ++ 64 :: rest_) (js "@")) with true
      by (symmetry; apply includes_unit, in_or_app; right; now left).
    cbn [negb]. rewrite split_at by exact Hno. cbn [nth_error].
    destruct (split_cons 64 rest_) as [seg [segs ->]]. reflexivity.
Qed.

End DomainFacts.

Section BareFacts.

Lemma bareRe_needs_at (p : option N) (s : jsstring) :
  ~ In 64 s -> matchHere bareRe p s = None.
Proof.
  intros Hno. unfold matchHere, bareRe. rewrite run_Seq.
  rewrite flat_map_nil; [reflexivity |].
  intros st' Hin. apply run_suffix in Hin. cbn [rest] in Hin.
  destruct Hin as [pre Hpre]. rewrite run_Seq. unfold Lit.
  destruct st' as [p' r' c']. cbn [rest] in Hpre.
  destruct r' as [| d r']; [now rewrite run_Chr_nil |].
  rewrite run_Chr_cons.
  replace (N.eqb 64 d) with false; [reflexivity |].
  symmetry. apply N.eqb_neq. intros <-. apply Hno. rewrite Hpre.
  apply in_or_app. right. now left.
Qed.

Lemma exec_bareRe_none (s : jsstring) :
  ~ In 64 s -> exec bareRe s = None.
Proof.
  unfold exec. generalize (@None N). induction s as [| c t IH]; intros p Hno;
    cbn [searchFrom]; rewrite bareRe_needs_at by exact Hno; [reflexivity |].
  apply IH. intros Hin. apply Hno. now right.
Qed.

End BareFacts.

Section NoAddressFacts.
Context `{Host}.

(** A From header that holds neither [<] nor [@] yields no address. *)
Lemma extractEmailAddress_none (rawFrom : jsstring) :
  ~ In 60 rawFrom -> ~ In 64 rawFrom ->
  extractEmailAddress (Some rawFrom) = None.
Proof.
  intros Hlt Hat. unfold extractEmailAddress.
  destruct (nonEmpty (Some rawFrom)) as [raw |] eqn:Hraw; [| reflexivity].
  cbn [nonEmpty] in Hraw. destruct (truthy rawFrom); [| discriminate].
  injection Hraw as <-.
  now rewrite exec_bracketRe_none, exec_bareRe_none.
Qed.

End NoAddressFacts.

Section ShapeFacts.

Lemma run_Chr_inv (q : N -> bool) (st st' : mstate) :
  In st' (run (Chr q) st) ->
  exists c, rest st = c :: rest st' /\ q c = true /\ caps st' = caps st.
Proof.
  cbn [run]. destruct (rest st) as [| c t]; [intros [] |].
  destruct (q c) eqn:Hc; [| intros []].
  intros [<- | []]. exists c. now repeat split.
Qed.

Lemma run_StarChr_inv (q : N -> bool) (st st' : mstate) :
  In st' (run (Star (Chr q)) st) ->
  exists w, rest st = w ++ rest st' /\ forallb q w = true.
Proof.
  rewrite run_Star.
  apply (star_closed
           (fun x y => exists w, rest x = w ++ rest y /\ forallb q w = true)).
  - intros x. now exists [].
  - intros x y z [w1 [H1 Hq1]] [w2 [H2 Hq2]]. exists (w1 ++ w2).
    rewrite H1, H2, app_assoc, forallb_app, Hq1, Hq2. now split.
  - intros x y Hin. apply run_Chr_inv in Hin as [c [Hrest [Hc _]]].
    exists [c]. cbn [forallb app]. now rewrite Hrest, Hc.
Qed.

Lemma run_PlusChr_inv (q : N -> bool) (st st' : mstate) :
  In st' (run (Plus (Chr q)) st) ->
  exists w, rest st = w ++ rest st' /\ forallb q w = true /\ w <> [].
Proof.
  unfold Plus. rewrite run_Seq. intros Hin.
  apply in_flat_map in Hin as [mid [Hmid Hin]].
  apply run_Chr_inv in Hmid as [c [Hrest [Hc _]]].
  apply run_StarChr_inv in Hin as [w [Hw Hq]].
  exists (c :: w). cbn [forallb app]. rewrite Hrest, Hw, Hc, Hq.
  repeat split. discriminate.
Qed.

(** What the bare-address pattern consumes. *)
Lemma bareRe_inv (st st' : mstate) :
  In st' (run bareRe st) ->
  exists l d t,
    rest st = (l ++ 64 :: d ++ 46 :: t) ++ rest st'
    /\ l <> [] /\ forallb bareLocalClass l = true
    /\ d <> [] /\ forallb bareDomainClass d = true
    /\ (2 <= length t)%nat /\ forallb isLetter t = true.
Proof.
  unfold bareRe. rewrite run_Seq. intros Hin.
  apply in_flat_map in Hin as [s1 [H1 Hin]].
  apply run_PlusChr_inv in H1 as [l [Hl [Hlq Hlne]]].
  rewrite run_Seq in Hin. apply in_flat_map in Hin as [s2 [H2 Hin]].
  apply run_Chr_inv in H2 as [c2 [Hr2 [Hc2 _]]]. apply N.eqb_eq in Hc2. subst c2.
  rewrite run_Seq in Hin. apply in_flat_map in Hin as [s3 [H3 Hin]].
  apply run_PlusChr_inv in H3 as [d [Hd [Hdq Hdne]]].
  rewrite run_Seq in Hin. apply in_flat_map in Hin as [s4 [H4 Hin]].
  apply run_Chr_inv in H4 as [c4 [Hr4 [Hc4 _]]]. apply N.eqb_eq in Hc4. subst c4.
  rewrite run_Seq in Hin. apply in_flat_map in Hin as [s5 [H5 Hin]].
  apply run_Chr_inv in H5 as [c5 [Hr5 [Hc5 _]]].
  rewrite run_Seq in Hin. apply in_flat_map in Hin as [s6 [H6 Hin]].
  apply run_Chr_inv in H6 as [c6 [Hr6 [Hc6 _]]].
  apply run_StarChr_inv in Hin as [t [Ht Htq]].
  exists l, d, (c5 :: c6 :: t).
  rewrite Hl, Hr2, Hd, Hr4, Hr5, Hr6, Ht. cbn [forallb length].
  rewrite Hc5, Hc6, Htq. repeat split; auto; try lia.
  rewrite <- !app_assoc. cbn [app]. rewrite <- !app_assoc. reflexivity.
Qed.

(** What the bracket pattern consumes and captures. *)
Lemma bracketRe_inv (p : option N) (s : jsstring) (st' : mstate) :
  In st' (run bracketRe {| prev := p; rest := s; caps := [] |}) ->
  exists body,
    s = 60 :: body ++ 62 :: rest st'
    /\ body <> [] /\ ~ In 62 body /\ caps st' = [(1%nat, body)].
Proof.
  unfold bracketRe. rewrite run_Seq. intros Hin.
  apply in_flat_map in Hin as [s1 [H1 Hin]].
  apply run_Chr_inv in H1 as [c1 [Hr1 [Hc1 Hcaps1]]].
  apply N.eqb_eq in Hc1. subst c1. cbn [rest caps] in Hr1, Hcaps1.
  rewrite run_Seq in Hin. apply in_flat_map in Hin as [s2 [H2 Hin]].
  rewrite run_Group in H2. apply in_map_iff in H2 as [mid [<- Hmid]].
  pose proof (run_groupless_caps (Plus (Chr (fun c => negb (N.eqb c 62))))
                eq_refl _ _ Hmid) as Hcm.
  apply run_PlusChr_inv in Hmid as [body [Hbody [Hq Hne]]].
  apply run_Chr_inv in Hin as [c2 [Hr2 [Hc2 Hcaps2]]].
  apply N.eqb_eq in Hc2. subst c2. cbn [rest caps] in Hr2, Hcaps2.
  exists body. rewrite Hr1, Hbody, Hr2. repeat split; auto.
  - intros Hin. rewrite forallb_forall in Hq. apply Hq in Hin. discriminate Hin.
  - rewrite Hcaps2, Hcm, Hcaps1, Hbody, firstn_consumed. reflexivity.
Qed.

(** A match of [exec] stands at some position of the text. *)
Lemma searchFrom_position (r : regex) (s : jsstring) :
  forall p m, searchFrom r p s = Some m ->
              exists pre p' s', s = pre ++ s' /\ matchHere r p' s' = Some m.
Proof.
  induction s as [| c t IH]; intros p m Hs; cbn [searchFrom] in Hs.
  - destruct (matchHere r p []) eqn:Hm; [| discriminate].
    injection Hs as <-. now exists [], p, [].
  - destruct (matchHere r p (c :: t)) eqn:Hm.
    + injection Hs as <-. now exists [], p, (c :: t).
    + destruct (IH _ _ Hs) as [pre [p' [s' [-> Hm']]]].
      now exists (c :: pre), p', s'.
Qed.

End ShapeFacts.

Section AddressShape.
Context `{Host}.

(** X10. Every address [extractEmailAddress] returns is lower-cased text
    of the header: either what stands between a [<] and the next [>]
    (trimmed; anything but [>] is taken, an address or not), or, when no
    such pair is found, a piece of the form local [@] domain [.] letters,
    with a non-empty local part, a non-empty domain and two letters or
    more at the end. *)
Theorem extractEmailAddress_shape (rawFrom : option jsstring) (e : jsstring) :
  extractEmailAddress rawFrom = Some e ->
  exists raw, rawFrom = Some raw /\
    ((exists pre body post,
         raw = pre ++ [60] ++ body ++ [62] ++ post
         /\ body <> [] /\ ~ In 62 body /\ e = toLowerCase (trim body))
     \/ (exists pre l d t post,
            raw = pre ++ (l ++ [64] ++ d ++ [46] ++ t) ++ post
            /\ e = toLowerCase (l ++ [64] ++ d ++ [46] ++ t)
            /\ l <> [] /\ forallb bareLocalClass l = true
            /\ d <> [] /\ forallb bareDomainClass d = true
            /\ (2 <= length t)%nat /\ forallb isLetter t = true)).
Proof.
  unfold extractEmailAddress. destruct rawFrom as [raw |]; [| discriminate].
  cbn [nonEmpty]. destruct (truthy raw); [| discriminate].
  intros Hres. exists raw. split; [reflexivity |].
  assert (Hbare : forall b, exec bareRe raw = Some b ->
            exists pre l d t post,
              raw = pre ++ (l ++ [64] ++ d ++ [46] ++ t) ++ post
              /\ toLowerCase (whole b) = toLowerCase (l ++ [64] ++ d ++ [46] ++ t)
              /\ l <> [] /\ forallb bareLocalClass l = true
              /\ d <> [] /\ forallb bareDomainClass d = true
              /\ (2 <= length t)%nat /\ forallb isLetter t = true).
  { intros b Hb. apply searchFrom_position in Hb as [pre [p' [s' [-> Hm]]]].
    unfold matchHere in Hm.
    destruct (run bareRe {| prev := p'; rest := s'; caps := [] |})
      as [| st' sts] eqn:Hrun; [discriminate |].
    injection Hm as <-. cbn [whole].
    destruct (bareRe_inv {| prev := p'; rest := s'; caps := [] |} st')
      as [l [d [t [Hs' Hrest]]]]; [rewrite Hrun; now left |].
    cbn [rest] in Hs'. exists pre, l, d, t, (rest st').
    split; [now rewrite Hs' |]. split; [| exact Hrest].
    rewrite Hs'. now rewrite firstn_consumed. }
  destruct (exec bracketRe raw) as [m |] eqn:Hbr.
  - destruct (nonEmpty (group 1 (groups m))) as [g |] eqn:Hg.
    + left. injection Hres as <-.
      apply searchFrom_position in Hbr as [pre [p' [s' [-> Hm]]]].
      unfold matchHere in Hm.
      destruct (run bracketRe {| prev := p'; rest := s'; caps := [] |})
        as [| st' sts] eqn:Hrun; [discriminate |].
      injection Hm as <-. cbn [groups] in Hg.
      destruct (bracketRe_inv p' s' st') as [body [Hs' [Hne [Hno Hcaps]]]];
        [rewrite Hrun; now left |].
      rewrite Hcaps in Hg. cbn [group Nat.eqb] in Hg.
      rewrite nonEmpty_Some in Hg by exact Hne. injection Hg as <-.
      exists pre, body, (rest st'). now rewrite Hs'.
    + right. destruct (exec bareRe raw) as [b |] eqn:Hb; [| discriminate].
      injection Hres as <-.
      destruct (Hbare b eq_refl) as [pre [l [d [t [post [Hraw [He Hrest]]]]]]].
      exists pre, l, d, t, post. rewrite He. auto.
  - right. destruct (exec bareRe raw) as [b |] eqn:Hb; [| discriminate].
    injection Hres as <-.
    destruct (Hbare b eq_refl) as [pre [l [d [t [post [Hraw [He Hrest]]]]]]].
    exists pre, l, d, t, post. rewrite He. auto.
Qed.

End AddressShape.

(* ================================================================== *)
(** * Further properties of the classifier *)

Section ScoreFacts.

Lemma countSignals_from (text : jsstring) (signals : list jsstring) :
  forall acc,
    (fold_left
       (fun count signal =>
          if includes text signal then (count + 1)%nat else count)
       signals acc <= acc + length signals)%nat.
Proof.
  induction signals as [| s signals IH]; intros acc; cbn [fold_left length];
    [lia |].
  destruct (includes text s).
  - specialize (IH (acc + 1)%nat). lia.
  - specialize (IH acc). lia.
Qed.

Lemma countSignals_le (text : jsstring) (signals : list jsstring) :
  (countSignals text signals <= length signals)%nat.
Proof. unfold countSignals. apply (countSignals_from text signals 0%nat). Qed.

Ltac upto_ten n :=
  do 11 (destruct n as [| n]; [vm_compute; split; reflexivity |]); lia.

Lemma receipt_confidence_range (n : nat) :
  (n <= 10)%nat ->
  PrimFloat.leb 0.52 (Math_min (0.65 + numOfNat n * 0.08) 0.96) = true
  /\ PrimFloat.leb (Math_min (0.65 + numOfNat n * 0.08) 0.96) 0.96 = true.
Proof. intros Hn. upto_ten n. Qed.

Lemma sales_confidence_range (n : nat) :
  (n <= 10)%nat ->
  PrimFloat.leb 0.52 (Math_min (0.62 + numOfNat n * 0.07) 0.95) = true
  /\ PrimFloat.leb (Math_min (0.62 + numOfNat n * 0.07) 0.95) 0.96 = true.
Proof. intros Hn. upto_ten n. Qed.

Lemma support_confidence_range (n : nat) :
  (n <= 10)%nat ->
  PrimFloat.leb 0.52 (Math_min (0.58 + numOfNat n * 0.08) 0.9) = true
  /\ PrimFloat.leb (Math_min (0.58 + numOfNat n * 0.08) 0.9) 0.96 = true.
Proof. intros Hn. upto_ten n. Qed.

Lemma ignore_confidence_range (n : nat) :
  (n <= 10)%nat ->
  PrimFloat.leb 0.52 (Math_min (0.6 + numOfNat n * 0.08) 0.92) = true
  /\ PrimFloat.leb (Math_min (0.6 + numOfNat n * 0.08) 0.92) 0.96 = true.
Proof. intros Hn. upto_ten n. Qed.

End ScoreFacts.

Section ClassifierRange.
Context `{Host}.

(** X11. Whatever the message, the confidence [classifyInbound] reports is
    a number between 0.52 and 0.96, both included; it is never NaN. *)
Theorem classifyInbound_confidence (m : PollMessage) :
  PrimFloat.leb 0.52 (confidence (classifyInbound m)) = true
  /\ PrimFloat.leb (confidence (classifyInbound m)) 0.96 = true.
Proof.
  unfold classifyInbound.
  destruct (_ && negb (hasDirectInquiry m)); [vm_compute; split; reflexivity |].
  destruct (Nat.ltb 0 (receiptScore m) && _).
  { cbn [confidence]. apply receipt_confidence_range.
    apply (countSignals_le (messageText m) receiptSignals). }
  destruct (Nat.ltb 0 (salesScore m)).
  { destruct (_ || looksHiring m); [vm_compute; split; reflexivity |].
    cbn [confidence]. apply sales_confidence_range.
    apply (countSignals_le (messageText m) salesSignals). }
  destruct (Nat.ltb 0 (supportScore m)).
  { cbn [confidence]. apply support_confidence_range.
    pose proof (countSignals_le (messageText m) supportSignals) as Hle.
    change (length supportSignals) with 7%nat in Hle. unfold supportScore. lia. }
  destruct (Nat.ltb 0 (ignoreScore m)).
  { cbn [confidence]. apply ignore_confidence_range.
    pose proof (countSignals_le (messageText m) ignoreSignals) as Hle.
    change (length ignoreSignals) with 6%nat in Hle. unfold ignoreScore. lia. }
  vm_compute. split; reflexivity.
Qed.

(** X12. [classifyInbound] labels a message [sales] exactly when its text
    holds a direct-inquiry phrase, nothing marks it as automated, as a
    job-network or vendor-system sender or as hiring, its sales score is
    positive, and its receipt score is zero or below the sales score. *)
Theorem sales_label_iff (m : PollMessage) :
  label (classifyInbound m) = sales
  <-> hasDirectInquiry m = true
      /\ likelyNonHumanSender m = false
      /\ looksHiring m = false
      /\ (0 < salesScore m)%nat
      /\ (receiptScore m = 0%nat \/ (receiptScore m < salesScore m)%nat).
Proof.
  unfold classifyInbound.
  destruct (hasDirectInquiry m), (likelyNonHumanSender m), (looksHiring m);
    cbn [negb andb orb];
    destruct (Nat.ltb 0 (receiptScore m)) eqn:Hr;
    destruct (Nat.leb (salesScore m) (receiptScore m)) eqn:Hle;
    destruct (Nat.ltb 0 (salesScore m)) eqn:Hs;
    destruct (Nat.ltb 0 (supportScore m));
    destruct (Nat.ltb 0 (ignoreScore m));
    cbn [andb label];
    repeat match goal with
           | Hb : Nat.ltb _ _ = true |- _ => apply Nat.ltb_lt in Hb
           | Hb : Nat.ltb _ _ = false |- _ => apply Nat.ltb_ge in Hb
           | Hb : Nat.leb _ _ = true |- _ => apply Nat.leb_le in Hb
           | Hb : Nat.leb _ _ = false |- _ => apply Nat.leb_gt in Hb
           end;
    (split; [intros Hx; try discriminate Hx; repeat split; auto; lia
            | intros [Hd [Hn [Hh [Hpos Hrs]]]];
              try discriminate Hd; try discriminate Hn; try discriminate Hh;
              try reflexivity; exfalso; lia]).
Qed.

End ClassifierRange.

(* ================================================================== *)
(** * Properties of the cues, the draft and the notification text *)

Section ListFacts.

Lemma arrayIncludes_In (xs : list jsstring) (x : jsstring) :
  arrayIncludes xs x = true <-> In x xs.
Proof.
  unfold arrayIncludes. rewrite existsb_exists. split.
  - intros [y [Hy Heq]]. apply jsstring_eqb_eq in Heq. now subst.
  - intros Hin. exists x. split; [exact Hin | apply jsstring_eqb_refl].
Qed.

Lemma dedupe_spec (xs : list jsstring) :
  forall seen,
    NoDup (dedupe seen xs)
    /\ forall x, In x (dedupe seen xs) -> In x xs /\ ~ In x seen.
Proof.
  induction xs as [| x xs IH]; intros seen; cbn [dedupe].
  - split; [constructor | intros y []].
  - destruct (arrayIncludes seen x) eqn:Hseen.
    + destruct (IH seen) as [Hnd Hin]. split; [exact Hnd |].
      intros y Hy. destruct (Hin y Hy). split; [now right | assumption].
    + destruct (IH (x :: seen)) as [Hnd Hin]. split.
      * constructor; [| exact Hnd]. intros Hx. apply Hin in Hx as [_ Hx].
        apply Hx. now left.
      * intros y [<- | Hy].
        -- split; [now left |]. intros Hx. apply arrayIncludes_In in Hx.
           congruence.
        -- destruct (Hin y Hy) as [H1 H2]. split; [now right |].
           intros Hs. apply H2. now right.
Qed.

Lemma firstn_In {A} (n : nat) (l : list A) (x : A) :
  In x (firstn n l) -> In x l.
Proof.
  intros Hin. rewrite <- (firstn_skipn n l). apply in_or_app. now left.
Qed.

Lemma firstn_NoDup {A} (n : nat) (l : list A) : NoDup l -> NoDup (firstn n l).
Proof.
  intros Hnd. rewrite <- (firstn_skipn n l) in Hnd.
  now apply NoDup_app_remove_r in Hnd.
Qed.

Lemma trimmed_In (o : option jsstring) (x : jsstring) :
  In x (trimmed o) -> x <> [] /\ trim x = x.
Proof.
  unfold trimmed. destruct o as [s |]; [| intros []].
  destruct (truthy (trim s)) eqn:Ht; [| intros []].
  intros [<- | []]. split; [now apply truthy_true_iff | apply trim_idem].
Qed.

Lemma sectionLines_In (b : SopBody) (x : jsstring) :
  In x (sectionLines b) -> x <> [] /\ trim x = x.
Proof.
  unfold sectionLines. destruct (sections b) as [secs |]; [| intros []].
  intros Hin. apply in_flat_map in Hin as [sec [_ Hin]].
  apply in_app_or in Hin as [Hin | Hin]; [now apply trimmed_In in Hin |].
  apply in_flat_map in Hin as [item [_ Hin]]. now apply trimmed_In in Hin.
Qed.

Lemma blockLines_In (b : SopBody) (x : jsstring) :
  In x (blockLines b) -> x <> [] /\ trim x = x.
Proof.
  unfold blockLines. destruct (blocks b) as [bs |]; [| intros []].
  intros Hin. apply in_flat_map in Hin as [o [_ Hin]].
  now apply trimmed_In in Hin.
Qed.

End ListFacts.

Section CueFacts.
Context `{Host}.

(** The cues, from the lines of the sections or else of the blocks. *)
Lemma pickSopCues_lines (snap : SopSnapshot) (b : SopBody) :
  sop snap = Some b ->
  pickSopCues (Some snap)
  = firstn 6 (dedupe [] (filter usefulCue
                           (match sectionLines b with
                            | [] => blockLines b
                            | ls => ls
                            end))).
Proof.
  intros Hb. unfold pickSopCues, sectionLines, blockLines. rewrite Hb.
  destruct (sections b) as [secs |]; [| reflexivity].
  now destruct (flat_map _ secs).
Qed.

Lemma pickSopCues_none (snapshot : option SopSnapshot) :
  match snapshot with Some snap => sop snap = None | None => True end ->
  pickSopCues snapshot = [].
Proof.
  unfold pickSopCues. destruct snapshot as [snap |]; [| reflexivity].
  now intros ->.
Qed.

(** X13. [pickSopCues] returns at most six cues, no cue twice; each cue
    holds one of the six key words (in any letter case), is not empty and
    has no white space at either end. *)
Theorem pickSopCues_shape (snapshot : option SopSnapshot) :
  (length (pickSopCues snapshot) <= 6)%nat
  /\ NoDup (pickSopCues snapshot)
  /\ forall cue, In cue (pickSopCues snapshot) ->
                 usefulCue cue = true /\ cue <> [] /\ trim cue = cue.
Proof.
  assert (Hempty : pickSopCues snapshot = [] ->
            (length (pickSopCues snapshot) <= 6)%nat
            /\ NoDup (pickSopCues snapshot)
            /\ forall cue, In cue (pickSopCues snapshot) ->
                           usefulCue cue = true /\ cue <> [] /\ trim cue = cue).
  { intros ->. split; [cbn [length]; lia |]. split; [constructor | intros cue []]. }
  destruct snapshot as [snap |]; [| now apply Hempty, pickSopCues_none].
  destruct (sop snap) as [b |] eqn:Hb; [| now apply Hempty, pickSopCues_none].
  clear Hempty.
  rewrite (pickSopCues_lines snap b Hb).
  set (lines := match sectionLines b with [] => blockLines b | ls => ls end).
  assert (Hlines : forall x, In x lines -> x <> [] /\ trim x = x).
  { intros x. unfold lines. destruct (sectionLines b) as [| l ls] eqn:Hs.
    - apply blockLines_In.
    - rewrite <- Hs. apply sectionLines_In. }
  destruct (dedupe_spec (filter usefulCue lines) []) as [Hnd Hin].
  split; [apply firstn_le_length |]. split; [now apply firstn_NoDup |].
  intros cue Hcue. apply firstn_In, Hin in Hcue as [Hcue _].
  apply filter_In in Hcue as [Hl Hu]. split; [exact Hu |]. now apply Hlines.
Qed.

(** X14. The blocks of the snapshot are a fallback only: as soon as the
    sections give one line, be it a line without any key word, the blocks
    play no part in the cues. *)
Theorem pickSopCues_sections_first (snap1 snap2 : SopSnapshot)
  (b1 b2 : SopBody) :
  sop snap1 = Some b1 -> sop snap2 = Some b2 ->
  sections b1 = sections b2 ->
  sectionLines b1 <> [] ->
  pickSopCues (Some snap1) = pickSopCues (Some snap2).
Proof.
  intros H1 H2 Hsec Hne.
  rewrite (pickSopCues_lines _ _ H1), (pickSopCues_lines _ _ H2).
  assert (Hs : sectionLines b2 = sectionLines b1)
    by (unfold sectionLines; now rewrite Hsec).
  rewrite Hs. now destruct (sectionLines b1).
Qed.

End CueFacts.

Section NameFacts.

Lemma span_fst (p : N -> bool) (s : jsstring) (c : N) :
  In c (fst (span p s)) -> p c = true /\ In c s.
Proof.
  induction s as [| d t IH]; cbn [span]; [intros [] |].
  destruct (p d) eqn:Hd; [| intros []].
  destruct (span p t) as [a b]. cbn [fst] in *.
  intros [<- | Hin]; [split; [exact Hd | now left] |].
  destruct (IH Hin). split; [assumption | now right].
Qed.

Lemma white_space_not_name (c : N) :
  isWhiteSpace c = true -> isNameChar c = false.
Proof.
  intros Hws. destruct (isNameChar c) eqn:Hn; [| reflexivity]. exfalso.
  unfold isNameChar, isLetter, isUpper, isLower in Hn.
  unfold isWhiteSpace in Hws. cbn [existsb] in Hws.
  repeat rewrite ?orb_true_iff, ?andb_true_iff, ?N.eqb_eq, ?N.leb_le in Hn.
  repeat rewrite ?orb_true_iff, ?andb_true_iff, ?N.eqb_eq, ?N.leb_le in Hws.
  lia.
Qed.

Lemma blanked_white (c : N) : isWhiteSpace (blanked c) = negb (isNameChar c).
Proof.
  unfold blanked, isNameChar.
  destruct (isWhiteSpace c) eqn:Hws.
  - rewrite orb_true_r. cbn [orb negb]. rewrite Hws.
    apply white_space_not_name in Hws. unfold isNameChar in Hws. now rewrite Hws.
  - rewrite orb_false_r.
    destruct (isLetter c || N.eqb c 45) eqn:Hn; cbn [negb]; [exact Hws | reflexivity].
Qed.

Lemma blanked_name (c : N) : isNameChar c = true -> blanked c = c.
Proof.
  unfold blanked, isNameChar. intros Hn.
  destruct (isLetter c); cbn [orb negb] in *; [reflexivity |].
  rewrite Hn, orb_true_r. reflexivity.
Qed.

Lemma cleaned_is_map (d : jsstring) :
  flat_map (fun c => if negb (isLetter c || isWhiteSpace c || N.eqb c 45)
                     then js " " else [c]) d
  = map blanked d.
Proof.
  induction d as [| c t IH]; cbn [flat_map map]; [reflexivity |].
  rewrite IH. unfold blanked.
  now destruct (negb (isLetter c || isWhiteSpace c || N.eqb c 45)).
Qed.

Lemma trimStart_blanked (d : jsstring) :
  trimStart (map blanked d)
  = map blanked (snd (span (fun c => negb (isNameChar c)) d)).
Proof.
  induction d as [| c t IH]; cbn [map trimStart span]; [reflexivity |].
  rewrite blanked_white. destruct (negb (isNameChar c)); [| reflexivity].
  destruct (span (fun c => negb (isNameChar c)) t) as [a b]. exact IH.
Qed.

Lemma first_token_blanked (l : jsstring) :
  fst (span (fun c => negb (isWhiteSpace c)) (map blanked l))
  = fst (span isNameChar l).
Proof.
  induction l as [| c t IH]; cbn [map span]; [reflexivity |].
  rewrite blanked_white, negb_involutive.
  destruct (isNameChar c) eqn:Hn; [| reflexivity].
  destruct (span (fun c => negb (isWhiteSpace c)) (map blanked t)) as [a b].
  destruct (span isNameChar t) as [a' b']. cbn [fst] in *.
  now rewrite IH, (blanked_name _ Hn).
Qed.

Lemma span_app_stop (p : N -> bool) (a t : jsstring) :
  forallb (fun c => negb (p c)) t = true ->
  fst (span p (a ++ t)) = fst (span p a).
Proof.
  intros Ht. induction a as [| c a IH]; cbn [app span].
  - destruct t as [| c t]; [reflexivity |]. cbn [forallb span] in *.
    apply andb_true_iff in Ht as [Hc _]. apply negb_true_iff in Hc.
    now rewrite Hc.
  - destruct (p c); [| reflexivity].
    destruct (span p (a ++ t)) as [x y]. destruct (span p a) as [x' y'].
    cbn [fst] in *. now rewrite IH.
Qed.

Lemma trimStart_trim (s : jsstring) :
  exists t, trimStart s = trim s ++ t /\ forallb isWhiteSpace t = true.
Proof.
  unfold trim.
  destruct (trimStart_suffix (rev (trimStart s))) as [pre [Hs Hpre]].
  exists (rev pre). split; [| now rewrite forallb_rev].
  apply (f_equal (@rev N)) in Hs.
  now rewrite rev_involutive, rev_app_distr in Hs.
Qed.

(** The first token of a trimmed text is the first token of the text
    without its leading white space. *)
Lemma first_token_trim (s : jsstring) :
  fst (span (fun c => negb (isWhiteSpace c)) (trim s))
  = fst (span (fun c => negb (isWhiteSpace c)) (trimStart s)).
Proof.
  destruct (trimStart_trim s) as [t [-> Ht]]. symmetry. apply span_app_stop.
  rewrite <- Ht. clear.
  induction t as [| c t IH]; cbn [forallb]; [reflexivity |].
  now rewrite negb_involutive, IH.
Qed.

(** X15. The name a draft greets is never empty and is made of ASCII
    letters and hyphens only: it is the first run of such characters of the
    display name, every other character counting as a blank, or "there"
    when there is none. *)
Theorem firstNameFromDisplay_shape (display : option jsstring) :
  firstNameFromDisplay display <> []
  /\ forallb (fun c => isLetter c || N.eqb c 45) (firstNameFromDisplay display)
     = true
  /\ firstNameFromDisplay display
     = (if truthy (firstNameRun (orEmpty display))
        then firstNameRun (orEmpty display) else js "there").
Proof.
  assert (Hrun : firstNameFromDisplay display
                 = (if truthy (firstNameRun (orEmpty display))
                    then firstNameRun (orEmpty display) else js "there")).
  { unfold firstNameFromDisplay, nonEmpty.
    destruct display as [d |]; [| reflexivity]. cbn [orEmpty].
    destruct (truthy d) eqn:Hd.
    - unfold notNameChar. rewrite replaceAll_Chr, cleaned_is_map.
      assert (Hfirst : fst (span (fun c => negb (isWhiteSpace c))
                              (trim (map blanked d)))
                       = firstNameRun d).
      { rewrite first_token_trim, trimStart_blanked. apply first_token_blanked. }
      rewrite Hfirst.
      destruct (truthy (trim (map blanked d))) eqn:Hclean; cbn [negb];
        [reflexivity |].
      apply truthy_false_iff in Hclean. rewrite Hclean in Hfirst.
      cbn [span fst] in Hfirst. now rewrite <- Hfirst.
    - apply truthy_false_iff in Hd. now subst d. }
  rewrite Hrun.
  destruct (truthy (firstNameRun (orEmpty display))) eqn:Hfirst.
  - split; [now apply truthy_true_iff |]. split; [| reflexivity].
    apply forallb_forall. intros c Hc. unfold firstNameRun in Hc.
    now apply span_fst in Hc as [Hc _].
  - split; [discriminate |]. split; reflexivity.
Qed.

End NameFacts.

Section SubjectFacts.
Context `{Host}.

Hypothesis lower_reply_prefix :
  forall s, startsWith (toLowerCase (js "Re: " ++ s)) (js "re:") = true.

(** X16. The subject of a draft always starts with "re:" once lower-cased,
    and drafting a reply to it again leaves it as it is: the prefix is never
    stacked.  (The host is only asked to lower-case the four code units of
    "Re: " at the head of a text to "re: ".) *)
Theorem reply_subject_stable (senderDisplayName senderEmail subj snip : option jsstring)
  (sopCues : list jsstring) :
  let s' := fst (buildSalesDraft senderDisplayName senderEmail subj snip sopCues) in
  startsWith (toLowerCase s') (js "re:") = true
  /\ fst (buildSalesDraft senderDisplayName senderEmail (Some s') snip sopCues)
     = s'.
Proof.
  cbv zeta. unfold buildSalesDraft. cbn [fst].
  assert (Hstable : forall s, startsWith (toLowerCase s) (js "re:") = true ->
            startsWith (toLowerCase s) (js "re:") = true
            /\ (if startsWith (toLowerCase s) (js "re:") then s else js "Re: " ++ s)
               = s).
  { intros s Hs. now rewrite Hs. }
  destruct subj as [s |].
  - destruct (startsWith (toLowerCase s) (js "re:")) eqn:Hs.
    + now apply Hstable.
    + apply Hstable, lower_reply_prefix.
  - change (js "Re: Prompt Circle inquiry")
      with (js "Re: " ++ js "Prompt Circle inquiry").
    apply Hstable, lower_reply_prefix.
Qed.

End SubjectFacts.

Section NotificationFacts.
Context `{Host}.

Lemma approvalCommands_spliced (draftId : jsstring) :
  replaceAll (Str (js "<draft_id>")) draftId approvalHelp
  = approvalCommandsFor draftId.
Proof. vm_compute. reflexivity. Qed.

End NotificationFacts.

(* ================================================================== *)
(** * Properties of the persistence and notification calls *)

Section QueryFacts.

Lemma paramsGet_filter (name other : jsstring) (q : list (jsstring * jsstring)) :
  jsstring_eqb other name = false ->
  paramsGet name (filter (fun kv => negb (jsstring_eqb (fst kv) other)) q)
  = paramsGet name q.
Proof.
  intros Hne. induction q as [| [k v] q IH]; [reflexivity |].
  cbn [filter fst paramsGet].
  destruct (jsstring_eqb k other) eqn:Hko; cbn [negb].
  - apply jsstring_eqb_eq in Hko as ->. now rewrite Hne.
  - cbn [paramsGet]. now rewrite IH.
Qed.

Lemma paramsGet_paramsSet (name n v : jsstring) (q : list (jsstring * jsstring)) :
  paramsGet name (paramsSet n v q)
  = if jsstring_eqb n name then Some v else paramsGet name q.
Proof.
  induction q as [| [k u] q IH]; cbn [paramsSet paramsGet]; [reflexivity |].
  destruct (jsstring_eqb k n) eqn:Hkn; cbn [paramsGet].
  - apply jsstring_eqb_eq in Hkn as ->.
    destruct (jsstring_eqb n name) eqn:Hn; [reflexivity |].
    now apply paramsGet_filter.
  - rewrite IH. destruct (jsstring_eqb k name) eqn:Hk; [| reflexivity].
    apply jsstring_eqb_eq in Hk as ->.
    rewrite jsstring_eqb_sym in Hkn. now rewrite Hkn.
Qed.

Lemma paramsGet_snoc (name k v : jsstring) (q : list (jsstring * jsstring)) :
  paramsGet name (q ++ [(k, v)])
  = match paramsGet name q with
    | Some u => Some u
    | None => if jsstring_eqb k name then Some v else None
    end.
Proof.
  induction q as [| [k' u] q IH]; cbn [app paramsGet]; [reflexivity |].
  now destruct (jsstring_eqb k' name).
Qed.

Lemma paramsGet_patchQuery (filters q : list (jsstring * jsstring))
  (name : jsstring) :
  paramsGet name
    (fold_left (fun query kv => paramsSet (fst kv) (js "eq." ++ snd kv) query)
               filters q)
  = match paramsGet name (rev filters) with
    | Some v => Some (js "eq." ++ v)
    | None => paramsGet name q
    end.
Proof.
  revert q. induction filters as [| [k v] filters IH]; intros q; [reflexivity |].
  cbn [fold_left rev fst snd]. rewrite IH, paramsGet_snoc, paramsGet_paramsSet.
  destruct (paramsGet name (rev filters)); [reflexivity |].
  now destruct (jsstring_eqb k name).
Qed.

Lemma In_names_filter (k other : jsstring) (q : list (jsstring * jsstring)) :
  In k (map fst (filter (fun kv => negb (jsstring_eqb (fst kv) other)) q)) ->
  In k (map fst q) /\ k <> other.
Proof.
  induction q as [| [k' u] q IH]; cbn [filter map fst]; [intros [] |].
  destruct (jsstring_eqb k' other) eqn:Hk; cbn [negb map fst In].
  - intros Hin. destruct (IH Hin) as [Hq Hne]. split; [now right | exact Hne].
  - intros [<- | Hin].
    + split; [now left |]. intros ->. now rewrite jsstring_eqb_refl in Hk.
    + destruct (IH Hin) as [Hq Hne]. split; [now right | exact Hne].
Qed.

Lemma NoDup_names_filter (other : jsstring) (q : list (jsstring * jsstring)) :
  NoDup (map fst q) ->
  NoDup (map fst (filter (fun kv => negb (jsstring_eqb (fst kv) other)) q)).
Proof.
  induction q as [| [k u] q IH]; cbn [filter map fst]; [intros _; constructor |].
  intros Hnd. inversion Hnd as [| ? ? Hnin Hrest]; subst.
  destruct (jsstring_eqb k other); cbn [negb map fst]; [now apply IH |].
  constructor; [| now apply IH].
  intros Hin. apply In_names_filter in Hin as [Hin _]. contradiction.
Qed.

Lemma In_names_paramsSet (k n v : jsstring) (q : list (jsstring * jsstring)) :
  In k (map fst (paramsSet n v q)) -> k = n \/ In k (map fst q).
Proof.
  induction q as [| [k' u] q IH]; cbn [paramsSet map fst In].
  - intros [<- | []]. now left.
  - destruct (jsstring_eqb k' n) eqn:Hk; cbn [map fst In].
    + intros [<- | Hin]; [now left |].
      apply In_names_filter in Hin as [Hin _]. right. now right.
    + intros [<- | Hin]; [right; now left |].
      destruct (IH Hin) as [-> | Hq]; [now left | right; now right].
Qed.

Lemma NoDup_paramsSet (n v : jsstring) (q : list (jsstring * jsstring)) :
  NoDup (map fst q) -> NoDup (map fst (paramsSet n v q)).
Proof.
  induction q as [| [k u] q IH]; cbn [paramsSet map fst].
  - intros _. constructor; [intros [] | constructor].
  - intros Hnd. inversion Hnd as [| ? ? Hnin Hrest]; subst.
    destruct (jsstring_eqb k n) eqn:Hk; cbn [map fst].
    + constructor; [| now apply NoDup_names_filter].
      intros Hin. apply In_names_filter in Hin as [_ Hne]. now apply Hne.
    + constructor; [| now apply IH].
      intros Hin. apply In_names_paramsSet in Hin as [-> | Hin].
      * now rewrite jsstring_eqb_refl in Hk.
      * contradiction.
Qed.

Lemma NoDup_patchQuery (filters q : list (jsstring * jsstring)) :
  NoDup (map fst q) ->
  NoDup (map fst
           (fold_left (fun query kv => paramsSet (fst kv) (js "eq." ++ snd kv) query)
                      filters q)).
Proof.
  revert q. induction filters as [| kv filters IH]; intros q Hq; [exact Hq |].
  cbn [fold_left]. apply IH. now apply NoDup_paramsSet.
Qed.

Lemma head_paramsSet (n v k u : jsstring) (q : list (jsstring * jsstring)) :
  exists u' q', paramsSet n v ((k, u) :: q) = (k, u') :: q'.
Proof.
  cbn [paramsSet]. destruct (jsstring_eqb k n) eqn:Hk.
  - apply jsstring_eqb_eq in Hk as <-. eexists. eexists. reflexivity.
  - eexists. eexists. reflexivity.
Qed.

Lemma head_patchQuery (filters : list (jsstring * jsstring)) (k u : jsstring)
  (q : list (jsstring * jsstring)) :
  exists u' q',
    fold_left (fun query kv => paramsSet (fst kv) (js "eq." ++ snd kv) query)
              filters ((k, u) :: q)
    = (k, u') :: q'.
Proof.
  revert u q. induction filters as [| [n v] filters IH]; intros u q.
  - now exists u, q.
  - cbn [fold_left fst snd].
    destruct (head_paramsSet n (js "eq." ++ v) k u q) as [u' [q' Hhead]].
    rewrite Hhead. apply IH.
Qed.

Lemma paramsSet_fresh (n v : jsstring) (q : list (jsstring * jsstring)) :
  ~ In n (map fst q) -> paramsSet n v q = q ++ [(n, v)].
Proof.
  induction q as [| [k u] q IH]; cbn [paramsSet map fst In app]; [reflexivity |].
  intros Hnin. destruct (jsstring_eqb k n) eqn:Hk.
  - apply jsstring_eqb_eq in Hk as ->. exfalso. apply Hnin. now left.
  - rewrite IH; [reflexivity |]. intros Hin. apply Hnin. now right.
Qed.

Lemma patchQuery_distinct (filters q : list (jsstring * jsstring)) :
  NoDup (map fst q ++ map fst filters) ->
  fold_left (fun query kv => paramsSet (fst kv) (js "eq." ++ snd kv) query)
            filters q
  = q ++ map (fun kv => (fst kv, js "eq." ++ snd kv)) filters.
Proof.
  revert q. induction filters as [| [k v] filters IH]; intros q Hnd.
  - cbn [fold_left map]. now rewrite app_nil_r.
  - cbn [fold_left map fst snd] in *.
    rewrite paramsSet_fresh.
    + rewrite IH.
      * rewrite <- app_assoc. reflexivity.
      * rewrite map_app. cbn [map fst]. rewrite <- app_assoc. exact Hnd.
    + apply NoDup_remove_2 in Hnd. intros Hin. apply Hnd.
      apply in_or_app. now left.
Qed.

End QueryFacts.

Section HttpFacts.
Context {W : Type} `{World W}.

(** Data comes back only from a reply whose status is a success; the body
    is then either blank, and the data is the empty object, or JSON text,
    and the data is its value. *)
Lemma supabaseRequest_Ok_inv (supabaseUrl serviceKey : jsstring)
  (method : Method) (table : jsstring) (query : list (jsstring * jsstring))
  (body : option json) (prefer : option jsstring) (w w' : W) (data : json) :
  supabaseRequest supabaseUrl serviceKey method table query body prefer w
  = (Ok data, w') ->
  exists req response,
    fetch req w = (Some response, w')
    /\ req_url req = supabaseUrl ++ js "/rest/v1/" ++ table
    /\ req_method req = method /\ req_query req = query /\ req_body req = body
    /\ resp_ok response = true
    /\ (if truthy (trim (resp_text response))
        then resp_json response else Some (JObj [])) = Some data.
Proof.
  unfold supabaseRequest.
  match goal with |- context [fetch ?r w] => set (req := r) end.
  intros Hrun. exists req.
  destruct (fetch req w) as [[response |] w1]; [| discriminate].
  exists response.
  destruct (if truthy (trim (resp_text response))
            then resp_json response else Some (JObj [])) as [d |];
    [| discriminate].
  destruct (resp_ok response); cbn [negb] in Hrun; [| discriminate].
  injection Hrun as <- <-. now repeat split.
Qed.

(** X17. The body of a reply is parsed before its status is looked at: a
    failure reply whose body is not JSON (an HTML error page, say) throws
    the parser's error, and the message that names the method, the table
    and the status is thrown only when the body is blank or parses. *)
Theorem supabaseRequest_failure_reply (supabaseUrl serviceKey : jsstring)
  (method : Method) (table : jsstring) (query : list (jsstring * jsstring))
  (body : option json) (prefer : option jsstring) (w w' : W)
  (response : Response) :
  (forall req, req_url req = supabaseUrl ++ js "/rest/v1/" ++ table ->
               fetch req w = (Some response, w')) ->
  resp_ok response = false ->
  supabaseRequest supabaseUrl serviceKey method table query body prefer w
  = (Throw
       (if truthy (trim (resp_text response))
           && match resp_json response with None => true | Some _ => false end
        then js "SyntaxError: Unexpected token in JSON"
        else js "Supabase " ++ methodName method ++ js " " ++ table
             ++ js " failed (" ++ zToString (Z.of_N (resp_status response))
             ++ js "): " ++ resp_text response),
     w').
Proof.
  intros Hfetch Hok. unfold supabaseRequest. rewrite Hfetch by reflexivity.
  rewrite Hok. cbn [negb].
  destruct (truthy (trim (resp_text response))); cbn [andb]; [| reflexivity].
  now destruct (resp_json response).
Qed.

(** X18. When [supabaseUpsertRow] returns, one POST went out with the row
    as its body and the conflict column in its query, the reply had a
    success status, and the row returned is the first element of the reply
    if the reply is a non-empty array that starts with an object, and in
    every other case the very row that was sent: a reply without
    representation is not an error. *)
Theorem supabaseUpsertRow_result (supabaseUrl serviceKey table onConflict : jsstring)
  (r r' : row) (w w' : W) :
  supabaseUpsertRow supabaseUrl serviceKey table onConflict r w = (Ok r', w') ->
  exists req response,
    fetch req w = (Some response, w')
    /\ req_url req = supabaseUrl ++ js "/rest/v1/" ++ table
    /\ req_method req = POST
    /\ req_query req = [(js "on_conflict", onConflict)]
    /\ req_body req = Some (JArr [JObj r])
    /\ resp_ok response = true
    /\ r' = match (if truthy (trim (resp_text response))
                   then resp_json response else Some (JObj [])) with
            | Some (JArr (first :: _)) =>
                match getRecord first with Some rec => rec | None => r end
            | _ => r
            end.
Proof.
  unfold supabaseUpsertRow. intros Hrun.
  apply bind_Ok_inv in Hrun as [data [w1 [Hreq Hret]]].
  apply supabaseRequest_Ok_inv in Hreq
    as [req [response [Hf [Hu [Hm [Hq [Hb [Hok Hdata]]]]]]]].
  exists req, response. rewrite Hdata.
  destruct data as [| | | | [| first rest] |]; unfold ret in Hret;
    injection Hret as <- <-; now repeat split.
Qed.

(** X19. When [supabasePatchRows] returns, one PATCH went out with the
    patch as its body, the reply had a success status, and the rows
    returned are the objects of the reply array, in order; a reply that is
    not an array, or an empty one, gives no row and is not an error.  The
    query is written with [URLSearchParams.set]: it names no parameter
    twice, it starts with [select], and a name has the [eq.] value of the
    last filter of that name, [*] for [select] when no filter has that
    name, and no value otherwise.  For filters of distinct names other than
    [select] it is [select=*] followed by one [eq.] pair per filter, in
    order; a filter named [select] takes the place of [select=*]. *)
Theorem supabasePatchRows_result (supabaseUrl serviceKey table : jsstring)
  (filters : list (jsstring * jsstring)) (patch : row) (rows : list row)
  (w w' : W) :
  supabasePatchRows supabaseUrl serviceKey table filters patch w = (Ok rows, w') ->
  exists req response,
    fetch req w = (Some response, w')
    /\ req_url req = supabaseUrl ++ js "/rest/v1/" ++ table
    /\ req_method req = PATCH
    /\ NoDup (map fst (req_query req))
    /\ (exists v rest, req_query req = (js "select", v) :: rest)
    /\ (forall name,
          paramsGet name (req_query req)
          = match paramsGet name (rev filters) with
            | Some v => Some (js "eq." ++ v)
            | None => if jsstring_eqb name (js "select")
                      then Some (js "*") else None
            end)
    /\ (NoDup (map fst filters) -> ~ In (js "select") (map fst filters) ->
        req_query req
        = (js "select", js "*")
          :: map (fun kv => (fst kv, js "eq." ++ snd kv)) filters)
    /\ req_body req = Some (JObj patch)
    /\ resp_ok response = true
    /\ rows = match (if truthy (trim (resp_text response))
                     then resp_json response else Some (JObj [])) with
              | Some (JArr xs) =>
                  flat_map (fun item => match getRecord item with
                                        | Some rec => [rec]
                                        | None => []
                                        end) xs
              | _ => []
              end.
Proof.
  unfold supabasePatchRows. intros Hrun.
  apply bind_Ok_inv in Hrun as [data [w1 [Hreq Hret]]].
  apply supabaseRequest_Ok_inv in Hreq
    as [req [response [Hf [Hu [Hm [Hq [Hb [Hok Hdata]]]]]]]].
  assert (Hrows : w1 = w'
                  /\ rows = match data with
                            | JArr xs =>
                                flat_map (fun item => match getRecord item with
                                                      | Some rec => [rec]
                                                      | None => []
                                                      end) xs
                            | _ => []
                            end).
  { destruct data; unfold ret in Hret; injection Hret as <- <-; now split. }
  destruct Hrows as [<- Hrows].
  exists req, response. rewrite Hdata, Hq.
  split; [exact Hf |]. split; [exact Hu |]. split; [exact Hm |].
  split; [apply NoDup_patchQuery; cbn; repeat constructor; intros [] |].
  split.
  { destruct (head_patchQuery filters (js "select") (js "*") []) as [v [rest Hv]].
    now exists v, rest. }
  split.
  { intros name. rewrite paramsGet_patchQuery. cbn [paramsGet].
    destruct (paramsGet name (rev filters)); [reflexivity |].
    rewrite jsstring_eqb_sym. reflexivity. }
  split.
  { intros Hnd Hsel.
    change (paramsSet (js "select") (js "*") []) with [(js "select", js "*")].
    rewrite patchQuery_distinct; [reflexivity |].
    cbn [map fst app]. constructor; assumption. }
  split; [exact Hb |]. split; [exact Hok |]. exact Hrows.
Qed.

End HttpFacts.

Section NotifierOutcome.
Context {W : Type} `{World W}.

(** X20. A notification attempt that returns is either posted, with no
    error text, or not posted, with one.  It is posted only when a request
    went to the chat endpoint and the reply had a success status and a
    JSON object with [ok] set to [true]: a success status around
    [ok: false] is a failure. *)
Theorem maybePostSlack_outcome (env : Env) (message : SlackMessage)
  (w w' : W) (out : SlackOutcome) :
  maybePostSlack env message w = (Ok out, w') ->
  if posted out
  then error out = None
       /\ exists req response fields,
            fetch req w = (Some response, w')
            /\ req_url req = slackUrl /\ req_method req = POST
            /\ resp_ok response = true
            /\ resp_json response = Some (JObj fields)
            /\ prop (js "ok") fields = Some (JBool true)
  else exists e, error out = Some e.
Proof.
  unfold maybePostSlack.
  destruct (clean (SLACK_BOT_TOKEN env)) as [token |].
  2:{ unfold ret. intros Hrun. injection Hrun as <- _. cbn. eauto. }
  destruct (orElse _ _) as [channel |].
  2:{ unfold ret. intros Hrun. injection Hrun as <- _. cbn. eauto. }
  match goal with |- context [fetch ?r w] => set (req := r) end.
  destruct (fetch req w) as [[response |] w1] eqn:Hfetch; [| discriminate].
  destruct (resp_json response) as [data |] eqn:Hjson; [| discriminate].
  destruct (resp_ok response) eqn:Hok.
  - destruct data as [| b | x | s | xs | fs]; try discriminate;
      cbn [andb];
      try (intros Hrun; injection Hrun as <- _; cbn; eauto; fail).
    destruct (prop (js "ok") fs) as [[| [|] | | | |] |] eqn:Hprop;
      intros Hrun; injection Hrun as <- <-; cbn [posted error]; eauto.
    split; [reflexivity |]. exists req, response, fs. now repeat split.
  - destruct data; try discriminate; cbn [andb];
      intros Hrun; injection Hrun as <- _; cbn; eauto.
Qed.

End NotifierOutcome.

(* ================================================================== *)
(** * What a finished run reports *)

Section TallyFacts.
Context {W : Type} `{World W} `{Host}.

Variable env : Env.
Variable cfg : Config.
Variable snapshot : option SopSnapshot.
Variable cues : list jsstring.

Lemma handleSales_result (m : PollMessage)
  (activityId : jsstring) (ts : option jsstring)
  (res res' : ProcessResult) (w w' : W) :
  handleSales env cfg snapshot cues m (extractEmailAddress (from m))
    (extractDisplayName (from m)) ts activityId res w = (Ok res', w') ->
  exists d, res' = withTotals bumpDrafts (pushSalesDraft d res) /\ draftOf d m.
Proof.
  unfold handleSales. intros Hrun. open_bind Hrun as stored w1 Hdraft.
  destruct (nonEmpty (stringProp "id" stored)) as [draftId |]; [| discriminate].
  open_bind Hrun as t2 w2 Hnow. open_bind Hrun as patched w3 Hpatch.
  open_bind Hrun as slack w4 Hslack.
  unfold ret in Hrun. injection Hrun as <- _.
  eexists. split; [reflexivity |]. now split.
Qed.

Lemma handleReceipt_result (m : PollMessage) (activityId : jsstring)
  (res res' : ProcessResult) (w w' : W) :
  handleReceipt cfg m activityId res w = (Ok res', w') ->
  exists e, res' = withTotals bumpAccounting (pushAccountingEntry e res)
            /\ entryOf e m.
Proof.
  unfold handleReceipt. intros Hrun. open_bind Hrun as parsed w1 Hparsed.
  open_bind Hrun as stored w2 Hstored.
  unfold ret in Hrun. injection Hrun as <- _.
  unfold ofResult in Hparsed. injection Hparsed as Hinfo _.
  eexists. split; [reflexivity |]. split; [reflexivity |].
  exists parsed. now repeat split.
Qed.

(** The result document after one pass of the loop body. *)
Lemma processMessage_result (m : PollMessage) (st st' : RunState) (w w' : W) :
  processMessage env cfg snapshot cues m st w = (Ok st', w') ->
  exists resS resR,
    (if Classification_eqb (label (classifyInbound m)) sales
     then exists d,
            resS = withTotals bumpDrafts
                     (pushSalesDraft d
                        (withTotals bumpActivities
                           (bumpCount (label (classifyInbound m)) (result_ st))))
            /\ draftOf d m
     else resS = withTotals bumpActivities
                   (bumpCount (label (classifyInbound m)) (result_ st)))
    /\ (if Classification_eqb (label (classifyInbound m)) receipt
        then exists e,
               resR = withTotals bumpAccounting (pushAccountingEntry e resS)
               /\ entryOf e m
        else resR = resS)
    /\ result_ st' = withTotals bumpProcessed resR.
Proof.
  unfold processMessage. intros Hrun.
  open_bind Hrun as ts w1 Hts.
  open_bind Hrun as cid w2 Hcontact. open_bind Hrun as activity w3 Hactivity.
  destruct (nonEmpty (stringProp "id" activity)) as [activityId |]; [| discriminate].
  open_bind Hrun as res1 w4 Hsales. open_bind Hrun as res2 w5 Hreceipt.
  unfold ret in Hrun. injection Hrun as <- _. cbn [result_].
  exists res1, res2. split; [| split; [| reflexivity]].
  - destruct (Classification_eqb (label (classifyInbound m)) sales).
    + now apply handleSales_result in Hsales.
    + unfold ret in Hsales. now injection Hsales as <- _.
  - destruct (Classification_eqb (label (classifyInbound m)) receipt).
    + now apply handleReceipt_result in Hreceipt.
    + unfold ret in Hreceipt. now injection Hreceipt as <- _.
Qed.

Lemma labelled_snoc (l : Classification) (done : list PollMessage)
  (m : PollMessage) :
  labelled l (done ++ [m])
  = labelled l done
    ++ (if Classification_eqb (label (classifyInbound m)) l then [m] else []).
Proof. unfold labelled. now rewrite filter_app. Qed.

Lemma Tallied_step (done : list PollMessage) (m : PollMessage)
  (st st' : RunState) (w w' : W) :
  Tallied done (result_ st) ->
  processMessage env cfg snapshot cues m st w = (Ok st', w') ->
  Tallied (done ++ [m]) (result_ st')
  /\ polled_messages (totals (result_ st'))
     = polled_messages (totals (result_ st)).
Proof.
  intros [Hp Ha Hd Hacc Hc Hs Hr] Hrun.
  destruct (processMessage_result _ _ _ _ _ Hrun) as [resS [resR [HS [HR ->]]]].
  destruct (label (classifyInbound m)) eqn:Hl; cbn [Classification_eqb] in HS, HR.
  - destruct HR as [e [-> He]]. subst resS. split; [| reflexivity].
    constructor; cbn; rewrite ?length_app; cbn [length]; try lia.
    + intros l. rewrite labelled_snoc, Hl, length_app, Hc.
      destruct l; cbn; lia.
    + rewrite labelled_snoc, Hl. cbn. now rewrite app_nil_r.
    + rewrite labelled_snoc, Hl. cbn. apply Forall2_app; [exact Hr |].
      now constructor.
  - destruct HS as [d [-> Hdm]]. subst resR. split; [| reflexivity].
    constructor; cbn; rewrite ?length_app; cbn [length]; try lia.
    + intros l. rewrite labelled_snoc, Hl, length_app, Hc.
      destruct l; cbn; lia.
    + rewrite labelled_snoc, Hl. cbn. apply Forall2_app; [exact Hs |].
      now constructor.
    + rewrite labelled_snoc, Hl. cbn. now rewrite app_nil_r.
  - subst resS resR. split; [| reflexivity].
    constructor; cbn; rewrite ?length_app; cbn [length]; try lia.
    + intros l. rewrite labelled_snoc, Hl, length_app, Hc.
      destruct l; cbn; lia.
    + rewrite labelled_snoc, Hl. cbn. now rewrite app_nil_r.
    + rewrite labelled_snoc, Hl. cbn. now rewrite app_nil_r.
  - subst resS resR. split; [| reflexivity].
    constructor; cbn; rewrite ?length_app; cbn [length]; try lia.
    + intros l. rewrite labelled_snoc, Hl, length_app, Hc.
      destruct l; cbn; lia.
    + rewrite labelled_snoc, Hl. cbn. now rewrite app_nil_r.
    + rewrite labelled_snoc, Hl. cbn. now rewrite app_nil_r.
Qed.

Lemma loop_Tallied (msgs : list PollMessage) :
  forall (done : list PollMessage) (st st' : RunState) (w w' : W),
    Tallied done (result_ st) ->
    forEach (processMessage env cfg snapshot cues) msgs st w = (Ok st', w') ->
    Tallied (done ++ msgs) (result_ st')
    /\ polled_messages (totals (result_ st'))
       = polled_messages (totals (result_ st)).
Proof.
  induction msgs as [| m msgs IH]; intros done st st' w w' HT Hrun;
    cbn [forEach] in Hrun.
  - unfold ret in Hrun. injection Hrun as <- _. now rewrite app_nil_r.
  - open_bind Hrun as st1 w1 Hm.
    destruct (Tallied_step _ _ _ _ _ _ HT Hm) as [HT1 Hp1].
    destruct (IH _ _ _ _ _ HT1 Hrun) as [HT2 Hp2].
    rewrite <- app_assoc in HT2. cbn [app] in HT2. split; [exact HT2 | congruence].
Qed.

Lemma updatePollState_sameTallies (maxTs : list (jsstring * jsstring))
  (accounts : list jsstring) :
  forall (res res' : ProcessResult) (w w' : W),
    forEach (updatePollState cfg maxTs) accounts res w = (Ok res', w') ->
    sameTallies res res'.
Proof.
  induction accounts as [| a accounts IH]; intros res res' w w' Hrun;
    cbn [forEach] in Hrun.
  - unfold ret in Hrun. injection Hrun as <- _. now repeat split.
  - open_bind Hrun as res1 w1 Hone. unfold updatePollState in Hone.
    open_bind Hone as t1 w2 Hn1. open_bind Hone as t2 w3 Hn2.
    open_bind Hone as stored w4 Hup.
    unfold ret in Hone. injection Hone as <- _.
    apply IH in Hrun. exact Hrun.
Qed.

Lemma sameTallies_Tallied (done : list PollMessage) (r r' : ProcessResult) :
  sameTallies r r' -> Tallied done r -> Tallied done r'.
Proof.
  intros [Ht [Hc [Hs [Ha _]]]] [Hp Hact Hd Hacc Hcnt Hsales Hrec].
  constructor; rewrite ?Ht, ?Hs, ?Ha; auto.
  intros l. now rewrite Hc.
Qed.

End TallyFacts.

Section FinishedRun.
Context {W : Type} `{World W} `{Host}.

Lemma startRun_Tallied (cfg : Config) (poll : PollFile)
  (snapshot : option SopSnapshot) (w w' : W) (st : RunState) :
  startRun cfg poll snapshot w = (Ok st, w') ->
  Tallied [] (result_ st)
  /\ polled_messages (totals (result_ st)) = length (messages poll).
Proof.
  unfold startRun. intros Hrun. open_bind Hrun as t0 w0 Hn0.
  open_bind Hrun as runId w1 Hid. open_bind Hrun as t1 w2 Hn1.
  open_bind Hrun as stored w3 Hup.
  unfold ret in Hrun. injection Hrun as <- _. split; [| reflexivity].
  constructor; cbn; auto.
Qed.

Lemma finalizeRun_sameTallies (cfg : Config) (poll : PollFile) (st : RunState)
  (w w' : W) (res : ProcessResult) :
  finalizeRun cfg poll st w = (Ok res, w') -> sameTallies (result_ st) res.
Proof.
  unfold finalizeRun. intros Hrun. open_bind Hrun as res1 w1 Hstates.
  apply updatePollState_sameTallies in Hstates.
  open_bind Hrun as fin w2 Hfin. open_bind Hrun as t1 w3 Hn1.
  open_bind Hrun as patched w4 Hpatch.
  unfold ret in Hrun. injection Hrun as <- _.
  destruct Hstates as [Ht [Hc [Hs [Ha [Hr [Hst [Hd Hw]]]]]]].
  now repeat split.
Qed.

Lemma main_Tallied (env : Env) (poll : PollFile)
  (snapshot : option SopSnapshot) (w w' : W) (res : ProcessResult) :
  main env poll snapshot w = (Ok res, w') ->
  Tallied (messages poll) res
  /\ polled_messages (totals res) = length (messages poll).
Proof.
  unfold main. intros Hrun. open_bind Hrun as cfg w0 Hcfg.
  open_bind Hrun as st0 w1 Hstart. open_bind Hrun as st1 w2 Hloop.
  destruct (startRun_Tallied _ _ _ _ _ _ Hstart) as [HT0 Hp0].
  unfold processMessages in Hloop.
  destruct (loop_Tallied _ _ _ _ _ _ _ _ _ _ HT0 Hloop) as [HT1 Hp1].
  cbn [app] in HT1.
  pose proof (finalizeRun_sameTallies _ _ _ _ _ _ Hrun) as Hsame.
  split; [now apply (sameTallies_Tallied _ _ _ Hsame) |].
  destruct Hsame as [Ht _]. rewrite Ht. congruence.
Qed.

Lemma labelled_partition (msgs : list PollMessage) :
  (length (labelled receipt msgs) + length (labelled sales msgs)
   + length (labelled support msgs) + length (labelled ignore msgs))%nat
  = length msgs.
Proof.
  unfold labelled. induction msgs as [| m msgs IH]; [reflexivity |].
  cbn [filter]. destruct (label (classifyInbound m)); cbn; lia.
Qed.

(** X21. In a run that finishes, every polled message was processed and
    had its activity written: the three totals are the number of messages
    of the batch.  The count reported for a label is the number of messages
    that [classifyInbound] gives that label, so the four counts add up to
    the number of polled messages. *)
Theorem finished_run_totals (env : Env) (poll : PollFile)
  (snapshot : option SopSnapshot) (w w' : W) (res : ProcessResult) :
  main env poll snapshot w = (Ok res, w') ->
  polled_messages (totals res) = length (messages poll)
  /\ processed_messages (totals res) = length (messages poll)
  /\ activities_upserted (totals res) = length (messages poll)
  /\ (forall l, classification_counts res l = length (labelled l (messages poll)))
  /\ (classification_counts res receipt + classification_counts res sales
      + classification_counts res support + classification_counts res ignore)%nat
     = length (messages poll).
Proof.
  intros Hrun. destruct (main_Tallied _ _ _ _ _ _ Hrun) as [[Hp Ha _ _ Hc _ _] Hn].
  repeat split; auto. rewrite !Hc. apply labelled_partition.
Qed.

(** X22. In a run that finishes, the drafts listed are those of the sales
    messages, one each and in batch order, each for the mailbox of its
    message and addressed to the sender, or to unknown@example.com when
    the From header gives no address; their number is the draft total and
    the sales count. *)
Theorem finished_run_sales_drafts (env : Env) (poll : PollFile)
  (snapshot : option SopSnapshot) (w w' : W) (res : ProcessResult) :
  main env poll snapshot w = (Ok res, w') ->
  Forall2 draftOf (sales_drafts res) (labelled sales (messages poll))
  /\ drafts_upserted (totals res) = length (sales_drafts res)
  /\ drafts_upserted (totals res) = classification_counts res sales.
Proof.
  intros Hrun. destruct (main_Tallied _ _ _ _ _ _ Hrun) as [[_ _ Hd _ Hc Hs _] _].
  split; [exact Hs |]. split; [exact Hd |].
  rewrite Hd, Hc. now apply Forall2_length in Hs.
Qed.

(** X23. In a run that finishes, the accounting entries listed are those of
    the receipt messages, one each and in batch order, each with the source
    key of its message and the vendor, amount and currency that
    [parseReceiptInfo] reads from it; their number is the accounting total
    and the receipt count. *)
Theorem finished_run_accounting (env : Env) (poll : PollFile)
  (snapshot : option SopSnapshot) (w w' : W) (res : ProcessResult) :
  main env poll snapshot w = (Ok res, w') ->
  Forall2 entryOf (accounting_entries res) (labelled receipt (messages poll))
  /\ accounting_entries_upserted (totals res) = length (accounting_entries res)
  /\ accounting_entries_upserted (totals res) = classification_counts res receipt.
Proof.
  intros Hrun. destruct (main_Tallied _ _ _ _ _ _ Hrun) as [[_ _ _ Ha Hc _ Hr] _].
  split; [exact Hr |]. split; [exact Ha |].
  rewrite Ha, Hc. now apply Forall2_length in Hr.
Qed.

End FinishedRun.

Section MailboxFacts.

Lemma setAdd_In (k x : jsstring) (xs : list jsstring) :
  In x (setAdd k xs) <-> x = k \/ In x xs.
Proof.
  unfold setAdd. destruct (arrayIncludes xs k) eqn:Hk.
  - apply arrayIncludes_In in Hk. split; [now right |].
    intros [-> | Hx]; assumption.
  - rewrite in_app_iff. cbn [In]. intuition congruence.
Qed.

Lemma setAdd_NoDup (k : jsstring) (xs : list jsstring) :
  NoDup xs -> NoDup (setAdd k xs).
Proof.
  intros Hnd. unfold setAdd. destruct (arrayIncludes xs k) eqn:Hk; [exact Hnd |].
  apply NoDup_app; [exact Hnd | repeat constructor; intros [] |].
  intros a Ha [<- | []]. apply arrayIncludes_In in Ha. congruence.
Qed.

Lemma accountSetOf_NoDup (poll : PollFile) : NoDup (accountSetOf poll).
Proof.
  unfold accountSetOf.
  assert (Hmsgs : forall ms acc, NoDup acc ->
            NoDup (fold_left (fun acc message => setAdd (account_email message) acc)
                             ms acc)).
  { induction ms as [| m ms IH]; intros acc Hacc; cbn [fold_left]; [exact Hacc |].
    apply IH. now apply setAdd_NoDup. }
  generalize (Hmsgs (messages poll) [] (NoDup_nil _)).
  generalize (fold_left (fun acc message => setAdd (account_email message) acc)
                        (messages poll) []).
  induction (match per_account poll with Some es => es | None => [] end)
    as [| e es IH]; intros acc Hacc; cbn [fold_left]; [exact Hacc |].
  apply IH. destruct (nonEmpty (pa_account_email e)); [| exact Hacc].
  now apply setAdd_NoDup.
Qed.

Lemma accountSetOf_In (poll : PollFile) (a : jsstring) :
  In a (accountSetOf poll)
  <-> (exists m, In m (messages poll) /\ account_email m = a)
      \/ (exists es e, per_account poll = Some es /\ In e es
                       /\ nonEmpty (pa_account_email e) = Some a).
Proof.
  unfold accountSetOf.
  assert (Hmsgs : forall ms acc,
            In a (fold_left (fun acc message => setAdd (account_email message) acc)
                            ms acc)
            <-> In a acc \/ exists m, In m ms /\ account_email m = a).
  { induction ms as [| m ms IH]; intros acc; cbn [fold_left].
    - split; [now left | intros [Hin | [m [[] _]]]; exact Hin].
    - rewrite IH, setAdd_In. split.
      + intros [[-> | Hin] | [m' [Hm' Heq]]].
        * right. exists m. split; [now left | reflexivity].
        * now left.
        * right. exists m'. split; [now right | exact Heq].
      + intros [Hin | [m' [[<- | Hm'] Heq]]].
        * left. now right.
        * left. left. now symmetry.
        * right. now exists m'. }
  assert (Hes : forall es acc,
            In a (fold_left
                    (fun acc entry =>
                       match nonEmpty (pa_account_email entry) with
                       | Some a0 => setAdd a0 acc
                       | None => acc
                       end) es acc)
            <-> In a acc
                \/ exists e, In e es /\ nonEmpty (pa_account_email e) = Some a).
  { induction es as [| e es IH]; intros acc; cbn [fold_left].
    - split; [now left | intros [Hin | [e [[] _]]]; exact Hin].
    - rewrite IH. destruct (nonEmpty (pa_account_email e)) as [a0 |] eqn:He.
      + rewrite setAdd_In. split.
        * intros [[-> | Hin] | [e' [He' Heq]]].
          -- right. exists e. split; [now left | exact He].
          -- now left.
          -- right. exists e'. split; [now right | exact Heq].
        * intros [Hin | [e' [[<- | He'] Heq]]].
          -- left. now right.
          -- left. left. congruence.
          -- right. now exists e'.
      + split.
        * intros [Hin | [e' [He' Heq]]]; [now left |].
          right. exists e'. split; [now right | exact Heq].
        * intros [Hin | [e' [[<- | He'] Heq]]]; [now left | congruence |].
          right. now exists e'. }
  rewrite Hes, Hmsgs. cbn [In]. split.
  - intros [[[] | Hm] | [e [He Heq]]]; [now left |].
    right. destruct (per_account poll) as [es |]; [| destruct He].
    now exists es, e.
  - intros [Hm | [es [e [Hp [He Heq]]]]]; [left; now right |].
    right. rewrite Hp. now exists e.
Qed.

End MailboxFacts.

Section PollStateFacts.
Context {W : Type} `{World W} `{Host}.

(** X24. A run that finishes reports one watermark update per mailbox and
    no mailbox twice; the mailboxes are those of the messages of the batch
    and those named, with a non-empty address, in its per-mailbox
    summaries, so a mailbox that fetched nothing is updated too. *)
Theorem poll_state_per_mailbox (env : Env) (poll : PollFile)
  (snapshot : option SopSnapshot) (w w' : W) (res : ProcessResult) :
  main env poll snapshot w = (Ok res, w') ->
  NoDup (map ps_account_email (poll_state_updates res))
  /\ forall a,
       In a (map ps_account_email (poll_state_updates res))
       <-> (exists m, In m (messages poll) /\ account_email m = a)
           \/ (exists es e, per_account poll = Some es /\ In e es
                            /\ nonEmpty (pa_account_email e) = Some a).
Proof.
  intros Hrun. destruct (reported_watermarks _ _ _ _ _ _ Hrun) as [-> _].
  split; [apply accountSetOf_NoDup | apply accountSetOf_In].
Qed.

(** X25. [main] asks for the two credentials of the store before anything
    else: when either is undefined or blank it throws, and nothing has been
    requested, no clock read, no identifier drawn. *)
Theorem main_needs_credentials (env : Env) (poll : PollFile)
  (snapshot : option SopSnapshot) (w : W) :
  clean (SUPABASE_URL env) = None \/ clean (SUPABASE_SECRET_KEY env) = None ->
  main env poll snapshot w
  = (Throw (js "SUPABASE_URL and SUPABASE_SECRET_KEY are required"), w).
Proof.
  intros Hmissing. unfold main, bind, ofResult, configOf.
  destruct Hmissing as [-> | ->]; [reflexivity |].
  now destruct (clean (SUPABASE_URL env)).
Qed.

End PollStateFacts.

Section MailboxWatermark.
Context `{Host}.

Lemma trackMessage_same (a : jsstring) (m : PollMessage)
  (M1 M2 : list (jsstring * jsstring)) :
  jsstring_eqb (account_email m) a = true ->
  mapGet a M1 = mapGet a M2 ->
  mapGet a (trackMessage M1 m) = mapGet a (trackMessage M2 m).
Proof.
  intros Ha Heq. apply jsstring_eqb_eq in Ha. subst a.
  unfold trackMessage, trackMaxTs.
  destruct (messageTs m) as [ts | e]; [| exact Heq].
  destruct (nonEmpty ts) as [t |]; [| exact Heq].
  rewrite Heq.
  destruct (nonEmpty (mapGet (account_email m) M2)) as [prior |].
  - destruct (timeGt _ _); [| exact Heq]. now rewrite !mapGet_mapSet_same.
  - now rewrite !mapGet_mapSet_same.
Qed.

Lemma watermarks_filter (a : jsstring) (msgs : list PollMessage) :
  forall M1 M2,
    mapGet a M1 = mapGet a M2 ->
    mapGet a (watermarks msgs M1)
    = mapGet a (watermarks
                  (filter (fun m => jsstring_eqb (account_email m) a) msgs) M2).
Proof.
  unfold watermarks.
  induction msgs as [| m msgs IH]; intros M1 M2 Heq; cbn [filter fold_left];
    [exact Heq |].
  destruct (jsstring_eqb (account_email m) a) eqn:Ha; cbn [fold_left].
  - apply IH. now apply trackMessage_same.
  - apply IH. now rewrite trackMessage_other.
Qed.

End MailboxWatermark.

Section ReportedPerMailbox.
Context {W : Type} `{World W} `{Host}.

(** X26. The watermark a finished run reports for a mailbox is what the
    loop would have kept had the batch held the messages of that mailbox
    only: the messages of the other mailboxes, wherever they stand in the
    batch, never change it. *)
Theorem watermark_per_mailbox (env : Env) (poll : PollFile)
  (snapshot : option SopSnapshot) (w w' : W) (res : ProcessResult) :
  main env poll snapshot w = (Ok res, w') ->
  Forall
    (fun u =>
       last_message_ts u
       = mapGet (ps_account_email u)
           (watermarks
              (filter (fun m => jsstring_eqb (account_email m) (ps_account_email u))
                      (messages poll))
              []))
    (poll_state_updates res).
Proof.
  intros Hrun. destruct (reported_watermarks _ _ _ _ _ _ Hrun) as [_ Hall].
  apply Forall_forall. intros u Hu. rewrite Forall_forall in Hall.
  rewrite (Hall u Hu). now apply watermarks_filter.
Qed.

End ReportedPerMailbox.

Section WhenFacts.
Context `{Host}.

Lemma startsWith_refl (s : jsstring) : startsWith s s = true.
Proof. induction s as [| c s IH]; cbn; [easy |]. now rewrite N.eqb_refl. Qed.

Lemma startsWith_app (s t b : jsstring) :
  startsWith t s = true -> startsWith (t ++ b) s = true.
Proof.
  revert t. induction s as [| c s IH]; intros t; cbn [startsWith]; [easy |].
  destruct t as [| d t]; cbn [app]; [discriminate |].
  intros Hs. apply andb_true_iff in Hs as [Hc Hs]. rewrite Hc. cbn [andb]. auto.
Qed.

Lemma includes_prefix (t s : jsstring) :
  startsWith t s = true -> includes t s = true.
Proof. destruct t; cbn [includes]; now intros ->. Qed.

Lemma includes_skip (a t s : jsstring) :
  includes t s = true -> includes (a ++ t) s = true.
Proof.
  intros Ht. induction a as [| c a IH]; cbn [app includes]; [exact Ht |].
  rewrite IH. apply orb_true_r.
Qed.

Lemma includes_middle (a s b : jsstring) : includes (a ++ s ++ b) s = true.
Proof.
  apply includes_skip, includes_prefix, startsWith_app, startsWith_refl.
Qed.

(** X27. The time shown in a notification is never the empty text.  It is
    "n/a" when the message has no timestamp or an empty one.  Otherwise it
    holds the timestamp text: it is that text alone when [Date.parse] gives
    no finite number, and when it gives [ms] it is the date token
    [<!date^secs^{date_short_pretty} {time}|timestamp>], in which [secs] is
    the whole number of seconds of [ms], rounded down, and the timestamp
    text is the fallback. *)
Theorem formatSlackWhen_shows_text (isoDate : option jsstring) :
  formatSlackWhen isoDate <> []
  /\ match nonEmpty isoDate with
     | Some iso =>
         includes (formatSlackWhen isoDate) iso = true
         /\ match Date_parse iso with
            | None => formatSlackWhen isoDate = iso
            | Some ms =>
                exists secs : Z,
                  (1000 * secs <= ms < 1000 * secs + 1000)%Z
                  /\ formatSlackWhen isoDate
                     = js "<!date^" ++ zToString secs
                       ++ js "^{date_short_pretty} {time}|" ++ iso ++ js ">"
            end
     | None => formatSlackWhen isoDate = js "n/a"
     end.
Proof.
  unfold formatSlackWhen. destruct (nonEmpty isoDate) as [iso |] eqn:Hiso.
  - assert (Hne : iso <> []).
    { destruct isoDate as [s |]; [| discriminate]. cbn [nonEmpty] in Hiso.
      destruct (truthy s) eqn:Hs; [| discriminate]. injection Hiso as <-.
      now apply truthy_true_iff. }
    destruct (Date_parse iso) as [ms |].
    + split; [discriminate |]. split.
      * rewrite (app_assoc (js "<!date^")),
          (app_assoc _ (js "^{date_short_pretty} {time}|")).
        apply includes_middle.
      * exists (ms / 1000)%Z. split; [| reflexivity].
        pose proof (Z.div_mod ms 1000 ltac:(discriminate)) as Hdm.
        pose proof (Z.mod_pos_bound ms 1000 ltac:(reflexivity)) as Hmod.
        lia.
    + split; [exact Hne |]. split; [| reflexivity].
      apply includes_prefix, startsWith_refl.
  - split; [discriminate | reflexivity].
Qed.

(** X28. The text of a notification names the draft, the sender (the
    address, else the display name, else "unknown"), the recipient, the
    subject and the time, and ends with the three approval commands in
    which the identifier of the draft stands where the template has its
    placeholder.  (For an identifier without a dollar sign, which
    [replace] would read as a pattern, and a display name that is not the
    empty text, which [extractDisplayName] never returns.) *)
Theorem notification_text (draftId toEmail : jsstring)
  (fromName fromEmail : option jsstring) (accountEmail subj : jsstring)
  (receivedAt : option jsstring) :
  ~ In 36 draftId ->
  fromName <> Some [] ->
  slack_text (buildDraftSlackMessage draftId toEmail fromName fromEmail
                accountEmail subj receivedAt)
  = joinLines
      [js "CRM lead draft ready";
       js "Draft ID: " ++ draftId;
       js "From: " ++ match nonEmpty fromEmail, nonEmpty fromName with
                      | Some e, _ => e
                      | None, Some n => n
                      | None, None => js "unknown"
                      end;
       js "To: " ++ toEmail;
       js "Subject: " ++ subj;
       js "Received: " ++ formatSlackWhen receivedAt;
       [];
       approvalCommandsFor draftId].
Proof.
  intros _ Hname. unfold buildDraftSlackMessage. cbn [slack_text].
  rewrite approvalCommands_spliced. unfold orElse.
  destruct (nonEmpty fromEmail); [reflexivity |].
  destruct fromName as [[| c n] |]; [contradiction | reflexivity | reflexivity].
Qed.

End WhenFacts.

Section RunTimes.
Context {W : Type} `{World W} `{Host}.

Lemma processMessage_time (env : Env) (cfg : Config)
  (snapshot : option SopSnapshot) (cues : list jsstring) (m : PollMessage)
  (st st' : RunState) (w w' : W) :
  processMessage env cfg snapshot cues m st w = (Ok st', w') ->
  exists ts, messageTs m = Ok ts.
Proof.
  unfold processMessage. intros Hrun. open_bind Hrun as ts w1 Hts.
  unfold ofResult in Hts. injection Hts as Hts _. eauto.
Qed.

Lemma loop_times (env : Env) (cfg : Config) (snapshot : option SopSnapshot)
  (cues : list jsstring) (msgs : list PollMessage) :
  forall (st st' : RunState) (w w' : W),
    forEach (processMessage env cfg snapshot cues) msgs st w = (Ok st', w') ->
    forall m, In m msgs -> exists ts, messageTs m = Ok ts.
Proof.
  induction msgs as [| m0 msgs IH]; intros st st' w w' Hrun m Hin;
    [destruct Hin |]. cbn [forEach] in Hrun.
  open_bind Hrun as st1 w1 Hm. destruct Hin as [<- | Hin].
  - exact (processMessage_time _ _ _ _ _ _ _ _ _ Hm).
  - exact (IH _ _ _ _ Hrun m Hin).
Qed.

(** X29. One message that has no [received_at] and whose [internal_ts] is a
    number [Date] cannot hold is enough to keep a run from finishing:
    [toISOString] throws on it and nothing catches the RangeError. *)
Theorem finished_run_times (env : Env) (poll : PollFile)
  (snapshot : option SopSnapshot) (w w' : W) (res : ProcessResult)
  (m : PollMessage) (n : float) :
  main env poll snapshot w = (Ok res, w') ->
  In m (messages poll) ->
  nonEmpty (received_at m) = None ->
  truthyNum (internal_ts m) = Some n ->
  exists iso, Date_toISOString n = Some iso.
Proof.
  unfold main. intros Hrun Hin Hrec Hts. open_bind Hrun as cfg w0 Hcfg.
  open_bind Hrun as st0 w1 Hstart. open_bind Hrun as st1 w2 Hloop.
  unfold processMessages in Hloop.
  destruct (loop_times _ _ _ _ _ _ _ _ _ Hloop m Hin) as [ts Hok].
  unfold messageTs in Hok. rewrite Hrec, Hts in Hok.
  destruct (Date_toISOString n) as [iso |]; [eauto | discriminate].
Qed.

End RunTimes.

(* ================================================================== *)
(** * The terminal status and the notifications *)

Section SendFacts.
Context {W : Type} `{World W} `{Host}.

Variable env : Env.
Variable cfg : Config.
Variable snapshot : option SopSnapshot.
Variable cues : list jsstring.

(** The calls of the sales branch, and the draft it lists. *)
Lemma handleSales_send (m : PollMessage) (ts : option jsstring)
  (activityId : jsstring) (res res' : ProcessResult) (w w' : W) :
  handleSales env cfg snapshot cues m (extractEmailAddress (from m))
    (extractDisplayName (from m)) ts activityId res w = (Ok res', w') ->
  exists d out stored w3 t2 w4 rows w5,
    res' = withTotals bumpDrafts (pushSalesDraft d res)
    /\ sd_activity_id d = activityId
    /\ to_email d = match nonEmpty (extractEmailAddress (from m)) with
                    | Some e => e
                    | None => js "unknown@example.com"
                    end
    /\ sd_account_email d = account_email m
    /\ upsertDraft cfg snapshot m activityId (to_email d)
         (buildSalesDraft (extractDisplayName (from m))
            (extractEmailAddress (from m)) (subject m) (snippet m) cues) w
       = (Ok stored, w3)
    /\ nonEmpty (stringProp "id" stored) = Some (draft_id d)
    /\ lift now w3 = (Ok t2, w4)
    /\ supabasePatchRows (supabaseUrl cfg) (supabaseKey cfg) (draftsTable cfg)
         [(js "id", draft_id d)]
         (draftPatch (slack_text (noticeOf cues m ts d)) t2) w4
       = (Ok rows, w5)
    /\ maybePostSlack env (noticeOf cues m ts d) w5 = (Ok out, w')
    /\ slack_posted d = posted out
    /\ slack_error d = error out.
Proof.
  unfold handleSales. intros Hrun. open_bind Hrun as stored w1 Hdraft.
  destruct (nonEmpty (stringProp "id" stored)) as [draftId |] eqn:Hid;
    [| discriminate].
  open_bind Hrun as t2 w2 Hnow. open_bind Hrun as patched w3 Hpatch.
  open_bind Hrun as slack w4 Hslack.
  unfold ret in Hrun. injection Hrun as <- <-.
  eexists {| draft_id := draftId |}, slack, stored, w1, t2, w2, patched, w3.
  split; [reflexivity |]. split; [reflexivity |]. split; [reflexivity |].
  split; [reflexivity |]. split; [exact Hdraft |]. split; [exact Hid |].
  split; [exact Hnow |]. split; [exact Hpatch |]. split; [exact Hslack |].
  split; reflexivity.
Qed.

(** What one pass of the loop body adds to the listed drafts. *)
Lemma processMessage_sends (m : PollMessage) (st st' : RunState) (w w' : W) :
  processMessage env cfg snapshot cues m st w = (Ok st', w') ->
  if Classification_eqb (label (classifyInbound m)) sales
  then exists d out,
         sales_drafts (result_ st') = sales_drafts (result_ st) ++ [d]
         /\ salesSend env cfg snapshot cues m w d out w'
         /\ slack_posted d = posted out
         /\ slack_error d = error out
  else sales_drafts (result_ st') = sales_drafts (result_ st).
Proof.
  intros Hrun.
  destruct (Classification_eqb (label (classifyInbound m)) sales) eqn:Hsales.
  - assert (Hl : label (classifyInbound m) = sales)
      by (destruct (label (classifyInbound m)); try discriminate; reflexivity).
    unfold processMessage in Hrun. rewrite Hl in Hrun.
    cbn [Classification_eqb] in Hrun.
    open_bind Hrun as ts w1 Hts. unfold ofResult in Hts.
    injection Hts as Hts Hw. subst w1.
    open_bind Hrun as cid w2 Hcontact. open_bind Hrun as activity w3 Hactivity.
    destruct (nonEmpty (stringProp "id" activity)) as [activityId |] eqn:Hact;
      [| discriminate].
    open_bind Hrun as res1 w4 Hdraft. open_bind Hrun as res2 w5 Hnone.
    unfold ret in Hnone. injection Hnone as <- <-.
    unfold ret in Hrun. injection Hrun as <- <-.
    apply handleSales_send in Hdraft
      as [d [out [stored [w5 [t2 [w6 [rows [w7 Hd]]]]]]]].
    destruct Hd as [-> [Hida [Hto [Hacc [Hup [Hidd [Hnow [Hpatch [Hsend [Hp He]]]]]]]]]].
    exists d, out. split; [reflexivity |]. split; [| now split].
    subst activityId.
    exists ts, cid, w2, activity, w3, stored, w5, t2, w6, rows, w7.
    repeat split; assumption.
  - destruct (processMessage_result _ _ _ _ _ _ _ _ _ Hrun)
      as [resS [resR [HS [HR ->]]]].
    rewrite Hsales in HS. subst resS.
    destruct (Classification_eqb (label (classifyInbound m)) receipt).
    + destruct HR as [e [-> _]]. reflexivity.
    + subst resR. reflexivity.
Qed.

(** The loop lists the drafts of its sales messages after those it found,
    each with what its send answered. *)
Lemma loop_sends (msgs : list PollMessage) :
  forall (st st' : RunState) (w w' : W),
    forEach (processMessage env cfg snapshot cues) msgs st w = (Ok st', w') ->
    exists ds,
      sales_drafts (result_ st') = sales_drafts (result_ st) ++ ds
      /\ sendsRecorded env cfg snapshot cues msgs st w ds.
Proof.
  induction msgs as [| m msgs IH]; intros st st' w w' Hrun;
    cbn [forEach] in Hrun.
  - unfold ret in Hrun. injection Hrun as <- _. exists [].
    split; [now rewrite app_nil_r | reflexivity].
  - open_bind Hrun as st1 w1 Hm.
    destruct (IH _ _ _ _ Hrun) as [ds [Hds Hrec]].
    pose proof (processMessage_sends _ _ _ _ _ Hm) as Hone.
    cbn [sendsRecorded].
    destruct (Classification_eqb (label (classifyInbound m)) sales).
    + destruct Hone as [d [out [Hd [Hsend [Hp He]]]]].
      exists (d :: ds). split.
      * rewrite Hds, Hd, <- app_assoc. reflexivity.
      * exists st1, w1. split; [exact Hm |].
        exists d, ds, out. now repeat split.
    + exists ds. split; [now rewrite Hds, Hone |].
      exists st1, w1. now split.
Qed.

(** The last call of a run that finishes is the patch of its record, and
    the status written there is that of the result document. *)
Lemma finalizeRun_patch (poll : PollFile) (st : RunState) (w w' : W)
  (res : ProcessResult) :
  finalizeRun cfg poll st w = (Ok res, w') ->
  exists req wp response patch,
    fetch req wp = (Some response, w')
    /\ req_method req = PATCH
    /\ req_url req = supabaseUrl cfg ++ js "/rest/v1/" ++ jobRunsTable cfg
    /\ req_query req = [(js "select", js "*"); (js "id", js "eq." ++ run_id res)]
    /\ req_body req = Some (JObj patch)
    /\ stringProp "status" patch
       = Some (match status res with
               | status_ok => js "ok"
               | status_partial_failure => js "partial_failure"
               end)
    /\ stringProp "finished_at" patch = Some (finished_at res).
Proof.
  unfold finalizeRun. intros Hrun. open_bind Hrun as res1 w1 Hstates.
  open_bind Hrun as fin w2 Hfin. open_bind Hrun as t1 w3 Hn1.
  open_bind Hrun as patched w4 Hpatch.
  unfold ret in Hrun. injection Hrun as <- <-.
  unfold supabasePatchRows in Hpatch. open_bind Hpatch as data w5 Hreq.
  apply supabaseRequest_Ok_inv in Hreq
    as [req [response [Hf [Hu [Hm [Hq [Hb _]]]]]]].
  assert (Hw : w5 = w4).
  { destruct data; unfold ret in Hpatch; now injection Hpatch as _ ->. }
  subst w5. eexists req, w3, response, _.
  split; [exact Hf |]. split; [exact Hm |]. split; [exact Hu |].
  split; [exact Hq |]. split; [exact Hb |].
  split; [| reflexivity].
  cbn [status finish]. now destruct (finalStatus poll res1).
Qed.

End SendFacts.

Section TerminalStatus.
Context {W : Type} `{World W} `{Host}.

(** C7. When a run reaches its end, the terminal status is [partial_failure]
    exactly when the batch carried the upstream partial-failure flag or some
    sales draft of the result was not posted, and [ok] otherwise.  The
    drafts of the result are those of the sales messages of the batch, in
    order, and each is marked posted, and carries the error, as the send of
    its notification answered when the loop made it.  The status is also
    what the last call of the run writes on the run record. *)
Theorem terminal_status (env : Env) (poll : PollFile)
  (snapshot : option SopSnapshot) (w w' : W) (res : ProcessResult) :
  main env poll snapshot w = (Ok res, w') ->
  (status res = status_partial_failure <->
   partial_failure poll = Some true
   \/ exists d, In d (sales_drafts res) /\ slack_posted d = false)
  /\ (status res = status_ok <->
      ~ (partial_failure poll = Some true
         \/ exists d, In d (sales_drafts res) /\ slack_posted d = false))
  /\ exists cfg st0 w1,
       configOf env = Ok cfg
       /\ startRun cfg poll snapshot w = (Ok st0, w1)
       /\ sendsRecorded env cfg snapshot (pickSopCues snapshot) (messages poll)
            st0 w1 (sales_drafts res)
       /\ exists req wp response patch,
            fetch req wp = (Some response, w')
            /\ req_method req = PATCH
            /\ req_url req
               = supabaseUrl cfg ++ js "/rest/v1/" ++ jobRunsTable cfg
            /\ req_query req
               = [(js "select", js "*"); (js "id", js "eq." ++ run_id res)]
            /\ req_body req = Some (JObj patch)
            /\ stringProp "status" patch
               = Some (match status res with
                       | status_ok => js "ok"
                       | status_partial_failure => js "partial_failure"
                       end).
Proof.
  intros Hrun.
  assert (Hstatus : status res = finalStatus poll res).
  { destruct (main_finalizes _ _ _ _ _ _ Hrun) as [cfg [st [w1 Hfin]]].
    exact (finalizeRun_status _ _ _ _ _ _ Hfin). }
  destruct (finalStatus_cases poll res) as [Hpartial Hok].
  rewrite <- Hstatus in Hpartial, Hok.
  split; [exact Hpartial |]. split; [exact Hok |].
  unfold main in Hrun. open_bind Hrun as cfg w0 Hcfg.
  unfold ofResult in Hcfg. injection Hcfg as Hcfg Hw. subst w0.
  open_bind Hrun as st0 w1 Hstart. open_bind Hrun as st1 w2 Hloop.
  exists cfg, st0, w1. split; [exact Hcfg |]. split; [exact Hstart |].
  unfold processMessages in Hloop.
  destruct (loop_sends _ _ _ _ _ _ _ _ _ Hloop) as [ds [Hds Hrec]].
  assert (Hnone : sales_drafts (result_ st0) = []).
  { unfold startRun in Hstart. open_bind Hstart as t0 wa Hn0.
    open_bind Hstart as runId wb Hid. open_bind Hstart as t1 wc Hn1.
    open_bind Hstart as stored wd Hup.
    unfold ret in Hstart. now injection Hstart as <- _. }
  rewrite Hnone in Hds. cbn [app] in Hds.
  destruct (finalizeRun_sameTallies _ _ _ _ _ _ Hrun) as [_ [_ [Hsame _]]].
  rewrite Hsame, Hds. split; [exact Hrec |].
  destruct (finalizeRun_patch _ _ _ _ _ _ Hrun)
    as [req [wp [response [patch [Hf [Hm [Hu [Hq [Hb [Hs _]]]]]]]]]].
  exists req, wp, response, patch. now repeat split.
Qed.

End TerminalStatus.

(** A batch flagged upstream, every step of which succeeds, ends in
    [partial_failure].  So does a batch that is not flagged and whose one
    notification the chat endpoint refuses; the same batch ends in [ok]
    when the notification is posted.  The run record holds the status of
    each. *)
Lemma terminal_status_witness :
  (exists res w',
     main (H := StoreWorld) (H0 := AsciiHost) Samples.env
       (Samples.batch (Some true)
          [Samples.consultingInquiry "2024-01-04T10:00:00Z"; Samples.vendorInvoice])
       None (Samples.freshWorld []) = (Ok res, w')
     /\ (forall d, In d (sales_drafts res) -> slack_posted d = true)
     /\ processed_messages (totals res) = 2%nat
     /\ status res = status_partial_failure
     /\ Samples.storedRunStatus (run_id res) w' = Some (js "partial_failure"))
  /\ (exists res w',
        main (H := StoreWorld) (H0 := AsciiHost) Samples.env
          (Samples.batch None
             [Samples.consultingInquiry "2024-01-04T10:00:00Z";
              Samples.vendorInvoice])
          None (Samples.freshWorld [Some Samples.channelNotFound]) = (Ok res, w')
        /\ map slack_posted (sales_drafts res) = [false]
        /\ map slack_error (sales_drafts res) = [Some (js "channel_not_found")]
        /\ status res = status_partial_failure
        /\ Samples.storedRunStatus (run_id res) w' = Some (js "partial_failure"))
  /\ (exists res w',
        main (H := StoreWorld) (H0 := AsciiHost) Samples.env
          (Samples.batch None
             [Samples.consultingInquiry "2024-01-04T10:00:00Z";
              Samples.vendorInvoice])
          None (Samples.freshWorld []) = (Ok res, w')
        /\ map slack_posted (sales_drafts res) = [true]
        /\ status res = status_ok
        /\ Samples.storedRunStatus (run_id res) w' = Some (js "ok")).
Proof.
  split; [| split].
  - destruct (main (H := StoreWorld) (H0 := AsciiHost) Samples.env
                (Samples.batch (Some true)
                   [Samples.consultingInquiry "2024-01-04T10:00:00Z";
                    Samples.vendorInvoice])
                None (Samples.freshWorld [])) as [[res | e] w'] eqn:Hrun.
    + exists res, w'. split; [reflexivity |].
      pose proof (terminal_status _ _ _ _ _ _ Hrun) as [Hpf _].
      assert (Hres : processed_messages (totals res) = 2%nat
                     /\ forallb slack_posted (sales_drafts res) = true
                     /\ Samples.storedRunStatus (run_id res) w'
                        = Some (js "partial_failure")).
      { vm_compute in Hrun. injection Hrun as <- <-. vm_compute.
        repeat split. }
      destruct Hres as [Hn [Hall Hstored]].
      split; [| split; [exact Hn | split; [| exact Hstored]]].
      * intros d Hd. rewrite forallb_forall in Hall. now apply Hall.
      * apply Hpf. left. reflexivity.
    + vm_compute in Hrun. discriminate Hrun.
  - destruct (main (H := StoreWorld) (H0 := AsciiHost) Samples.env
                (Samples.batch None
                   [Samples.consultingInquiry "2024-01-04T10:00:00Z";
                    Samples.vendorInvoice])
                None (Samples.freshWorld [Some Samples.channelNotFound]))
      as [[res | e] w'] eqn:Hrun.
    + exists res, w'. split; [reflexivity |].
      pose proof (terminal_status _ _ _ _ _ _ Hrun) as [Hpf _].
      assert (Hres : map slack_posted (sales_drafts res) = [false]
                     /\ map slack_error (sales_drafts res)
                        = [Some (js "channel_not_found")]
                     /\ Samples.storedRunStatus (run_id res) w'
                        = Some (js "partial_failure")).
      { vm_compute in Hrun. injection Hrun as <- <-. vm_compute.
        repeat split. }
      destruct Hres as [Hposted [Herr Hstored]].
      split; [exact Hposted |]. split; [exact Herr |].
      split; [| exact Hstored].
      apply Hpf. right.
      destruct (sales_drafts res) as [| d ds]; [discriminate Hposted |].
      exists d. split; [now left |]. now injection Hposted.
    + vm_compute in Hrun. discriminate Hrun.
  - destruct (main (H := StoreWorld) (H0 := AsciiHost) Samples.env
                (Samples.batch None
                   [Samples.consultingInquiry "2024-01-04T10:00:00Z";
                    Samples.vendorInvoice])
                None (Samples.freshWorld [])) as [[res | e] w'] eqn:Hrun.
    + exists res, w'. split; [reflexivity |].
      pose proof (terminal_status _ _ _ _ _ _ Hrun) as [_ [Hok _]].
      assert (Hres : map slack_posted (sales_drafts res) = [true]
                     /\ Samples.storedRunStatus (run_id res) w'
                        = Some (js "ok")).
      { vm_compute in Hrun. injection Hrun as <- <-. vm_compute.
        repeat split. }
      destruct Hres as [Hposted Hstored].
      split; [exact Hposted |]. split; [| exact Hstored].
      apply Hok. intros [Hflag | [d [Hin Hd]]]; [discriminate Hflag |].
      apply (in_map slack_posted) in Hin. rewrite Hposted, Hd in Hin.
      destruct Hin as [Hin | []]. discriminate Hin.
    + vm_compute in Hrun. discriminate Hrun.
Defined.

(* ================================================================== *)
(** * The further properties on sample inputs *)

Lemma not_In_unit (c : N) (s : jsstring) :
  existsb (N.eqb c) s = false -> ~ In c s.
Proof.
  intros Hex Hin. assert (Ht : existsb (N.eqb c) s = true).
  { apply existsb_exists. exists c. split; [exact Hin | apply N.eqb_refl]. }
  congruence.
Qed.

(** The last of two [--poll-file] pairs is the one that counts. *)
Lemma parseArgs_pairs_witness :
  command (parseArgs Samples.argv) = Some (js "process_inbound")
  /\ flagGet (js "poll-file") (flags (parseArgs Samples.argv))
     = Some (FlagText (js "/tmp/retry.json")).
Proof.
  apply (parseArgs_pairs (js "bun") (js "process-inbound.ts")
           (js "process_inbound") (js "poll-file") Samples.argvPairs).
  - repeat constructor.
  - discriminate.
Defined.

(** A flag with a usable value holds it; [--poll-file] given once with a
    path and then before [--output] holds [true]. *)
Lemma parseArgs_value_shape_witness :
  (flagGet (js "output") (flags (parseArgs Samples.argv))
   = Some (FlagText (js "  /tmp/out.json "))
   /\ js "  /tmp/out.json " <> []
   /\ startsWith (js "  /tmp/out.json ") (js "--") = false)
  /\ flagGet (js "poll-file")
       (flags (parseArgs [js "bun"; js "process-inbound.ts"; js "process_inbound";
                          js "--poll-file"; js "/tmp/poll.json";
                          js "--poll-file"; js "--output"; js "/tmp/out.json"]))
     = Some FlagTrue.
Proof.
  split.
  - split; [reflexivity |].
    apply (proj1 (parseArgs_value_shape Samples.argv (js "output")
                    (js "  /tmp/out.json "))).
    reflexivity.
  - apply (proj2 (parseArgs_value_shape _ (js "poll-file") [])
             (js "bun") (js "process-inbound.ts") (js "process_inbound")
             [(js "poll-file", js "/tmp/poll.json")]
             [js "--output"; js "/tmp/out.json"]).
    + reflexivity.
    + repeat constructor.
    + discriminate.
    + reflexivity.
    + intros token [<- | [<- | []]]; discriminate.
Defined.

(** The paths are trimmed; the later poll file wins. *)
Lemma startup_pairs_witness :
  startup Samples.argv
  = Proceeds {| pollFile := js "/tmp/retry.json";
                outputFile := js "/tmp/out.json";
                sopFile := None |}.
Proof.
  apply (startup_pairs (js "bun") (js "process-inbound.ts")
           (js "process_inbound") Samples.argvPairs).
  repeat constructor.
Defined.

Lemma extractEmailAddress_bracket_witness :
  extractEmailAddress (H := AsciiHost)
    (Some (js "sales@other.org via Jane Doe < Jane@AcmeCo.com > (work)"))
  = Some (js "jane@acmeco.com").
Proof.
  apply (extractEmailAddress_bracket (H := AsciiHost)
           (js "sales@other.org via Jane Doe ") (js " Jane@AcmeCo.com ")
           (js " (work)")).
  - apply not_In_unit. reflexivity.
  - discriminate.
  - apply not_In_unit. reflexivity.
Defined.

Lemma extractDisplayName_bracket_witness :
  extractDisplayName (Some ([34] ++ js "Jane Doe" ++ [34] ++ js " <jane@acmeco.com>"))
  = Some (js "Jane Doe").
Proof.
  apply (extractDisplayName_bracket ([34] ++ js "Jane Doe" ++ [34] ++ js " ")
           (js "jane@acmeco.com") []).
  - apply not_In_unit. reflexivity.
  - discriminate.
  - apply not_In_unit. reflexivity.
  - intros [].
Defined.

Lemma extractDisplayName_shape_witness :
  extractDisplayName (Some (js " Billing Team <billing@vendor.com> "))
  = Some (js "Billing Team")
  /\ js "Billing Team" <> [] /\ ~ In 34 (js "Billing Team")
  /\ trim (js "Billing Team") = js "Billing Team".
Proof.
  split; [reflexivity |].
  apply (extractDisplayName_shape (Some (js " Billing Team <billing@vendor.com> "))).
  reflexivity.
Defined.

(** A bare address inside other text. *)
Lemma extractEmailAddress_shape_witness :
  exists raw,
    Some (js "write to Sales@Vendor.io today") = Some raw /\
    ((exists pre body post,
         raw = pre ++ [60] ++ body ++ [62] ++ post
         /\ body <> [] /\ ~ In 62 body
         /\ js "sales@vendor.io" = toLowerCase (Host := AsciiHost) (trim body))
     \/ (exists pre l d t post,
            raw = pre ++ (l ++ [64] ++ d ++ [46] ++ t) ++ post
            /\ js "sales@vendor.io"
               = toLowerCase (Host := AsciiHost) (l ++ [64] ++ d ++ [46] ++ t)
            /\ l <> [] /\ forallb bareLocalClass l = true
            /\ d <> [] /\ forallb bareDomainClass d = true
            /\ (2 <= length t)%nat /\ forallb isLetter t = true)).
Proof.
  apply (extractEmailAddress_shape (H := AsciiHost)
           (Some (js "write to Sales@Vendor.io today")) (js "sales@vendor.io")).
  reflexivity.
Defined.

(** The section lines are there, so the block about pricing is not read. *)
Lemma pickSopCues_sections_first_witness :
  pickSopCues (H := AsciiHost) (Some (Samples.snapshotOf Samples.guide))
  = pickSopCues (H := AsciiHost)
      (Some (Samples.snapshotOf Samples.guideWithoutBlocks))
  /\ pickSopCues (H := AsciiHost) (Some (Samples.snapshotOf Samples.guide))
     = [js "Lead response"; js "Confirm the timeline"].
Proof.
  split; [| reflexivity].
  apply (pickSopCues_sections_first (H := AsciiHost)
           (Samples.snapshotOf Samples.guide)
           (Samples.snapshotOf Samples.guideWithoutBlocks)
           Samples.guide Samples.guideWithoutBlocks);
    try reflexivity.
  discriminate.
Defined.

Lemma reply_subject_stable_witness :
  startsWith
    (toLowerCase (Host := AsciiHost)
       (fst (buildSalesDraft (H := AsciiHost) None None
               (Some (js "Pricing for a workshop")) None [])))
    (js "re:") = true
  /\ fst (buildSalesDraft (H := AsciiHost) None None
            (Some (fst (buildSalesDraft (H := AsciiHost) None None
                          (Some (js "Pricing for a workshop")) None [])))
            None [])
     = fst (buildSalesDraft (H := AsciiHost) None None
              (Some (js "Pricing for a workshop")) None []).
Proof.
  apply (reply_subject_stable (H := AsciiHost)).
  intros s. reflexivity.
Defined.

Lemma notification_text_witness :
  slack_text (buildDraftSlackMessage (H := AsciiHost) (js "row-7")
                (js "jane@acmeco.com") (Some (js "Jane Doe")) None
                (js "info@promptcircle.com") (js "Re: Consulting inquiry") None)
  = joinLines
      [js "CRM lead draft ready";
       js "Draft ID: row-7";
       js "From: Jane Doe";
       js "To: jane@acmeco.com";
       js "Subject: Re: Consulting inquiry";
       js "Received: n/a";
       [];
       js "Approve: /skill crm-inbound-orchestrator approve row-7";
       js "Revise: /skill crm-inbound-orchestrator revise row-7 <notes>";
       js "Reject: /skill crm-inbound-orchestrator reject row-7 <reason>"].
Proof.
  apply (notification_text (H := AsciiHost) (js "row-7") (js "jane@acmeco.com")
           (Some (js "Jane Doe")) None (js "info@promptcircle.com")
           (js "Re: Consulting inquiry") None).
  - apply not_In_unit. reflexivity.
  - discriminate.
Defined.

(** A gateway's HTML page under a failure status: the parser's error is
    what comes out. *)
Lemma supabaseRequest_failure_reply_witness :
  supabaseRequest (H := ScriptedWorld) (js "https://db.example.test")
    (js "service-key") POST (js "crm_activities") [] None None
    [Some Samples.badGateway]
  = (Throw (js "SyntaxError: Unexpected token in JSON"), []).
Proof.
  apply (supabaseRequest_failure_reply (H := ScriptedWorld)
           (js "https://db.example.test") (js "service-key") POST
           (js "crm_activities") [] None None [Some Samples.badGateway] []
           Samples.badGateway).
  - intros req _. reflexivity.
  - reflexivity.
Defined.

(** A success reply without content: the row sent is the row returned. *)
Lemma supabaseUpsertRow_result_witness :
  exists req response,
    fetch (World := ScriptedWorld) req [Some Samples.noContent]
    = (Some response, [])
    /\ req_url req = js "https://db.example.test" ++ js "/rest/v1/" ++ js "crm_poll_state"
    /\ req_method req = POST
    /\ req_query req = [(js "on_conflict", js "account_email")]
    /\ req_body req
       = Some (JArr [JObj [(js "account_email", JStr (js "info@promptcircle.com"))]])
    /\ resp_ok response = true
    /\ [(js "account_email", JStr (js "info@promptcircle.com"))]
       = match (if truthy (trim (resp_text response))
                then resp_json response else Some (JObj [])) with
         | Some (JArr (first :: _)) =>
             match getRecord first with
             | Some rec => rec
             | None => [(js "account_email", JStr (js "info@promptcircle.com"))]
             end
         | _ => [(js "account_email", JStr (js "info@promptcircle.com"))]
         end.
Proof.
  apply (supabaseUpsertRow_result (H := ScriptedWorld)
           (js "https://db.example.test") (js "service-key")
           (js "crm_poll_state") (js "account_email")
           [(js "account_email", JStr (js "info@promptcircle.com"))]
           [(js "account_email", JStr (js "info@promptcircle.com"))]
           [Some Samples.noContent] []).
  reflexivity.
Defined.

(** A patch filtered on a column named [select] and on [id]: the filter
    takes the place of [select=*]; the reply has no content and no row
    comes back. *)
Lemma supabasePatchRows_result_witness :
  exists req response,
    fetch (World := ScriptedWorld) req [Some Samples.noContent]
    = (Some response, [])
    /\ req_url req = js "https://db.example.test/rest/v1/crm_drafts"
    /\ req_method req = PATCH
    /\ paramsGet (js "select") (req_query req) = Some (js "eq.name")
    /\ paramsGet (js "id") (req_query req) = Some (js "eq.row-404")
    /\ paramsGet (js "order") (req_query req) = None
    /\ req_body req = Some (JObj [(js "status", JStr (js "sent"))]).
Proof.
  destruct (supabasePatchRows_result (H := ScriptedWorld)
              (js "https://db.example.test") (js "service-key") (js "crm_drafts")
              [(js "select", js "name"); (js "id", js "row-404")]
              [(js "status", JStr (js "sent"))] []
              [Some Samples.noContent] [] eq_refl)
    as [req [response [Hf [Hu [Hm [_ [_ [Hget [_ [Hb _]]]]]]]]]].
  exists req, response.
  split; [exact Hf |]. split; [exact Hu |]. split; [exact Hm |].
  split; [now rewrite Hget |]. split; [now rewrite Hget |].
  split; [now rewrite Hget | exact Hb].
Defined.

(** The chat endpoint answers with a success status and [ok: false]: the
    draft counts as not posted. *)
Lemma maybePostSlack_outcome_witness :
  maybePostSlack (H := ScriptedWorld) Samples.env Samples.notice
    [Some Samples.channelNotFound]
  = (Ok {| posted := false; error := Some (js "channel_not_found") |}, [])
  /\ exists e,
       error {| posted := false; error := Some (js "channel_not_found") |} = Some e.
Proof.
  split; [reflexivity |].
  apply (maybePostSlack_outcome (H := ScriptedWorld) Samples.env Samples.notice
           [Some Samples.channelNotFound] []
           {| posted := false; error := Some (js "channel_not_found") |}).
  reflexivity.
Defined.

(** The batch of four messages, one of each label, goes through. *)
Lemma mixed_run :
  exists res w',
    main (H := StoreWorld) (H0 := AsciiHost) Samples.env Samples.mixedBatch None
      (Samples.freshWorld []) = (Ok res, w').
Proof. vm_compute. eexists. eexists. reflexivity. Qed.

Lemma finished_run_totals_witness :
  exists res w',
    main (H := StoreWorld) (H0 := AsciiHost) Samples.env Samples.mixedBatch None
      (Samples.freshWorld []) = (Ok res, w')
    /\ polled_messages (totals res) = 4%nat
    /\ processed_messages (totals res) = 4%nat
    /\ activities_upserted (totals res) = 4%nat
    /\ (forall l, classification_counts res l
                  = length (labelled (H := AsciiHost) l
                              (messages Samples.mixedBatch)))
    /\ (classification_counts res receipt + classification_counts res sales
        + classification_counts res support + classification_counts res ignore)%nat
       = 4%nat.
Proof.
  destruct mixed_run as [res [w' Hrun]]. exists res, w'.
  split; [exact Hrun |].
  exact (finished_run_totals (H := StoreWorld) (H0 := AsciiHost) _ _ _ _ _ _ Hrun).
Defined.

Lemma finished_run_sales_drafts_witness :
  exists res w',
    main (H := StoreWorld) (H0 := AsciiHost) Samples.env Samples.mixedBatch None
      (Samples.freshWorld []) = (Ok res, w')
    /\ Forall2 (draftOf (H := AsciiHost)) (sales_drafts res)
         (labelled (H := AsciiHost) sales (messages Samples.mixedBatch))
    /\ drafts_upserted (totals res) = length (sales_drafts res)
    /\ drafts_upserted (totals res) = classification_counts res sales.
Proof.
  destruct mixed_run as [res [w' Hrun]]. exists res, w'.
  split; [exact Hrun |].
  exact (finished_run_sales_drafts (H := StoreWorld) (H0 := AsciiHost)
           _ _ _ _ _ _ Hrun).
Defined.

Lemma finished_run_accounting_witness :
  exists res w',
    main (H := StoreWorld) (H0 := AsciiHost) Samples.env Samples.mixedBatch None
      (Samples.freshWorld []) = (Ok res, w')
    /\ Forall2 (entryOf (H := AsciiHost)) (accounting_entries res)
         (labelled (H := AsciiHost) receipt (messages Samples.mixedBatch))
    /\ accounting_entries_upserted (totals res) = length (accounting_entries res)
    /\ accounting_entries_upserted (totals res) = classification_counts res receipt.
Proof.
  destruct mixed_run as [res [w' Hrun]]. exists res, w'.
  split; [exact Hrun |].
  exact (finished_run_accounting (H := StoreWorld) (H0 := AsciiHost)
           _ _ _ _ _ _ Hrun).
Defined.

(** The mailbox of the messages and the mailbox that fetched nothing. *)
Lemma poll_state_per_mailbox_witness :
  exists res w',
    main (H := StoreWorld) (H0 := AsciiHost) Samples.env Samples.mixedBatch None
      (Samples.freshWorld []) = (Ok res, w')
    /\ NoDup (map ps_account_email (poll_state_updates res))
    /\ forall a,
         In a (map ps_account_email (poll_state_updates res))
         <-> (exists m, In m (messages Samples.mixedBatch) /\ account_email m = a)
             \/ (exists es e, per_account Samples.mixedBatch = Some es /\ In e es
                              /\ nonEmpty (pa_account_email e) = Some a).
Proof.
  destruct mixed_run as [res [w' Hrun]]. exists res, w'.
  split; [exact Hrun |].
  exact (poll_state_per_mailbox (H := StoreWorld) (H0 := AsciiHost)
           _ _ _ _ _ _ Hrun).
Defined.

Lemma main_needs_credentials_witness :
  main (H := StoreWorld) (H0 := AsciiHost) Samples.envWithBlankUrl
    Samples.mixedBatch None (Samples.freshWorld [])
  = (Throw (js "SUPABASE_URL and SUPABASE_SECRET_KEY are required"),
     Samples.freshWorld []).
Proof.
  apply (main_needs_credentials (H := StoreWorld) (H0 := AsciiHost)).
  left. reflexivity.
Defined.

Lemma watermark_per_mailbox_witness :
  exists res w',
    main (H := StoreWorld) (H0 := AsciiHost) Samples.env Samples.mixedBatch None
      (Samples.freshWorld []) = (Ok res, w')
    /\ Forall
         (fun u =>
            last_message_ts u
            = mapGet (ps_account_email u)
                (watermarks (H := AsciiHost)
                   (filter (fun m => jsstring_eqb (account_email m)
                                                  (ps_account_email u))
                           (messages Samples.mixedBatch))
                   []))
         (poll_state_updates res).
Proof.
  destruct mixed_run as [res [w' Hrun]]. exists res, w'.
  split; [exact Hrun |].
  exact (watermark_per_mailbox (H := StoreWorld) (H0 := AsciiHost)
           _ _ _ _ _ _ Hrun).
Defined.

(** The message that carries the provider's time stamp only. *)
Lemma finished_run_times_witness :
  exists iso,
    Date_toISOString (Host := AsciiHost) 1704412800000%float = Some iso.
Proof.
  destruct mixed_run as [res [w' Hrun]].
  apply (finished_run_times (H := StoreWorld) (H0 := AsciiHost) _ _ _ _ _ _
           Samples.timedOnly 1704412800000%float Hrun).
  - right. right. left. reflexivity.
  - reflexivity.
  - reflexivity.
Defined.
